(* ===== verification/_CoqProject ===== *)
-Q . S2P
Prelude.v
Marshall.v
MarshallMap.v
Protocol.v
Stubs.v
Fifo.v
RpcClient.v
RpcServer.v
Streams.v
PaxosLog.v
Paxos.v
PaxosSafety.v
Config.v
Rsm.v
RsmReplication.v
RsmRecovery.v
RsmViews.v
RsmClient.v
Handle.v
ExtentClient.v
ExtentCache.v
LockClient.v
LockCache.v
LockCacheRsm.v
LockCoherence.v
Aio.v
SelectAIO.v
EPollAIO.v
PollMgr.v
Connection.v
Framing.v
Tcpsconn.v
Fuse.v
MethodThread.v
Sockaddr.v
Listener.v
FuseMain.v
EndToEnd.v
AtMostOnce.v
Malformed.v
Lifetime.v
