(* ===== verification/Prelude.v ===== *)
(** * YFS: a verification of its RPC library, Paxos, replication and clients

    YFS is a distributed file system in C++. Clients mount it with FUSE, cache
    extents under locks, and talk to servers with an RPC library of its own; the
    lock server can be replicated as a state machine whose membership is agreed
    on with Paxos. This development models these programs as executable
    functions and transition systems and proves what they promise each other.
    Paths below are relative to [src/] of the repository: [src/...] and
    [include/...].

    ** How the parts fit together

<<
      fuse.cc            handlers of FUSE requests
         |               (yfs_client: not in the repository)
      extent_client*.cc, lock_client*.cc
         |                        |
         |                  rsm_client.cc ---- rsm.cc ---- config.cc
         |                        |              |            |
         |                        |          handle.cc    paxos.cc, log.cc
      rpc.h stubs: call, reg      |              |            |
         |------------------------+--------------+------------+
      rpc.cc: rpcc, rpcs, marshall;  thr_pool.cc, fifo.h
         |
      connection.cc: PDUs on a byte stream, tcpsconn
         |
      pollmgr.cc: callbacks, select and epoll
>>

    ** Files

    - Prelude (this file): the [outcome] monad (a value, or a failed [VERIFY],
      an [exit], undefined behaviour), machine integers and bytes, the hint
      database [yfs] and the tactic [outcome_inv].
    - Marshall, MarshallMap: [marshall] and [unmarshall] of include/rpc/marshall.h and
      src/rpc/rpc.cc. The overloaded operators are the class [Wire], its
      contract the class [WireLaws], proved per type and used by all clients.
      MarshallMap adds the templates for [std::map].
    - Protocol: the messages of paxos_protocol.h and rsm_protocol.h, as
      instances of [Wire] and [WireLaws].
    - Stubs: the templates [rpcc::call], [rpcs::reg], [rsm::reg].
    - Fifo: [fifo] and [ThrPool]. MethodThread: [method_thread] of
      include/rpc/method_thread.h and [ThrPool::addObjJob], with the heap of the
      closures that they pass to other threads.
    - RpcClient: [Timespec], [XidWindow] and [Rpcc], the class [rpcc].
    - RpcServer: [ReplyWindow] and [Rpcs], the class [rpcs].
    - EndToEnd, AtMostOnce: [rpcc] and [rpcs] composed over a network that loses,
      delays, repeats and reorders frames; the system, and its invariant and
      theorems.
    - Malformed: what [unmarshall] and the handler classes do with bytes that
      nobody vouches for; the class [WireSafe] is the contract, proved per type.
    - Sockaddr: [make_sockaddr] and how the lock clients name themselves.
    - Aio, SelectAIO, EPollAIO, PollMgr: src/rpc/pollmgr.cc; the class [aio_mgr]
      is a type class with a reference table as its contract ([AioLaws]).
    - Connection, Framing, Tcpsconn, Listener: src/rpc/connection.cc. Connection has the
      operations, Framing the system of a sender and a receiver, Tcpsconn the
      table of accepted connections and its heap, Listener the thread that
      accepts them, from its construction to its end. Lifetime composes the
      connections, their reference counts and the poll manager.
    - Streams, PaxosLog: the iostream operations used, and src/log/log.cc.
    - Paxos, PaxosSafety: src/paxos/paxos.cc; Paxos has acceptor and proposer
      over an interface [PaxosNet] to the other nodes, PaxosSafety the
      asynchronous system of many proposers and acceptors.
    - Config: src/rsm/config.cc.
    - Rsm, RsmReplication, RsmRecovery, RsmViews: src/rsm/rsm.cc; one node, the
      nodes of a view under request traffic, the recovery thread against its
      node, and the nodes across view changes.
    - RsmClient: src/rsm/rsm_client.cc and its stubs.
    - Handle: src/util/handle.cc with the heap of [hinfo] objects.
    - ExtentClient, ExtentCache: src/extent_client/.
    - LockClient, LockCache, LockCacheRsm, LockCoherence: src/lock_client/. The
      class [CachingLock] is what the system of LockCoherence asks of a lock
      client; both caching clients are instances.
    - Fuse, FuseMain: src/util/fuse.cc, the handlers and [main].

    ** Conventions

    - A class of the source is a Record of its fields under their names; a
      method is a function from the state to the new state and result.
      Constructors are [..._new].
    - Code under one mutex is one atomic step. A method that releases its mutex
      (in a condition wait, or around a call) is cut there: [x_begin], [x_end],
      [x_turn] are the pieces, and a step relation interleaves them. Condition
      variables appear as sets of threads that wait or were signalled.
    - Calls to other nodes are functions or steps that may lose, delay, repeat
      or answer in vain; each theorem says what it assumes of them.
    - Pointers are keys of a heap where it matters whether the object is still
      there (Handle, Tcpsconn, connection references in RpcServer); following a
      pointer to a deleted object is [Fault Undefined].
    - Integers are [Z] with the wrap-around of their width written out where a
      value can come from the wire or from arithmetic that may overflow.

    ** What is shown

    - Bytes: values and headers survive marshalling
      ([Marshall.marshall_roundtrip], [req_header_roundtrip]); a call through
      stubs and headers runs the registered method on the call's arguments and
      returns its reply ([Stubs.call_is_method_call], and
      [RsmClient.rsm_call_is_method_call] for the replicated service). Whatever
      the bytes are, a request is read inside its buffer into values of the
      right types or refused, but for a length that wraps around
      ([Malformed.request_of_any_bytes]).
    - Transport: PDUs arrive whole and in order, waiting senders are woken
      (Framing); a removed descriptor is never called back, and both
      implementations of [aio_mgr] agree (PollMgr); no connection is called
      back or used after its deletion, and its descriptor can be reused
      ([Lifetime.connections_never_dangle], which also shows that the tests of
      the destructor pass); accepted connections are
      collected when dead and unreferenced (Tcpsconn); the listener serves
      until it is stopped, and stops ([Listener.listener_stops]); the names of
      nodes are the addresses meant ([Sockaddr.names_are_addresses]).
    - RPC: a call is refused, in progress, or has returned once, with its own reply
      or a failure ([RpcClient.call_returns_own_reply]); it gives up, unless its
      deadline is a whole second exactly ([call1_gives_up]); what
      is acknowledged to the server is answered; [cancel] drains; references
      balance (RpcClient). The server runs each call of a sequential client at
      most once and never forgets an unacknowledged one (RpcServer). End to
      end, over a faulty network, a call's method runs at most once, on the
      call's arguments, and what the call returns is what that run replied
      ([AtMostOnce.rpc_at_most_once], [rpc_call_runs_method_once]); nothing is
      assumed of [front()] of an empty list, which the server reads for the first
      request of a client, and which may refuse that request. The queue
      keeps order and bound and loses no wakeup; the pool drains (Fifo); a
      thread or job runs its own method once and uses no freed closure
      (MethodThread).
    - Paxos: at most one value per instance ([PaxosSafety.paxos_agreement]), a
      healthy run commits, a recovered acceptor is the one that crashed up to
      names that a decision resets, dumps restore the decisions.
    - Replication: views are encoded faithfully, and a node uses a view that was
      decided, the last one when upcalls are not overtaken (Config); replicas
      of a view agree ([RsmReplication.replicas_agree]); across view changes,
      with nodes that fail, restart and join, the service is one object, no
      acknowledged request is lost and none runs twice, as long as each primary
      that takes over has an object that comes from a node that served
      ([RsmViews.acknowledged_requests_survive]); a node that serves has
      synchronised its view ([RsmRecovery.view_change_ends_synchronised]), the
      client finds the primary once nodes stop being busy ([RsmClient.client_finds_primary]), handles never dangle (Handle).
    - Caching: the caching extent client answers like the one without a cache, but
      for extents whose removal is pending and removals of what does not exist
      ([ExtentCache.cache_is_transparent]); one thread
      at a time holds a lock, and a holder reads what the last holder wrote,
      with either lock client ([LockCoherence.lock_cache_coherent],
      [lock_cache_rsm_coherent]).
    - FUSE: a directory read in pages is listed completely
      ([Fuse.readdir_lists_all]); every way [main] can end
      ([FuseMain.main_outcomes]).
    - Where the code does less than it means to, a lemma runs it into the case:
      a late accept request ([PaxosSafety.late_accept_breaks_agreement]), a
      request at a node that is not the primary
      ([RsmReplication.wrong_node_diverges]), a member that restarts and is
      made primary ([RsmViews.unserved_primary_loses_requests],
      [restarted_member_loses_requests]) or that has
      another primary than the rest ([RsmViews.rejoin_keeps_wrong_primary]), a
      lost answer at the end of a view change
      ([RsmViews.lost_answer_strands_backup]), an upcall of Paxos that is overtaken
      ([Config.overtaken_upcall_goes_back]), concurrent calls of one client
      ([RpcServer.skipped_erasure_reruns_call]), a call after one that timed
      out ([RpcServer.slow_call_reruns_later_one]), an error of [accept]
      ([Listener.accept_error_ends_listener]), a long host name
      ([Sockaddr.long_host_overflows]), a close under a sender
      ([Framing.closeconn_strands_sender]) or under a write
      ([Lifetime.close_under_write_aborts]), [EPollAIO::is_watched]
      ([PollMgr.epoll_is_watched_denies]), a failed flush
      ([ExtentCache.failed_flush_loses_write]), double replies
      ([Fuse.replies_once]).

    ** Bounds and fuel

    - [ReplyWindow.scan] restarts after an erasure, so it has the square of the
      window's length; [scan_terminates] shows that this never runs out.
    - [logread], [dump] and [members] take one round per record or word and get
      the length of the text; the roundtrip theorems go through the loops.
    - [carry] of [add_timespec] and the digits of a printed number have the
      rounds that the widths of their integers need; [add_timespec_exact] and
      the roundtrips of Streams cover them.
    - [rsm_client::invoke] retries for ever when nodes keep answering BUSY
      ([busy_for_ever]); its fuel is an argument, and [client_finds_primary] says
      how much is enough when BUSY answers and redirections are finite in number.
    - [collect], [scan_high] and the loop of [list_dir] run over descriptors or
      pages; the bounds are the highest descriptor and the number of entries.

    ** Not modelled, and why

    - [yfs_client], the extent and lock servers, their protocol headers and the
      FUSE library are not in the repository: they are type classes, with laws
      where a theorem relies on them and an instance where it is applied.
    - Logging (jsl_log.cc), clocks (gettime.cc, compiled on Mac OS only) and
      ScopedLock: calls of the operating system without state of the program.
      The options set on sockets have no effect that the models could show.
      [inet_addr] and [gethostbyname] are parameters, and what system calls
      return are arguments of the functions that call them.
    - The debugging accessors of the marshaller, the statistics that [rpcs] prints, and the
      lossy test options, which only provoke failures the models allow anyway.
    - Spurious wakeups of condition variables, except where the code tests
      again: [PollMgr::block_remove_fd] waits without a test.
    - EndToEnd takes whole frames from the network; that the connections below
      deliver whole frames is the theorem of Framing, not a layer of the same
      system. The client it composes has one call at a time, since with more the
      server does run calls twice.
    - RsmViews takes the members of each view as agreed on, which is the theorem
      of PaxosSafety for each instance, not a layer of the same system. A view
      change begins when its members have stopped serving the view before, and
      clients do not call [client_invoke] in between: it would go on although it
      computes BUSY. Restarts, joins and fetched objects are free; that the primary
      of a synchronised view has the state is a condition of the theorem, which the
      code does not ensure.
    - The poll thread's test of a callback and its call are one step, although the
      code reads the table twice.
    - Lifetime leaves the bytes open, which are the subject of Framing, and takes
      the [select] implementation of [aio_mgr], which EPollAIO agrees with. *)

From Stdlib Require Export ZArith Lia.
From stdpp Require Export base numbers list gmap strings relations tactics sorting.

Declare Scope yfs_scope.
Delimit Scope yfs_scope with yfs.
Open Scope yfs_scope.
Open Scope Z_scope.

(** ** Faults and outcomes

    The C++ code stops in three ways that no caller can observe as a value:
    a failed [VERIFY] (include/lang/verify.h), an [exit(1)], and behaviour the
    C++ standard leaves undefined.  Operations that can stop that way return
    an [outcome]. *)

Inductive fault :=
| VerifyFailed
| Exited
| Undefined.

#[global] Instance fault_eq_dec : EqDecision fault.
Proof. solve_decision. Defined.

Inductive outcome (A : Type) :=
| Val (a : A)
| Fault (f : fault).
Arguments Val {A} a.
Arguments Fault {A} f.

Definition obind {A B} (m : outcome A) (k : A -> outcome B) : outcome B :=
  match m with Val a => k a | Fault f => Fault f end.

Notation "'let!' x := m 'in' k" := (obind m (fun x => k))
  (at level 10, x name, m at level 100, k at level 200,
   format "'[v' 'let!'  x  :=  m  'in'  '/' k ']'") : yfs_scope.
Notation "'let!' ' p := m 'in' k" := (obind m (fun p => k))
  (at level 10, p strict pattern, m at level 100, k at level 200,
   format "'[v' 'let!'  ' p  :=  m  'in'  '/' k ']'") : yfs_scope.
Notation "m ;;; k" := (obind m (fun _ => k))
  (at level 100, k at level 200, right associativity) : yfs_scope.

(** [VERIFY(expr)]: [assert] or, under [NDEBUG], a test and [abort]; both stop
    the process when [expr] is false. *)
Definition VERIFY (b : bool) : outcome unit :=
  if b then Val tt else Fault VerifyFailed.

Lemma obind_val {A B} (m : outcome A) (k : A -> outcome B) (b : B) :
  obind m k = Val b <-> exists a, m = Val a /\ k a = Val b.
Proof.
  destruct m as [a|f]; simpl; split; intros H; try done.
  - by exists a.
  - destruct H as (a' & [= ->] & H); done.
  - by destruct H as (? & ? & ?).
Qed.

Lemma obind_Val {A} (m : outcome A) : obind m Val = m.
Proof. by destruct m. Qed.

Lemma obind_assoc {A B C} (m : outcome A) (k : A -> outcome B) (k' : B -> outcome C) :
  obind (obind m k) k' = obind m (fun a => obind (k a) k').
Proof. by destruct m. Qed.

#[global] Instance obind_proper {A B} :
  Proper (eq ==> pointwise_relation A eq ==> eq) (@obind A B).
Proof. intros m ? <- k k' Hk. destruct m; simpl; [apply Hk|done]. Qed.

Lemma VERIFY_val (b : bool) u : VERIFY b = Val u <-> b = true.
Proof. destruct b, u; simpl; done. Qed.

(** The value of an outcome that has one. *)
Definition is_val {A} (o : outcome A) : bool := match o with Val _ => true | Fault _ => false end.
Definition val_or {A} (d : A) (o : outcome A) : A := match o with Val a => a | Fault _ => d end.

Lemma is_val_or {A} (d : A) (o : outcome A) : is_val o = true -> o = Val (val_or d o).
Proof. by destruct o. Qed.

(** Splits a hypothesis [let! x := m in k = Val r] into the two steps. *)
Ltac outcome_inv :=
  repeat match goal with
  | H : Val _ = Val _ |- _ => injection H as H; subst
  | H : Fault _ = Val _ |- _ => discriminate H
  | H : obind _ _ = Val _ |- _ =>
      let a := fresh "r" in let E := fresh "E" in
      apply obind_val in H; destruct H as (a & E & H)
  | H : VERIFY _ = Val _ |- _ => apply VERIFY_val in H
  | H : (let '(_, _) := ?p in _) = Val _ |- _ =>
      let a := fresh "a" in let b := fresh "b" in destruct p as [a b]
  end.

(** ** Machine integers

    A value of a [w]-bit type is a [Z]; conversions wrap. *)

Definition u8 (z : Z) : Z := z mod 2 ^ 8.
Definition u16 (z : Z) : Z := z mod 2 ^ 16.
Definition u32 (z : Z) : Z := z mod 2 ^ 32.
Definition u64 (z : Z) : Z := z mod 2 ^ 64.
Definition s8 (z : Z) : Z := (z + 2 ^ 7) mod 2 ^ 8 - 2 ^ 7.
Definition s16 (z : Z) : Z := (z + 2 ^ 15) mod 2 ^ 16 - 2 ^ 15.
Definition s32 (z : Z) : Z := (z + 2 ^ 31) mod 2 ^ 32 - 2 ^ 31.
Definition INT_MAX : Z := 2 ^ 31 - 1.

Definition is_u8 (z : Z) : Prop := 0 <= z < 2 ^ 8.
Definition is_u32 (z : Z) : Prop := 0 <= z < 2 ^ 32.
Definition is_s32 (z : Z) : Prop := - 2 ^ 31 <= z < 2 ^ 31.

#[global] Instance is_u8_dec z : Decision (is_u8 z).
Proof. unfold is_u8. apply _. Defined.
#[global] Instance is_u32_dec z : Decision (is_u32 z).
Proof. unfold is_u32. apply _. Defined.

Create HintDb yfs.

Lemma u8_range z : is_u8 (u8 z).
Proof. apply Z.mod_pos_bound. lia. Qed.
Lemma u32_range z : is_u32 (u32 z).
Proof. apply Z.mod_pos_bound. lia. Qed.
Lemma s32_range z : is_s32 (s32 z).
Proof. unfold is_s32, s32. pose proof (Z.mod_pos_bound (z + 2 ^ 31) (2 ^ 32)). lia. Qed.
Lemma u8_id z : is_u8 z -> u8 z = z.
Proof. intros H. by apply Z.mod_small. Qed.
Lemma u32_id z : is_u32 z -> u32 z = z.
Proof. intros H. by apply Z.mod_small. Qed.
Lemma s32_id z : is_s32 z -> s32 z = z.
Proof. unfold is_s32, s32. intros H. rewrite Z.mod_small; lia. Qed.
Lemma s32_u32 z : is_s32 z -> s32 (u32 z) = z.
Proof.
  unfold is_s32, s32, u32. intros H.
  rewrite Zplus_mod_idemp_l, Z.mod_small; lia.
Qed.
Lemma u32_s32 z : is_u32 z -> u32 (s32 z) = z.
Proof.
  unfold is_u32, s32, u32. intros H.
  rewrite Zminus_mod_idemp_l.
  replace (z + 2 ^ 31 - 2 ^ 31) with z by lia. by apply Z.mod_small.
Qed.
#[export] Hint Resolve u8_range u32_range s32_range : yfs.

(** ** Bytes

    [Z.land z 255] is the low byte, whatever the sign of [z]. *)

Lemma land_255 z : Z.land z 255 = z mod 2 ^ 8.
Proof. change 255 with (Z.ones 8). by rewrite Z.land_ones by lia. Qed.

Lemma land_255_u8 z : is_u8 (Z.land z 255).
Proof. rewrite land_255. apply Z.mod_pos_bound. lia. Qed.
#[export] Hint Resolve land_255_u8 : yfs.

(** Sign extension of a byte is undone by masking. *)
Lemma land_255_s8 b : is_u8 b -> Z.land (u32 (s8 b)) 255 = b.
Proof.
  intros Hb. rewrite land_255. unfold u32, s8.
  rewrite Z.mod_mod_divide by (by exists (2 ^ 24)).
  rewrite Zminus_mod_idemp_l.
  replace (b + 2 ^ 7 - 2 ^ 7) with b by lia. by apply Z.mod_small.
Qed.

Lemma Z_lor_disjoint a b n :
  0 <= n -> 0 <= b < 2 ^ n -> Z.lor (a * 2 ^ n) b = a * 2 ^ n + b.
Proof.
  intros Hn Hb. rewrite <-Z.add_lor_land.
  assert (Z.land (a * 2 ^ n) b = 0) as ->; [|lia].
  apply Z.bits_inj'. intros i Hi. rewrite Z.land_spec, Z.bits_0.
  destruct (decide (i < n)).
  - rewrite Z.mul_pow2_bits_low by lia. done.
  - rewrite <-(Z.mod_small b (2 ^ n)) by lia.
    rewrite Z.mod_pow2_bits_high by lia. apply andb_false_r.
Qed.

Lemma lor_range n a b : 0 <= n -> 0 <= a < 2 ^ n -> 0 <= b < 2 ^ n -> 0 <= Z.lor a b < 2 ^ n.
Proof.
  intros Hn Ha Hb. split; [apply Z.lor_nonneg; lia|].
  destruct (decide (Z.lor a b = 0)) as [->|Hne]; [lia|]. apply Z.log2_lt_pow2.
  { assert (0 <= Z.lor a b) by (apply Z.lor_nonneg; lia). lia. }
  rewrite Z.log2_lor by lia. apply Z.max_lub_lt.
  - destruct (decide (a = 0)) as [->|]; [|apply Z.log2_lt_pow2; lia].
    destruct (decide (n = 0)) as [->|]; [|simpl; lia]. simpl in *. assert (b = 0) as -> by lia. done.
  - destruct (decide (b = 0)) as [->|]; [|apply Z.log2_lt_pow2; lia].
    destruct (decide (n = 0)) as [->|]; [|simpl; lia]. simpl in *. assert (a = 0) as -> by lia. done.
Qed.

(** The big-endian bytes of a 32-bit value determine it modulo [2^32]. *)
Lemma join_bytes32 x :
  Z.lor (Z.lor (Z.lor (Z.shiftl (Z.land (Z.shiftr x 24) 255) 24)
                      (Z.shiftl (Z.land (Z.shiftr x 16) 255) 16))
               (Z.shiftl (Z.land (Z.shiftr x 8) 255) 8))
        (Z.land x 255) = u32 x.
Proof.
  rewrite !land_255, !Z.shiftl_mul_pow2, !Z.shiftr_div_pow2 by lia.
  pose proof (Z.mod_pos_bound (x / 2 ^ 16) (2 ^ 8)) as H2.
  pose proof (Z.mod_pos_bound (x / 2 ^ 8) (2 ^ 8)) as H1.
  pose proof (Z.mod_pos_bound x (2 ^ 8)) as H0.
  rewrite (Z_lor_disjoint ((x / 2 ^ 24) mod 2 ^ 8) _ 24) by lia.
  replace (_ * 2 ^ 24 + (x / 2 ^ 16) mod 2 ^ 8 * 2 ^ 16) with
    (((x / 2 ^ 24) mod 2 ^ 8 * 2 ^ 8 + (x / 2 ^ 16) mod 2 ^ 8) * 2 ^ 16) by lia.
  rewrite (Z_lor_disjoint _ _ 16) by lia.
  replace (_ * 2 ^ 16 + (x / 2 ^ 8) mod 2 ^ 8 * 2 ^ 8) with
    (((((x / 2 ^ 24) mod 2 ^ 8 * 2 ^ 8 + (x / 2 ^ 16) mod 2 ^ 8)) * 2 ^ 8
      + (x / 2 ^ 8) mod 2 ^ 8) * 2 ^ 8) by lia.
  rewrite Z_lor_disjoint by lia. unfold u32.
  Z.div_mod_to_equations. lia.
Qed.

(** Truncation does not change the bytes that survive it. *)
Lemma shr_u32 x k :
  0 <= k <= 24 -> Z.land (Z.shiftr (u32 x) k) 255 = Z.land (Z.shiftr x k) 255.
Proof.
  intros Hk. unfold u32. rewrite <-Z.land_ones by lia.
  rewrite Z.shiftr_land, <-Z.land_assoc. f_equal.
  change 255 with (Z.ones 8). rewrite Z.shiftr_div_pow2, Z.ones_div_pow2 by lia.
  rewrite Z.land_comm, Z.land_ones by lia.
  apply Z.mod_small. rewrite !Z.ones_equiv. split; [lia|].
  pose proof (Z.pow_le_mono_r 2 8 (32 - k)). lia.
Qed.
