(* ===== verification/Marshall.v ===== *)
(** * The RPC marshaller (include/rpc/marshall.h, src/rpc/rpc.cc)

    [marshall] is a growable byte buffer with a write head, [unmarshall] a
    byte buffer with a read head and a sticky error flag.  The overloaded
    [operator<<] and [operator>>] are the methods of the class [Wire]; the
    class [WireLaws] is the contract the rest of the RPC library relies on:
    a value is written as its byte [encode]-ing and read back from it. *)

From S2P Require Import Prelude.

(** C++ integer types share the carrier [Z]; the aliases select the overload. *)
Definition uchar : Type := Z.
Definition schar : Type := Z.
Definition ushort : Type := Z.
Definition sshort : Type := Z.
Definition uint : Type := Z.
Definition sint : Type := Z.
Definition ulonglong : Type := Z.
#[global] Typeclasses Opaque uchar schar ushort sshort uint sint ulonglong.

(** ** Memory

    [malloc] and [realloc] return memory with unspecified contents. *)
Class Heap := junk : nat -> Z.

Definition static_max (A B : Z) : Z := if A >? B then A else B.

Definition sizeof_req_header : Z := 20.
Definition sizeof_reply_header : Z := 8.
Definition sizeof_rpc_sz_t : Z := 4.
Definition DEFAULT_RPC_SZ : Z := 1024.
Definition RPC_HEADER_SZ : Z :=
  static_max sizeof_req_header sizeof_reply_header + sizeof_rpc_sz_t.

Record req_header := ReqHeader {
  rq_xid : sint;
  rq_proc : sint;
  rq_clt_nonce : uint;
  rq_srv_nonce : uint;
  rq_xid_rep : sint;
}.

Record reply_header := ReplyHeader {
  rp_xid : sint;
  rp_ret : sint;
}.

(** The constructor takes [int]s, so every argument is converted first. *)
Definition mk_req_header (x p c s xi : Z) : req_header :=
  ReqHeader (s32 x) (s32 p) (u32 (s32 c)) (u32 (s32 s)) (s32 xi).

Definition mk_reply_header (x r : Z) : reply_header :=
  ReplyHeader (s32 x) (s32 r).

Record marshall := Marshall {
  m_buf : option (list Z);
  m_capa : Z;
  m_ind : Z;
}.

Record unmarshall := Unmarshall {
  u_buf : option (list Z);
  u_sz : Z;
  u_ind : Z;
  u_ok : bool;
}.

(** Signed [int] arithmetic overflows into undefined behaviour. *)
Definition int_arith (z : Z) : outcome Z :=
  if bool_decide (- 2 ^ 31 <= z <= INT_MAX) then Val z else Fault Undefined.

Section marshaller.
Context `{Heap}.

Definition malloc (n : Z) : list Z := junk <$> seq 0 (Z.to_nat n).

Definition realloc (b : list Z) (n : Z) : list Z :=
  take (Z.to_nat n) b ++
  (junk <$> seq (length b) (Z.to_nat n - length b)).

Definition marshall_new : marshall :=
  Marshall (Some (malloc DEFAULT_RPC_SZ)) DEFAULT_RPC_SZ RPC_HEADER_SZ.

(** The two growth branches end with the same [VERIFY] and [realloc]. *)
Definition grow (m : marshall) (capa : Z) : outcome marshall :=
  match m_buf m with
  | None => Fault VerifyFailed
  | Some b => Val (Marshall (Some (realloc b capa)) capa (m_ind m))
  end.

Definition store (m : marshall) (x : Z) : outcome marshall :=
  match m_buf m with
  | Some b =>
      if bool_decide (0 <= m_ind m < Z.of_nat (length b))
      then Val (Marshall (Some (<[Z.to_nat (m_ind m) := u8 x]> b)) (m_capa m)
                         (m_ind m + 1))
      else Fault Undefined
  | None => Fault Undefined
  end.

Definition rawbyte (m : marshall) (x : Z) : outcome marshall :=
  let! m := (if m_ind m >=? m_capa m
             then let! capa := int_arith (m_capa m * 2) in grow m capa
             else Val m) in
  store m x.

(** [memcpy(_buf + _ind, p, n); _ind += n;] *)
Definition store_bytes (m : marshall) (p : list Z) (n : Z) : outcome marshall :=
  match m_buf m with
  | Some b =>
      if bool_decide (0 <= n <= Z.of_nat (length p) /\ 0 <= m_ind m /\
                      m_ind m + n <= Z.of_nat (length b))
      then Val (Marshall
                  (Some (take (Z.to_nat (m_ind m)) b ++
                         take (Z.to_nat n) p ++
                         drop (Z.to_nat (m_ind m + n)) b))
                  (m_capa m) (m_ind m + n))
      else Fault Undefined
  | None => Fault Undefined
  end.

Definition rawbytes (m : marshall) (p : list Z) (n : Z) : outcome marshall :=
  let! e := int_arith (m_ind m + n) in
  let! m := (if e >? m_capa m
             then let! capa := int_arith (if m_capa m >? n then 2 * m_capa m
                                          else m_capa m + n) in
                  grow m capa
             else Val m) in
  store_bytes m p n.

(** ** [operator<<] *)

Definition byte_of_ascii (c : Ascii.ascii) : Z := Z.of_N (Ascii.N_of_ascii c).
Definition ascii_of_byte (b : Z) : Ascii.ascii := Ascii.ascii_of_N (Z.to_N b).

Definition bytes_of_string (s : string) : list Z :=
  byte_of_ascii <$> String.list_ascii_of_string s.
Definition string_of_bytes (l : list Z) : string :=
  String.string_of_list_ascii (ascii_of_byte <$> l).

Definition put_bool (m : marshall) (x : bool) : outcome marshall :=
  rawbyte m (Z.b2z x).
Definition put_uchar (m : marshall) (x : uchar) : outcome marshall := rawbyte m x.
Definition put_char (m : marshall) (x : schar) : outcome marshall :=
  put_uchar m (u8 x).
Definition put_ushort (m : marshall) (x : ushort) : outcome marshall :=
  let! m := rawbyte m (Z.land (Z.shiftr x 8) 255) in
  rawbyte m (Z.land x 255).
Definition put_short (m : marshall) (x : sshort) : outcome marshall :=
  put_ushort m (u16 x).
Definition put_uint (m : marshall) (x : uint) : outcome marshall :=
  let! m := rawbyte m (Z.land (Z.shiftr x 24) 255) in
  let! m := rawbyte m (Z.land (Z.shiftr x 16) 255) in
  let! m := rawbyte m (Z.land (Z.shiftr x 8) 255) in
  rawbyte m (Z.land x 255).
Definition put_int (m : marshall) (x : sint) : outcome marshall :=
  put_uint m (u32 x).
Definition put_string (m : marshall) (s : string) : outcome marshall :=
  let sz := Z.of_nat (String.length s) in
  let! m := put_uint m (u32 sz) in
  rawbytes m (bytes_of_string s) (s32 sz).
Definition put_ulonglong (m : marshall) (x : ulonglong) : outcome marshall :=
  let! m := put_uint m (u32 (Z.shiftr x 32)) in
  put_uint m (u32 x).

Definition pack (m : marshall) (x : Z) : outcome marshall :=
  let! m := rawbyte m (Z.land (Z.shiftr x 24) 255) in
  let! m := rawbyte m (Z.land (Z.shiftr x 16) 255) in
  let! m := rawbyte m (Z.land (Z.shiftr x 8) 255) in
  rawbyte m (Z.land x 255).

Definition set_m_ind (m : marshall) (i : Z) : marshall :=
  Marshall (m_buf m) (m_capa m) i.

Definition pack_req_header (m : marshall) (h : req_header) : outcome marshall :=
  let saved_sz := m_ind m in
  let m := set_m_ind m sizeof_rpc_sz_t in
  let! m := pack m (rq_xid h) in
  let! m := pack m (rq_proc h) in
  let! m := pack m (s32 (rq_clt_nonce h)) in
  let! m := pack m (s32 (rq_srv_nonce h)) in
  let! m := pack m (rq_xid_rep h) in
  Val (set_m_ind m saved_sz).

Definition pack_reply_header (m : marshall) (h : reply_header) : outcome marshall :=
  let saved_sz := m_ind m in
  let m := set_m_ind m sizeof_rpc_sz_t in
  let! m := pack m (rp_xid h) in
  let! m := pack m (rp_ret h) in
  Val (set_m_ind m saved_sz).

(** [take_buf] hands the buffer over with the number of bytes written. *)
Definition m_take_buf (m : marshall) : marshall * (option (list Z) * Z) :=
  (Marshall None (m_capa m) 0, (m_buf m, m_ind m)).

(** [std::string(_buf + RPC_HEADER_SZ, _ind - RPC_HEADER_SZ)] *)
Definition get_content (m : marshall) : outcome string :=
  match m_buf m with
  | Some b =>
      if bool_decide (RPC_HEADER_SZ <= m_ind m <= Z.of_nat (length b))
      then Val (string_of_bytes
                  (take (Z.to_nat (m_ind m - RPC_HEADER_SZ))
                        (drop (Z.to_nat RPC_HEADER_SZ) b)))
      else Fault Undefined
  | None => Fault Undefined
  end.
Definition str (m : marshall) : outcome string := get_content m.

(** ** [operator>>] *)

Definition unmarshall_new : unmarshall := Unmarshall None 0 0 false.
Definition unmarshall_buf (b : list Z) (sz : Z) : unmarshall :=
  Unmarshall (Some b) sz 0 true.

(** [_sz] is an [int]: a string whose size does not fit has no meaning. *)
Definition take_content (s : string) : outcome unmarshall :=
  let! sz := int_arith (Z.of_nat (String.length s) + RPC_HEADER_SZ) in
  Val (Unmarshall (Some (malloc RPC_HEADER_SZ ++ bytes_of_string s)) sz
                  RPC_HEADER_SZ true).

Definition u_take_buf (u : unmarshall) : unmarshall * (option (list Z) * Z) :=
  (Unmarshall None 0 0 (u_ok u), (u_buf u, u_sz u)).

Definition take_in (another : unmarshall) : unmarshall * unmarshall :=
  let '(another, (b, sz)) := u_take_buf another in
  (Unmarshall b sz RPC_HEADER_SZ (if sz >=? RPC_HEADER_SZ then true else false),
   another).

Definition okdone (u : unmarshall) : bool :=
  if u_ok u && (u_ind u =? u_sz u) then true else false.

(** A byte is read as a signed [char] and returned as [unsigned int]. *)
Definition u_rawbyte (u : unmarshall) : outcome (unmarshall * uint) :=
  if u_ind u >=? u_sz u
  then Val (Unmarshall (u_buf u) (u_sz u) (u_ind u) false, 0)
  else if bool_decide (u_ind u < 0) then Fault Undefined
  else match u_buf u ≫= (.!! Z.to_nat (u_ind u)) with
       | Some c => Val (Unmarshall (u_buf u) (u_sz u) (u_ind u + 1) (u_ok u),
                        u32 (s8 c))
       | None => Fault Undefined
       end.

(** The test [(_ind + n) > (unsigned)_sz] is made in 32-bit unsigned
    arithmetic. *)
Definition u_rawbytes (u : unmarshall) (ss : string) (n : uint)
  : outcome (unmarshall * string) :=
  if u32 (u_ind u + n) >? u32 (u_sz u)
  then Val (Unmarshall (u_buf u) (u_sz u) (u_ind u) false, ss)
  else match u_buf u with
       | Some b =>
           if bool_decide (0 <= u_ind u /\ u_ind u + n <= Z.of_nat (length b))
           then Val (Unmarshall (u_buf u) (u_sz u) (u_ind u + n) (u_ok u),
                     string_of_bytes (take (Z.to_nat n) (drop (Z.to_nat (u_ind u)) b)))
           else Fault Undefined
       | None => if n =? 0 then Val (u, EmptyString) else Fault Undefined
       end.

Definition join4 (b3 b2 b1 b0 : Z) : Z :=
  Z.lor (Z.lor (Z.lor (Z.shiftl (Z.land b3 255) 24) (Z.shiftl (Z.land b2 255) 16))
               (Z.shiftl (Z.land b1 255) 8))
        (Z.land b0 255).

Definition get_bool (u : unmarshall) (_ : bool) : outcome (unmarshall * bool) :=
  let! '(u, b) := u_rawbyte u in Val (u, negb (b =? 0)).
Definition get_uchar (u : unmarshall) (_ : uchar) : outcome (unmarshall * uchar) :=
  let! '(u, b) := u_rawbyte u in Val (u, u8 b).
Definition get_char (u : unmarshall) (_ : schar) : outcome (unmarshall * schar) :=
  let! '(u, b) := u_rawbyte u in Val (u, s8 b).
Definition get_ushort (u : unmarshall) (_ : ushort) : outcome (unmarshall * ushort) :=
  let! '(u, b1) := u_rawbyte u in
  let! '(u, b0) := u_rawbyte u in
  Val (u, u16 (Z.lor (Z.shiftl (Z.land b1 255) 8) (Z.land b0 255))).
Definition get_short (u : unmarshall) (_ : sshort) : outcome (unmarshall * sshort) :=
  let! '(u, b1) := u_rawbyte u in
  let! '(u, b0) := u_rawbyte u in
  Val (u, s16 (Z.lor (Z.shiftl (Z.land b1 255) 8) (Z.land b0 255))).
Definition get_uint (u : unmarshall) (_ : uint) : outcome (unmarshall * uint) :=
  let! '(u, b3) := u_rawbyte u in
  let! '(u, b2) := u_rawbyte u in
  let! '(u, b1) := u_rawbyte u in
  let! '(u, b0) := u_rawbyte u in
  Val (u, join4 b3 b2 b1 b0).
Definition get_int (u : unmarshall) (_ : sint) : outcome (unmarshall * sint) :=
  let! '(u, b3) := u_rawbyte u in
  let! '(u, b2) := u_rawbyte u in
  let! '(u, b1) := u_rawbyte u in
  let! '(u, b0) := u_rawbyte u in
  Val (u, s32 (join4 b3 b2 b1 b0)).
Definition get_ulonglong (u : unmarshall) (x : ulonglong)
  : outcome (unmarshall * ulonglong) :=
  let! '(u, h) := get_uint u x in
  let! '(u, l) := get_uint u x in
  Val (u, Z.lor l (Z.shiftl h 32)).
Definition get_string (u : unmarshall) (s : string) : outcome (unmarshall * string) :=
  let! '(u, sz) := get_uint u 0 in
  if u_ok u then u_rawbytes u s sz else Val (u, s).

Definition unpack (u : unmarshall) : outcome (unmarshall * sint) := get_int u 0.

Definition set_u_ind (u : unmarshall) (i : Z) : unmarshall :=
  Unmarshall (u_buf u) (u_sz u) i (u_ok u).

Definition unpack_req_header (u : unmarshall) : outcome (unmarshall * req_header) :=
  let u := set_u_ind u sizeof_rpc_sz_t in
  let! '(u, xid) := unpack u in
  let! '(u, proc) := unpack u in
  let! '(u, clt_nonce) := unpack u in
  let! '(u, srv_nonce) := unpack u in
  let! '(u, xid_rep) := unpack u in
  Val (set_u_ind u RPC_HEADER_SZ,
       ReqHeader xid proc (u32 clt_nonce) (u32 srv_nonce) xid_rep).

Definition unpack_reply_header (u : unmarshall) : outcome (unmarshall * reply_header) :=
  let u := set_u_ind u sizeof_rpc_sz_t in
  let! '(u, xid) := unpack u in
  let! '(u, ret) := unpack u in
  Val (set_u_ind u RPC_HEADER_SZ, ReplyHeader xid ret).

(** ** Vectors *)

Fixpoint put_elems {A} (put : marshall -> A -> outcome marshall)
    (m : marshall) (v : list A) : outcome marshall :=
  match v with
  | [] => Val m
  | x :: v => let! m := put m x in put_elems put m v
  end.

Fixpoint get_elems {A} (get : unmarshall -> A -> outcome (unmarshall * A)) (z : A)
    (n : nat) (u : unmarshall) (v : list A) : outcome (unmarshall * list A) :=
  match n with
  | O => Val (u, v)
  | S n => let! '(u, x) := get u z in get_elems get z n u (v ++ [x])
  end.

Definition put_vector {A} (put : marshall -> A -> outcome marshall)
    (m : marshall) (v : list A) : outcome marshall :=
  let! m := put_uint m (u32 (Z.of_nat (length v))) in
  put_elems put m v.

Definition get_vector {A} (get : unmarshall -> A -> outcome (unmarshall * A)) (z : A)
    (u : unmarshall) (_ : list A) : outcome (unmarshall * list A) :=
  let! '(u, n) := get_uint u 0 in
  get_elems get z (Z.to_nat n) u [].

End marshaller.

#[global] Arguments malloc : simpl never.
#[global] Arguments RPC_HEADER_SZ : simpl never.

(** ** The overload set

    [dflt] is the value a C++ declaration [A a;] leaves for [operator>>] to
    overwrite. *)
Class Wire `{Heap} (A : Type) := {
  dflt : A;
  put : marshall -> A -> outcome marshall;
  get : unmarshall -> A -> outcome (unmarshall * A);
}.

Section instances.
Context `{Heap}.
#[global] Instance wire_bool : Wire bool := {| dflt := false; put := put_bool; get := get_bool |}.
#[global] Instance wire_uchar : Wire uchar := {| dflt := 0; put := put_uchar; get := get_uchar |}.
#[global] Instance wire_char : Wire schar := {| dflt := 0; put := put_char; get := get_char |}.
#[global] Instance wire_ushort : Wire ushort := {| dflt := 0; put := put_ushort; get := get_ushort |}.
#[global] Instance wire_short : Wire sshort := {| dflt := 0; put := put_short; get := get_short |}.
#[global] Instance wire_uint : Wire uint := {| dflt := 0; put := put_uint; get := get_uint |}.
#[global] Instance wire_int : Wire sint := {| dflt := 0; put := put_int; get := get_int |}.
#[global] Instance wire_ulonglong : Wire ulonglong :=
  {| dflt := 0; put := put_ulonglong; get := get_ulonglong |}.
#[global] Instance wire_string : Wire string :=
  {| dflt := EmptyString; put := put_string; get := get_string |}.
#[global] Instance wire_vector `{!Wire A} : Wire (list A) :=
  {| dflt := []; put := put_vector put; get := get_vector get dflt |}.
End instances.

(** ** Invariants

    [m_bytes m] is what has been written, header area included; [u_rest u] is
    what remains to be read. *)

Definition m_bytes (m : marshall) : list Z :=
  take (Z.to_nat (m_ind m)) (default [] (m_buf m)).

Definition u_rest (u : unmarshall) : list Z :=
  drop (Z.to_nat (u_ind u)) (take (Z.to_nat (u_sz u)) (default [] (u_buf u))).

Record m_wf (m : marshall) : Prop := {
  mwf_buf : exists b, m_buf m = Some b /\ Z.of_nat (length b) = m_capa m;
  mwf_ind : 0 <= m_ind m <= m_capa m;
  mwf_capa : DEFAULT_RPC_SZ <= m_capa m <= 2 ^ 30;
}.

Record u_wf (u : unmarshall) : Prop := {
  uwf_buf : exists b, u_buf u = Some b /\ u_sz u <= Z.of_nat (length b);
  uwf_ind : 0 <= u_ind u <= u_sz u;
  uwf_sz : u_sz u <= INT_MAX;
  uwf_ok : u_ok u = true;
}.

(** [m'] is [m] after writing the bytes [bs]. *)
Definition appended (m : marshall) (bs : list Z) (m' : marshall) : Prop :=
  m_wf m' /\ m_bytes m' = m_bytes m ++ bs /\
  m_ind m' = m_ind m + Z.of_nat (length bs).

(** [u'] is [u] after reading the bytes [bs]. *)
Definition consumed (u : unmarshall) (bs : list Z) (u' : unmarshall) : Prop :=
  u_wf u' /\ u_rest u = bs ++ u_rest u' /\
  u_sz u' = u_sz u /\ u_buf u' = u_buf u.

(** Buffers up to this size never make [_capa] overflow. *)
Definition MAX_MARSHALL : Z := 2 ^ 29.

Class WireLaws `{Heap} (A : Type) `{!Wire A} := {
  encode : A -> list Z;
  wire_ok : A -> Prop;
  encode_u8 a : wire_ok a -> Forall is_u8 (encode a);
  put_encode m a :
    m_wf m -> wire_ok a -> m_ind m + Z.of_nat (length (encode a)) <= MAX_MARSHALL ->
    exists m', put m a = Val m' /\ appended m (encode a) m';
  get_encode u a old rest :
    u_wf u -> wire_ok a -> u_rest u = encode a ++ rest ->
    exists u', get u old = Val (u', a) /\ consumed u (encode a) u';
}.

(** ** Proofs: the write side *)

Lemma int_arith_val z : - 2 ^ 31 <= z <= INT_MAX -> int_arith z = Val z.
Proof. intros Hz. unfold int_arith. by rewrite bool_decide_eq_true_2. Qed.

Lemma appended_nil m : m_wf m -> appended m [] m.
Proof. intros Hm. split; [done|]. by rewrite app_nil_r, Z.add_0_r. Qed.

Lemma appended_trans m1 m2 m3 bs1 bs2 :
  appended m1 bs1 m2 -> appended m2 bs2 m3 -> appended m1 (bs1 ++ bs2) m3.
Proof.
  intros (_ & Hb1 & Hi1) (Hw & Hb2 & Hi2). split; [done|].
  rewrite Hb2, Hb1, <-app_assoc, length_app. split; [done|lia].
Qed.

Section write_proofs.
Context `{Heap}.

Lemma length_realloc b n :
  Z.of_nat (length b) <= n -> length (realloc b n) = Z.to_nat n.
Proof.
  intros Hn. unfold realloc.
  rewrite length_app, length_fmap, length_seq, length_take. lia.
Qed.

(** Growing keeps what has been written. *)
Lemma grow_spec m capa :
  m_wf m -> m_capa m <= capa <= 2 ^ 30 ->
  exists m', grow m capa = Val m' /\ m_wf m' /\ m_bytes m' = m_bytes m /\
             m_ind m' = m_ind m /\ m_capa m' = capa.
Proof.
  intros [(b & Hb & Hlen) Hind Hcapa] Hgrow. unfold grow. rewrite Hb.
  eexists. split; [done|]. simpl. split; [|split; [|done]].
  - constructor; simpl; [|lia|lia].
    eexists. split; [done|]. rewrite length_realloc; lia.
  - unfold m_bytes. rewrite Hb. simpl. unfold realloc.
    rewrite (take_ge b (Z.to_nat capa)) by lia. by rewrite take_app_le by lia.
Qed.

Lemma store_spec m x :
  m_wf m -> m_ind m < m_capa m ->
  exists m', store m x = Val m' /\ appended m [u8 x] m'.
Proof.
  intros [(b & Hb & Hlen) Hind Hcapa] Hlt. unfold store. rewrite Hb.
  rewrite bool_decide_eq_true_2 by lia. eexists. split; [done|].
  split; [|split; [|done]].
  - constructor; simpl; [|lia|lia]. eexists. by rewrite length_insert.
  - unfold m_bytes. simpl. rewrite Hb. simpl.
    rewrite Z2Nat.inj_add, Nat.add_1_r by lia.
    rewrite (take_S_r _ _ (u8 x)) by (apply list_lookup_insert_eq; lia).
    by rewrite take_insert_ge by lia.
Qed.

(** [rawbyte] appends one byte, growing the buffer when it is full. *)
Lemma rawbyte_spec m x :
  m_wf m -> m_ind m + 1 <= MAX_MARSHALL ->
  exists m', rawbyte m x = Val m' /\ appended m [u8 x] m'.
Proof.
  unfold MAX_MARSHALL, rawbyte. intros Hm Hmax.
  destruct (Z.geb_spec (m_ind m) (m_capa m)) as [Hfull|Hroom]; simpl.
  - pose proof Hm as [_ Hind Hcapa]. unfold DEFAULT_RPC_SZ in Hcapa.
    rewrite int_arith_val by (unfold INT_MAX; lia). simpl.
    destruct (grow_spec m (m_capa m * 2)) as (m1 & -> & Hm1 & Hb & Hi & Hc); [done|lia|].
    simpl. destruct (store_spec m1 x) as (m' & -> & Hw & Hb' & Hi'); [done|lia|].
    eexists. split; [done|]. split; [done|]. by rewrite Hb', Hb, Hi', Hi.
  - apply store_spec; [done|lia].
Qed.

(** [memcpy] within the capacity. *)
Lemma store_bytes_spec m p :
  m_wf m -> m_ind m + Z.of_nat (length p) <= m_capa m ->
  exists m', store_bytes m p (Z.of_nat (length p)) = Val m' /\ appended m p m'.
Proof.
  intros [(b & Hb & Hlen) Hind Hcapa] Hfit. unfold store_bytes. rewrite Hb.
  rewrite bool_decide_eq_true_2 by lia. eexists. split; [done|].
  split; [|split; [|done]].
  - constructor; simpl; [|lia|lia]. eexists. split; [done|].
    rewrite !length_app, !length_take, length_drop. lia.
  - unfold m_bytes. simpl. rewrite Hb. simpl.
    rewrite Nat2Z.id, (take_ge p) by done.
    rewrite app_assoc, take_app_le
      by (rewrite length_app, length_take; lia).
    rewrite take_ge by (rewrite length_app, length_take; lia). done.
Qed.

(** [rawbytes] appends a block, growing the buffer at most once. *)
Lemma rawbytes_spec m p :
  m_wf m -> m_ind m + Z.of_nat (length p) <= MAX_MARSHALL ->
  exists m', rawbytes m p (Z.of_nat (length p)) = Val m' /\ appended m p m'.
Proof.
  unfold MAX_MARSHALL, rawbytes. intros Hm Hmax.
  set (n := Z.of_nat (length p)) in *.
  pose proof Hm as [_ Hind Hcapa]. unfold DEFAULT_RPC_SZ in Hcapa.
  rewrite int_arith_val by (unfold INT_MAX; lia). simpl.
  destruct (Z.gtb_spec (m_ind m + n) (m_capa m)) as [Hfull|Hroom]; simpl.
  - set (capa := if m_capa m >? n then 2 * m_capa m else m_capa m + n).
    assert (m_ind m + n <= capa <= 2 ^ 30 /\ m_capa m <= capa) as [Hc1 Hc2].
    { unfold capa. destruct (Z.gtb_spec (m_capa m) n); lia. }
    rewrite int_arith_val by (unfold INT_MAX; lia). simpl.
    destruct (grow_spec m capa) as (m1 & -> & Hm1 & Hb & Hi & Hc); [done|lia|].
    simpl. destruct (store_bytes_spec m1 p) as (m' & Heq & Hw & Hb' & Hi'); [done|lia|].
    fold n in Heq. rewrite Heq.
    eexists. split; [done|]. split; [done|]. by rewrite Hb', Hb, Hi', Hi.
  - apply store_bytes_spec; [done|lia].
Qed.

End write_proofs.

(** ** Encodings of the base types *)

Definition be16 (x : Z) : list Z := [Z.land (Z.shiftr x 8) 255; Z.land x 255].
Definition be32 (x : Z) : list Z :=
  [Z.land (Z.shiftr x 24) 255; Z.land (Z.shiftr x 16) 255;
   Z.land (Z.shiftr x 8) 255; Z.land x 255].

Lemma byte_of_ascii_u8 c : is_u8 (byte_of_ascii c).
Proof.
  unfold byte_of_ascii, is_u8. pose proof (Ascii.N_ascii_bounded c). lia.
Qed.
#[export] Hint Resolve byte_of_ascii_u8 : yfs.

Lemma ascii_of_byte_of_ascii c : ascii_of_byte (byte_of_ascii c) = c.
Proof. unfold ascii_of_byte, byte_of_ascii. by rewrite N2Z.id, Ascii.ascii_N_embedding. Qed.

Lemma string_of_bytes_of_string s : string_of_bytes (bytes_of_string s) = s.
Proof.
  unfold string_of_bytes, bytes_of_string. rewrite <-list_fmap_compose.
  transitivity (String.string_of_list_ascii (id <$> String.list_ascii_of_string s)).
  - f_equal. apply list_fmap_ext. intros i c _. apply ascii_of_byte_of_ascii.
  - by rewrite list_fmap_id, String.string_of_list_ascii_of_string.
Qed.

Lemma length_bytes_of_string s : length (bytes_of_string s) = String.length s.
Proof.
  unfold bytes_of_string. rewrite length_fmap.
  induction s as [|c s IH]; simpl; [done|]. by rewrite IH.
Qed.

Lemma be32_mod x : be32 (u32 x) = be32 x.
Proof.
  unfold be32. rewrite !shr_u32 by lia.
  pose proof (shr_u32 x 0) as H0. rewrite !Z.shiftr_0_r in H0. by rewrite H0 by lia.
Qed.

Lemma be32_is_u8 x : Forall is_u8 (be32 x).
Proof. unfold be32. repeat constructor; auto with yfs; apply land_255_u8. Qed.

Lemma be16_is_u8 x : Forall is_u8 (be16 x).
Proof. unfold be16. repeat constructor; apply land_255_u8. Qed.

Lemma bytes_of_string_u8 s : Forall is_u8 (bytes_of_string s).
Proof. unfold bytes_of_string. apply Forall_fmap, Forall_true. apply byte_of_ascii_u8. Qed.
#[export] Hint Resolve be32_is_u8 be16_is_u8 bytes_of_string_u8 : yfs.

Lemma bytes_of_string_of_bytes l :
  Forall is_u8 l -> bytes_of_string (string_of_bytes l) = l.
Proof.
  intros Hl. unfold bytes_of_string, string_of_bytes.
  rewrite String.list_ascii_of_string_of_list_ascii, <-list_fmap_compose.
  rewrite <-(list_fmap_id l) at 2. apply Forall_fmap_ext.
  eapply Forall_impl; [exact Hl|]. intros b Hb. unfold is_u8 in Hb. simpl.
  unfold byte_of_ascii, ascii_of_byte. rewrite Ascii.N_ascii_embedding by lia. lia.
Qed.

Section read_proofs.
Context `{Heap}.

Lemma consumed_trans u1 u2 u3 bs1 bs2 :
  consumed u1 bs1 u2 -> consumed u2 bs2 u3 -> consumed u1 (bs1 ++ bs2) u3.
Proof.
  intros (_ & Hr1 & Hs1 & Hb1) (Hw & Hr2 & Hs2 & Hb2).
  split; [done|]. rewrite Hr1, Hr2, app_assoc. split; [done|]. split; congruence.
Qed.

Lemma consumed_rest u u' bs rest :
  consumed u bs u' -> u_rest u = bs ++ rest -> u_rest u' = rest.
Proof. intros (_ & Hr & _ & _). rewrite Hr. apply app_inv_head. Qed.

Lemma u_rest_lookup u k b :
  u_wf u -> u_rest u !! k = Some b ->
  exists buf, u_buf u = Some buf /\ buf !! (Z.to_nat (u_ind u) + k)%nat = Some b /\
              u_ind u + Z.of_nat k < u_sz u.
Proof.
  intros [(buf & Hbuf & Hlen) Hind Hsz Hok]. unfold u_rest. rewrite Hbuf. simpl.
  intros Hk. exists buf. split; [done|].
  rewrite lookup_drop in Hk.
  apply lookup_take_Some in Hk as [Hk Hlt]. split; [done|]. lia.
Qed.

Lemma u_rawbyte_spec u b rest :
  u_wf u -> u_rest u = b :: rest ->
  exists u', u_rawbyte u = Val (u', u32 (s8 b)) /\ consumed u [b] u'.
Proof.
  intros Hu Hrest. destruct (u_rest_lookup u 0 b Hu) as (buf & Hbuf & Hb & Hlt).
  { by rewrite Hrest. }
  pose proof Hu as [(buf' & Hbuf' & Hlen) Hind Hsz Hok]. simplify_eq.
  rewrite Nat.add_0_r in Hb. rewrite Z.add_0_r in Hlt.
  unfold u_rawbyte.
  destruct (Z.geb_spec (u_ind u) (u_sz u)); [lia|].
  rewrite bool_decide_eq_false_2 by lia. rewrite Hbuf. simpl. rewrite Hb.
  eexists. split; [done|]. split; [|split; [|done]].
  - constructor; simpl; [by exists buf|lia|lia|done].
  - unfold u_rest in *. rewrite Hbuf in *. simpl in *.
    rewrite Z2Nat.inj_add, <-drop_drop, Hrest by lia. done.
Qed.

End read_proofs.

(** Reads one byte of a known remainder. *)
Ltac read_byte :=
  match goal with
  | Hu : u_wf ?u, Hr : u_rest ?u = ?b :: ?rest |- context [u_rawbyte ?u] =>
      let u' := fresh "u" in let Hc := fresh "Hc" in
      destruct (u_rawbyte_spec u b rest Hu Hr) as (u' & -> & Hc);
      pose proof (consumed_rest u u' [b] rest Hc Hr);
      assert (u_wf u') by apply Hc; simpl
  end.

Section read_proofs2.
Context `{Heap}.

Lemma get_uint_spec u x old rest :
  u_wf u -> u_rest u = be32 x ++ rest ->
  exists u', get_uint u old = Val (u', u32 x) /\ consumed u (be32 x) u'.
Proof.
  intros Hu Hr. unfold get_uint. simpl in Hr. do 4 read_byte.
  eexists. split.
  - unfold join4. rewrite !land_255_s8 by auto with yfs. by rewrite join_bytes32.
  - by repeat (eapply (consumed_trans _ _ _ [_]); [eassumption|]).
Qed.

Lemma get_int_get_uint u old :
  get_int u old = (let! '(u, x) := get_uint u old in Val (u, s32 x)).
Proof.
  unfold get_int, get_uint. destruct (u_rawbyte u) as [[u1 b3]|]; simpl; [|done].
  destruct (u_rawbyte u1) as [[u2 b2]|]; simpl; [|done].
  destruct (u_rawbyte u2) as [[u3 b1]|]; simpl; [|done].
  by destruct (u_rawbyte u3) as [[u4 b0]|].
Qed.

Lemma u_rawbytes_spec u ss bs rest :
  u_wf u -> u_rest u = bs ++ rest ->
  exists u', u_rawbytes u ss (Z.of_nat (length bs)) = Val (u', string_of_bytes bs) /\
             consumed u bs u'.
Proof.
  intros Hu Hr. pose proof Hu as [(buf & Hbuf & Hlen) Hind Hsz Hok].
  assert (u_ind u + Z.of_nat (length bs) <= u_sz u) as Hfit.
  { assert (length (u_rest u) >= length bs)%nat by (rewrite Hr, length_app; lia).
    unfold u_rest in *. rewrite Hbuf in *. simpl in *.
    rewrite length_drop, length_take in *. lia. }
  unfold u_rawbytes. unfold INT_MAX in Hsz.
  rewrite !u32_id by (unfold is_u32; lia).
  destruct (Z.gtb_spec (u_ind u + Z.of_nat (length bs)) (u_sz u)); [lia|].
  rewrite Hbuf, bool_decide_eq_true_2 by lia.
  assert (drop (Z.to_nat (u_ind u)) (take (Z.to_nat (u_sz u)) buf) = bs ++ rest) as Hr'
    by (unfold u_rest in Hr; by rewrite Hbuf in Hr).
  eexists. split.
  - do 3 f_equal. rewrite Nat2Z.id.
    transitivity (take (length bs) (drop (Z.to_nat (u_ind u)) (take (Z.to_nat (u_sz u)) buf))).
    + rewrite !take_drop_commute, take_take. do 2 f_equal. lia.
    + by rewrite Hr', take_app_length.
  - split; [|split; [|done]].
    + constructor; simpl; [by exists buf|lia|unfold INT_MAX; lia|done].
    + rewrite Hr. unfold u_rest. simpl. f_equal.
      rewrite Z2Nat.inj_add, Nat2Z.id, <-drop_drop, Hr', drop_app_length by lia. done.
Qed.

End read_proofs2.

(** ** The base types satisfy the contract *)

Section base_laws.
Context `{Heap}.

Lemma put_bytes_spec bs : forall m,
  m_wf m -> m_ind m + Z.of_nat (length bs) <= MAX_MARSHALL ->
  exists m', put_elems rawbyte m bs = Val m' /\ appended m (u8 <$> bs) m'.
Proof.
  induction bs as [|b bs IH]; simpl; intros m Hm Hmax.
  - exists m. split; [done|]. by apply appended_nil.
  - destruct (rawbyte_spec m b) as (m1 & -> & Happ); [done|lia|]. simpl.
    pose proof Happ as (Hm1 & _ & Hi1). simpl in Hi1.
    destruct (IH m1) as (m' & -> & Happ'); [done|lia|].
    exists m'. split; [done|]. by apply (appended_trans m m1 m' [u8 b]).
Qed.

Lemma put_uint_elems m x : put_uint m x = put_elems rawbyte m (be32 x).
Proof. unfold put_uint, be32. simpl. by setoid_rewrite obind_Val. Qed.

Lemma be32_u8 x : u8 <$> be32 x = be32 x.
Proof. unfold be32. simpl. by rewrite !u8_id by auto with yfs. Qed.

Lemma put_uint_spec m x :
  m_wf m -> m_ind m + 4 <= MAX_MARSHALL ->
  exists m', put_uint m x = Val m' /\ appended m (be32 x) m'.
Proof.
  intros Hm Hmax. rewrite put_uint_elems. destruct (put_bytes_spec (be32 x) m) as (m' & Heq & Happ); [done|done|].
  rewrite be32_u8 in Happ. eauto.
Qed.

#[global] Program Instance wire_bool_laws : WireLaws bool :=
  {| encode b := [Z.b2z b]; wire_ok _ := True |}.
Next Obligation. intros [] _; by repeat constructor. Qed.
Next Obligation.
  intros m a Hm _ Hmax. destruct (rawbyte_spec m (Z.b2z a)) as (m' & Heq & Happ); [done..|].
  exists m'. split; [done|]. by destruct a.
Qed.
Next Obligation.
  intros u a old rest Hu _ Hr. simpl in *. unfold get_bool. read_byte.
  eexists. split; [|done]. by destruct a.
Qed.

#[global] Program Instance wire_uchar_laws : WireLaws uchar :=
  {| encode x := [x]; wire_ok x := is_u8 x |}.
Next Obligation. intros a Ha. repeat constructor; apply Ha. Qed.
Next Obligation.
  intros m a Hm Ha Hmax. destruct (rawbyte_spec m a) as (m' & Heq & Happ); [done..|].
  exists m'. split; [done|]. by rewrite u8_id in Happ.
Qed.
Next Obligation.
  intros u a old rest Hu Ha Hr. simpl in *. unfold get_uchar. read_byte.
  eexists. split; [|done]. do 2 f_equal.
  unfold u8. by rewrite <-land_255, land_255_s8.
Qed.

#[global] Program Instance wire_uint_laws : WireLaws uint :=
  {| encode := be32; wire_ok := is_u32 |}.
Next Obligation. auto with yfs. Qed.
Next Obligation. intros m a Hm Ha Hmax. by apply put_uint_spec. Qed.
Next Obligation.
  intros u a old rest Hu Ha Hr.
  destruct (get_uint_spec u a old rest) as (u' & Heq & Hc); [done..|].
  rewrite u32_id in Heq by done. eauto.
Qed.

#[global] Program Instance wire_int_laws : WireLaws sint :=
  {| encode := be32; wire_ok := is_s32 |}.
Next Obligation. auto with yfs. Qed.
Next Obligation.
  intros m a Hm Ha Hmax. simpl. unfold put_int. rewrite <-(be32_mod a).
  by apply put_uint_spec.
Qed.
Next Obligation.
  intros u a old rest Hu Ha Hr. simpl. rewrite get_int_get_uint.
  destruct (get_uint_spec u a old rest) as (u' & -> & Hc); [done..|].
  simpl. rewrite s32_u32 by done. eauto.
Qed.

#[global] Program Instance wire_string_laws : WireLaws string :=
  {| encode s := be32 (Z.of_nat (String.length s)) ++ bytes_of_string s;
     wire_ok s := Z.of_nat (String.length s) <= INT_MAX |}.
Next Obligation. intros s _. apply Forall_app; split; auto with yfs. Qed.
Next Obligation.
  intros m s Hm Hs Hmax. unfold INT_MAX, MAX_MARSHALL in *.
  rewrite length_app, length_bytes_of_string in Hmax. simpl in Hmax.
  pose proof Hm as [_ Hind _].
  simpl. unfold put_string. rewrite u32_id by (unfold is_u32; lia).
  destruct (put_uint_spec m (Z.of_nat (String.length s))) as (m1 & -> & Happ1);
    [done|unfold MAX_MARSHALL; lia|].
  simpl. rewrite s32_id by (unfold is_s32; lia).
  pose proof Happ1 as (Hm1 & _ & Hi1). simpl in Hi1.
  rewrite <-length_bytes_of_string.
  destruct (rawbytes_spec m1 (bytes_of_string s)) as (m' & -> & Happ'); [done| |].
  { rewrite length_bytes_of_string. unfold MAX_MARSHALL. lia. }
  eexists. split; [done|]. rewrite length_bytes_of_string in *.
  exact (appended_trans _ _ _ _ _ Happ1 Happ').
Qed.
Next Obligation.
  intros u s old rest Hu Hs Hr. unfold INT_MAX in *.
  rewrite <-app_assoc in Hr. simpl. unfold get_string.
  destruct (get_uint_spec u _ 0 _ Hu Hr) as (u1 & -> & Hc1). simpl.
  pose proof Hc1 as (Hu1 & _). pose proof Hu1 as [_ _ _ Hok]. rewrite Hok.
  rewrite u32_id by (unfold is_u32; lia).
  rewrite <-(length_bytes_of_string s).
  destruct (u_rawbytes_spec u1 old (bytes_of_string s) rest) as (u' & -> & Hc2);
    [done|by eapply consumed_rest|].
  rewrite string_of_bytes_of_string. eexists. split; [done|].
  rewrite length_bytes_of_string in *. exact (consumed_trans _ _ _ _ _ Hc1 Hc2).
Qed.

End base_laws.

Section more_laws.
Context `{Heap}.

Lemma s8_id z : - 2 ^ 7 <= z < 2 ^ 7 -> s8 z = z.
Proof. unfold s8. intros Hz. rewrite Z.mod_small; lia. Qed.
Lemma s8_u8 z : - 2 ^ 7 <= z < 2 ^ 7 -> s8 (u8 z) = z.
Proof. unfold s8, u8. intros Hz. rewrite Zplus_mod_idemp_l, Z.mod_small; lia. Qed.
Lemma s8_u32 z : s8 (u32 z) = s8 z.
Proof.
  unfold s8, u32. f_equal. rewrite Z.add_mod, Z.mod_mod_divide, <-Z.add_mod by (lia || by exists (2 ^ 24)).
  done.
Qed.

#[global] Program Instance wire_char_laws : WireLaws schar :=
  {| encode x := [u8 x]; wire_ok x := - 2 ^ 7 <= x < 2 ^ 7 |}.
Next Obligation. intros a _. repeat constructor; apply u8_range. Qed.
Next Obligation.
  intros m a Hm Ha Hmax. destruct (rawbyte_spec m (u8 a)) as (m' & Heq & Happ); [done..|].
  rewrite u8_id in Happ by auto with yfs. eauto.
Qed.
Next Obligation.
  intros u a old rest Hu Ha Hr. simpl in *. unfold get_char. read_byte.
  eexists. split; [|done]. by rewrite s8_u32, s8_u8, s8_id.
Qed.

Lemma be16_join x :
  Z.lor (Z.shiftl (Z.land (Z.shiftr x 8) 255) 8) (Z.land x 255) = u16 x.
Proof.
  rewrite !land_255, Z.shiftl_mul_pow2, Z.shiftr_div_pow2 by lia.
  pose proof (Z.mod_pos_bound x (2 ^ 8)).
  rewrite Z_lor_disjoint by lia. unfold u16. Z.div_mod_to_equations. lia.
Qed.

Lemma put_ushort_spec m x :
  m_wf m -> m_ind m + 2 <= MAX_MARSHALL ->
  exists m', put_ushort m x = Val m' /\ appended m (be16 x) m'.
Proof.
  intros Hm Hmax. destruct (put_bytes_spec (be16 x) m) as (m' & Heq & Happ); [done|done|].
  exists m'. split.
  - rewrite <-Heq. unfold put_ushort, be16. simpl. by setoid_rewrite obind_Val.
  - revert Happ. unfold be16. simpl. by rewrite !u8_id by auto with yfs.
Qed.

#[global] Program Instance wire_ushort_laws : WireLaws ushort :=
  {| encode := be16; wire_ok x := 0 <= x < 2 ^ 16 |}.
Next Obligation. auto with yfs. Qed.
Next Obligation. intros m a Hm Ha Hmax. by apply put_ushort_spec. Qed.
Next Obligation.
  intros u a old rest Hu Ha Hr. simpl in *. unfold get_ushort. do 2 read_byte.
  eexists. split; [|by eapply (consumed_trans _ _ _ [_])].
  rewrite !land_255_s8, be16_join by auto with yfs.
  unfold u16. by rewrite Z.mod_mod, Z.mod_small by lia.
Qed.

Lemma be16_mod x : be16 (u16 x) = be16 x.
Proof.
  unfold be16, u16. rewrite !land_255, !Z.shiftr_div_pow2 by lia.
  f_equal; [|f_equal].
  - rewrite <-!Z.shiftr_div_pow2, <-!Z.land_ones, Z.shiftr_land, <-Z.land_assoc by lia.
    done.
  - by rewrite Z.mod_mod_divide by (by exists (2 ^ 8)).
Qed.

#[global] Program Instance wire_short_laws : WireLaws sshort :=
  {| encode := be16; wire_ok x := - 2 ^ 15 <= x < 2 ^ 15 |}.
Next Obligation. auto with yfs. Qed.
Next Obligation.
  intros m a Hm Ha Hmax. simpl. unfold put_short. rewrite <-be16_mod.
  by apply put_ushort_spec.
Qed.
Next Obligation.
  intros u a old rest Hu Ha Hr. simpl in *. unfold get_short. do 2 read_byte.
  eexists. split; [|by eapply (consumed_trans _ _ _ [_])].
  rewrite !land_255_s8, be16_join by auto with yfs.
  unfold s16, u16. by rewrite Zplus_mod_idemp_l, Z.mod_small, Z.add_simpl_r by lia.
Qed.

#[global] Program Instance wire_ulonglong_laws : WireLaws ulonglong :=
  {| encode x := be32 (Z.shiftr x 32) ++ be32 x; wire_ok x := 0 <= x < 2 ^ 64 |}.
Next Obligation. intros a _. apply Forall_app; split; auto with yfs. Qed.
Next Obligation.
  intros m a Hm Ha Hmax. simpl in *. unfold put_ulonglong.
  destruct (put_uint_spec m (u32 (Z.shiftr a 32))) as (m1 & -> & Happ1); [done|lia|].
  simpl. pose proof Happ1 as (Hm1 & _ & Hi1). simpl in Hi1.
  destruct (put_uint_spec m1 (u32 a)) as (m' & -> & Happ2); [done|lia|].
  rewrite be32_mod in Happ1, Happ2. eexists. split; [done|].
  exact (appended_trans _ _ _ _ _ Happ1 Happ2).
Qed.
Next Obligation.
  intros u a old rest Hu Ha Hr.
  change (u_rest u = be32 (Z.shiftr a 32) ++ be32 a ++ rest) in Hr.
  change (0 <= a < 2 ^ 64) in Ha.
  simpl. unfold get_ulonglong.
  destruct (get_uint_spec u _ old _ Hu Hr) as (u1 & -> & Hc1). simpl.
  destruct (get_uint_spec u1 a old rest) as (u2 & -> & Hc2);
    [apply Hc1|by eapply consumed_rest|]. simpl.
  eexists. split; [|exact (consumed_trans _ _ _ _ _ Hc1 Hc2)].
  do 2 f_equal. rewrite Z.shiftr_div_pow2, Z.shiftl_mul_pow2, Z.lor_comm by lia.
  rewrite (u32_id (a / _))
    by (split; [apply Z.div_pos; lia|apply Z.div_lt_upper_bound; lia]).
  pose proof (u32_range a) as Hr2. unfold is_u32 in Hr2.
  rewrite Z_lor_disjoint by lia. unfold u32. Z.div_mod_to_equations. lia.
Qed.

End more_laws.

(** ** Vectors satisfy the contract when their elements do *)

Section vector_laws.
Context `{Heap} {A : Type} `{!Wire A, !WireLaws A}.

Lemma put_elems_spec (v : list A) : forall m,
  m_wf m -> Forall wire_ok v ->
  m_ind m + Z.of_nat (length (List.flat_map encode v)) <= MAX_MARSHALL ->
  exists m', put_elems put m v = Val m' /\ appended m (List.flat_map encode v) m'.
Proof.
  induction v as [|a v IH]; simpl; intros m Hm Hok Hmax.
  - exists m. split; [done|]. by apply appended_nil.
  - inversion_clear Hok as [|? ? Ha Hv]. rewrite length_app in Hmax.
    destruct (put_encode m a) as (m1 & -> & Happ); [done|done|lia|]. simpl.
    pose proof Happ as (Hm1 & _ & Hi1).
    destruct (IH m1) as (m' & -> & Happ'); [done|done|lia|].
    exists m'. split; [done|]. by eapply appended_trans.
Qed.

Lemma get_elems_spec (v : list A) : forall u acc rest,
  u_wf u -> Forall wire_ok v -> u_rest u = List.flat_map encode v ++ rest ->
  exists u', get_elems get dflt (length v) u acc = Val (u', acc ++ v) /\
             consumed u (List.flat_map encode v) u'.
Proof.
  induction v as [|a v IH]; simpl; intros u acc rest Hu Hok Hr.
  - exists u. rewrite app_nil_r. done.
  - inversion_clear Hok as [|? ? Ha Hv]. rewrite <-app_assoc in Hr.
    destruct (get_encode u a dflt _ Hu Ha Hr) as (u1 & -> & Hc1). simpl.
    destruct (IH u1 (acc ++ [a]) rest) as (u' & -> & Hc2);
      [apply Hc1|done|by eapply consumed_rest|].
    exists u'. rewrite <-app_assoc. split; [done|]. by eapply consumed_trans.
Qed.

#[global] Program Instance wire_vector_laws : WireLaws (list A) :=
  {| encode v := be32 (Z.of_nat (length v)) ++ List.flat_map encode v;
     wire_ok v := Forall wire_ok v /\ Z.of_nat (length v) < 2 ^ 32 |}.
Next Obligation. 
  intros v [Hok _]. apply Forall_app; split; [auto with yfs|].
  induction Hok as [|a v Ha Hv IH]; simpl; [constructor|].
  apply Forall_app; split; [by apply encode_u8|done].
 Qed.
Next Obligation.
  intros m v Hm [Hok Hlen] Hmax. rewrite length_app in Hmax. simpl in *.
  unfold put_vector. rewrite u32_id by (unfold is_u32; lia).
  destruct (put_uint_spec m (Z.of_nat (length v))) as (m1 & -> & Happ1); [done|lia|].
  simpl. pose proof Happ1 as (Hm1 & _ & Hi1). simpl in Hi1.
  destruct (put_elems_spec v m1) as (m' & -> & Happ2); [done|done|lia|].
  eexists. split; [done|]. exact (appended_trans _ _ _ _ _ Happ1 Happ2).
Qed.
Next Obligation.
  intros u v old rest Hu [Hok Hlen] Hr. rewrite <-app_assoc in Hr. simpl.
  unfold get_vector. destruct (get_uint_spec u _ 0 _ Hu Hr) as (u1 & -> & Hc1). simpl.
  rewrite u32_id, Nat2Z.id by (unfold is_u32; lia).
  destruct (get_elems_spec v u1 [] rest) as (u' & -> & Hc2);
    [apply Hc1|done|by eapply consumed_rest|].
  eexists. split; [done|]. exact (consumed_trans _ _ _ _ _ Hc1 Hc2).
Qed.

End vector_laws.

(** ** From one process to another

    A value marshalled into a fresh [marshall], taken out as a string with
    [str()], and put into a fresh [unmarshall] reads back as itself, with
    nothing left over. *)

Section transport.
Context `{Heap}.

Lemma marshall_new_wf : m_wf marshall_new.
Proof.
  constructor; simpl; [|by vm_compute; split..].
  eexists. split; [done|]. unfold malloc. by rewrite length_fmap, length_seq.
Qed.

Lemma length_m_bytes m : m_wf m -> Z.of_nat (length (m_bytes m)) = m_ind m.
Proof.
  intros [(b & Hb & Hlen) Hind Hcapa]. unfold m_bytes. rewrite Hb. simpl.
  rewrite length_take. lia.
Qed.

Lemma str_spec m :
  m_wf m -> RPC_HEADER_SZ <= m_ind m ->
  str m = Val (string_of_bytes (drop (Z.to_nat RPC_HEADER_SZ) (m_bytes m))).
Proof.
  intros [(b & Hb & Hlen) Hind Hcapa] Hh. unfold str, get_content, m_bytes.
  rewrite Hb. simpl. rewrite bool_decide_eq_true_2 by lia.
  do 2 f_equal. rewrite take_drop_commute. do 2 f_equal.
  change RPC_HEADER_SZ with 24 in *. lia.
Qed.

Lemma u_rest_eq b sz i ok :
  u_rest (Unmarshall (Some b) sz i ok) = drop (Z.to_nat i) (take (Z.to_nat sz) b).
Proof. done. Qed.

Lemma take_content_wf s u :
  take_content s = Val u -> u_wf u /\ u_rest u = bytes_of_string s.
Proof.
  unfold take_content, int_arith. case_bool_decide as Hsz; cbn [obind]; [|done].
  set (b := malloc RPC_HEADER_SZ ++ bytes_of_string s). intros [= <-].
  unfold INT_MAX in Hsz.
  assert (length (malloc RPC_HEADER_SZ) = 24%nat) as Hm
    by (unfold malloc; by rewrite length_fmap, length_seq).
  unfold b. split.
  - constructor; cbn [u_sz u_ind u_ok u_buf];
      [|change RPC_HEADER_SZ with 24 in *; lia|unfold INT_MAX; lia|done].
    eexists. split; [done|]. rewrite length_app, Hm, length_bytes_of_string.
    change RPC_HEADER_SZ with 24. lia.
  - rewrite u_rest_eq, take_ge.
    + by rewrite drop_app_length' by (rewrite Hm; done).
    + rewrite length_app, Hm, length_bytes_of_string. change RPC_HEADER_SZ with 24. lia.
Qed.

Lemma okdone_consumed u u' bs :
  consumed u bs u' -> u_rest u = bs -> okdone u' = true.
Proof.
  intros Hc Hr. assert (u_rest u' = []) as Hr'
    by (eapply consumed_rest; [done|by rewrite app_nil_r]).
  destruct Hc as ([(b & Hb & Hlen) Hind Hsz Hok] & _). unfold okdone. rewrite Hok. simpl.
  unfold u_rest in Hr'. rewrite Hb in Hr'. simpl in Hr'.
  apply (f_equal length) in Hr'. rewrite length_drop, length_take in Hr'. simpl in Hr'.
  replace (u_ind u' =? u_sz u') with true; [done|]. symmetry. apply Z.eqb_eq. lia.
Qed.

(** What [str()] returns after a sequence of writes is their encoding. *)
Lemma str_appended m bs :
  appended marshall_new bs m -> str m = Val (string_of_bytes bs).
Proof.
  intros (Hm & Hb & Hi). simpl in Hi.
  rewrite str_spec by (done || lia). rewrite Hb.
  rewrite drop_app_length'; [done|].
  pose proof (length_m_bytes _ marshall_new_wf) as Hl.
  change (m_ind marshall_new) with RPC_HEADER_SZ in Hl. change RPC_HEADER_SZ with 24 in *. lia.
Qed.

Lemma take_content_bytes bs :
  Forall is_u8 bs -> Z.of_nat (length bs) <= MAX_MARSHALL ->
  exists u, take_content (string_of_bytes bs) = Val u /\ u_wf u /\ u_rest u = bs.
Proof.
  intros Hbs Hlen. unfold MAX_MARSHALL in Hlen.
  assert (exists u, take_content (string_of_bytes bs) = Val u) as (u & Hu).
  { unfold take_content. rewrite int_arith_val; [by eexists|].
    rewrite <-length_bytes_of_string, bytes_of_string_of_bytes by done.
    change RPC_HEADER_SZ with 24. unfold INT_MAX. lia. }
  exists u. split; [done|]. apply take_content_wf in Hu as [Hw Hr].
  by rewrite bytes_of_string_of_bytes in Hr.
Qed.

End transport.

(** ** Headers

    [pack_req_header] rewinds the head to byte 4, overwrites the header area
    and puts the head back. *)

Section headers.
Context `{Heap}.

Lemma put_bytes_overwrite bs : forall b capa i,
  0 <= i -> i + Z.of_nat (length bs) <= Z.of_nat (length b) -> Z.of_nat (length b) <= capa ->
  put_elems rawbyte (Marshall (Some b) capa i) bs =
  Val (Marshall (Some (take (Z.to_nat i) b ++ (u8 <$> bs) ++
                       drop (Z.to_nat i + length bs) b))
                capa (i + Z.of_nat (length bs))).
Proof.
  induction bs as [|x bs IH]; intros b capa i Hi Hlen Hcapa; simpl.
  - rewrite Nat.add_0_r, Z.add_0_r, take_drop. done.
  - simpl in Hlen. unfold rawbyte. simpl.
    destruct (Z.geb_spec i capa); [lia|]. simpl. unfold store. simpl.
    rewrite bool_decide_eq_true_2 by lia. simpl.
    rewrite IH by (rewrite ?length_insert; lia). do 2 f_equal; [|lia].
    f_equal. rewrite Z2Nat.inj_add, Nat.add_1_r by lia.
    rewrite (take_S_r _ _ (u8 x)) by (apply list_lookup_insert_eq; lia).
    rewrite take_insert_ge, drop_insert_lt by lia. rewrite <-app_assoc. simpl.
    by rewrite Nat.add_succ_r.
Qed.

(** Where a sequence of [pack]s leaves the buffer. *)
Lemma pack_overwrite b capa i x :
  0 <= i -> i + 4 <= Z.of_nat (length b) -> Z.of_nat (length b) <= capa ->
  pack (Marshall (Some b) capa i) x =
  Val (Marshall (Some (take (Z.to_nat i) b ++ be32 x ++ drop (Z.to_nat i + 4) b))
                capa (i + 4)).
Proof.
  intros Hi Hlen Hcapa. change (pack (Marshall (Some b) capa i) x)
    with (put_uint (Marshall (Some b) capa i) x).
  rewrite put_uint_elems, put_bytes_overwrite, be32_u8 by done. done.
Qed.

Lemma packs_overwrite xs : forall b capa i,
  0 <= i -> i + 4 * Z.of_nat (length xs) <= Z.of_nat (length b) ->
  Z.of_nat (length b) <= capa ->
  put_elems pack (Marshall (Some b) capa i) xs =
  Val (Marshall (Some (take (Z.to_nat i) b ++ List.flat_map be32 xs ++
                       drop (Z.to_nat i + 4 * length xs) b))
                capa (i + 4 * Z.of_nat (length xs))).
Proof.
  induction xs as [|x xs IH]; intros b capa i Hi Hlen Hcapa; simpl.
  - rewrite Nat.add_0_r, Z.add_0_r, take_drop. done.
  - simpl in Hlen. rewrite pack_overwrite by lia.
    set (b' := take (Z.to_nat i) b ++ be32 x ++ drop (Z.to_nat i + 4) b).
    assert (length b' = length b) as Hb'.
    { unfold b'. rewrite !length_app, length_take, length_drop. simpl. lia. }
    cbn [obind]. rewrite IH by lia. do 2 f_equal; [|lia]. f_equal.
    unfold b'. rewrite !app_assoc.
    rewrite take_app_le, drop_app_ge
      by (rewrite length_app, length_take; simpl; lia).
    rewrite take_ge by (rewrite length_app, length_take; simpl; lia).
    rewrite length_app, length_take, drop_drop, <-!app_assoc. simpl.
    do 6 f_equal. f_equal. lia.
Qed.

Definition req_header_ok (h : req_header) : Prop :=
  is_s32 (rq_xid h) /\ is_s32 (rq_proc h) /\ is_u32 (rq_clt_nonce h) /\
  is_u32 (rq_srv_nonce h) /\ is_s32 (rq_xid_rep h).

Definition reply_header_ok (h : reply_header) : Prop :=
  is_s32 (rp_xid h) /\ is_s32 (rp_ret h).

Definition req_words (h : req_header) : list Z :=
  [rq_xid h; rq_proc h; s32 (rq_clt_nonce h); s32 (rq_srv_nonce h); rq_xid_rep h].
Definition reply_words (h : reply_header) : list Z := [rp_xid h; rp_ret h].

Lemma pack_req_header_elems m h :
  pack_req_header m h =
  (let! m' := put_elems pack (set_m_ind m 4) (req_words h) in
   Val (set_m_ind m' (m_ind m))).
Proof. unfold pack_req_header. simpl. by rewrite !obind_assoc; repeat setoid_rewrite obind_assoc. Qed.

Lemma pack_reply_header_elems m h :
  pack_reply_header m h =
  (let! m' := put_elems pack (set_m_ind m 4) (reply_words h) in
   Val (set_m_ind m' (m_ind m))).
Proof. unfold pack_reply_header. simpl. by rewrite !obind_assoc; repeat setoid_rewrite obind_assoc. Qed.

(** The buffer a packed header leaves: 4 bytes for the channel, the words,
    and the rest unchanged. *)
Lemma pack_words m ws :
  m_wf m -> RPC_HEADER_SZ <= m_ind m -> (length ws <= 5)%nat ->
  exists m' b b',
    (let! m' := put_elems pack (set_m_ind m 4) ws in Val (set_m_ind m' (m_ind m))) = Val m' /\
    m_buf m = Some b /\ m_buf m' = Some b' /\ m_wf m' /\ m_ind m' = m_ind m /\
    b' = take 4 b ++ List.flat_map be32 ws ++ drop (4 + 4 * length ws) b.
Proof.
  intros Hm Hh Hws. pose proof Hm as [(b & Hb & Hlen) Hind Hcapa].
  change RPC_HEADER_SZ with 24 in Hh. unfold DEFAULT_RPC_SZ in Hcapa.
  unfold set_m_ind at 1. rewrite Hb, packs_overwrite by lia. cbn [obind].
  assert (forall l, length (List.flat_map be32 l) = (4 * length l)%nat) as Hfm.
  { clear. induction l as [|x l IH]; simpl; [done|]. rewrite IH. lia. }
  do 3 eexists. split; [done|]. split; [done|]. split; [done|]. split; [|done].
  constructor; simpl; [|lia|unfold DEFAULT_RPC_SZ; lia].
  eexists. split; [done|]. rewrite !length_app, length_take, length_drop, Hfm. lia.
Qed.

Lemma unpack_spec u x rest :
  u_wf u -> is_s32 x -> u_rest u = be32 x ++ rest ->
  exists u', unpack u = Val (u', x) /\ consumed u (be32 x) u' /\ u_rest u' = rest.
Proof.
  intros Hu Hx Hr. destruct (get_encode (A := sint) u x 0 rest) as (u' & Heq & Hc); [done..|].
  exists u'. split; [done|]. split; [done|]. by eapply consumed_rest.
Qed.

Lemma set_u_ind_wf u i :
  u_wf u -> 0 <= i <= u_sz u -> u_wf (set_u_ind u i).
Proof. intros [Hb Hi Hs Ho] Hle. by constructor. Qed.

End headers.

(** Reads one header word. *)
Ltac read_word :=
  match goal with
  | Hu : u_wf ?u, Hr : u_rest ?u = be32 ?x ++ ?rest |- context [unpack ?u] =>
      let u' := fresh "u" in let Hc := fresh "Hc" in
      destruct (unpack_spec u x rest Hu) as (u' & -> & Hc & ?);
      [auto with yfs|done|]; assert (u_wf u') by apply Hc; simpl
  end.

Section header_roundtrip.
Context `{Heap}.

(** What the receiver's buffer holds once the header words are packed. *)
Lemma packed_buffer m ws b b' m' :
  m_wf m -> RPC_HEADER_SZ <= m_ind m -> (length ws <= 5)%nat ->
  m_buf m = Some b -> m_wf m' -> m_buf m' = Some b' -> m_ind m' = m_ind m ->
  b' = take 4 b ++ List.flat_map be32 ws ++ drop (4 + 4 * length ws) b ->
  u_wf (set_u_ind (unmarshall_buf b' (m_ind m')) 4) /\
  (exists rest, u_rest (set_u_ind (unmarshall_buf b' (m_ind m')) 4) =
                List.flat_map be32 ws ++ rest) /\
  drop 24 (take (Z.to_nat (m_ind m')) b') = drop 24 (m_bytes m).
Proof.
  intros Hm Hh Hws Hb Hm' Hb' Hi Heq. change RPC_HEADER_SZ with 24 in Hh.
  pose proof Hm as [(b0 & ? & Hlen) Hind Hcapa]. assert (b0 = b) as -> by congruence.
  pose proof Hm' as [(b1 & ? & Hlen') Hind' Hcapa']. assert (b1 = b') as -> by congruence.
  unfold DEFAULT_RPC_SZ in *.
  assert (length (List.flat_map be32 ws) = (4 * length ws)%nat) as Hfm.
  { clear. induction ws as [|x l IH]; simpl; [done|]. rewrite IH. lia. }
  split; [|split].
  - apply set_u_ind_wf; [|simpl; lia].
    constructor; simpl; [eexists; split; [done|lia]|lia|unfold INT_MAX; lia|done].
  - unfold u_rest. cbn [u_ind u_sz u_buf set_u_ind unmarshall_buf default from_option id].
    rewrite Hi, Heq, app_assoc, take_app, length_app, length_take, Hfm.
    rewrite (take_ge (take 4 b ++ _)) by (rewrite length_app, length_take, Hfm; lia).
    rewrite <-app_assoc, drop_app_length' by (rewrite length_take; lia). by eexists.
  - unfold m_bytes. rewrite Hb, Hi. cbn [default from_option id].
    rewrite !skipn_firstn_comm. f_equal. rewrite Heq, app_assoc, drop_app, length_app, length_take, Hfm.
    rewrite drop_ge by (rewrite length_app, length_take, Hfm; lia).
    rewrite drop_drop. cbn [app]. f_equal. lia.
Qed.

Lemma rewind_spec u i b sz :
  u_wf u -> u_buf u = Some b -> u_sz u = sz -> 0 <= i <= sz ->
  u_wf (set_u_ind u i) /\ u_rest (set_u_ind u i) = drop (Z.to_nat i) (take (Z.to_nat sz) b).
Proof.
  intros Hu Hb Hsz Hi. split; [apply set_u_ind_wf; [done|lia]|].
  unfold u_rest. simpl. by rewrite Hb, Hsz.
Qed.

Lemma unpack_req_words u h rest :
  u_wf u -> req_header_ok h -> u_rest u = List.flat_map be32 (req_words h) ++ rest ->
  u_ind u = sizeof_rpc_sz_t ->
  exists u', unpack_req_header u = Val (set_u_ind u' RPC_HEADER_SZ, h) /\
             u_wf u' /\ u_sz u' = u_sz u /\ u_buf u' = u_buf u.
Proof.
  intros Hu (Hx & Hp & Hc & Hs & Hr) Hrest Hi.
  unfold unpack_req_header. replace (set_u_ind u sizeof_rpc_sz_t) with u by (by destruct u; simplify_eq/=).
  assert (forall z, is_u32 z -> is_s32 (s32 z)) as Hs32.
  { intros z _. unfold is_s32, s32. pose proof (Z.mod_pos_bound (z + 2 ^ 31) (2 ^ 32)). lia. }
  cbn [req_words List.flat_map] in Hrest. rewrite <-!app_assoc in Hrest.
  do 5 read_word. eexists. split.
  - rewrite !u32_s32 by done. by destruct h.
  - repeat match goal with Hc : consumed _ _ _ |- _ => destruct Hc as (? & _ & ? & ?) end.
    split; [done|]. split; congruence.
Qed.

Lemma unpack_reply_words u h rest :
  u_wf u -> reply_header_ok h -> u_rest u = List.flat_map be32 (reply_words h) ++ rest ->
  u_ind u = sizeof_rpc_sz_t ->
  exists u', unpack_reply_header u = Val (set_u_ind u' RPC_HEADER_SZ, h) /\
             u_wf u' /\ u_sz u' = u_sz u /\ u_buf u' = u_buf u.
Proof.
  intros Hu (Hx & Hr) Hrest Hi.
  unfold unpack_reply_header. replace (set_u_ind u sizeof_rpc_sz_t) with u by (by destruct u; simplify_eq/=).
  cbn [reply_words List.flat_map] in Hrest. rewrite <-!app_assoc in Hrest.
  do 2 read_word. eexists. split; [by destruct h|].
  repeat match goal with Hc : consumed _ _ _ |- _ => destruct Hc as (? & _ & ? & ?) end.
  split; [done|]. split; congruence.
Qed.

Lemma req_header_trip m h :
  m_wf m -> RPC_HEADER_SZ <= m_ind m -> req_header_ok h ->
  exists m' b' u,
    pack_req_header m h = Val m' /\ m_buf m' = Some b' /\ m_ind m' = m_ind m /\
    unpack_req_header (unmarshall_buf b' (m_ind m')) = Val (u, h) /\
    u_wf u /\ u_ind u = RPC_HEADER_SZ /\
    u_rest u = drop (Z.to_nat RPC_HEADER_SZ) (m_bytes m).
Proof.
  intros Hm Hh Hok. rewrite pack_req_header_elems.
  destruct (pack_words m (req_words h)) as (m' & b & b' & -> & Hb & Hb' & Hm' & Hi & Heq);
    [done|done|simpl; lia|].
  destruct (packed_buffer m (req_words h) b b' m') as (Hu & (rest & Hr) & Hd);
    [done|done|simpl; lia|done..|].
  destruct (unpack_req_words _ h rest Hu Hok Hr eq_refl) as (u & Heu & Hwu & Hsz & Hbuf).
  exists m', b', (set_u_ind u RPC_HEADER_SZ). do 3 (split; [done|]). split; [exact Heu|].
  destruct (rewind_spec u RPC_HEADER_SZ b' (m_ind m')) as [Hw Hrest];
    [done|by rewrite Hbuf|by rewrite Hsz|change RPC_HEADER_SZ with 24 in *; lia|].
  split; [done|]. split; [done|]. rewrite Hrest. exact Hd.
Qed.

(** The request header survives the trip. Packing a request header into a
    marshalled request and unpacking it from the received bytes returns the
    same header, leaves the read head on the first argument byte, and the
    argument bytes are those that were marshalled. *)
Theorem req_header_roundtrip m h :
  m_wf m -> RPC_HEADER_SZ <= m_ind m -> req_header_ok h ->
  exists m' b' u,
    pack_req_header m h = Val m' /\ m_buf m' = Some b' /\ m_ind m' = m_ind m /\
    unpack_req_header (unmarshall_buf b' (m_ind m')) = Val (u, h) /\
    u_ok u = true /\ u_ind u = RPC_HEADER_SZ /\
    u_rest u = drop (Z.to_nat RPC_HEADER_SZ) (m_bytes m).
Proof.
  intros Hm Hh Hok.
  destruct (req_header_trip m h Hm Hh Hok) as (m' & b' & u & ? & ? & ? & ? & Hw & ?).
  exists m', b', u. by pose proof (uwf_ok u Hw).
Qed.

Lemma reply_header_trip m h :
  m_wf m -> RPC_HEADER_SZ <= m_ind m -> reply_header_ok h ->
  exists m' b' u,
    pack_reply_header m h = Val m' /\ m_buf m' = Some b' /\ m_ind m' = m_ind m /\
    unpack_reply_header (unmarshall_buf b' (m_ind m')) = Val (u, h) /\
    u_wf u /\ u_ind u = RPC_HEADER_SZ /\
    u_rest u = drop (Z.to_nat RPC_HEADER_SZ) (m_bytes m).
Proof.
  intros Hm Hh Hok. rewrite pack_reply_header_elems.
  destruct (pack_words m (reply_words h)) as (m' & b & b' & -> & Hb & Hb' & Hm' & Hi & Heq);
    [done|done|simpl; lia|].
  destruct (packed_buffer m (reply_words h) b b' m') as (Hu & (rest & Hr) & Hd);
    [done|done|simpl; lia|done..|].
  destruct (unpack_reply_words _ h rest Hu Hok Hr eq_refl) as (u & Heu & Hwu & Hsz & Hbuf).
  exists m', b', (set_u_ind u RPC_HEADER_SZ). do 3 (split; [done|]). split; [exact Heu|].
  destruct (rewind_spec u RPC_HEADER_SZ b' (m_ind m')) as [Hw Hrest];
    [done|by rewrite Hbuf|by rewrite Hsz|change RPC_HEADER_SZ with 24 in *; lia|].
  split; [done|]. split; [done|]. rewrite Hrest. exact Hd.
Qed.

(** The reply header survives the trip, in the same sense. *)
Theorem reply_header_roundtrip m h :
  m_wf m -> RPC_HEADER_SZ <= m_ind m -> reply_header_ok h ->
  exists m' b' u,
    pack_reply_header m h = Val m' /\ m_buf m' = Some b' /\ m_ind m' = m_ind m /\
    unpack_reply_header (unmarshall_buf b' (m_ind m')) = Val (u, h) /\
    u_ok u = true /\ u_ind u = RPC_HEADER_SZ /\
    u_rest u = drop (Z.to_nat RPC_HEADER_SZ) (m_bytes m).
Proof.
  intros Hm Hh Hok.
  destruct (reply_header_trip m h Hm Hh Hok) as (m' & b' & u & ? & ? & ? & ? & Hw & ?).
  exists m', b', u. by pose proof (uwf_ok u Hw).
Qed.

(** C18: marshalling is lossless. Any value of a type that satisfies the
    contract (booleans, the integer types, strings, vectors and maps of such, and
    the protocol structures) written into a fresh [marshall], extracted with
    [str()] and put into a fresh [unmarshall], reads back as itself with
    [okdone()] true. *)
Theorem marshall_roundtrip {A} `{!Wire A, !WireLaws A} (a old : A) :
  wire_ok a -> Z.of_nat (length (encode a)) <= MAX_MARSHALL - RPC_HEADER_SZ ->
  exists m s u u',
    put marshall_new a = Val m /\ str m = Val s /\ take_content s = Val u /\
    get u old = Val (u', a) /\ okdone u' = true.
Proof.
  intros Ha Hlen. change RPC_HEADER_SZ with 24 in Hlen.
  destruct (put_encode marshall_new a) as (m & Hput & Happ);
    [apply marshall_new_wf|done|change (m_ind marshall_new) with 24; lia|].
  destruct (take_content_bytes (encode a)) as (u & Htc & Hu & Hr);
    [by apply encode_u8|lia|].
  destruct (get_encode u a old []) as (u' & Hget & Hc); [done|done|by rewrite app_nil_r|].
  exists m, (string_of_bytes (encode a)), u, u'.
  split; [done|]. split; [by apply str_appended|]. split; [done|].
  split; [done|]. by eapply okdone_consumed.
Qed.

End header_roundtrip.

#[local] Instance zero_heap : Heap := fun _ => 0.

Lemma req_header_roundtrip_witness :
  exists m' b' u,
    pack_req_header marshall_new (ReqHeader 7 (-3) 4294967295 5 6) = Val m' /\
    m_buf m' = Some b' /\ m_ind m' = m_ind marshall_new /\
    unpack_req_header (unmarshall_buf b' (m_ind m')) =
      Val (u, ReqHeader 7 (-3) 4294967295 5 6) /\
    u_ok u = true /\ u_ind u = RPC_HEADER_SZ /\
    u_rest u = drop (Z.to_nat RPC_HEADER_SZ) (m_bytes marshall_new).
Proof.
  apply (req_header_roundtrip marshall_new (ReqHeader 7 (-3) 4294967295 5 6)).
  - apply marshall_new_wf.
  - vm_compute. discriminate.
  - unfold req_header_ok, is_s32, is_u32. simpl. lia.
Defined.

Lemma reply_header_roundtrip_witness :
  exists m' b' u,
    pack_reply_header marshall_new (ReplyHeader 7 (-3)) = Val m' /\
    m_buf m' = Some b' /\ m_ind m' = m_ind marshall_new /\
    unpack_reply_header (unmarshall_buf b' (m_ind m')) = Val (u, ReplyHeader 7 (-3)) /\
    u_ok u = true /\ u_ind u = RPC_HEADER_SZ /\
    u_rest u = drop (Z.to_nat RPC_HEADER_SZ) (m_bytes marshall_new).
Proof.
  apply (reply_header_roundtrip marshall_new (ReplyHeader 7 (-3))).
  - apply marshall_new_wf.
  - vm_compute. discriminate.
  - unfold reply_header_ok, is_s32. simpl. lia.
Defined.

Lemma marshall_roundtrip_witness :
  exists m s u u',
    put marshall_new ["a"; "bc"]%string = Val m /\ str m = Val s /\
    take_content s = Val u /\ get u [] = Val (u', ["a"; "bc"]%string) /\ okdone u' = true.
Proof.
  apply (marshall_roundtrip ["a"; "bc"]%string []).
  - split; [repeat constructor; vm_compute; discriminate|vm_compute; reflexivity].
  - vm_compute. discriminate.
Defined.

(** The bounds check of [unmarshall::rawbytes] wraps around. The test
    [(_ind + n) > (unsigned)_sz] is made modulo [2^32], so a length prefix
    within [_ind] of [2^32] passes it however short the buffer is, and the
    copy that follows leaves the buffer. *)
Theorem get_string_length_wraps :
  let u := Unmarshall (Some (replicate 24 0 ++ [255; 255; 255; 255; 97; 98])) 30 24 true in
  exists u', get_uint u 0 = Val (u', 2 ^ 32 - 1) /\
             u32 (u_ind u' + (2 ^ 32 - 1)) <= u_sz u' < u_ind u' + (2 ^ 32 - 1) /\
             get_string u EmptyString = Fault Undefined.
Proof.
  eexists. split; [vm_compute; reflexivity|].
  split; [vm_compute; split; [discriminate|reflexivity]|].
  vm_compute. reflexivity.
Qed.
