(* ===== verification/MarshallMap.v ===== *)
(** * Marshalling of [std::map] (the last templates of include/rpc/marshall.h)

    A [std::map] is a [gmap] with an order on its keys, in which it is
    iterated. The instance of [WireLaws] makes maps values like any other for
    [marshall_roundtrip] and the stubs. *)

From S2P Require Import Prelude.
From S2P Require Import Marshall.

Local Open Scope Z_scope.

(** [std::less] on the keys. *)
Class KeyOrder (A : Type) := {
  key_le : A -> A -> Prop;
  #[global] key_le_dec :: RelDecision key_le;
  #[global] key_le_trans :: Transitive key_le;
  #[global] key_le_total :: Total key_le;
}.

#[global] Instance uint_eq_dec : EqDecision uint.
Proof. exact Z.eq_dec. Defined.
#[global] Instance uint_countable : Countable uint.
Proof. unfold uint. apply _. Defined.
#[global] Instance key_order_uint : KeyOrder uint.
Proof. refine {| key_le := Z.le : uint -> uint -> Prop |}; [exact Z.le_dec|exact Z.le_trans|exact Z.le_ge_cases]. Defined.

Section std_map.
Context `{Heap, Countable A, !KeyOrder A, !Wire A, !Wire B}.

(** What an iterator visits, from [begin] to [end]. *)
Definition entry_le (x y : A * B) : Prop := key_le x.1 y.1.
#[global] Instance entry_le_dec : RelDecision entry_le.
Proof. intros x y. apply key_le_dec. Defined.
Definition iterate (d : gmap A B) : list (A * B) := merge_sort entry_le (map_to_list d).

(** The body of the writing loop. *)
Definition put_entry (m : marshall) (e : A * B) : outcome marshall :=
  let! m := put m e.1 in put m e.2.

Definition put_map (m : marshall) (d : gmap A B) : outcome marshall :=
  let! m := put_uint m (u32 (Z.of_nat (size d))) in
  put_elems put_entry m (iterate d).

(** The body of the reading loop, but for the insertion. *)
Definition get_entry (u : unmarshall) (_ : A * B) : outcome (unmarshall * (A * B)) :=
  let! '(u, a) := get u dflt in
  let! '(u, b) := get u dflt in
  Val (u, (a, b)).

Fixpoint get_entries (n : nat) (u : unmarshall) (d : gmap A B) : outcome (unmarshall * gmap A B) :=
  match n with
  | O => Val (u, d)
  | S n => let! '(u, e) := get_entry u (dflt, dflt) in get_entries n u (<[e.1 := e.2]> d)
  end.

Definition get_map (u : unmarshall) (_ : gmap A B) : outcome (unmarshall * gmap A B) :=
  let! '(u, n) := get_uint u 0 in
  get_entries (Z.to_nat n) u ∅.

#[global] Instance wire_map : Wire (gmap A B) := {| dflt := ∅; put := put_map; get := get_map |}.

(** ** The iteration visits every entry once, by ascending keys *)

Lemma iterate_perm d : iterate d ≡ₚ map_to_list d.
Proof. apply merge_sort_Permutation. Qed.

Lemma iterate_sorted d : Sorted entry_le (iterate d).
Proof. apply Sorted_merge_sort. intros x y. apply key_le_total. Qed.

Lemma iterate_length d : length (iterate d) = size d.
Proof. rewrite iterate_perm. apply length_map_to_list. Qed.

(** Inserting the entries in the order of their iteration gives the map. *)
Definition insert_all (d : gmap A B) (l : list (A * B)) : gmap A B := foldl (fun d e => <[e.1 := e.2]> d) d l.

Lemma insert_all_union (l : list (A * B)) : forall d : gmap A B,
  insert_all d l = list_to_map (reverse l) ∪ d.
Proof.
  induction l as [|[a b] l IH]; intros d; simpl; [by rewrite (left_id_L ∅ (∪))|].
  rewrite IH, reverse_cons, list_to_map_app. simpl.
  by rewrite <-(assoc_L (∪)), insert_empty, <-insert_union_singleton_l.
Qed.

Lemma iterate_rebuilds d : insert_all ∅ (iterate d) = d.
Proof.
  rewrite insert_all_union, (right_id_L ∅ (∪)).
  assert (reverse (iterate d) ≡ₚ map_to_list d) as Hp by (rewrite reverse_Permutation; apply iterate_perm).
  rewrite (list_to_map_proper _ (map_to_list d)); [apply list_to_map_to_list| |done].
  rewrite Hp. apply NoDup_fst_map_to_list.
Qed.

(** ** The contract *)

Context `{!WireLaws A, !WireLaws B}.

(** An entry is written and read as its key and its value. *)
#[local] Instance wire_entry : Wire (A * B) := {| dflt := (dflt, dflt); put := put_entry; get := get_entry |}.
#[local] Program Instance wire_entry_laws : WireLaws (A * B) :=
  {| encode e := encode e.1 ++ encode e.2; wire_ok e := wire_ok e.1 /\ wire_ok e.2 |}.
Next Obligation. intros [a b] [Ha Hb]. apply Forall_app. by split; apply encode_u8. Qed.
Next Obligation.
  intros m [a b] Hm [Ha Hb] Hmax. simpl in *. rewrite length_app in Hmax. unfold put_entry. simpl.
  destruct (put_encode m a) as (m1 & -> & Happ1); [done|done|lia|]. cbn [obind].
  pose proof Happ1 as (Hm1 & _ & Hi1). destruct (put_encode m1 b) as (m2 & -> & Happ2); [done|done|lia|].
  exists m2. split; [done|]. by eapply appended_trans.
Qed.
Next Obligation.
  intros u [a b] old rest Hu [Ha Hb] Hr. simpl in *. rewrite <-app_assoc in Hr. unfold get_entry.
  destruct (get_encode u a dflt _ Hu Ha Hr) as (u1 & -> & Hc1). cbn [obind].
  destruct (get_encode u1 b dflt rest) as (u2 & -> & Hc2); [apply Hc1|done|by eapply consumed_rest|].
  exists u2. split; [done|]. by eapply consumed_trans.
Qed.

Lemma get_entries_spec (l : list (A * B)) : forall u d rest,
  u_wf u -> Forall wire_ok l -> u_rest u = List.flat_map encode l ++ rest ->
  exists u', get_entries (length l) u d = Val (u', insert_all d l) /\
             consumed u (List.flat_map encode l) u'.
Proof.
  induction l as [|e l IH]; intros u d rest Hu Hok Hr.
  - exists u. done.
  - apply Forall_cons in Hok as [He Hl]. cbn [List.flat_map] in Hr. rewrite <-app_assoc in Hr.
    destruct (get_encode u e (dflt, dflt) _ Hu He Hr) as (u1 & Hg & Hc1).
    change (get_entry u (dflt, dflt) = Val (u1, e)) in Hg. cbn [length get_entries]. rewrite Hg. cbn [obind].
    destruct (IH u1 (<[e.1 := e.2]> d) rest) as (u' & -> & Hc2); [apply Hc1|done|by eapply consumed_rest|].
    exists u'. split; [done|]. by eapply consumed_trans.
Qed.

(** A map satisfies the contract when its keys and values do: it is read back
    as itself, whatever the map read into held before. *)
#[global] Program Instance wire_map_laws : WireLaws (gmap A B) :=
  {| encode d := be32 (Z.of_nat (size d)) ++ List.flat_map encode (iterate d);
     wire_ok d := Forall wire_ok (iterate d) /\ Z.of_nat (size d) < 2 ^ 32 |}.
Next Obligation.
  intros d [Hok _]. apply Forall_app; split; [auto with yfs|].
  induction Hok as [|e l He Hl IH]; [constructor|].
  cbn [List.flat_map]. apply Forall_app; split; [by apply (encode_u8 (WireLaws := wire_entry_laws))|done].
Qed.
Next Obligation.
  intros m d Hm [Hok Hlen] Hmax. rewrite length_app in Hmax. change (length (be32 _)) with 4%nat in Hmax.
  change (put m d) with (put_map m d). unfold put_map. rewrite u32_id by (unfold is_u32; lia).
  destruct (put_uint_spec m (Z.of_nat (size d))) as (m1 & -> & Happ1); [done|lia|]. cbn [obind].
  pose proof Happ1 as (Hm1 & _ & Hi1). change (length (be32 _)) with 4%nat in Hi1.
  destruct (put_elems_spec (iterate d) m1) as (m' & Hp & Happ2); [done|done|lia|].
  exists m'. split; [exact Hp|]. exact (appended_trans _ _ _ _ _ Happ1 Happ2).
Qed.
Next Obligation.
  intros u d old rest Hu [Hok Hlen] Hr. rewrite <-app_assoc in Hr.
  change (get u old) with (get_map u old). unfold get_map.
  destruct (get_uint_spec u _ 0 _ Hu Hr) as (u1 & -> & Hc1). cbn [obind].
  rewrite u32_id, Nat2Z.id, <-iterate_length by (unfold is_u32; lia).
  destruct (get_entries_spec (iterate d) u1 ∅ rest) as (u' & -> & Hc2);
    [apply Hc1|done|by eapply consumed_rest|].
  exists u'. rewrite iterate_rebuilds. split; [done|]. rewrite iterate_length.
  exact (consumed_trans _ _ _ _ _ Hc1 Hc2).
Qed.

End std_map.

#[local] Instance zeros : Heap := fun _ => 0.

(** The entries are written by ascending keys, however they were inserted. *)
Lemma map_is_written_in_order :
  (let! m := put marshall_new (list_to_map [(300 : uint, "b"%string); (2, "a"%string)] : gmap uint string) in
   Val (drop 24 (m_bytes m))) =
  Val [0; 0; 0; 2; 0; 0; 0; 2; 0; 0; 0; 1; 97; 0; 0; 1; 44; 0; 0; 0; 1; 98].
Proof. vm_compute. reflexivity. Qed.
