(* ===== verification/Protocol.v ===== *)
(** * Protocol structures (include/paxos/paxos_protocol.h, include/rsm/rsm_protocol.h)

    The structures exchanged by the Paxos, config and RSM layers, their
    comparison operators, and their [operator<<] and [operator>>] as instances
    of [Wire] with their laws. *)

From S2P Require Import Prelude Marshall.

(** ** Paxos *)

Record prop_t := Prop_t { pn : uint; pm : string }.

Record preparearg := Preparearg { pa_instance : uint; pa_n : prop_t }.

Record prepareres := Prepareres {
  pr_oldinstance : bool;
  pr_accept : bool;
  pr_n_a : prop_t;
  pr_v_a : string;
}.

Record acceptarg := Acceptarg { aa_instance : uint; aa_n : prop_t; aa_v : string }.

Record decidearg := Decidearg { da_instance : uint; da_v : string }.

(** [enum xxstatus { OK, ERR }] *)
Definition paxos_OK : Z := 0.
Definition paxos_ERR : Z := 1.

(** [enum rpc_numbers] of [paxos_protocol]. *)
Definition preparereq_proc : Z := 0x11001.
Definition acceptreq_proc : Z := 0x11002.
Definition decidereq_proc : Z := 0x11003.
Definition heartbeat_proc : Z := 0x11004.

(** ** RSM *)

Record viewstamp := Viewstamp { vs_vid : uint; vs_seqno : uint }.

Record transferres := Transferres { tr_state : string; tr_last : viewstamp }.

Record joinres := Joinres { jr_log : string }.

(** [rsm_client_protocol::xxstatus] *)
Definition rsmc_OK : Z := 0.
Definition rsmc_ERR : Z := 1.
Definition rsmc_NOTPRIMARY : Z := 2.
Definition rsmc_BUSY : Z := 3.

(** [rsm_protocol::xxstatus] *)
Definition rsm_OK : Z := 0.
Definition rsm_ERR : Z := 1.
Definition rsm_BUSY : Z := 2.

(** [rsm_test_protocol::xxstatus] *)
Definition rsmt_OK : Z := 0.
Definition rsmt_ERR : Z := 1.

Definition vs_eqb (a b : viewstamp) : bool :=
  (vs_vid a =? vs_vid b) && (vs_seqno a =? vs_seqno b).
Definition vs_gtb (a b : viewstamp) : bool :=
  (vs_vid a >? vs_vid b) || ((vs_vid a =? vs_vid b) && (vs_seqno a >? vs_seqno b)).
Definition vs_neqb (a b : viewstamp) : bool :=
  negb (vs_vid a =? vs_vid b) || negb (vs_seqno a =? vs_seqno b).

#[global] Instance uint_eq_dec : EqDecision uint := Z.eq_dec.
#[global] Instance prop_t_eq_dec : EqDecision prop_t.
Proof. solve_decision. Defined.
#[global] Instance viewstamp_eq_dec : EqDecision viewstamp.
Proof. solve_decision. Defined.

(** ** Marshalling *)

Section wire.
Context `{Heap}.

Definition put_prop_t (m : marshall) (a : prop_t) : outcome marshall :=
  let! m := put m (pn a) in
  put m (pm a).
Definition get_prop_t (u : unmarshall) (a : prop_t) : outcome (unmarshall * prop_t) :=
  let! '(u, n) := get u (pn a) in
  let! '(u, m) := get u (pm a) in
  Val (u, Prop_t n m).
#[global] Instance wire_prop_t : Wire prop_t :=
  {| dflt := Prop_t dflt dflt; put := put_prop_t; get := get_prop_t |}.

Definition put_preparearg (m : marshall) (a : preparearg) : outcome marshall :=
  let! m := put m (pa_instance a) in
  put m (pa_n a).
Definition get_preparearg (u : unmarshall) (a : preparearg)
  : outcome (unmarshall * preparearg) :=
  let! '(u, i) := get u (pa_instance a) in
  let! '(u, n) := get u (pa_n a) in
  Val (u, Preparearg i n).
#[global] Instance wire_preparearg : Wire preparearg :=
  {| dflt := Preparearg dflt dflt; put := put_preparearg; get := get_preparearg |}.

Definition put_prepareres (m : marshall) (r : prepareres) : outcome marshall :=
  let! m := put m (pr_oldinstance r) in
  let! m := put m (pr_accept r) in
  let! m := put m (pr_n_a r) in
  put m (pr_v_a r).
Definition get_prepareres (u : unmarshall) (r : prepareres)
  : outcome (unmarshall * prepareres) :=
  let! '(u, o) := get u (pr_oldinstance r) in
  let! '(u, a) := get u (pr_accept r) in
  let! '(u, n) := get u (pr_n_a r) in
  let! '(u, v) := get u (pr_v_a r) in
  Val (u, Prepareres o a n v).
#[global] Instance wire_prepareres : Wire prepareres :=
  {| dflt := Prepareres dflt dflt dflt dflt; put := put_prepareres; get := get_prepareres |}.

Definition put_acceptarg (m : marshall) (a : acceptarg) : outcome marshall :=
  let! m := put m (aa_instance a) in
  let! m := put m (aa_n a) in
  put m (aa_v a).
Definition get_acceptarg (u : unmarshall) (a : acceptarg)
  : outcome (unmarshall * acceptarg) :=
  let! '(u, i) := get u (aa_instance a) in
  let! '(u, n) := get u (aa_n a) in
  let! '(u, v) := get u (aa_v a) in
  Val (u, Acceptarg i n v).
#[global] Instance wire_acceptarg : Wire acceptarg :=
  {| dflt := Acceptarg dflt dflt dflt; put := put_acceptarg; get := get_acceptarg |}.

Definition put_decidearg (m : marshall) (a : decidearg) : outcome marshall :=
  let! m := put m (da_instance a) in
  put m (da_v a).
Definition get_decidearg (u : unmarshall) (a : decidearg)
  : outcome (unmarshall * decidearg) :=
  let! '(u, i) := get u (da_instance a) in
  let! '(u, v) := get u (da_v a) in
  Val (u, Decidearg i v).
#[global] Instance wire_decidearg : Wire decidearg :=
  {| dflt := Decidearg dflt dflt; put := put_decidearg; get := get_decidearg |}.

Definition put_viewstamp (m : marshall) (v : viewstamp) : outcome marshall :=
  let! m := put m (vs_vid v) in
  put m (vs_seqno v).
Definition get_viewstamp (u : unmarshall) (v : viewstamp)
  : outcome (unmarshall * viewstamp) :=
  let! '(u, vid) := get u (vs_vid v) in
  let! '(u, seqno) := get u (vs_seqno v) in
  Val (u, Viewstamp vid seqno).
#[global] Instance wire_viewstamp : Wire viewstamp :=
  {| dflt := Viewstamp 0 0; put := put_viewstamp; get := get_viewstamp |}.

Definition put_transferres (m : marshall) (r : transferres) : outcome marshall :=
  let! m := put m (tr_state r) in
  put m (tr_last r).
Definition get_transferres (u : unmarshall) (r : transferres)
  : outcome (unmarshall * transferres) :=
  let! '(u, s) := get u (tr_state r) in
  let! '(u, l) := get u (tr_last r) in
  Val (u, Transferres s l).
#[global] Instance wire_transferres : Wire transferres :=
  {| dflt := Transferres dflt dflt; put := put_transferres; get := get_transferres |}.

Definition put_joinres (m : marshall) (r : joinres) : outcome marshall :=
  put m (jr_log r).
Definition get_joinres (u : unmarshall) (r : joinres) : outcome (unmarshall * joinres) :=
  let! '(u, l) := get u (jr_log r) in Val (u, Joinres l).
#[global] Instance wire_joinres : Wire joinres :=
  {| dflt := Joinres dflt; put := put_joinres; get := get_joinres |}.

End wire.

(** ** Laws

    Each structure is written field by field; its encoding is the
    concatenation of its fields' encodings. *)

(** Performs the next field write of the goal. *)
Ltac put_field :=
  match goal with
  | Hm : m_wf ?m, Hmax : m_ind ?m0 + _ <= MAX_MARSHALL |- context [put ?m ?a] =>
      let m' := fresh "m" in let Happ := fresh "Happ" in
      let Hi := fresh "Hi" in
      destruct (put_encode m a) as (m' & -> & Happ);
      [done|tauto|rewrite ?length_app in Hmax; lia|]; cbn [obind];
      pose proof Happ as (? & _ & Hi)
  end.

(** Performs the next field read of the goal. *)
Ltac get_field :=
  match goal with
  | Hu : u_wf ?u, Hr : u_rest ?u = encode ?a ++ ?rest |- context [get ?u ?old] =>
      let u' := fresh "u" in let Hc := fresh "Hc" in
      destruct (get_encode u a old rest Hu) as (u' & -> & Hc);
      [tauto|done|]; cbn [obind];
      pose proof (consumed_rest u u' _ rest Hc Hr);
      assert (u_wf u') by apply Hc
  end.

Tactic Notation "wire_put" reference(i) reference(f) :=
  intros m a Hm Hok Hmax; cbn beta in *; unfold put, i; cbn iota beta; unfold f; repeat put_field;
  eexists; split; [reflexivity|];
  repeat first [eassumption | eapply appended_trans; [eassumption|]].

Tactic Notation "wire_get" reference(i) reference(f) :=
  intros u a old rest Hu Hok Hr; cbn beta in *; rewrite <-?app_assoc in Hr;
  unfold get, i; cbn iota beta; unfold f; repeat get_field;
  eexists; split; [destruct a; reflexivity|];
  repeat first [eassumption | eapply consumed_trans; [eassumption|]].

Ltac wire_u8 :=
  intros a Hok; cbn beta in *; rewrite ?Forall_app; split_and?; apply encode_u8; tauto.

Section laws.
Context `{Heap}.

#[global] Program Instance wire_prop_t_laws : WireLaws prop_t :=
  {| encode a := encode (pn a) ++ encode (pm a);
     wire_ok a := wire_ok (pn a) /\ wire_ok (pm a) |}.
Next Obligation. wire_u8. Qed.
Next Obligation. wire_put wire_prop_t put_prop_t. Qed.
Next Obligation. wire_get wire_prop_t get_prop_t. Qed.

#[global] Program Instance wire_preparearg_laws : WireLaws preparearg :=
  {| encode a := encode (pa_instance a) ++ encode (pa_n a);
     wire_ok a := wire_ok (pa_instance a) /\ wire_ok (pa_n a) |}.
Next Obligation. wire_u8. Qed.
Next Obligation. wire_put wire_preparearg put_preparearg. Qed.
Next Obligation. wire_get wire_preparearg get_preparearg. Qed.

#[global] Program Instance wire_prepareres_laws : WireLaws prepareres :=
  {| encode a := encode (pr_oldinstance a) ++ encode (pr_accept a) ++ encode (pr_n_a a) ++ encode (pr_v_a a);
     wire_ok a := wire_ok (pr_oldinstance a) /\ wire_ok (pr_accept a) /\ wire_ok (pr_n_a a) /\ wire_ok (pr_v_a a) |}.
Next Obligation. wire_u8. Qed.
Next Obligation. wire_put wire_prepareres put_prepareres. Qed.
Next Obligation. wire_get wire_prepareres get_prepareres. Qed.

#[global] Program Instance wire_acceptarg_laws : WireLaws acceptarg :=
  {| encode a := encode (aa_instance a) ++ encode (aa_n a) ++ encode (aa_v a);
     wire_ok a := wire_ok (aa_instance a) /\ wire_ok (aa_n a) /\ wire_ok (aa_v a) |}.
Next Obligation. wire_u8. Qed.
Next Obligation. wire_put wire_acceptarg put_acceptarg. Qed.
Next Obligation. wire_get wire_acceptarg get_acceptarg. Qed.

#[global] Program Instance wire_decidearg_laws : WireLaws decidearg :=
  {| encode a := encode (da_instance a) ++ encode (da_v a);
     wire_ok a := wire_ok (da_instance a) /\ wire_ok (da_v a) |}.
Next Obligation. wire_u8. Qed.
Next Obligation. wire_put wire_decidearg put_decidearg. Qed.
Next Obligation. wire_get wire_decidearg get_decidearg. Qed.

#[global] Program Instance wire_viewstamp_laws : WireLaws viewstamp :=
  {| encode a := encode (vs_vid a) ++ encode (vs_seqno a);
     wire_ok a := wire_ok (vs_vid a) /\ wire_ok (vs_seqno a) |}.
Next Obligation. wire_u8. Qed.
Next Obligation. wire_put wire_viewstamp put_viewstamp. Qed.
Next Obligation. wire_get wire_viewstamp get_viewstamp. Qed.

#[global] Program Instance wire_transferres_laws : WireLaws transferres :=
  {| encode a := encode (tr_state a) ++ encode (tr_last a);
     wire_ok a := wire_ok (tr_state a) /\ wire_ok (tr_last a) |}.
Next Obligation. wire_u8. Qed.
Next Obligation. wire_put wire_transferres put_transferres. Qed.
Next Obligation. wire_get wire_transferres get_transferres. Qed.

#[global] Program Instance wire_joinres_laws : WireLaws joinres :=
  {| encode a := encode (jr_log a);
     wire_ok a := wire_ok (jr_log a) |}.
Next Obligation. wire_u8. Qed.
Next Obligation. wire_put wire_joinres put_joinres. Qed.
Next Obligation. wire_get wire_joinres get_joinres. Qed.

End laws.
