(* ===== verification/Stubs.v ===== *)
(** * Call and handler stubs (the templates of include/rpc/rpc.h and include/rsm/rsm.h)

    [rpcc::call] marshals its arguments one after the other; the class [h1]
    that [rpcs::reg] builds unmarshals them, calls the registered method and
    marshals its result.  The overloads differ only in the number of
    arguments, so an argument list is a nested pair and the overloads are
    instances of [put_args], [get_args] and [rpcs_fn]. *)

From S2P Require Import Prelude Marshall.

(** ** [rpc_const] *)

Definition bind_proc : Z := 1.
Definition timeout_failure : Z := -1.
Definition unmarshal_args_failure : Z := -2.
Definition unmarshal_reply_failure : Z := -3.
Definition atmostonce_failure : Z := -4.
Definition oldsrv_failure : Z := -5.
Definition bind_failure : Z := -6.
Definition cancel_failure : Z := -7.

(** ** Argument lists *)

Class Args `{Heap} (T : Type) := {
  put_args : marshall -> T -> outcome marshall;
  get_args : unmarshall -> outcome (unmarshall * T);
}.

Section args.
Context `{Heap}.

#[global] Instance args_nil : Args unit :=
  {| put_args m _ := Val m; get_args u := Val (u, tt) |}.

#[global] Instance args_cons {A T} `{!Wire A, !Args T} : Args (A * T) :=
  {| put_args m '(a, t) := let! m := put m a in put_args m t;
     get_args u := let! '(u, a) := get u dflt in
                   let! '(u, t) := get_args u in
                   Val (u, (a, t)) |}.

(** ** The handler class [h1] of [rpcs::reg]

    A method receives the server object, the arguments and the
    default-constructed reply, and returns the object, the reply and its
    status. *)

Definition method (S T R : Type) : Type := S -> T -> R -> outcome (S * R * Z).

Definition handler_fn (S : Type) : Type :=
  S -> unmarshall -> marshall -> outcome (S * marshall * Z).

Definition rpcs_fn {S T R} `{!Args T, !Wire R} (meth : method S T R) : handler_fn S :=
  fun sob args ret =>
    let! '(args, a) := get_args args in
    if negb (okdone args) then Val (sob, ret, unmarshal_args_failure)
    else let! '(sob, r, b) := meth sob a dflt in
         let! ret := put ret r in
         Val (sob, ret, b).

(** The handlers [rsm::reg] builds fail a [VERIFY] instead of returning an
    error. *)
Definition rsm_fn {S T R} `{!Args T, !Wire R} (meth : method S T R) : handler_fn S :=
  fun sob args ret =>
    let! '(args, a) := get_args args in
    VERIFY (okdone args) ;;;
    let! '(sob, r, b) := meth sob a dflt in
    let! ret := put ret r in
    Val (sob, ret, b).

Section overloads.
Context {S A1 A2 A3 A4 A5 A6 A7 R : Type}.
Context `{!Wire A1, !Wire A2, !Wire A3, !Wire A4, !Wire A5, !Wire A6, !Wire A7, !Wire R}.

Definition rpcs_reg_1 (meth : S -> A1 -> R -> outcome (S * R * Z)) : handler_fn S :=
  rpcs_fn (T := A1 * unit) (fun s '(a1, _) r => meth s a1 r).
Definition rpcs_reg_2 (meth : S -> A1 -> A2 -> R -> outcome (S * R * Z)) : handler_fn S :=
  rpcs_fn (T := A1 * (A2 * unit)) (fun s '(a1, (a2, _)) r => meth s a1 a2 r).
Definition rpcs_reg_3 (meth : S -> A1 -> A2 -> A3 -> R -> outcome (S * R * Z)) : handler_fn S :=
  rpcs_fn (T := A1 * (A2 * (A3 * unit)))
    (fun s '(a1, (a2, (a3, _))) r => meth s a1 a2 a3 r).
Definition rpcs_reg_4 (meth : S -> A1 -> A2 -> A3 -> A4 -> R -> outcome (S * R * Z))
  : handler_fn S :=
  rpcs_fn (T := A1 * (A2 * (A3 * (A4 * unit))))
    (fun s '(a1, (a2, (a3, (a4, _)))) r => meth s a1 a2 a3 a4 r).
Definition rpcs_reg_5 (meth : S -> A1 -> A2 -> A3 -> A4 -> A5 -> R -> outcome (S * R * Z))
  : handler_fn S :=
  rpcs_fn (T := A1 * (A2 * (A3 * (A4 * (A5 * unit)))))
    (fun s '(a1, (a2, (a3, (a4, (a5, _))))) r => meth s a1 a2 a3 a4 a5 r).
Definition rpcs_reg_6
    (meth : S -> A1 -> A2 -> A3 -> A4 -> A5 -> A6 -> R -> outcome (S * R * Z))
  : handler_fn S :=
  rpcs_fn (T := A1 * (A2 * (A3 * (A4 * (A5 * (A6 * unit))))))
    (fun s '(a1, (a2, (a3, (a4, (a5, (a6, _)))))) r => meth s a1 a2 a3 a4 a5 a6 r).
Definition rpcs_reg_7
    (meth : S -> A1 -> A2 -> A3 -> A4 -> A5 -> A6 -> A7 -> R -> outcome (S * R * Z))
  : handler_fn S :=
  rpcs_fn (T := A1 * (A2 * (A3 * (A4 * (A5 * (A6 * (A7 * unit)))))))
    (fun s '(a1, (a2, (a3, (a4, (a5, (a6, (a7, _))))))) r =>
       meth s a1 a2 a3 a4 a5 a6 a7 r).

Definition rsm_reg_1 (meth : S -> A1 -> R -> outcome (S * R * Z)) : handler_fn S :=
  rsm_fn (T := A1 * unit) (fun s '(a1, _) r => meth s a1 r).
Definition rsm_reg_2 (meth : S -> A1 -> A2 -> R -> outcome (S * R * Z)) : handler_fn S :=
  rsm_fn (T := A1 * (A2 * unit)) (fun s '(a1, (a2, _)) r => meth s a1 a2 r).
Definition rsm_reg_3 (meth : S -> A1 -> A2 -> A3 -> R -> outcome (S * R * Z)) : handler_fn S :=
  rsm_fn (T := A1 * (A2 * (A3 * unit)))
    (fun s '(a1, (a2, (a3, _))) r => meth s a1 a2 a3 r).
Definition rsm_reg_4 (meth : S -> A1 -> A2 -> A3 -> A4 -> R -> outcome (S * R * Z))
  : handler_fn S :=
  rsm_fn (T := A1 * (A2 * (A3 * (A4 * unit))))
    (fun s '(a1, (a2, (a3, (a4, _)))) r => meth s a1 a2 a3 a4 r).
(** The five-argument handler reads four arguments; [a5] keeps the value its
    declaration gave it. *)
Definition rsm_reg_5 (meth : S -> A1 -> A2 -> A3 -> A4 -> A5 -> R -> outcome (S * R * Z))
  : handler_fn S :=
  rsm_fn (T := A1 * (A2 * (A3 * (A4 * unit))))
    (fun s '(a1, (a2, (a3, (a4, _)))) r => meth s a1 a2 a3 a4 dflt r).

End overloads.

(** ** [rpcc::call] and [rpcc::call_m]

    [call1] is the transport: it sends the request and returns its status and
    the reply it received. *)

Definition call_m {W R} `{!Wire R}
    (call1 : W -> Z -> marshall -> outcome (W * Z * unmarshall))
    (w : W) (proc : Z) (req : marshall) (r : R) : outcome (W * Z * R) :=
  let! '(w, intret, u) := call1 w proc req in
  if intret <? 0 then Val (w, intret, r)
  else let! '(u, r) := get u r in
       VERIFY (okdone u) ;;;
       Val (w, intret, r).

Definition call {W T R} `{!Args T, !Wire R}
    (call1 : W -> Z -> marshall -> outcome (W * Z * unmarshall))
    (w : W) (proc : Z) (a : T) (r : R) : outcome (W * Z * R) :=
  let! m := put_args marshall_new a in
  call_m call1 w proc m r.

End args.

(** ** The argument-list contract *)

Class ArgsLaws `{Heap} (T : Type) `{!Args T} := {
  encode_args : T -> list Z;
  args_ok : T -> Prop;
  encode_args_u8 t : args_ok t -> Forall is_u8 (encode_args t);
  put_args_encode m t :
    m_wf m -> args_ok t -> m_ind m + Z.of_nat (length (encode_args t)) <= MAX_MARSHALL ->
    exists m', put_args m t = Val m' /\ appended m (encode_args t) m';
  get_args_encode u t rest :
    u_wf u -> args_ok t -> u_rest u = encode_args t ++ rest ->
    exists u', get_args u = Val (u', t) /\ consumed u (encode_args t) u';
}.

Section laws.
Context `{Heap}.

Lemma consumed_nil u : u_wf u -> consumed u [] u.
Proof. by split. Qed.

#[global] Program Instance args_nil_laws : ArgsLaws unit :=
  {| encode_args _ := []; args_ok _ := True |}.
Next Obligation. constructor. Qed.
Next Obligation. intros m [] Hm _ _. exists m. split; [done|]. by apply appended_nil. Qed.
Next Obligation. intros u [] rest Hu _ _. exists u. split; [done|]. by apply consumed_nil. Qed.

#[global] Program Instance args_cons_laws {A T}
    `{!Wire A, !WireLaws A, !Args T, !ArgsLaws T} : ArgsLaws (A * T) :=
  {| encode_args t := encode t.1 ++ encode_args t.2;
     args_ok t := wire_ok t.1 /\ args_ok t.2 |}.
Next Obligation.
  intros A T ???? t [Ha Ht]. apply Forall_app; split; [by apply encode_u8|by apply encode_args_u8].
Qed.
Next Obligation.
  intros A T ???? m [a t] Hm [Ha Ht] Hmax. cbn in Ha, Ht, Hmax. rewrite length_app in Hmax.
  destruct (put_encode m a) as (m1 & Hp & Happ); [done|done|lia|].
  pose proof Happ as (Hm1 & _ & Hi).
  destruct (put_args_encode m1 t) as (m' & Hp' & Happ'); [done|done|lia|].
  exists m'. simpl. rewrite Hp. simpl. split; [done|]. by eapply appended_trans.
Qed.
Next Obligation.
  intros A T ???? u [a t] rest Hu [Ha Ht] Hr. cbn in Ha, Ht, Hr. rewrite <-app_assoc in Hr.
  destruct (get_encode u a dflt _ Hu Ha Hr) as (u1 & Hg & Hc).
  destruct (get_args_encode u1 t rest) as (u' & Hg' & Hc');
    [apply Hc|done|by eapply consumed_rest|].
  exists u'. simpl. rewrite Hg. simpl. rewrite Hg'. simpl. split; [done|].
  by eapply consumed_trans.
Qed.

End laws.

(** ** A call over a faithful connection

    [exchange] is the byte path of one RPC: the request leaves with its
    header, the server unpacks it and runs the handler, the reply leaves with
    its header, and the client's [got_pdu] takes the buffer in. *)

Section exchange.
Context `{Heap}.

Definition wire_bytes (m : marshall) : outcome unmarshall :=
  match m_buf m with
  | Some b => Val (unmarshall_buf b (m_ind m))
  | None => Fault Undefined
  end.

Definition exchange {S} (fn : handler_fn S) (xid clt srv xid_rep : Z)
    (s : S) (proc : Z) (req : marshall) : outcome (S * Z * unmarshall) :=
  let! req := pack_req_header req (mk_req_header xid proc clt srv xid_rep) in
  let! u := wire_bytes req in
  let! '(u, h) := unpack_req_header u in
  let! '(s, rep, ret) := fn s u marshall_new in
  let! rep := pack_reply_header rep (ReplyHeader (rq_xid h) ret) in
  let! u := wire_bytes rep in
  let! '(u, rh) := unpack_reply_header u in
  Val (s, rp_ret rh, (take_in u).1).

Lemma rpcs_fn_spec {S T R} `{!Args T, !ArgsLaws T, !Wire R, !WireLaws R}
    (meth : method S T R) s s' a r b u :
  u_wf u -> args_ok a -> u_rest u = encode_args a ->
  meth s a dflt = Val (s', r, b) -> wire_ok r ->
  Z.of_nat (length (encode r)) <= MAX_MARSHALL - RPC_HEADER_SZ ->
  exists ret, rpcs_fn meth s u marshall_new = Val (s', ret, b) /\
              appended marshall_new (encode r) ret.
Proof.
  intros Hu Ha Hr Hmeth Hok Hlen.
  destruct (get_args_encode u a []) as (u' & Hget & Hc); [done|done|by rewrite app_nil_r|].
  destruct (put_encode marshall_new r) as (ret & Hput & Happ);
    [apply marshall_new_wf|done|change (m_ind marshall_new) with RPC_HEADER_SZ; lia|].
  exists ret. split; [|done]. unfold rpcs_fn. rewrite Hget. cbn [obind].
  rewrite (okdone_consumed u u' _ Hc Hr). cbn [negb]. rewrite Hmeth. cbn [obind].
  by rewrite Hput.
Qed.

Lemma appended_new_drop bs m :
  appended marshall_new bs m ->
  RPC_HEADER_SZ <= m_ind m /\ drop (Z.to_nat RPC_HEADER_SZ) (m_bytes m) = bs.
Proof.
  intros (Hm & Hb & Hi). change (m_ind marshall_new) with RPC_HEADER_SZ in Hi.
  split; [lia|]. rewrite Hb. apply drop_app_length'.
  pose proof (length_m_bytes _ marshall_new_wf) as Hl.
  change (m_ind marshall_new) with RPC_HEADER_SZ in Hl. lia.
Qed.

Lemma take_in_spec u :
  u_wf u -> u_ind u = RPC_HEADER_SZ ->
  u_wf (take_in u).1 /\ u_rest (take_in u).1 = u_rest u.
Proof.
  intros [Hb Hi Hs Hok] Hind. unfold take_in. simpl.
  destruct (Z.geb_spec (u_sz u) RPC_HEADER_SZ); [|lia].
  split; [by constructor; simpl; [|lia|lia|]|]. unfold u_rest. simpl. by rewrite Hind.
Qed.

(** An RPC is a method call. Over a connection that delivers the bytes,
    [rpcc::call] through the stubs, both headers and the handler class runs
    the registered method once, on exactly the arguments of the call, and
    returns its status and its reply. *)
Theorem call_is_method_call {S T R} `{!Args T, !ArgsLaws T, !Wire R, !WireLaws R}
    (meth : method S T R) (s s' : S) (proc xid clt srv xid_rep : Z)
    (a : T) (r r0 : R) (b : Z) :
  args_ok a -> Z.of_nat (length (encode_args a)) <= MAX_MARSHALL - RPC_HEADER_SZ ->
  meth s a dflt = Val (s', r, b) -> 0 <= b <= INT_MAX ->
  wire_ok r -> Z.of_nat (length (encode r)) <= MAX_MARSHALL - RPC_HEADER_SZ ->
  call (exchange (rpcs_fn meth) xid clt srv xid_rep) s proc a r0 = Val (s', b, r).
Proof.
  intros Ha Hla Hmeth Hb Hr Hlr. unfold INT_MAX in Hb.
  destruct (put_args_encode marshall_new a) as (m & Hput & Happ);
    [apply marshall_new_wf|done|change (m_ind marshall_new) with RPC_HEADER_SZ; lia|].
  unfold call. rewrite Hput. cbn [obind].
  apply appended_new_drop in Happ as Hm; destruct Hm as [Hmi Hmd].
  unfold call_m, exchange.
  set (h := mk_req_header xid proc clt srv xid_rep).
  assert (req_header_ok h) as Hh.
  { unfold req_header_ok, h. simpl. split_and!; try apply u32_range;
      unfold is_s32, s32;
      match goal with |- context [?x mod _] => pose proof (Z.mod_pos_bound x (2 ^ 32)) end; lia. }
  destruct (req_header_trip m h) as (m1 & b1 & u1 & -> & Hb1 & Hi1 & Hup & Hu1 & Hui1 & Hur1);
    [apply Happ|done|done|].
  unfold wire_bytes. cbn [obind]. rewrite Hb1. cbn [obind]. rewrite Hup. cbn [obind].
  destruct (rpcs_fn_spec meth s s' a r b u1) as (ret & -> & Happ');
    [done|done|by rewrite Hur1|done..|].
  cbn [obind]. apply appended_new_drop in Happ' as Hm'; destruct Hm' as [Hri Hrd].
  destruct (reply_header_trip ret (ReplyHeader (rq_xid h) b))
    as (m2 & b2 & u2 & -> & Hb2 & Hi2 & Hup2 & Hu2 & Hui2 & Hur2).
  { apply Happ'. } { done. } { split; [apply Hh|]. unfold is_s32. simpl. lia. }
  cbn [obind]. rewrite Hb2. cbn [obind]. rewrite Hup2. cbn [obind rp_ret].
  destruct (Z.ltb_spec b 0); [lia|].
  destruct (take_in_spec u2) as [Hw2 Hr2]; [done|done|].
  destruct (get_encode (take_in u2).1 r r0 []) as (u3 & -> & Hc3);
    [done|done|by rewrite Hr2, Hur2, Hrd, app_nil_r|].
  cbn [obind]. by rewrite (okdone_consumed _ u3 _ Hc3) by (by rewrite Hr2, Hur2, Hrd).
Qed.

(** The five-argument handler of [rsm::reg] cannot serve a five-argument
    call. It never reads the fifth argument, so the [VERIFY] on [okdone()]
    fails on every well-formed request whose fifth argument occupies at least
    one byte, and the method is not run. *)
Theorem rsm_reg_5_always_aborts {S A1 A2 A3 A4 A5 R : Type}
    (W1 : Wire A1) (L1 : WireLaws A1) (W2 : Wire A2) (L2 : WireLaws A2)
    (W3 : Wire A3) (L3 : WireLaws A3) (W4 : Wire A4) (L4 : WireLaws A4)
    (W5 : Wire A5) (L5 : WireLaws A5) (WR : Wire R)
    (meth : S -> A1 -> A2 -> A3 -> A4 -> A5 -> R -> outcome (S * R * Z))
    (s : S) (u : unmarshall) (ret : marshall) (a1 : A1) (a2 : A2) (a3 : A3) (a4 : A4) (a5 : A5) :
  u_wf u -> wire_ok a1 -> wire_ok a2 -> wire_ok a3 -> wire_ok a4 -> encode a5 <> [] ->
  u_rest u = encode a1 ++ encode a2 ++ encode a3 ++ encode a4 ++ encode a5 ->
  rsm_reg_5 meth s u ret = Fault VerifyFailed.
Proof.
  intros Hu H1 H2 H3 H4 Hne Hr.
  destruct (get_args_encode (T := A1 * (A2 * (A3 * (A4 * unit)))) u
              (a1, (a2, (a3, (a4, tt)))) (encode a5)) as (u' & Hget & Hc);
    [done|by split_and!|by simpl; rewrite <-!app_assoc|].
  unfold rsm_reg_5, rsm_fn. rewrite Hget. cbn [obind].
  replace (okdone u') with false; [done|]. symmetry. apply not_true_is_false. intros Hdone.
  unfold okdone in Hdone. destruct (u_ok u' && _) eqn:Hb; [|done].
  apply andb_true_iff in Hb as [_ Heq%Z.eqb_eq].
  assert (u_rest u' = encode a5) as Hr'.
  { eapply consumed_rest; [done|]. simpl. by rewrite <-!app_assoc. }
  apply Hne. rewrite <-Hr'. unfold u_rest. rewrite Heq. apply drop_ge.
  rewrite length_take. lia.
Qed.

End exchange.

#[local] Instance zero_heap : Heap := fun _ => 0.

(** A server that keeps a running total, called with a name and an amount. *)
Definition demo_method : method Z (string * (sint * unit)) sint :=
  fun total '(_, (k, _)) _ => Val (total + k, total + k, 0).

Definition demo_args : string * (sint * unit) := ("acct"%string, (2, tt)).

Lemma call_is_method_call_witness :
  call (exchange (rpcs_fn demo_method) 9 77 5 8) 40 0x7001 demo_args (0 : sint) =
  Val (42, 0, 42).
Proof.
  apply (call_is_method_call (R := sint) demo_method 40 42 0x7001 9 77 5 8 demo_args 42 0 0).
  - unfold args_ok. simpl. unfold INT_MAX, is_s32. split_and!; lia.
  - vm_compute. discriminate.
  - reflexivity.
  - unfold INT_MAX. lia.
  - unfold wire_ok. simpl. unfold is_s32. lia.
  - vm_compute. discriminate.
Defined.

Definition five_ints : unmarshall :=
  Unmarshall (Some (be32 1 ++ be32 2 ++ be32 3 ++ be32 4 ++ be32 5)) 20 0 true.

Lemma rsm_reg_5_always_aborts_witness :
  rsm_reg_5 (S := Z) (A1 := sint) (A2 := sint) (A3 := sint) (A4 := sint) (A5 := sint) (R := sint)
    (fun s a b c d e _ => Val (s, a + b + c + d + e, 0)) 0 five_ints marshall_new =
  Fault VerifyFailed.
Proof.
  apply (rsm_reg_5_always_aborts wire_int wire_int_laws wire_int wire_int_laws
           wire_int wire_int_laws wire_int wire_int_laws wire_int wire_int_laws wire_int
           (fun s a b c d e _ => Val (s, a + b + c + d + e, 0)) 0 five_ints marshall_new
           1 2 3 4 5).
  - constructor; simpl; [eexists; split; [reflexivity|simpl; lia]|lia|unfold INT_MAX; lia|done].
  - unfold wire_ok. simpl. unfold is_s32. lia.
  - unfold wire_ok. simpl. unfold is_s32. lia.
  - unfold wire_ok. simpl. unfold is_s32. lia.
  - unfold wire_ok. simpl. unfold is_s32. lia.
  - discriminate.
  - reflexivity.
Defined.
