(* ===== verification/Fifo.v ===== *)
(** * The bounded queue and the thread pool (include/rpc/fifo.h, src/rpc/thr_pool.cc)

    [enq] and [deq] run under the queue's mutex and give it up only inside
    [pthread_cond_wait], so each turn a thread has at the mutex is one atomic
    step.  [enq_turn] and [deq_turn] are the bodies of the two loops; the step
    relation adds the condition variables: which threads sleep on
    [has_space_c_] and [non_empty_c_], and which have been signalled and are on
    their way back to the mutex. *)

From S2P Require Import Prelude.

Module Fifo.

Record fifo (T : Type) := MkFifo {
  q_ : list T;
  max_ : Z;
}.
Arguments MkFifo {T} q_ max_.
Arguments q_ {T} f.
Arguments max_ {T} f.

Section ops.
Context {T : Type}.

Definition fifo_new (limit : Z) : fifo T := MkFifo [] (u32 limit).

(** Declared [bool size()]: the number of elements is converted to [bool]. *)
Definition size (f : fifo T) : bool := negb (Z.of_nat (length (q_ f)) =? 0).

Inductive enq_result :=
| Enqueued (f : fifo T)          (* pushed, [non_empty_c_] signalled, true *)
| EnqFull                        (* non-blocking and full: false *)
| EnqWait.                       (* waits on [has_space_c_] *)

Definition enq_turn (f : fifo T) (e : T) (blocking : bool) : enq_result :=
  if (max_ f =? 0) || (Z.of_nat (length (q_ f)) <? max_ f)
  then Enqueued (MkFifo (q_ f ++ [e]) (max_ f))
  else if blocking then EnqWait else EnqFull.

Inductive deq_result :=
| Dequeued (e : T) (f : fifo T) (signal_space : bool)
| DeqWait.                       (* waits on [non_empty_c_] *)

Definition deq_turn (f : fifo T) : deq_result :=
  match q_ f with
  | [] => DeqWait
  | e :: q =>
      Dequeued e (MkFifo q (max_ f))
        (negb (max_ f =? 0) && (Z.of_nat (length q) <? max_ f))
  end.

(** ** Threads at the queue

    Only the numbers of waiting and signalled threads matter.  [put_log] and
    [get_log] record what has been enqueued and dequeued. *)

Record state := State {
  fq : fifo T;
  prod_sleep : nat;
  prod_woken : nat;
  cons_sleep : nat;
  cons_woken : nat;
  put_log : list T;
  get_log : list T;
}.

(** [pthread_cond_signal]: one sleeper, if there is one, becomes runnable. *)
Definition signal (sleep woken : nat) : nat * nat :=
  match sleep with
  | O => (O, woken)
  | S n => (n, S woken)
  end.

Definition do_enq (s : state) (e : T) (f : fifo T) : state :=
  let '(cs, cw) := signal (cons_sleep s) (cons_woken s) in
  State f (prod_sleep s) (prod_woken s) cs cw (put_log s ++ [e]) (get_log s).

Definition do_deq (s : state) (e : T) (f : fifo T) (b : bool) : state :=
  let '(ps, pw) := if b then signal (prod_sleep s) (prod_woken s)
                   else (prod_sleep s, prod_woken s) in
  State f ps pw (cons_sleep s) (cons_woken s) (put_log s) (get_log s ++ [e]).

Definition prod_retire (s : state) : state :=
  State (fq s) (prod_sleep s) (pred (prod_woken s)) (cons_sleep s) (cons_woken s)
        (put_log s) (get_log s).
Definition cons_retire (s : state) : state :=
  State (fq s) (prod_sleep s) (prod_woken s) (cons_sleep s) (pred (cons_woken s))
        (put_log s) (get_log s).
Definition prod_wait (s : state) : state :=
  State (fq s) (S (prod_sleep s)) (prod_woken s) (cons_sleep s) (cons_woken s)
        (put_log s) (get_log s).
Definition cons_wait (s : state) : state :=
  State (fq s) (prod_sleep s) (prod_woken s) (S (cons_sleep s)) (cons_woken s)
        (put_log s) (get_log s).

(** A thread takes its turn either fresh from the caller or after a wake-up;
    [pthread_cond_wait] may also return spuriously. *)
Inductive step : state -> state -> Prop :=
| step_enq s e b f :
    enq_turn (fq s) e b = Enqueued f -> step s (do_enq s e f)
| step_enq_woken s e f :
    prod_woken s <> O -> enq_turn (fq s) e true = Enqueued f ->
    step s (do_enq (prod_retire s) e f)
| step_enq_full s e :
    enq_turn (fq s) e false = EnqFull -> step s s
| step_enq_wait s e :
    enq_turn (fq s) e true = EnqWait -> step s (prod_wait s)
| step_enq_wait_again s e :
    prod_woken s <> O -> enq_turn (fq s) e true = EnqWait ->
    step s (prod_wait (prod_retire s))
| step_deq s e f b :
    deq_turn (fq s) = Dequeued e f b -> step s (do_deq s e f b)
| step_deq_woken s e f b :
    cons_woken s <> O -> deq_turn (fq s) = Dequeued e f b ->
    step s (do_deq (cons_retire s) e f b)
| step_deq_wait s :
    deq_turn (fq s) = DeqWait -> step s (cons_wait s)
| step_deq_wait_again s :
    cons_woken s <> O -> deq_turn (fq s) = DeqWait ->
    step s (cons_wait (cons_retire s))
| step_spurious_prod s :
    prod_sleep s <> O ->
    step s (State (fq s) (pred (prod_sleep s)) (S (prod_woken s)) (cons_sleep s)
                  (cons_woken s) (put_log s) (get_log s))
| step_spurious_cons s :
    cons_sleep s <> O ->
    step s (State (fq s) (prod_sleep s) (prod_woken s) (pred (cons_sleep s))
                  (S (cons_woken s)) (put_log s) (get_log s)).

Definition init (limit : Z) : state := State (fifo_new limit) 0 0 0 0 [] [].

(** ** Invariant

    [inv_gen limit dp dc] allows [dp] producers and [dc] consumers to have left
    the signalled set on the way to their turn; between turns both are 0. *)

Record inv_gen (limit : Z) (dp dc : Z) (s : state) : Prop := {
  inv_max : max_ (fq s) = u32 limit;
  inv_bound : u32 limit <> 0 -> Z.of_nat (length (q_ (fq s))) <= u32 limit;
  inv_log : put_log s = get_log s ++ q_ (fq s);
  (* sleeping consumers: every element has a signalled consumer coming *)
  inv_cons : cons_sleep s <> O ->
    Z.of_nat (length (q_ (fq s))) - dc <= Z.of_nat (cons_woken s);
  (* sleeping producers: every free slot has a signalled producer coming *)
  inv_prod : prod_sleep s <> O ->
    u32 limit - Z.of_nat (length (q_ (fq s))) - dp <= Z.of_nat (prod_woken s);
  inv_prod_max : prod_sleep s <> O \/ prod_woken s <> O -> u32 limit <> 0;
}.

Definition inv (limit : Z) (s : state) : Prop := inv_gen limit 0 0 s.

Lemma enq_turn_spec f e b f' :
  enq_turn f e b = Enqueued f' ->
  q_ f' = q_ f ++ [e] /\ max_ f' = max_ f /\
  (max_ f <> 0 -> Z.of_nat (length (q_ f)) < max_ f).
Proof.
  unfold enq_turn. destruct (Z.eqb_spec (max_ f) 0), (Z.ltb_spec (Z.of_nat (length (q_ f))) (max_ f));
    simpl; try destruct b; try done; intros [= <-]; simpl; split_and!; done || lia.
Qed.

Lemma enq_wait_spec f e :
  enq_turn f e true = EnqWait -> max_ f <> 0 /\ max_ f <= Z.of_nat (length (q_ f)).
Proof.
  unfold enq_turn. destruct (Z.eqb_spec (max_ f) 0), (Z.ltb_spec (Z.of_nat (length (q_ f))) (max_ f));
    simpl; done || lia.
Qed.

Lemma deq_turn_spec f e f' b :
  deq_turn f = Dequeued e f' b ->
  q_ f = e :: q_ f' /\ max_ f' = max_ f /\
  (max_ f <> 0 -> Z.of_nat (length (q_ f')) < max_ f -> b = true).
Proof.
  unfold deq_turn. destruct (q_ f) as [|x q]; [done|]. intros [= <- <- <-]. simpl.
  split_and!; [done..|]. intros Hm Hlt. apply andb_true_iff.
  destruct (Z.eqb_spec (max_ f) 0); [done|]. split; [done|]. by apply Z.ltb_lt.
Qed.

Lemma deq_wait_spec f : deq_turn f = DeqWait -> q_ f = [].
Proof. unfold deq_turn. by destruct (q_ f). Qed.

End ops.

Section proofs.
Context {T : Type}.
Implicit Types s : @state T.

Lemma do_enq_inv limit dp s e b f :
  inv_gen limit dp 0 s -> dp <= 1 -> enq_turn (fq s) e b = Enqueued f ->
  inv limit (do_enq s e f).
Proof.
  intros [Hmax Hb Hlog Hc Hp Hpm] Hdp (Hq & Hm & Hroom)%enq_turn_spec.
  unfold do_enq. destruct (signal _ _) as [cs cw] eqn:Hs.
  assert (cs <> O -> Z.of_nat (S (length (q_ (fq s)))) <= Z.of_nat cw) as Hcw.
  { revert Hs. unfold signal. destruct (cons_sleep s) eqn:E; intros [= <- <-]; lia. }
  constructor; simpl; rewrite ?Hq, ?Hm, ?length_app; simpl; try done.
  - intros Hl. rewrite Hmax in Hroom. lia.
  - by rewrite Hlog, app_assoc.
  - lia.
  - lia.
Qed.

Lemma do_deq_inv limit dc s e f b :
  inv_gen limit 0 dc s -> dc <= 1 -> deq_turn (fq s) = Dequeued e f b ->
  inv limit (do_deq s e f b).
Proof.
  intros [Hmax Hb Hlog Hc Hp Hpm] Hdc (Hq & Hm & Hsig)%deq_turn_spec.
  rewrite Hq in *. simpl in *. unfold do_deq.
  destruct (if b then _ else _) as [ps pw] eqn:Hs.
  assert (ps <> O \/ pw <> O -> u32 limit <> 0) as Hpm'.
  { revert Hs. unfold signal. destruct b, (prod_sleep s) eqn:E; intros [= <- <-];
      intros ?; apply Hpm; lia. }
  assert (ps <> O -> u32 limit - Z.of_nat (length (q_ f)) <= Z.of_nat pw) as Hpw.
  { intros Hps. assert (u32 limit <> 0) as Hl by auto.
    rewrite Hmax in Hsig. rewrite Hsig in Hs by (done || lia).
    revert Hs Hps. unfold signal. destruct (prod_sleep s) eqn:E; intros [= <- <-]; lia. }
  constructor; simpl; rewrite ?Hm; try done.
  - intros Hl. specialize (Hb Hl). lia.
  - by rewrite Hlog, <-app_assoc.
  - intros Hcs. specialize (Hc Hcs). lia.
  - intros Hps. specialize (Hpw Hps). lia.
Qed.

Lemma prod_retire_inv limit s :
  inv limit s -> prod_woken s <> O -> inv_gen limit 1 0 (prod_retire s).
Proof.
  intros [Hmax Hb Hlog Hc Hp Hpm] Hw. constructor; simpl; try done; [lia|].
  intros _. apply Hpm. by right.
Qed.

Lemma cons_retire_inv limit s :
  inv limit s -> cons_woken s <> O -> inv_gen limit 0 1 (cons_retire s).
Proof. intros [Hmax Hb Hlog Hc Hp Hpm] Hw. constructor; simpl; try done. lia. Qed.

Lemma prod_wait_inv limit dp s e :
  inv_gen limit dp 0 s -> enq_turn (fq s) e true = EnqWait -> inv limit (prod_wait s).
Proof.
  intros [Hmax Hb Hlog Hc Hp Hpm] [Hm Hfull]%enq_wait_spec.
  constructor; simpl; try done; rewrite Hmax in *; [lia|done].
Qed.

Lemma cons_wait_inv limit dc s :
  inv_gen limit 0 dc s -> deq_turn (fq s) = DeqWait -> inv limit (cons_wait s).
Proof.
  intros [Hmax Hb Hlog Hc Hp Hpm] Hq%deq_wait_spec.
  constructor; simpl; try done. rewrite Hq. simpl. lia.
Qed.

Lemma fifo_step_inv limit s s' : inv limit s -> step s s' -> inv limit s'.
Proof.
  intros Hinv Hstep.
  destruct Hstep as [s e b f He|s e f Hw He|s e He|s e He|s e Hw He|s e f b Hd
    |s e f b Hw Hd|s Hd|s Hw Hd|s Hs|s Hs].
  - by eapply do_enq_inv.
  - eapply (do_enq_inv limit 1); [by apply prod_retire_inv|done|done].
  - done.
  - by eapply prod_wait_inv.
  - eapply (prod_wait_inv limit 1); [by apply prod_retire_inv|done].
  - by eapply do_deq_inv.
  - eapply (do_deq_inv limit 1); [by apply cons_retire_inv|done|done].
  - by eapply cons_wait_inv.
  - eapply (cons_wait_inv limit 1); [by apply cons_retire_inv|done].
  - destruct Hinv as [Hmax Hb Hlog Hc Hp Hpm]. constructor; simpl; try done; [lia|].
    intros _. apply Hpm. by left.
  - destruct Hinv as [Hmax Hb Hlog Hc Hp Hpm]. constructor; simpl; try done. lia.
Qed.

Lemma fifo_reachable_inv limit s : rtc step (init limit) s -> inv limit s.
Proof.
  intros Hr. assert (inv (T := T) limit (init limit)) as Hi.
  { pose proof (u32_range limit) as Hl. unfold is_u32 in Hl.
    constructor; simpl; try done; try lia. }
  revert Hi. induction Hr as [s|s1 s2 s3 Hs Hr IH]; [done|]. intros Hi. apply IH.
  by eapply fifo_step_inv.
Qed.

(** C29: the queue is a bounded FIFO. Whatever the interleaving of producers
    and consumers, what has been dequeued followed by what is still queued is
    exactly what was enqueued, in order, and a queue built with a non-zero
    limit never holds more than that many elements. *)
Theorem fifo_order_and_bound (limit : Z) (s : @state T) :
  rtc step (init limit) s ->
  put_log s = get_log s ++ q_ (fq s) /\
  (u32 limit <> 0 -> Z.of_nat (length (q_ (fq s))) <= u32 limit).
Proof. intros [Hmax Hb Hlog _ _ _]%fifo_reachable_inv. done. Qed.

(** C30: no wake-up is lost. In every reachable state, if a consumer sleeps on
    [non_empty_c_] then at least as many consumers are signalled as elements
    are queued, and if a producer sleeps on [has_space_c_] then at least as
    many producers are signalled as slots are free. *)
Theorem fifo_no_lost_wakeup (limit : Z) (s : @state T) :
  rtc step (init limit) s ->
  (cons_sleep s <> O -> (length (q_ (fq s)) <= cons_woken s)%nat) /\
  (prod_sleep s <> O ->
     max_ (fq s) - Z.of_nat (length (q_ (fq s))) <= Z.of_nat (prod_woken s)).
Proof.
  intros [Hmax _ _ Hc Hp _]%fifo_reachable_inv. split; intros Hs.
  - specialize (Hc Hs). lia.
  - specialize (Hp Hs). rewrite Hmax. lia.
Qed.

End proofs.

(** A run: a consumer waits, a producer fills the one-slot queue, another waits. *)
Definition demo_full : @state Z := State (MkFifo [7] 1) 1 0 0 1 [7] [].

Lemma fifo_demo_run : rtc step (init 1) demo_full.
Proof.
  eapply rtc_l; [by apply step_deq_wait|].
  eapply rtc_l; [by apply (step_enq _ 7 true)|].
  eapply rtc_l; [by apply (step_enq_wait _ 8)|]. apply rtc_refl.
Qed.

Lemma fifo_order_and_bound_witness :
  put_log demo_full = get_log demo_full ++ q_ (fq demo_full) /\
  (u32 1 <> 0 -> Z.of_nat (length (q_ (fq demo_full))) <= u32 1).
Proof. apply (fifo_order_and_bound 1 demo_full). exact fifo_demo_run. Defined.

Lemma fifo_no_lost_wakeup_witness :
  (cons_sleep demo_full <> O -> (length (q_ (fq demo_full)) <= cons_woken demo_full)%nat) /\
  (prod_sleep demo_full <> O ->
     max_ (fq demo_full) - Z.of_nat (length (q_ (fq demo_full)))
       <= Z.of_nat (prod_woken demo_full)).
Proof. apply (fifo_no_lost_wakeup 1 demo_full). exact fifo_demo_run. Defined.

End Fifo.

(** ** The thread pool

    A job is a function with its argument; the pool only tests whether the
    function pointer is null, the poison pill of the destructor. *)

Module ThrPool.
Import Fifo.

Section pool.
Context {J : Type}.

(** [job_t]: [None] is [j.f == NULL]. *)
Definition job_t : Type := option J.

Record pool := Pool {
  nthreads_ : nat;
  blockadd_ : bool;
  jobq_ : fifo job_t;
  (* ghost: workers still in their loop, and the jobs they have run, in order *)
  alive : nat;
  ran : list J;
}.

Definition pool_new (sz : nat) (blocking : bool) : pool :=
  Pool sz blocking (fifo_new (100 * Z.of_nat sz)) sz [].

Definition addJob (p : pool) (j : J) : enq_result (T := job_t) :=
  enq_turn (jobq_ p) (Some j) (blockadd_ p).

(** The result of [takeJob] as [do_worker] uses it. *)
Inductive take_result :=
| TakeWait
| TakeJob (j : J) (p : pool)
| TakeDie (p : pool).

Definition takeJob (p : pool) : take_result :=
  match deq_turn (jobq_ p) with
  | DeqWait => TakeWait
  | Dequeued (Some j) q _ =>
      TakeJob j (Pool (nthreads_ p) (blockadd_ p) q (alive p) (ran p ++ [j]))
  | Dequeued None q _ =>
      TakeDie (Pool (nthreads_ p) (blockadd_ p) q (pred (alive p)) (ran p))
  end.

(** One turn of [do_worker] by a worker that has not exited. *)
Inductive worker_step : pool -> pool -> Prop :=
| worker_runs p j p' : alive p <> O -> takeJob p = TakeJob j p' -> worker_step p p'
| worker_dies p p' : alive p <> O -> takeJob p = TakeDie p' -> worker_step p p'.

(** The destructor: [nthreads_] blocking [enq]s of the pill.  [poison n] is the
    loop once the queue has had room for each of them. *)
Fixpoint poison (n : nat) (q : fifo job_t) : enq_result (T := job_t) :=
  match n with
  | O => Enqueued q
  | S n => match enq_turn q None true with
           | Enqueued q => poison n q
           | r => r
           end
  end.

Lemma poison_spec n : forall q q',
  poison n q = Enqueued q' -> q_ q' = q_ q ++ replicate n None.
Proof.
  induction n as [|n IH]; intros q q'; simpl.
  - intros [= <-]. by rewrite app_nil_r.
  - destruct (enq_turn q None true) as [q1| |] eqn:He; try done.
    intros Hq%IH. apply enq_turn_spec in He as (Hq1 & _).
    by rewrite Hq, Hq1, <-app_assoc.
Qed.

(** The pills still queued are as many as the workers still alive, the jobs
    taken and the jobs queued before the pills make up the jobs accepted, and
    the last worker leaves only when no job is left. *)
Definition draining (jobs : list J) (p : pool) : Prop :=
  exists todo, ran p ++ todo = jobs /\
               q_ (jobq_ p) = (Some <$> todo) ++ replicate (alive p) None /\
               (alive p = O -> todo = []).

Lemma worker_step_draining jobs p p' :
  draining jobs p -> worker_step p p' ->
  draining jobs p' /\ length (q_ (jobq_ p)) = S (length (q_ (jobq_ p'))).
Proof.
  intros (todo & Hran & Hq & Hlast) Hstep.
  destruct Hstep as [p j p' Ha Ht|p p' Ha Ht]; unfold takeJob in Ht;
    destruct (deq_turn (jobq_ p)) as [[j'|] q b|] eqn:Hd; simplify_eq;
    apply deq_turn_spec in Hd as (Hd & _ & _); rewrite Hd in Hq;
    (split; [|by rewrite Hd]).
  - destruct todo as [|x todo]; [by destruct (alive p)|]. simplify_eq/=.
    exists todo. simpl. by rewrite <-app_assoc.
  - destruct todo as [|x todo]; [|done]. destruct (alive p) as [|n] eqn:E; [done|].
    simplify_eq/=. exists []. done.
Qed.

Lemma worker_steps_draining jobs n p p' :
  draining jobs p -> nsteps worker_step n p p' ->
  draining jobs p' /\ (n + length (q_ (jobq_ p')) = length (q_ (jobq_ p)))%nat.
Proof.
  intros Hdr Hsteps. induction Hsteps as [|n p1 p2 p3 Hs Hr IH]; [done|].
  destruct (worker_step_draining _ _ _ Hdr Hs) as [Hdr' Hl].
  destruct (IH Hdr') as [? ?]. split; [done|lia].
Qed.

Lemma draining_not_stuck jobs p :
  draining jobs p -> alive p <> O -> exists p', worker_step p p'.
Proof.
  intros (todo & _ & Hq & _) Ha.
  destruct (deq_turn (jobq_ p)) as [[j|] q b|] eqn:Hd.
  - eexists. eapply worker_runs; [done|]. unfold takeJob. by rewrite Hd.
  - eexists. eapply worker_dies; [done|]. unfold takeJob. by rewrite Hd.
  - apply deq_wait_spec in Hd. rewrite Hd in Hq. by destruct todo, (alive p).
Qed.

(** C31: the destructor's shutdown terminates and loses no job. Once the
    [nthreads_] pills are queued behind the accepted jobs, every schedule of
    the workers takes at most one turn per queued entry; a worker that is still
    in its loop can always take a turn (no pill short, so [pthread_join]
    returns for every thread); and when the last worker has left, every
    accepted job was taken, in order, and the queue is empty. *)
Theorem pool_shutdown_drains (p : pool) (q : fifo job_t) (jobs : list J)
    (n : nat) (p' : pool) :
  alive p = nthreads_ p -> nthreads_ p <> O -> ran p = [] ->
  q_ (jobq_ p) = Some <$> jobs ->
  poison (nthreads_ p) (jobq_ p) = Enqueued q ->
  nsteps worker_step n (Pool (nthreads_ p) (blockadd_ p) q (alive p) []) p' ->
  (n <= length jobs + nthreads_ p)%nat /\
  (alive p' <> O -> exists p'', worker_step p' p'') /\
  (alive p' = O -> ran p' = jobs /\ q_ (jobq_ p') = []).
Proof.
  intros Hal Hn Hran Hq Hpoison Hsteps. apply poison_spec in Hpoison.
  assert (draining jobs (Pool (nthreads_ p) (blockadd_ p) q (alive p) [])) as Hdr.
  { exists jobs. simpl. rewrite Hpoison, Hq, Hal. done. }
  assert (draining jobs p' /\ (n + length (q_ (jobq_ p')) = length (q_ q))%nat)
    as [(todo & Hjobs & Hq' & Hlast) Hlen].
  { by apply (worker_steps_draining _ _ _ _ Hdr) in Hsteps. }
  split_and!.
  - rewrite Hpoison, Hq, length_app, length_fmap, length_replicate in Hlen. lia.
  - intros Ha. apply (draining_not_stuck jobs); [|done]. by exists todo.
  - intros Ha. rewrite Hq', (Hlast Ha), Ha. split; [|done].
    by rewrite <-Hjobs, (Hlast Ha), app_nil_r.
Qed.

End pool.

(** Two workers, one queued job. *)
Definition demo_pool : @pool Z := Pool 2 true (MkFifo [Some 5] 200) 2 [].
Definition demo_drained : @pool Z := Pool 2 true (MkFifo [] 200) 0 [5].

Lemma pool_shutdown_drains_witness :
  (3 <= 1 + 2)%nat /\ (alive demo_drained <> O -> exists p'', worker_step demo_drained p'') /\
  (alive demo_drained = O -> ran demo_drained = [5] /\ q_ (jobq_ demo_drained) = []).
Proof.
  apply (pool_shutdown_drains demo_pool (MkFifo [Some 5; None; None] 200) [5] 3 demo_drained);
    try done.
  eapply nsteps_l; [by eapply (worker_runs _ 5)|].
  eapply nsteps_l; [by eapply worker_dies|].
  eapply nsteps_l; [by eapply worker_dies|]. apply nsteps_O.
Defined.

End ThrPool.
