(* ===== verification/RpcClient.v ===== *)
(** * The RPC client endpoint ([rpcc], src/rpc/rpc.cc and include/rpc/rpc.h)

    - [Timespec]: the deadline arithmetic ([cmp_timespec], [add_timespec],
      [diff_timespec]);
    - [XidWindow]: the list [xid_rep_window_] of acknowledged transaction
      numbers and [update_xid_rep];
    - [Rpcc]: the client object: [call1] split at the points where it gives up
      its lock, [got_pdu], [bind], [cancel], as the steps of a transition
      system in which any number of calls are in flight. *)

From S2P Require Import Prelude.
From S2P Require Import Marshall.
From S2P Require Import Stubs.

Module Timespec.

(** [struct timespec]; on the 64-bit target both fields are 64 bits wide and
    the values the program handles are far from their ends. *)
Record timespec := Timespec { tv_sec : Z; tv_nsec : Z }.

Definition cmp_timespec (a b : timespec) : Z :=
  if tv_sec a >? tv_sec b then 1
  else if tv_sec a <? tv_sec b then -1
  else if tv_nsec a >? tv_nsec b then 1
  else if tv_nsec a <? tv_nsec b then -1
  else 0.

(** The normalisation loop of [add_timespec]; [fuel] bounds its rounds. *)
Fixpoint carry (fuel : nat) (t : timespec) : timespec :=
  if tv_nsec t >? 1000000000 then
    match fuel with
    | O => t
    | S fuel => carry fuel (Timespec (tv_sec t + 1) (tv_nsec t - 1000000000))
    end
  else t.

(** C's [/] and [%] on [int] truncate toward zero. *)
Definition add_timespec (a : timespec) (b : Z) : outcome timespec :=
  let sec := tv_sec a + Z.quot b 1000 in
  let nsec := tv_nsec a + Z.rem b 1000 * 1000000 in
  VERIFY (0 <=? nsec) ;;;
  Val (carry (Z.to_nat (nsec / 1000000000 + 1)) (Timespec sec nsec)).

Definition diff_timespec (e start : timespec) : outcome Z :=
  let diff := if tv_sec e >? tv_sec start
              then s32 ((tv_sec e - tv_sec start) * 1000) else 0 in
  VERIFY (negb (diff =? 0) || (tv_sec e =? tv_sec start)) ;;;
  Val (if tv_nsec e >? tv_nsec start
       then s32 (diff + Z.quot (tv_nsec e - tv_nsec start) 1000000)
       else s32 (diff - Z.quot (tv_nsec start - tv_nsec e) 1000000)).

(** Nanoseconds since the epoch. *)
Definition ns (t : timespec) : Z := tv_sec t * 1000000000 + tv_nsec t.

(** What [clock_gettime] returns. *)
Definition normal (t : timespec) : Prop := 0 <= tv_nsec t < 1000000000.

Lemma carry_spec fuel t :
  0 <= tv_nsec t -> tv_nsec t < Z.of_nat fuel * 1000000000 + 1000000000 ->
  ns (carry fuel t) = ns t /\ 0 <= tv_nsec (carry fuel t) <= 1000000000 /\
  (tv_nsec (carry fuel t) = 1000000000 <->
     1000000000 <= tv_nsec t /\ tv_nsec t mod 1000000000 = 0).
Proof.
  revert t. induction fuel as [|fuel IH]; intros [s n]; simpl; intros H0 H1;
    destruct (Z.gtb_spec n 1000000000) as [Hgt|Hle].
  1: lia.
  2: { destruct (IH (Timespec (s + 1) (n - 1000000000))) as (Hns & Hr & Heq);
         simpl in *; [lia|lia|]. split_and!; [|lia|lia|].
       - rewrite Hns. unfold ns. simpl. lia.
       - rewrite Heq. split; intros [Ha Hb].
         + split; [lia|]. rewrite <-Hb. replace n with (n - 1000000000 + 1 * 1000000000) at 1 by lia.
           by rewrite Z_mod_plus_full.
         + split; [|rewrite <-Hb; replace n with (n - 1000000000 + 1 * 1000000000) at 2 by lia;
                     by rewrite Z_mod_plus_full].
           pose proof (Z.div_mod n 1000000000). lia. }
  all: simpl; split_and!; try lia;
    (split; [intros ->; split; [lia|done]|intros [Ha Hb]; pose proof (Z.div_mod n 1000000000); lia]).
Qed.

Lemma add_timespec_spec (a : timespec) (b : Z) :
  normal a -> 0 <= b ->
  exists t, add_timespec a b = Val t /\ ns t = ns a + b * 1000000 /\
    0 <= tv_nsec t <= 1000000000 /\
    (tv_nsec t = 1000000000 <-> tv_nsec a + (b mod 1000) * 1000000 = 1000000000).
Proof.
  intros [Ha0 Ha1] Hb. unfold add_timespec.
  rewrite Z.rem_mod_nonneg, Z.quot_div_nonneg by lia.
  pose proof (Z.mod_pos_bound b 1000). pose proof (Z.div_mod b 1000).
  unfold VERIFY. destruct (Z.leb_spec 0 (tv_nsec a + b mod 1000 * 1000000)); [|lia].
  simpl. set (n := tv_nsec a + b mod 1000 * 1000000) in *.
  edestruct (carry_spec (Z.to_nat (n / 1000000000 + 1))
              (Timespec (tv_sec a + b / 1000) n)) as (Hns & Hr & Heq); simpl.
  { lia. }
  { pose proof (Z.div_mod n 1000000000). pose proof (Z.mod_pos_bound n 1000000000).
    rewrite Z2Nat.id; lia. }
  eexists. split; [done|]. split_and!; [|lia|lia|].
  - rewrite Hns. unfold ns. simpl. lia.
  - simpl in Heq. rewrite Heq. split.
    + intros [Hge Hm]. pose proof (Z.div_mod n 1000000000). lia.
    + intros ->. split; [lia|done].
Qed.

(** C40: a deadline is the time it was computed from plus the timeout, to the
    nanosecond, and its nanosecond field is within [0, 10^9]; it is a value
    [pthread_cond_timedwait] accepts except in the one case where the sum is an
    exact positive number of seconds reached by the milliseconds, which the
    loop's [>] leaves as 10^9 nanoseconds. *)
Theorem add_timespec_exact (a : timespec) (b : Z) :
  normal a -> 0 <= b ->
  exists t, add_timespec a b = Val t /\ ns t = ns a + b * 1000000 /\
    0 <= tv_nsec t <= 1000000000 /\
    (tv_nsec t = 1000000000 <-> tv_nsec a + (b mod 1000) * 1000000 = 1000000000).
Proof. apply add_timespec_spec. Qed.

Lemma add_timespec_exact_witness :
  exists t, add_timespec (Timespec 7 999000000) 2001 = Val t /\
    ns t = ns (Timespec 7 999000000) + 2001 * 1000000 /\
    0 <= tv_nsec t <= 1000000000 /\
    (tv_nsec t = 1000000000 <->
       tv_nsec (Timespec 7 999000000) + (2001 mod 1000) * 1000000 = 1000000000).
Proof. apply add_timespec_exact; [split; simpl; lia|lia]. Defined.

Lemma cmp_timespec_ns a b :
  0 <= tv_nsec a < 1000000000 -> 0 <= tv_nsec b < 1000000000 ->
  cmp_timespec a b = match ns a ?= ns b with Gt => 1 | Lt => -1 | Eq => 0 end.
Proof.
  unfold cmp_timespec, ns. intros.
  destruct (Z.gtb_spec (tv_sec a) (tv_sec b)), (Z.ltb_spec (tv_sec a) (tv_sec b)),
    (Z.gtb_spec (tv_nsec a) (tv_nsec b)), (Z.ltb_spec (tv_nsec a) (tv_nsec b));
    destruct (Z.compare_spec (tv_sec a * 1000000000 + tv_nsec a)
                (tv_sec b * 1000000000 + tv_nsec b)); lia.
Qed.

End Timespec.

Module XidWindow.

(** The [for] loop with [insert] and the [push_back] after it. *)
Fixpoint insert_xid (xid : Z) (w : list Z) : list Z :=
  match w with
  | [] => [xid]
  | y :: w => if y >? xid then xid :: y :: w else y :: insert_xid xid w
  end.

(** [while (xid_rep_window_.front() + 1 == *it) xid_rep_window_.pop_front();]
    with [seg] the elements in front of [it] and [x] the one it points to. With
    [seg] used up the front is [*it] itself, which differs from its successor. *)
Fixpoint pop_fronts (x : Z) (seg : list Z) : list Z :=
  match seg with
  | [] => []
  | y :: seg' => if u32 (y + 1) =? x then pop_fronts x seg' else seg
  end.

Fixpoint compress (seg rest : list Z) : list Z :=
  match rest with
  | [] => seg
  | x :: rest => compress (pop_fronts x seg ++ [x]) rest
  end.

Definition update_xid_rep (w : list Z) (xid : Z) : outcome (list Z) :=
  match w with
  | [] => Fault Undefined   (* front() of an empty list *)
  | f :: _ =>
      if xid <=? f then Val w
      else match insert_xid xid w with
           | [] => Fault Undefined
           | f :: rest => Val (compress [f] rest)
           end
  end.

Fixpoint updates (w : list Z) (xids : list Z) : outcome (list Z) :=
  match xids with
  | [] => Val w
  | x :: xids => let! w := update_xid_rep w x in updates w xids
  end.

(** [y] counts as acknowledged: covered by the front or listed behind it. *)
Definition acked (w : list Z) (y : Z) : Prop :=
  match w with
  | [] => False
  | f :: _ => y <= f \/ y ∈ w
  end.

(** Sorted (repetitions allowed), 32-bit, and the front as far as it can be. *)
Record wf (w : list Z) : Prop := {
  wf_sorted : StronglySorted Z.le w;
  wf_u32 : Forall is_u32 w;
  wf_front : match w with [] => False | f :: r => f + 1 ∉ r end;
}.

Lemma insert_xid_elem x w y : y ∈ insert_xid x w <-> y = x \/ y ∈ w.
Proof.
  induction w as [|z w IH]; simpl; [by rewrite elem_of_cons|].
  destruct (z >? x); rewrite !elem_of_cons; [done|]. rewrite IH. tauto.
Qed.

Lemma insert_xid_sorted x w : StronglySorted Z.le w -> StronglySorted Z.le (insert_xid x w).
Proof.
  induction 1 as [|z w Hs IH Hall]; simpl; [by repeat constructor|].
  destruct (Z.gtb_spec z x).
  - constructor; [by constructor|]. constructor; [lia|].
    eapply Forall_impl; [exact Hall|]. simpl. lia.
  - constructor; [done|]. apply Forall_forall. intros y [->|Hy]%insert_xid_elem; [lia|].
    by eapply (proj1 (Forall_forall _ _)).
Qed.

Lemma succ_eqb f x : is_u32 f -> is_u32 x -> f <= x -> (u32 (f + 1) =? x) = (f + 1 =? x).
Proof.
  unfold is_u32, u32. intros. apply eq_true_iff_eq. rewrite !Z.eqb_eq.
  destruct (decide (f + 1 = 2 ^ 32)) as [E|].
  - rewrite E. change (2 ^ 32 mod 2 ^ 32) with 0. lia.
  - rewrite Z.mod_small by lia. done.
Qed.

Lemma pop_fronts_all x seg : is_u32 x -> Forall (fun y => y = x - 1) seg -> pop_fronts x seg = [].
Proof.
  intros Hx. induction 1 as [|y seg -> H IH]; simpl; [done|].
  replace (x - 1 + 1) with x by lia. by rewrite u32_id, Z.eqb_refl.
Qed.

Lemma compress_spec rest : forall f s,
  StronglySorted Z.le ((f :: s) ++ rest) -> Forall is_u32 ((f :: s) ++ rest) -> f + 1 ∉ s ->
  wf (compress (f :: s) rest) /\
  (forall y, acked (compress (f :: s) rest) y <-> y <= f \/ y ∈ (f :: s) ++ rest).
Proof.
  induction rest as [|x rest IH]; intros f s Hs Hu Hf.
  { rewrite app_nil_r in *. simpl. split; [|done]. by constructor. }
  cbn [compress].
  assert (f <= x /\ forall z, z ∈ s -> f <= z <= x) as [Hfx Hbetween].
  { simpl in Hs. apply StronglySorted_cons in Hs as [Hall Hs']. rewrite Forall_forall in Hall. split.
    - apply Hall. set_solver +.
    - intros z Hz. split; [apply Hall; set_solver + Hz|].
      apply StronglySorted_app in Hs' as (Hle & _ & _). apply Hle; set_solver + Hz. }
  assert (is_u32 f /\ is_u32 x) as [Huf Hux].
  { rewrite Forall_forall in Hu. split; apply Hu; set_solver +. }
  destruct (decide (f + 1 = x)) as [<-|Hne].
  - rewrite pop_fronts_all; [|done|].
    + cbn [app]. destruct (IH (f + 1) []) as [Hwf Hack].
      * apply StronglySorted_app in Hs as (_ & _ & Hs2). done.
      * rewrite Forall_app in Hu. tauto.
      * apply not_elem_of_nil.
      * split; [done|]. intros y. rewrite Hack.
        assert (y ∈ s -> y <= f) as Hys.
        { intros Hy. destruct (Hbetween y Hy). assert (y <> f + 1) by congruence. lia. }
        assert (y <= f + 1 <-> y <= f \/ y = f + 1) as -> by lia.
        assert (y = f -> y <= f) as Hyf by lia.
        cbn [app]. rewrite !elem_of_cons, !elem_of_app, !elem_of_cons. tauto.
    + constructor; [lia|]. apply Forall_forall. intros z Hz.
      destruct (Hbetween z Hz). assert (z <> f + 1) by congruence. lia.
  - cbn [pop_fronts]. rewrite succ_eqb by done.
    destruct (Z.eqb_spec (f + 1) x); [done|]. cbn [app].
    destruct (IH f (s ++ [x])) as [Hwf Hack].
    + by rewrite <-app_comm_cons, <-app_assoc in *.
    + by rewrite <-app_comm_cons, <-app_assoc in *.
    + rewrite elem_of_app, elem_of_cons, elem_of_nil. tauto.
    + split; [done|]. intros y. rewrite Hack. by rewrite <-app_comm_cons, <-app_assoc.
Qed.

Lemma insert_xid_head x f r : f < x -> exists r', insert_xid x (f :: r) = f :: r'.
Proof. intros Hx. simpl. destruct (Z.gtb_spec f x); [lia|]. by eexists. Qed.

Lemma update_xid_rep_ok w x :
  wf w -> is_u32 x ->
  exists w', update_xid_rep w x = Val w' /\ wf w' /\
             (forall y, acked w' y <-> acked w y \/ y = x).
Proof.
  intros [Hs Hu Hf] Hx. destruct w as [|f r]; [done|]. unfold update_xid_rep.
  destruct (Z.leb_spec x f) as [Hle|Hlt].
  - eexists. split; [done|]. split; [by constructor|]. intros y. simpl.
    split; [tauto|]. intros [H| ->]; [done|by left].
  - destruct (insert_xid_head x f r Hlt) as [r' Hr']. rewrite Hr'.
    assert (StronglySorted Z.le (f :: r')) as Hs' by (rewrite <-Hr'; by apply insert_xid_sorted).
    assert (forall y, y ∈ f :: r' <-> y = x \/ y ∈ f :: r) as Hel
      by (intros; rewrite <-Hr'; apply insert_xid_elem).
    destruct (compress_spec r' f []) as [Hwf Hack]; [done| |apply not_elem_of_nil|].
    { apply Forall_forall. intros y [->|Hy]%Hel; [done|]. by eapply Forall_forall in Hu. }
    eexists. split; [done|]. split; [done|]. intros y. rewrite Hack. cbn [app].
    rewrite Hel. simpl. tauto.
Qed.

Lemma updates_ok xs : forall w,
  wf w -> Forall is_u32 xs ->
  exists w', updates w xs = Val w' /\ wf w' /\
             (forall y, acked w' y <-> acked w y \/ y ∈ xs).
Proof.
  induction xs as [|x xs IH]; intros w Hw Hxs; simpl.
  - exists w. split_and!; [done..|]. intros y. rewrite elem_of_nil. tauto.
  - apply Forall_cons in Hxs as [Hx Hxs].
    destruct (update_xid_rep_ok w x Hw Hx) as (w1 & -> & Hw1 & Ha1). simpl.
    destruct (IH w1 Hw1 Hxs) as (w2 & -> & Hw2 & Ha2).
    exists w2. split_and!; [done..|]. intros y. rewrite Ha2, Ha1, elem_of_cons. tauto.
Qed.

Lemma wf_init : wf [0].
Proof.
  constructor; [by repeat constructor| |apply not_elem_of_nil].
  repeat constructor; unfold is_u32; lia.
Qed.

Lemma acked_front w w' :
  wf w -> wf w' -> (forall y, acked w' y <-> acked w y) -> head w = head w'.
Proof.
  intros [_ _ Hf] [_ _ Hf'] Hack. destruct w as [|n r], w' as [|n' r']; try done.
  simpl. f_equal. simpl in Hack. setoid_rewrite elem_of_cons in Hack.
  destruct (Z.lt_trichotomy n n') as [Hlt|[Heq|Hlt]]; [|done|].
  - destruct (Hack (n + 1)) as [H _]. destruct H as [H|[H|H]]; [left; lia|lia..|done].
  - destruct (Hack (n' + 1)) as [_ H]. destruct H as [H|[H|H]]; [left; lia|lia..|done].
Qed.

(** C9: whatever replies arrive, in whatever order and however often, the
    front of [xid_rep_window_] (the [xid_rep] of the next request header) is
    the largest [n] such that calls 1..n have all been answered: every number
    up to it is among the processed ones, its successor is not. Processing one
    more number that was processed before leaves the front where it is, the
    "no harm in doing it twice" of [call1]. *)
Theorem xid_rep_is_answered_prefix (xids : list Z) :
  Forall is_u32 xids ->
  exists n rest,
    updates [0] xids = Val (n :: rest) /\
    (forall y, 0 < y <= n -> y ∈ xids) /\ (n + 1 ∉ xids) /\
    (forall x, x ∈ xids -> (exists rest', update_xid_rep (n :: rest) x = Val (n :: rest'))).
Proof.
  intros Hxs. destruct (updates_ok xids [0] wf_init Hxs) as (w & Hw & Hwf & Hack).
  destruct w as [|n rest]; [by destruct Hwf|]. exists n, rest. split; [done|].
  assert (forall y, acked [0] y <-> y <= 0) as H0.
  { intros y. simpl. rewrite elem_of_cons, elem_of_nil. lia. }
  setoid_rewrite H0 in Hack. split_and!.
  - intros y Hy. assert (acked (n :: rest) y) as [H|H]%Hack by (left; lia); [lia|done].
  - intros Hin. assert (acked (n :: rest) (n + 1)) as [H|H%elem_of_cons]
      by (apply Hack; by right); [lia|].
    destruct H as [H|H]; [lia|]. by apply (wf_front _ Hwf).
  - intros x Hx. assert (is_u32 x) as Hux by (by eapply Forall_forall in Hxs).
    destruct (update_xid_rep_ok _ x Hwf Hux) as (w' & -> & Hwf' & Hack').
    assert (head (n :: rest) = head w') as Hhd.
    { apply acked_front; [done..|]. intros y. rewrite Hack'. split; [|by left].
      intros [H| ->]; [done|]. apply Hack. by right. }
    destruct w' as [|n' r']; [done|]. injection Hhd as <-. by exists r'.
Qed.

Lemma xid_rep_is_answered_prefix_witness :
  exists n rest,
    updates [0] [1; 3; 3; 2; 6; 4] = Val (n :: rest) /\
    (forall y, 0 < y <= n -> y ∈ [1; 3; 3; 2; 6; 4]) /\ (n + 1 ∉ [1; 3; 3; 2; 6; 4]) /\
    (forall x, x ∈ [1; 3; 3; 2; 6; 4] ->
       (exists rest', update_xid_rep (n :: rest) x = Val (n :: rest'))).
Proof.
  apply xid_rep_is_answered_prefix. repeat constructor; unfold is_u32; lia.
Defined.

End XidWindow.

(** ** The client object *)

Module Rpcc.
Import Timespec XidWindow.

Definition to_max : Z := 120000.
Definition to_min : Z := 1000.

(** [struct caller]. [intret] is uninitialised until a reply or [cancel] sets
    it ([None]); [un] is the reply object of the thread that called. *)
Record caller := Caller {
  ca_xid : Z;
  ca_un : unmarshall;
  ca_intret : option Z;
  ca_done : bool;
}.

(** [struct request], the copy of a request kept by the lossy-network test. *)
Record request := Request { rqst_buf : list Z; rqst_xid : Z }.
Definition request_clear : request := Request [] (-1).
Definition isvalid (r : request) : bool := negb (rqst_xid r =? -1).

(** A [connection *] is a number; the connection itself is elsewhere. *)
Definition conn : Type := Z.

Record rpcc := Rpcc {
  clt_nonce_ : Z;
  srv_nonce_ : Z;
  bind_done_ : bool;
  xid_ : Z;
  lossytest_ : Z;
  retrans_ : bool;
  reachable_ : bool;
  chan_ : option conn;
  destroy_wait_ : bool;
  calls_ : gmap Z caller;
  xid_rep_window_ : list Z;
  dup_req_ : request;
  xid_rep_done_ : Z;
}.

(** The constructor; [rnd] is what [random()] returns and [loss] the value of
    the environment variable RPC_LOSSY. *)
Definition rpcc_new (rnd : Z) (loss : option Z) (retrans : bool) : rpcc :=
  Rpcc (if retrans then u32 rnd else 0) 0 false 1 (default 0 loss) retrans true
       None false ∅ [0] request_clear (-1).

(** What the client asks of its connections, in order. [OpConnect] is a
    [connect_to_dst] that succeeded; the new connection carries one reference. *)
Inductive conn_op :=
| OpConnect (c : conn)
| OpIncref (c : conn)
| OpDecref (c : conn)
| OpSend (c : conn) (b : list Z).

Definition set_chan (r : rpcc) (ch : option conn) : rpcc :=
  Rpcc (clt_nonce_ r) (srv_nonce_ r) (bind_done_ r) (xid_ r) (lossytest_ r) (retrans_ r)
       (reachable_ r) ch (destroy_wait_ r) (calls_ r) (xid_rep_window_ r) (dup_req_ r)
       (xid_rep_done_ r).
Definition set_calls (r : rpcc) (m : gmap Z caller) : rpcc :=
  Rpcc (clt_nonce_ r) (srv_nonce_ r) (bind_done_ r) (xid_ r) (lossytest_ r) (retrans_ r)
       (reachable_ r) (chan_ r) (destroy_wait_ r) m (xid_rep_window_ r) (dup_req_ r)
       (xid_rep_done_ r).
Definition set_window (r : rpcc) (w : list Z) : rpcc :=
  Rpcc (clt_nonce_ r) (srv_nonce_ r) (bind_done_ r) (xid_ r) (lossytest_ r) (retrans_ r)
       (reachable_ r) (chan_ r) (destroy_wait_ r) (calls_ r) w (dup_req_ r) (xid_rep_done_ r).
Definition set_dup (r : rpcc) (q : request) (done : Z) : rpcc :=
  Rpcc (clt_nonce_ r) (srv_nonce_ r) (bind_done_ r) (xid_ r) (lossytest_ r) (retrans_ r)
       (reachable_ r) (chan_ r) (destroy_wait_ r) (calls_ r) (xid_rep_window_ r) q done.
Definition set_next_xid (r : rpcc) (x : Z) : rpcc :=
  Rpcc (clt_nonce_ r) (srv_nonce_ r) (bind_done_ r) x (lossytest_ r) (retrans_ r)
       (reachable_ r) (chan_ r) (destroy_wait_ r) (calls_ r) (xid_rep_window_ r) (dup_req_ r)
       (xid_rep_done_ r).
Definition set_destroy_wait (r : rpcc) (b : bool) : rpcc :=
  Rpcc (clt_nonce_ r) (srv_nonce_ r) (bind_done_ r) (xid_ r) (lossytest_ r) (retrans_ r)
       (reachable_ r) (chan_ r) b (calls_ r) (xid_rep_window_ r) (dup_req_ r)
       (xid_rep_done_ r).
Definition set_reachable (r : rpcc) (b : bool) : rpcc :=
  Rpcc (clt_nonce_ r) (srv_nonce_ r) (bind_done_ r) (xid_ r) (lossytest_ r) (retrans_ r)
       b (chan_ r) (destroy_wait_ r) (calls_ r) (xid_rep_window_ r) (dup_req_ r)
       (xid_rep_done_ r).

(** [bind] once its [call] has returned [ret] with the server's nonce [n]. *)
Definition bind_result (r : rpcc) (ret n : Z) : rpcc :=
  if ret =? 0 then
    Rpcc (clt_nonce_ r) (u32 n) true (xid_ r) (lossytest_ r) (retrans_ r)
         (reachable_ r) (chan_ r) (destroy_wait_ r) (calls_ r) (xid_rep_window_ r) (dup_req_ r)
         (xid_rep_done_ r)
  else r.

(** Where a thread stands inside [call1]: at the head of its loop, asleep in
    [pthread_cond_timedwait] until [next], or past the loop. *)
Inductive phase := AtTop | Waiting (next : timespec) | Leaving.

(** The locals of [call1] other than [ca], which [calls_] points to. *)
Record frame := Frame {
  f_xid : Z;
  f_req : marshall;
  f_xid_rep : Z;
  f_ch : option conn;
  f_transmit : bool;
  f_curr_to : Z;
  f_final : timespec;
  f_phase : phase;
}.

Section call1.
Context `{Heap}.

(** [call1] up to its loop: the first critical section and the deadlines.
    [inl] is an early return. *)
Definition call1_begin (r : rpcc) (proc : Z) (req : marshall) (rep : unmarshall)
    (to : Z) (now : timespec) : outcome (Z + rpcc * frame) :=
  if (negb (proc =? bind_proc) && negb (bind_done_ r))
     || ((proc =? bind_proc) && bind_done_ r)
  then Val (inl bind_failure)
  else if destroy_wait_ r then Val (inl cancel_failure)
  else
    let x := xid_ r in
    match xid_rep_window_ r with
    | [] => Fault Undefined
    | front :: _ =>
        let r := set_next_xid r (u32 (x + 1)) in
        let r := set_calls r (<[s32 x := Caller x rep None false]> (calls_ r)) in
        let! req := pack_req_header req
                      (mk_req_header x proc (clt_nonce_ r) (srv_nonce_ r) front) in
        let! final := add_timespec now to in
        Val (inr (r, Frame x req (s32 front) None true to_min final AtTop))
    end.

(** [get_refconn]; [dead] is [isdead()] of [chan_] and [fresh] what
    [connect_to_dst] returns. *)
Definition get_refconn (r : rpcc) (ch : option conn) (dead : bool) (fresh : option conn)
    : rpcc * option conn * list conn_op :=
  let '(chan, ops1) :=
    match chan_ r with
    | Some c => if dead then (fresh, OpDecref c :: (OpConnect <$> option_list fresh))
                else (Some c, [])
    | None => (fresh, OpConnect <$> option_list fresh)
    end in
  let '(ch, ops2) :=
    match chan with
    | Some c => (Some c, (OpDecref <$> option_list ch) ++ [OpIncref c])
    | None => (ch, [])
    end in
  (set_chan r chan, ch, ops1 ++ ops2).

(** The [if (transmit)] block. *)
Definition transmit_request (r : rpcc) (f : frame) (dead : bool) (fresh : option conn)
    : rpcc * frame * list conn_op :=
  if f_transmit f then
    let '(r, ch, ops) := get_refconn r (f_ch f) dead fresh in
    let '(r, sends) :=
      match ch with
      | Some c =>
          if reachable_ r then
            if isvalid (dup_req_ r) && (xid_rep_done_ r >? rqst_xid (dup_req_ r))
            then (set_dup r request_clear (xid_rep_done_ r),
                  [OpSend c (rqst_buf (dup_req_ r)); OpSend c (m_bytes (f_req f))])
            else (r, [OpSend c (m_bytes (f_req f))])
          else (r, [])
      | None => (r, [])
      end in
    (r, Frame (f_xid f) (f_req f) (f_xid_rep f) ch false (f_curr_to f) (f_final f) (f_phase f),
     ops ++ sends)
  else (r, f, []).

(** The deadline computation of one round: [None] leaves the loop. *)
Definition next_deadline (final now : timespec) (curr_to : Z)
    : outcome (option (timespec * timespec)) :=
  if tv_sec final =? 0 then Val None
  else let! next := add_timespec now curr_to in
       if cmp_timespec next final >? 0
       then Val (Some (final, Timespec 0 (tv_nsec final)))
       else Val (Some (next, final)).

Definition set_phase (f : frame) (final : timespec) (p : phase) : frame :=
  Frame (f_xid f) (f_req f) (f_xid_rep f) (f_ch f) (f_transmit f) (f_curr_to f) final p.

(** One visit to the head of the loop, until the thread sleeps or leaves. *)
Definition call1_top (r : rpcc) (f : frame) (dead : bool) (fresh : option conn)
    (now : timespec) : outcome (rpcc * frame * list conn_op) :=
  let '(r, f, ops) := transmit_request r f dead fresh in
  let! d := next_deadline (f_final f) now (f_curr_to f) in
  match d with
  | None => Val (r, set_phase f (f_final f) Leaving, ops)
  | Some (next, final) => Val (r, set_phase f final (Waiting next), ops)
  end.

(** The wake-up with [ca.done] unset; [dead] is [ch->isdead()]. *)
Definition call1_timeout (r : rpcc) (f : frame) (dead : bool) : outcome frame :=
  let transmit :=
    if retrans_ r && match f_ch f with None => true | Some _ => dead end
    then true else f_transmit f in
  let! to := int_arith (Z.shiftl (f_curr_to f) 1) in
  Val (Frame (f_xid f) (f_req f) (f_xid_rep f) (f_ch f) transmit to (f_final f) AtTop).

(** [call1] after its loop. The result is the value returned and the reply
    object. *)
Definition call1_end (r : rpcc) (f : frame)
    : outcome (rpcc * Z * unmarshall * list conn_op) :=
  match calls_ r !! s32 (f_xid f) with
  | None => Fault Undefined
  | Some ca =>
      let r := set_calls r (delete (s32 (f_xid f)) (calls_ r)) in
      let! w := update_xid_rep (xid_rep_window_ r) (f_xid f) in
      let r := set_window r w in
      let r :=
        if ca_done ca && negb (lossytest_ r =? 0) then
          let q := if isvalid (dup_req_ r) then dup_req_ r
                   else Request (m_bytes (f_req f)) (s32 (f_xid f)) in
          set_dup r q (if f_xid_rep f >? xid_rep_done_ r then f_xid_rep f
                       else xid_rep_done_ r)
        else r in
      let! ret := if ca_done ca
                  then match ca_intret ca with Some n => Val n | None => Fault Undefined end
                  else Val timeout_failure in
      Val (r, ret, ca_un ca, OpDecref <$> option_list (f_ch f))
  end.

(** [got_pdu] on the bytes [b] of length [sz]. *)
Definition client_got_pdu (r : rpcc) (b : list Z) (sz : Z) : outcome (rpcc * bool) :=
  let! '(rep, h) := unpack_reply_header (unmarshall_buf b sz) in
  if negb (u_ok rep) then Val (r, true)
  else
    let! w := update_xid_rep (xid_rep_window_ r) (u32 (rp_xid h)) in
    let r := set_window r w in
    let x : Z := rp_xid h in
    match calls_ r !! x with
    | None => Val (r, true)
    | Some ca =>
        if ca_done ca then Val (r, true)
        else
          let ca := Caller (ca_xid ca) (take_in rep).1 (Some (rp_ret h)) true in
          Val (set_calls r (<[x := ca]> (calls_ r)), true)
    end.

(** [cancel] up to its wait, which ends when [calls_] is empty. *)
Definition cancel (r : rpcc) : rpcc :=
  let fail ca := Caller (ca_xid ca) (ca_un ca) (Some cancel_failure) true in
  let r := set_calls r (fail <$> calls_ r) in
  if bool_decide (calls_ r = ∅) then r else set_destroy_wait r true.

(** The destructor: the channel it closes, and what it asks of it. *)
Definition rpcc_delete (r : rpcc) : outcome (option conn * list conn_op) :=
  let ops := match chan_ r with Some c => [OpDecref c] | None => [] end in
  VERIFY (bool_decide (size (calls_ r) = 0%nat)) ;;;
  Val (chan_ r, ops).

(** ** Any number of calls in flight

    [frames] are the threads inside [call1], by transaction number; [refs]
    counts the references the client holds on each connection; [pdus] lists
    the reply headers received and [results] the calls that returned. *)

Record world := World {
  cl : rpcc;
  frames : gmap Z frame;
  refs : conn -> Z;
  pdus : list (Z * Z * unmarshall);
  results : list (Z * Z * unmarshall);
}.

Definition bump (refs : conn -> Z) (c : conn) (d : Z) : conn -> Z :=
  fun c' => if decide (c' = c) then refs c' + d else refs c'.

Definition apply_op (refs : conn -> Z) (o : conn_op) : conn -> Z :=
  match o with
  | OpConnect c | OpIncref c => bump refs c 1
  | OpDecref c => bump refs c (-1)
  | OpSend _ _ => refs
  end.
Definition apply_ops (refs : conn -> Z) (ops : list conn_op) : conn -> Z :=
  foldl apply_op refs ops.

(** The reply header and the reply of a PDU that decodes. *)
Definition pdu_reply (b : list Z) (sz : Z) : option (Z * Z * unmarshall) :=
  match unpack_reply_header (unmarshall_buf b sz) with
  | Val (rep, h) => if u_ok rep then Some (u32 (rp_xid h), rp_ret h, (take_in rep).1) else None
  | Fault _ => None
  end.

(** One critical section of some thread. A call starts while numbers are left
    (no wrap-around of [xid_]) and replies carry numbers that were issued: the
    server copies them from the request. *)
Inductive step : world -> world -> Prop :=
| step_begin w proc req rep to now r f :
    xid_ (cl w) + 1 < 2 ^ 32 ->
    call1_begin (cl w) proc req rep to now = Val (inr (r, f)) ->
    step w (World r (<[f_xid f := f]> (frames w)) (refs w) (pdus w) (results w))
| step_top w x f dead fresh now r f' ops :
    frames w !! x = Some f -> f_phase f = AtTop ->
    call1_top (cl w) f dead fresh now = Val (r, f', ops) ->
    step w (World r (<[x := f']> (frames w)) (apply_ops (refs w) ops) (pdus w) (results w))
| step_woken w x f next ca :
    frames w !! x = Some f -> f_phase f = Waiting next ->
    calls_ (cl w) !! s32 x = Some ca -> ca_done ca = true ->
    step w (World (cl w) (<[x := set_phase f (f_final f) Leaving]> (frames w)) (refs w)
                  (pdus w) (results w))
| step_timeout w x f next ca dead f' :
    frames w !! x = Some f -> f_phase f = Waiting next ->
    calls_ (cl w) !! s32 x = Some ca -> ca_done ca = false ->
    call1_timeout (cl w) f dead = Val f' ->
    step w (World (cl w) (<[x := f']> (frames w)) (refs w) (pdus w) (results w))
| step_end w x f r ret u ops :
    frames w !! x = Some f -> f_phase f = Leaving ->
    call1_end (cl w) f = Val (r, ret, u, ops) ->
    step w (World r (delete x (frames w)) (apply_ops (refs w) ops) (pdus w)
                  ((x, ret, u) :: results w))
| step_pdu w b sz r ok :
    client_got_pdu (cl w) b sz = Val (r, ok) ->
    (forall y ret u, pdu_reply b sz = Some (y, ret, u) -> y < xid_ (cl w)) ->
    step w (World r (frames w) (refs w) (option_list (pdu_reply b sz) ++ pdus w) (results w))
| step_cancel w :
    step w (World (cancel (cl w)) (frames w) (refs w) (pdus w) (results w))
| step_bound w ret n :
    step w (World (bind_result (cl w) ret n) (frames w) (refs w) (pdus w) (results w))
| step_reachable w b :
    step w (World (set_reachable (cl w) b) (frames w) (refs w) (pdus w) (results w)).

(** A client with the calls it turned away: what [call1] returned to them before
    they had a transaction number. *)
Inductive call_step : world * list Z -> world * list Z -> Prop :=
| call_refused w refused proc req rep to now n :
    call1_begin (cl w) proc req rep to now = Val (inl n) ->
    call_step (w, refused) (w, n :: refused)
| call_runs w w' refused :
    step w w' -> call_step (w, refused) (w', refused).

Definition start (rnd : Z) (loss : option Z) (retrans : bool) : world :=
  World (rpcc_new rnd loss retrans) ∅ (fun _ => 0) [] [].

(** The status and reply of a finished caller have one of these origins. *)
Definition answered (w : world) (x ret : Z) (u : unmarshall) : Prop :=
  ret = timeout_failure \/ ret = cancel_failure \/ (x, ret, u) ∈ pdus w.

(** The frames holding a reference on [c]. *)
Definition holders (m : gmap Z frame) (c : conn) : Z :=
  Z.of_nat (size (filter (fun p => f_ch p.2 = Some c) m)).
Definition chan_ref (r : rpcc) (c : conn) : Z :=
  if decide (chan_ r = Some c) then 1 else 0.

Record inv (w : world) : Prop := {
  inv_xid : 1 <= xid_ (cl w) < 2 ^ 32;
  inv_wf : XidWindow.wf (xid_rep_window_ (cl w));
  inv_issued : forall y, acked (xid_rep_window_ (cl w)) y -> y < xid_ (cl w);
  inv_frames : forall x f, frames w !! x = Some f -> f_xid f = x /\ 1 <= x < xid_ (cl w);
  inv_calls : forall k ca, calls_ (cl w) !! k = Some ca ->
    k = s32 (ca_xid ca) /\ is_Some (frames w !! ca_xid ca);
  inv_live : forall x f, frames w !! x = Some f ->
    exists ca, calls_ (cl w) !! s32 x = Some ca /\ ca_xid ca = x;
  inv_acked : forall k ca, calls_ (cl w) !! k = Some ca ->
    acked (xid_rep_window_ (cl w)) (ca_xid ca) -> ca_done ca = true;
  inv_done : forall k ca, calls_ (cl w) !! k = Some ca -> ca_done ca = true ->
    exists ret, ca_intret ca = Some ret /\
      (ret = cancel_failure \/ (ca_xid ca, ret, ca_un ca) ∈ pdus w);
  inv_destroy : destroy_wait_ (cl w) = true ->
    forall k ca, calls_ (cl w) !! k = Some ca -> ca_done ca = true;
  inv_results : forall x ret u, (x, ret, u) ∈ results w ->
    x < xid_ (cl w) /\ frames w !! x = None /\ answered w x ret u;
  inv_once : NoDup ((fun p => p.1.1) <$> results w);
  inv_refs : forall c, refs w c = chan_ref (cl w) c + holders (frames w) c;
  inv_all : forall x, 1 <= x < xid_ (cl w) ->
    is_Some (frames w !! x) \/ exists ret u, (x, ret, u) ∈ results w;
}.

(** *** References *)

Definition hold (ch : option conn) (c : conn) : Z := if decide (ch = Some c) then 1 else 0.

Lemma holders_insert m x f c :
  m !! x = None -> holders (<[x := f]> m) c = holders m c + hold (f_ch f) c.
Proof.
  intros Hx. unfold holders, hold. destruct (decide _) as [Hc|Hc].
  - rewrite map_filter_insert_True by done.
    rewrite map_size_insert_None; [lia|]. by apply map_lookup_filter_None_2; left.
  - rewrite map_filter_insert_False by done. by rewrite delete_id, Z.add_0_r.
Qed.

Lemma holders_delete m x f c :
  m !! x = Some f -> holders (delete x m) c = holders m c - hold (f_ch f) c.
Proof.
  intros Hx. rewrite <-(insert_delete_id m x f Hx) at 2.
  rewrite holders_insert by apply lookup_delete_eq. lia.
Qed.

Lemma holders_update m x f f' c :
  m !! x = Some f ->
  holders (<[x := f']> m) c = holders m c - hold (f_ch f) c + hold (f_ch f') c.
Proof.
  intros Hx. rewrite <-insert_delete_eq, holders_insert by apply lookup_delete_eq.
  by rewrite (holders_delete _ _ f).
Qed.

Lemma apply_ops_app refs ops1 ops2 :
  apply_ops refs (ops1 ++ ops2) = apply_ops (apply_ops refs ops1) ops2.
Proof. apply foldl_app. Qed.

Lemma get_refconn_refs r ch dead fresh r' ch' ops refs c :
  get_refconn r ch dead fresh = (r', ch', ops) ->
  apply_ops refs ops c =
    refs c + (chan_ref r' c - chan_ref r c) + (hold ch' c - hold ch c).
Proof.
  unfold get_refconn, chan_ref, hold.
  destruct (chan_ r) as [c0|] eqn:E0; [destruct dead|]; destruct fresh as [c1|], ch as [c2|];
    intros [= <- <- <-]; simpl; unfold bump;
    repeat (destruct (decide _); simplify_eq/=); lia.
Qed.

(** Everything but the connection and the lossy-network fields. *)
Definition same_core (r r' : rpcc) : Prop :=
  xid_ r' = xid_ r /\ calls_ r' = calls_ r /\ xid_rep_window_ r' = xid_rep_window_ r /\
  destroy_wait_ r' = destroy_wait_ r.

Lemma transmit_request_spec r f dead fresh r' f' ops :
  transmit_request r f dead fresh = (r', f', ops) ->
  same_core r r' /\ f_xid f' = f_xid f /\
  (forall refs c, apply_ops refs ops c =
     refs c + (chan_ref r' c - chan_ref r c) + (hold (f_ch f') c - hold (f_ch f) c)).
Proof.
  unfold transmit_request. destruct (f_transmit f).
  2: { intros [= <- <- <-]. split_and!; [done|done|]. simpl. intros. lia. }
  destruct (get_refconn r (f_ch f) dead fresh) as [[r1 ch] ops1] eqn:Hg.
  assert (same_core r r1) as Hcore.
  { revert Hg. unfold get_refconn. destruct (chan_ r) as [c0|]; [destruct dead|];
      destruct fresh as [c1|], (f_ch f); intros [= <- _ _]; done. }
  assert (forall sends refs c, Forall (fun o => exists c b, o = OpSend c b) sends ->
            apply_ops refs (ops1 ++ sends) c =
            refs c + (chan_ref r1 c - chan_ref r c) + (hold ch c - hold (f_ch f) c)) as Hops.
  { intros sends refs c Hs. rewrite apply_ops_app, <-(get_refconn_refs _ _ _ _ _ _ _ _ _ Hg).
    generalize (apply_ops refs ops1). induction Hs as [|o sends (? & ? & ->) Hs IH]; [done|].
    intros g. apply IH. }
  destruct ch as [c0|]; [destruct (reachable_ r1); [destruct (isvalid _ && _)|]|];
    intros [= <- <- <-]; (split; [done|split; [done|]]); intros refs c; apply Hops;
    repeat constructor; eauto.
Qed.

Lemma call1_top_spec r f dead fresh now r' f' ops :
  call1_top r f dead fresh now = Val (r', f', ops) ->
  same_core r r' /\ f_xid f' = f_xid f /\
  (forall refs c, apply_ops refs ops c =
     refs c + (chan_ref r' c - chan_ref r c) + (hold (f_ch f') c - hold (f_ch f) c)).
Proof.
  unfold call1_top. destruct (transmit_request r f dead fresh) as [[r1 f1] ops1] eqn:Ht.
  apply transmit_request_spec in Ht as (Hc & Hx & Hops).
  destruct (next_deadline _ _ _) as [[[next final]|]|]; simpl; intros [= <- <- <-]; done.
Qed.

Lemma s32_inj a b : is_u32 a -> is_u32 b -> s32 a = s32 b -> a = b.
Proof. intros Ha Hb Heq. by rewrite <-(u32_s32 a Ha), <-(u32_s32 b Hb), Heq. Qed.

(** *** Preservation, step by step *)

Lemma inv_core w r' :
  inv w -> same_core (cl w) r' -> chan_ r' = chan_ (cl w) ->
  inv (World r' (frames w) (refs w) (pdus w) (results w)).
Proof.
  intros [] (E1 & E2 & E3 & E4) E5.
  constructor; simpl; rewrite ?E1, ?E2, ?E3, ?E4; try done.
  intros c. unfold chan_ref. by rewrite E5.
Qed.

Lemma inv_frame_update w x f f' r' refs' :
  inv w -> frames w !! x = Some f -> f_xid f' = f_xid f -> same_core (cl w) r' ->
  (forall c, refs' c = refs w c + (chan_ref r' c - chan_ref (cl w) c)
                       + (hold (f_ch f') c - hold (f_ch f) c)) ->
  inv (World r' (<[x := f']> (frames w)) refs' (pdus w) (results w)).
Proof.
  intros [] Hf Hx (E1 & E2 & E3 & E4) Hrefs.
  assert (forall y, is_Some (frames w !! y) -> is_Some (<[x := f']> (frames w) !! y)) as Hdom.
  { intros y Hy. by apply lookup_insert_is_Some'; right. }
  assert (forall y g, <[x := f']> (frames w) !! y = Some g -> exists g', frames w !! y = Some g')
    as Hdom'.
  { intros y g [[-> ->]|[? ?]]%lookup_insert_Some; eauto. }
  constructor; simpl; rewrite ?E1, ?E2, ?E3, ?E4; try done.
  - intros y g [[-> ->]|[_ Hg]]%lookup_insert_Some; [|by eapply inv_frames0].
    rewrite Hx. by apply inv_frames0.
  - intros k ca Hk. destruct (inv_calls0 _ _ Hk). auto.
  - intros y g Hg. destruct (Hdom' _ _ Hg) as [g' Hg']. eauto.
  - intros y ret u Hr. destruct (inv_results0 _ _ _ Hr) as (? & Hn & ?).
    split_and!; [done| |done]. rewrite lookup_insert_ne; [done|]. intros ->. congruence.
  - intros c. rewrite Hrefs, inv_refs0, (holders_update _ _ f) by done. lia.
  - intros y Hy. destruct (inv_all0 y Hy) as [?|?]; [left; auto|by right].
Qed.

Lemma call1_begin_spec r proc req rep to now r' f :
  call1_begin r proc req rep to now = Val (inr (r', f)) ->
  f_xid f = xid_ r /\ f_ch f = None /\ destroy_wait_ r = false /\
  same_core (set_calls (set_next_xid r (u32 (xid_ r + 1)))
                       (<[s32 (xid_ r) := Caller (xid_ r) rep None false]> (calls_ r))) r' /\
  chan_ r' = chan_ r.
Proof.
  unfold call1_begin. destruct (_ || _); [done|]. destruct (destroy_wait_ r) eqn:Hd; [done|].
  destruct (xid_rep_window_ r) eqn:Hw; [done|]. intros Hb. outcome_inv.
  by split_and!; simpl.
Qed.

Lemma inv_begin w proc req rep to now r f :
  inv w -> xid_ (cl w) + 1 < 2 ^ 32 ->
  call1_begin (cl w) proc req rep to now = Val (inr (r, f)) ->
  inv (World r (<[f_xid f := f]> (frames w)) (refs w) (pdus w) (results w)).
Proof.
  intros [] Hmax (Hx & Hch & Hd & (E1 & E2 & E3 & E4) & E5)%call1_begin_spec.
  simpl in *. rewrite u32_id in E1 by (unfold is_u32; lia).
  assert (frames w !! xid_ (cl w) = None) as Hnew.
  { destruct (frames w !! xid_ (cl w)) eqn:E; [|done]. apply inv_frames0 in E. lia. }
  constructor; simpl; rewrite ?Hx, ?E1, ?E2, ?E3, ?E4; try done.
  - lia.
  - intros y Hy%inv_issued0. lia.
  - intros y g [[<- <-]|[_ Hg]]%lookup_insert_Some; [lia|]. apply inv_frames0 in Hg. lia.
  - intros k ca [[<- <-]|[_ Hk]]%lookup_insert_Some; simpl.
    + split; [done|]. rewrite lookup_insert_eq. eauto.
    + destruct (inv_calls0 _ _ Hk) as [? ?]. split; [done|].
      by apply lookup_insert_is_Some'; right.
  - intros y g [[<- <-]|[Hne Hg]]%lookup_insert_Some.
    + eexists. by rewrite lookup_insert_eq.
    + destruct (inv_live0 _ _ Hg) as (ca & Hca & Hy). exists ca. split; [|done].
      rewrite lookup_insert_ne; [done|]. intros Hs. apply Hne.
      apply inv_frames0 in Hg. apply s32_inj; [unfold is_u32; lia..|done].
  - intros k ca [[<- <-]|[_ Hk]]%lookup_insert_Some; simpl; [|by eapply inv_acked0].
    intros Ha%inv_issued0. lia.
  - intros k ca [[<- <-]|[_ Hk]]%lookup_insert_Some; simpl; [done|]. by eapply inv_done0.
  - by rewrite Hd.
  - intros y ret u Hr. destruct (inv_results0 _ _ _ Hr) as (? & Hn & ?).
    split_and!; [lia| |done]. rewrite lookup_insert_ne; [done|lia].
  - intros c. rewrite holders_insert, inv_refs0 by done. unfold chan_ref, hold.
    rewrite E5, Hch. simpl. lia.
  - intros y Hy. rewrite lookup_insert_is_Some'. destruct (decide (xid_ (cl w) = y)) as [?|]; [by left; left|].
    destruct (inv_all0 y) as [?|?]; [lia|by left; right|by right].
Qed.

Lemma call1_end_spec r f r' ret u ops :
  call1_end r f = Val (r', ret, u, ops) ->
  exists ca w, calls_ r !! s32 (f_xid f) = Some ca /\
    update_xid_rep (xid_rep_window_ r) (f_xid f) = Val w /\
    same_core (set_window (set_calls r (delete (s32 (f_xid f)) (calls_ r))) w) r' /\
    chan_ r' = chan_ r /\ u = ca_un ca /\
    (if ca_done ca then ca_intret ca = Some ret else ret = timeout_failure) /\
    ops = OpDecref <$> option_list (f_ch f).
Proof.
  unfold call1_end. destruct (calls_ r !! s32 (f_xid f)) as [ca|] eqn:Hca; [|done].
  intros He. outcome_inv. exists ca. eexists. split; [done|]. split; [done|].
  destruct (ca_done ca); [destruct (ca_intret ca); [|done]|]; outcome_inv;
    destruct (lossytest_ r =? 0); done.
Qed.

Lemma decref_ops refs ch c : apply_ops refs (OpDecref <$> option_list ch) c = refs c - hold ch c.
Proof.
  unfold hold. destruct ch as [c0|]; simpl; unfold bump; repeat destruct (decide _); simplify_eq; lia.
Qed.

Lemma inv_end w x f r ret u ops :
  inv w -> frames w !! x = Some f -> call1_end (cl w) f = Val (r, ret, u, ops) ->
  inv (World r (delete x (frames w)) (apply_ops (refs w) ops) (pdus w)
             ((x, ret, u) :: results w)).
Proof.
  intros [] Hf (ca & win & Hca & Hw & (E1 & E2 & E3 & E4) & E5 & -> & Hret & ->)%call1_end_spec.
  destruct (inv_frames0 _ _ Hf) as [Hfx Hx]. rewrite Hfx in *. simpl in *.
  destruct (update_xid_rep_ok (xid_rep_window_ (cl w)) x) as (win' & Hw' & Hwf' & Hack);
    [done|unfold is_u32; lia|]. rewrite Hw in Hw'. injection Hw' as <-.
  assert (ca_xid ca = x) as Hcx.
  { destruct (inv_live0 _ _ Hf) as (ca' & Hca' & ?). congruence. }
  assert (answered w x ret (ca_un ca)) as Hans.
  { unfold answered. destruct (ca_done ca) eqn:Hd; [|by left].
    destruct (inv_done0 _ _ Hca Hd) as (ret' & Hi & [->|Hp]).
    - right; left. congruence.
    - right; right. congruence. }
  assert (forall k ca', delete (s32 x) (calls_ (cl w)) !! k = Some ca' ->
            calls_ (cl w) !! k = Some ca' /\ ca_xid ca' <> x) as Hdel.
  { intros k ca' [Hk Hk']%lookup_delete_Some. split; [done|]. intros Hxx.
    destruct (inv_calls0 _ _ Hk') as [-> _]. by rewrite Hxx in Hk. }
  constructor; simpl; rewrite ?E1, ?E2, ?E3, ?E4; try done.
  - intros y [Hy| ->]%Hack; [by apply inv_issued0|lia].
  - intros y g [Hne Hg]%lookup_delete_Some. by eapply inv_frames0.
  - intros k ca' [Hk Hne]%Hdel. destruct (inv_calls0 _ _ Hk) as [Hk' [g Hg]].
    split; [done|]. exists g. by rewrite lookup_delete_ne.
  - intros y g [Hne Hg]%lookup_delete_Some. destruct (inv_live0 _ _ Hg) as (ca' & Hca' & Hy).
    exists ca'. split; [|done]. rewrite lookup_delete_ne; [done|]. intros Hs. apply Hne.
    apply inv_frames0 in Hg. apply s32_inj; [unfold is_u32; lia..|done].
  - intros k ca' [Hk Hne]%Hdel [Ha|Ha]%Hack; [by eapply inv_acked0|done].
  - intros k ca' [Hk Hne]%Hdel. by eapply inv_done0.
  - intros Hd k ca' [Hk Hne]%Hdel. by eapply inv_destroy0.
  - intros y ret' u' [[= -> -> ->]|Hr]%elem_of_cons.
    + split_and!; [lia|apply lookup_delete_eq|done].
    + destruct (inv_results0 _ _ _ Hr) as (? & Hn & ?). split_and!; [done| |done].
      by apply lookup_delete_None; right.
  - constructor; [|done]. intros ([[y ret'] u'] & Hy & Hr)%list_elem_of_fmap. simpl in Hy.
    destruct (inv_results0 _ _ _ Hr) as (? & Hn & ?). congruence.
  - intros c. rewrite decref_ops, inv_refs0, (holders_delete _ _ f) by done.
    unfold chan_ref. rewrite E5. lia.
  - intros y Hy. destruct (decide (y = x)) as [->|Hne].
    + right. exists ret, (ca_un ca). by left.
    + destruct (inv_all0 y Hy) as [[g Hg]|(ret' & u' & Hr)]; [left|right].
      * exists g. by rewrite lookup_delete_ne.
      * exists ret', u'. by right.
Qed.

Lemma unpack_reply_header_s32 u u' h :
  unpack_reply_header u = Val (u', h) -> is_s32 (rp_xid h).
Proof.
  unfold unpack_reply_header, unpack, get_int. intros Hu. outcome_inv. apply s32_range.
Qed.

Lemma client_got_pdu_spec r b sz r' ok :
  client_got_pdu r b sz = Val (r', ok) ->
  match pdu_reply b sz with
  | None => r' = r
  | Some (y, ret, u) =>
      exists w, is_u32 y /\ update_xid_rep (xid_rep_window_ r) y = Val w /\
        match calls_ r !! s32 y with
        | Some ca =>
            if ca_done ca then r' = set_window r w
            else r' = set_calls (set_window r w)
                        (<[s32 y := Caller (ca_xid ca) u (Some ret) true]> (calls_ r))
        | None => r' = set_window r w
        end
  end.
Proof.
  unfold client_got_pdu, pdu_reply.
  destruct (unpack_reply_header _) as [[rep [hx hr]]|] eqn:Hu; simpl; [|done].
  destruct (u_ok rep); simpl; [|by intros [= <- _]].
  apply unpack_reply_header_s32 in Hu. simpl in Hu. intros Hr. outcome_inv.
  eexists. split; [apply u32_range|]. split; [done|]. rewrite s32_u32 by done.
  simpl in Hr. change sint with Z in *. destruct (calls_ r !! hx) as [ca|]; [destruct (ca_done ca)|];
    by injection Hr as <- _.
Qed.

Lemma inv_pdu w b sz r ok :
  inv w -> client_got_pdu (cl w) b sz = Val (r, ok) ->
  (forall y ret u, pdu_reply b sz = Some (y, ret, u) -> y < xid_ (cl w)) ->
  inv (World r (frames w) (refs w) (option_list (pdu_reply b sz) ++ pdus w) (results w)).
Proof.
  intros Hinv Hg%client_got_pdu_spec Hlt.
  destruct (pdu_reply b sz) as [[[y ret] u]|]; simpl in *.
  2: { subst r. destruct w. exact Hinv. }
  specialize (Hlt _ _ _ eq_refl). destruct Hg as (win & Hy & Hw & Hr).
  destruct Hinv. destruct (update_xid_rep_ok (xid_rep_window_ (cl w)) y)
    as (win' & Hw' & Hwf' & Hack); [done..|]. rewrite Hw in Hw'. injection Hw' as <-.
  assert (forall x ret' u', answered w x ret' u' ->
            answered (World r (frames w) (refs w) ((y, ret, u) :: pdus w) (results w)) x ret' u')
    as Hmono.
  { intros x ret' u' [?|[?|?]]; [by left|by right; left|by right; right; apply elem_of_cons; right]. }
  (* the callers afterwards: as before, or the one answered *)
  assert (forall k ca, calls_ r !! k = Some ca ->
            (calls_ (cl w) !! k = Some ca /\ (ca_xid ca = y -> ca_done ca = true)) \/
            (exists ca0, k = s32 y /\ calls_ (cl w) !! k = Some ca0 /\ ca_xid ca = ca_xid ca0 /\
                         ca_xid ca = y /\ ca_done ca = true /\ ca_intret ca = Some ret /\
                         ca_un ca = u)) as Hcalls.
  { intros k ca Hk. destruct (calls_ (cl w) !! s32 y) as [ca0|] eqn:E;
      [destruct (ca_done ca0) eqn:Hd|]; subst r; simpl in Hk.
    - left. split; [done|]. intros Hx. destruct (inv_calls0 _ _ Hk) as [-> _]. congruence.
    - apply lookup_insert_Some in Hk as [[<- <-]|[Hne Hk]].
      + right. exists ca0. split_and!; [done..| |done|done|done]. simpl.
        destruct (inv_calls0 _ _ E) as [Hs [g Hg]]. apply inv_frames0 in Hg as [_ Hg].
        symmetry. apply s32_inj; [done|unfold is_u32; lia|done].
      + left. split; [done|]. intros Hx. destruct (inv_calls0 _ _ Hk) as [-> _]. by rewrite Hx in Hne.
    - left. split; [done|]. intros Hx. destruct (inv_calls0 _ _ Hk) as [-> _]. congruence. }
  assert (xid_ r = xid_ (cl w) /\ xid_rep_window_ r = win /\ destroy_wait_ r = destroy_wait_ (cl w)
          /\ chan_ r = chan_ (cl w)) as (E1 & E2 & E3 & E4).
  { destruct (calls_ (cl w) !! s32 y) as [ca0|]; [destruct (ca_done ca0)|]; by subst r. }
  constructor; simpl; rewrite ?E1, ?E2, ?E3; try done.
  - intros z [Hz| ->]%Hack; [by apply inv_issued0|done].
  - intros k ca [[Hk _]|(ca0 & -> & Hk & -> & _)]%Hcalls; by apply inv_calls0.
  - intros x f Hf. destruct (inv_live0 _ _ Hf) as (ca & Hca & Hx).
    destruct (calls_ (cl w) !! s32 y) as [ca0|] eqn:E; [destruct (ca_done ca0) eqn:Hd|];
      subst r; simpl; eauto.
    destruct (decide (s32 x = s32 y)) as [He|Hne].
    + rewrite He, lookup_insert_eq. eexists. split; [done|]. simpl. congruence.
    + rewrite lookup_insert_ne by done. eauto.
  - intros k ca [[Hk Hd]|(ca0 & -> & Hk & _ & _ & Hd & _)]%Hcalls [Ha|Ha]%Hack; eauto.
  - intros k ca [[Hk Hd]|(ca0 & -> & Hk & _ & Hx & Hd & Hi & Hu)]%Hcalls Hdone.
    + destruct (inv_done0 _ _ Hk Hdone) as (ret' & ? & [?|?]); exists ret'; split; auto.
      right. by apply elem_of_cons; right.
    + exists ret. split; [done|]. right. rewrite Hx, Hu. by apply elem_of_cons; left.
  - intros Hdw k ca [[Hk Hd]|(ca0 & -> & Hk & _ & _ & Hd & _)]%Hcalls; eauto.
  - intros x ret' u' Hr'. destruct (inv_results0 _ _ _ Hr') as (? & ? & ?). auto.
  - intros c. rewrite inv_refs0. unfold chan_ref. by rewrite E4.
Qed.

Lemma inv_cancel w :
  inv w -> inv (World (cancel (cl w)) (frames w) (refs w) (pdus w) (results w)).
Proof.
  intros []. unfold cancel. set (fail := fun ca => _). set (r := set_calls _ _).
  assert (forall k ca, (fail <$> calls_ (cl w)) !! k = Some ca ->
            exists ca0, calls_ (cl w) !! k = Some ca0 /\ ca = fail ca0) as Hfm.
  { intros k ca. rewrite lookup_fmap. intros (ca0 & -> & ?)%fmap_Some. eauto. }
  assert (forall r', r' = r \/ r' = set_destroy_wait r true ->
            inv (World r' (frames w) (refs w) (pdus w) (results w))) as Hboth.
  { intros r' Hr'. constructor; simpl.
    all: destruct Hr' as [-> | ->]; subst r; simpl; try done.
    all: try (intros k ca (ca0 & Hk & ->)%Hfm; simpl; eauto; fail).
    all: try (intros _ k ca (ca0 & Hk & ->)%Hfm; simpl; eauto; fail).
    all: try (intros k ca (ca0 & Hk & ->)%Hfm _; eexists; split; [done|]; by left).
    all: intros x f Hf; destruct (inv_live0 _ _ Hf) as (ca & Hca & Hx); exists (fail ca);
      by rewrite lookup_fmap, Hca. }
  case_bool_decide; apply Hboth; auto.
Qed.

Lemma client_step_inv w w' : inv w -> step w w' -> inv w'.
Proof.
  intros Hinv Hstep.
  destruct Hstep as [w proc req rep to now r f Hm Hb|w x f dead fresh now r f' ops Hf _ Ht
    |w x f next ca Hf _ _ _|w x f next ca dead f' Hf _ _ _ Ht|w x f r ret u ops Hf _ He
    |w b sz r ok Hg Hlt| | |]; try done.
  - by eapply inv_begin.
  - apply call1_top_spec in Ht as (Hc & Hx & Hops). by eapply inv_frame_update.
  - eapply inv_frame_update; [done..|]. intros c. simpl. lia.
  - unfold call1_timeout in Ht. outcome_inv. eapply inv_frame_update; [done|done|done|done|].
    intros c. simpl. lia.
  - by eapply inv_end.
  - by eapply inv_pdu.
  - by apply inv_cancel.
  - apply inv_core; [done|..]; unfold bind_result; by destruct (ret =? 0).
  - by apply inv_core.
Qed.

Lemma client_reachable_inv rnd loss retrans w : rtc step (start rnd loss retrans) w -> inv w.
Proof.
  intros Hr. assert (inv (start rnd loss retrans)) as Hi.
  { constructor; simpl; try done; try (intros ? ?; by rewrite lookup_empty).
    - apply wf_init.
    - intros y [Hy|Hy%list_elem_of_singleton]; lia.
    - intros x ret u Hx%elem_of_nil; done.
    - constructor.
    - intros x Hx. lia. }
  revert Hi. induction Hr as [|w1 w2 w3 Hs Hr IH]; [done|]. intros Hi. apply IH.
  by eapply client_step_inv.
Qed.

(** C8: the client never acknowledges a call that still waits. In every
    reachable state, with any calls in flight, replies, timeouts and
    cancellations, the [xid_rep] the next request header carries (the front of
    [xid_rep_window_]) covers a call that has not returned only if its caller
    already has its answer, so the server may drop what it remembers up to
    [xid_rep]. *)
Theorem xid_rep_never_covers_pending rnd loss retrans w n win x f :
  rtc step (start rnd loss retrans) w ->
  xid_rep_window_ (cl w) = n :: win -> frames w !! x = Some f -> x <= n ->
  exists ca, calls_ (cl w) !! s32 x = Some ca /\ ca_xid ca = x /\ ca_done ca = true.
Proof.
  intros [_ _ _ _ _ Hlive Hack _ _ _ _ _ _]%client_reachable_inv Hw Hf Hle.
  destruct (Hlive _ _ Hf) as (ca & Hca & Hx). exists ca. split_and!; [done..|].
  eapply Hack; [done|]. rewrite Hw, Hx. by left.
Qed.

Lemma call1_end_total w x f :
  inv w -> frames w !! x = Some f -> exists r ret u ops, call1_end (cl w) f = Val (r, ret, u, ops).
Proof.
  intros Hi Hf. destruct (inv_frames _ Hi _ _ Hf) as [Hfx Hx]. pose proof (inv_xid _ Hi) as Hm.
  destruct (inv_live _ Hi _ _ Hf) as (ca & Hca & _).
  destruct (update_xid_rep_ok (xid_rep_window_ (cl w)) x) as (win & Hw & _);
    [apply (inv_wf _ Hi)|unfold is_u32; lia|].
  unfold call1_end. rewrite Hfx, Hca. simpl. rewrite Hw. simpl.
  destruct (ca_done ca) eqn:Hd; [|simpl; eauto 10].
  destruct (inv_done _ Hi _ _ Hca Hd) as (ret & -> & _). simpl. destruct (lossytest_ (cl w) =? 0); simpl; eauto 10.
Qed.

Lemma call_steps_split s s' :
  rtc call_step s s' -> rtc step s.1 s'.1 /\
  (Forall (fun n => n = bind_failure \/ n = cancel_failure) s.2 ->
   Forall (fun n => n = bind_failure \/ n = cancel_failure) s'.2).
Proof.
  induction 1 as [s|s1 s2 s3 Hs _ [IH1 IH2]]; [by split; [apply rtc_refl|]|].
  destruct Hs as [w ref proc req rep to now n Hb|w w' ref Hs]; simpl in *.
  - split; [done|]. intros Hr. apply IH2. constructor; [|done]. revert Hb. unfold call1_begin.
    destruct (_ || _); [by intros [= <-]; left|]. destruct (destroy_wait_ _); [by intros [= <-]; right|].
    destruct (xid_rep_window_ _); [done|]. destruct (pack_req_header _ _); [|done]. by destruct (add_timespec now to).
  - split; [by eapply rtc_l|done].
Qed.

(** C10: a call returns its own reply. In every reachable state, with any calls
    in flight: a call that was turned away had [bind_failure] or [cancel_failure].
    Every other call has a transaction number, of those issued so far, and is
    either in progress or has returned, once, with [timeout_failure], with
    [cancel_failure], or with the status and the body of a reply PDU that carried its
    own transaction number: replies to other calls, duplicates and late replies
    never reach it. A call in progress that has left its loop does return: nothing
    after the loop faults. *)
Theorem call_returns_own_reply rnd loss retrans w refused :
  rtc call_step (start rnd loss retrans, []) (w, refused) ->
  Forall (fun n => n = bind_failure \/ n = cancel_failure) refused /\
  NoDup ((fun p => p.1.1) <$> results w) /\
  (forall x, 1 <= x < xid_ (cl w) -> is_Some (frames w !! x) \/ exists ret u, (x, ret, u) ∈ results w) /\
  (forall x ret u, (x, ret, u) ∈ results w ->
    frames w !! x = None /\
    (ret = timeout_failure \/ ret = cancel_failure \/ (x, ret, u) ∈ pdus w)) /\
  (forall x f, frames w !! x = Some f -> f_phase f = Leaving ->
    exists w' ret u, step w w' /\ results w' = (x, ret, u) :: results w /\ frames w' = delete x (frames w)).
Proof.
  intros [Hr Hf]%call_steps_split. simpl in *. apply client_reachable_inv in Hr as Hi.
  split_and!; [by apply Hf|apply (inv_once _ Hi)|apply (inv_all _ Hi)| |].
  - intros x ret u Hx. by destruct (inv_results _ Hi _ _ _ Hx) as (_ & ? & ?).
  - intros x f Hx Hp. destruct (call1_end_total w x f Hi Hx) as (r & ret & u & ops & He).
    eexists _, ret, u. split; [by eapply step_end|]. done.
Qed.

(** A client has a call in progress when it has a caller. *)
Lemma calls_empty w : inv w -> calls_ (cl w) = ∅ <-> frames w = ∅.
Proof.
  intros Hinv. split; intros E; apply map_empty; intros k.
  - destruct (frames w !! k) as [f|] eqn:Hf; [|done]. destruct (inv_live _ Hinv _ _ Hf) as (ca & Hca & _).
    by rewrite E, lookup_empty in Hca.
  - destruct (calls_ (cl w) !! k) as [ca|] eqn:Hca; [|done].
    destruct (inv_calls _ Hinv _ _ Hca) as [_ [f Hf]]. by rewrite E, lookup_empty in Hf.
Qed.

Lemma client_refs_idle w c : inv w -> frames w = ∅ -> refs w c = chan_ref (cl w) c.
Proof.
  intros Hinv E. rewrite (inv_refs _ Hinv), E. unfold holders. rewrite map_filter_empty, map_size_empty. simpl. lia.
Qed.

(** C21: connection references balance, to the end. At every moment the client
    holds, on each connection, one reference for [chan_] if that is it and one
    for every call in progress that used it last. Deleting the client aborts the
    process exactly while a call is in progress, and otherwise gives up the last
    reference. *)
Theorem client_refs_balanced rnd loss retrans w c :
  rtc step (start rnd loss retrans) w ->
  refs w c = chan_ref (cl w) c + holders (frames w) c /\
  (frames w = ∅ -> exists ops, rpcc_delete (cl w) = Val (chan_ (cl w), ops) /\ apply_ops (refs w) ops c = 0) /\
  (frames w <> ∅ -> rpcc_delete (cl w) = Fault VerifyFailed).
Proof.
  intros Hinv%client_reachable_inv. split_and!; [apply (inv_refs _ Hinv)| |]; unfold rpcc_delete.
  - intros E. rewrite (proj2 (calls_empty w Hinv) E), map_size_empty. simpl. eexists. split; [done|].
    pose proof (client_refs_idle w c Hinv E) as Hr. unfold chan_ref in Hr.
    destruct (chan_ (cl w)) as [d|]; simpl; [unfold bump|]; repeat case_decide; simplify_eq; lia.
  - intros E. rewrite bool_decide_eq_false_2; [done|]. by rewrite map_size_empty_iff, (calls_empty w Hinv).
Qed.

(** C22: [cancel] cannot be kept waiting. Once it waits ([destroy_wait_]),
    every call in flight has its answer, so its thread leaves the loop, and no
    new call is admitted: [calls_] can only shrink. *)
Theorem cancel_drains rnd loss retrans w :
  rtc step (start rnd loss retrans) w -> destroy_wait_ (cl w) = true ->
  (forall x f, frames w !! x = Some f ->
     exists ca, calls_ (cl w) !! s32 x = Some ca /\ ca_done ca = true) /\
  (forall proc req rep to now, exists n,
     call1_begin (cl w) proc req rep to now = Val (inl n) /\
     (n = bind_failure \/ n = cancel_failure)).
Proof.
  intros [_ _ _ _ _ Hlive _ _ Hd _ _ _ _]%client_reachable_inv Hdw. split.
  - intros x f Hf. destruct (Hlive _ _ Hf) as (ca & Hca & Hx). exists ca. eauto.
  - intros proc req rep to now. unfold call1_begin. rewrite Hdw.
    destruct (_ || _); eauto.
Qed.

(** ** Deadlines

    A call nobody answers: [idle] is the frame of its thread at the head of the
    loop, and a lower bound on the clock. A round runs the head of the loop, sleeps
    until the deadline has passed, with a deadline that [pthread_cond_timedwait]
    accepts, and goes on as after a time-out. Other threads change the client
    object in between. *)

Definition idle : Type := (frame * Z)%type.

Inductive idle_round : idle -> idle -> Prop :=
| IdleRound r f t dead fresh now r1 f1 ops next r2 dead' f' t' :
    normal now -> t <= ns now ->
    call1_top r f dead fresh now = Val (r1, f1, ops) ->
    f_phase f1 = Waiting next -> normal next -> ns next <= t' ->
    call1_timeout r2 f1 dead' = Val f' ->
    idle_round (f, t) (f', t').

(** What the head of the loop does with the deadlines. *)
Definition sleeps_until (f f1 : frame) (d : option (timespec * timespec)) : Prop :=
  f_curr_to f1 = f_curr_to f /\ f_xid f1 = f_xid f /\
  match d with
  | None => f_phase f1 = Leaving /\ f_final f1 = f_final f
  | Some (next, final) => f_phase f1 = Waiting next /\ f_final f1 = final
  end.

Lemma call1_top_deadline r f dead fresh now d :
  next_deadline (f_final f) now (f_curr_to f) = Val d ->
  exists r1 f1 ops, call1_top r f dead fresh now = Val (r1, f1, ops) /\ sleeps_until f f1 d.
Proof.
  intros Hd. unfold call1_top, sleeps_until, transmit_request.
  destruct (f_transmit f); [|rewrite Hd; destruct d as [[? ?]|]; simpl; eauto 10].
  destruct (get_refconn _ _ _ _) as [[r1 ch] ops]. destruct (match ch with Some _ => _ | None => _ end) as [r2 sends].
  simpl. rewrite Hd. destruct d as [[? ?]|]; simpl; eauto 10.
Qed.

Lemma add_seconds now b :
  normal now -> 0 <= b -> b mod 1000 = 0 ->
  exists t, add_timespec now b = Val t /\ ns t = ns now + b * 1000000 /\ normal t.
Proof.
  intros Hn Hb Hm. destruct (add_timespec_spec now b Hn Hb) as (t & Ht & Hns & Hr & Heq).
  exists t. split_and!; [done..|]. rewrite Hm in Heq. unfold normal in *.
  split; [lia|]. destruct (decide (tv_nsec t = 1000000000)) as [E%Heq|]; lia.
Qed.

Lemma cmp_timespec_gt a b :
  normal a -> 0 <= tv_nsec b <= 1000000000 -> ns a > ns b -> cmp_timespec a b > 0.
Proof.
  unfold normal, ns, cmp_timespec. intros Ha Hb Hgt.
  destruct (Z.gtb_spec (tv_sec a) (tv_sec b)), (Z.ltb_spec (tv_sec a) (tv_sec b)),
    (Z.gtb_spec (tv_nsec a) (tv_nsec b)), (Z.ltb_spec (tv_nsec a) (tv_nsec b)); lia.
Qed.

Lemma call1_timeout_doubles r f dead f' :
  call1_timeout r f dead = Val f' ->
  f_curr_to f' = 2 * f_curr_to f /\ f_final f' = f_final f /\ f_xid f' = f_xid f.
Proof.
  unfold call1_timeout. intros Ht. outcome_inv. simpl. split_and!; [|done|done].
  match goal with H : int_arith _ = Val _ |- _ => revert H end.
  unfold int_arith. rewrite Z.shiftl_mul_pow2 by lia. case_bool_decide; [|done]. intros [= <-]. lia.
Qed.

Lemma idle_rounds_bound n : forall f t0 f' t,
  0 <= tv_nsec (f_final f) <= 1000000000 -> ns (f_final f) <= t0 + to_max * 1000000 -> f_curr_to f = to_min ->
  nsteps idle_round n (f, t0) (f', t) ->
  f_curr_to f' = 1000 * 2 ^ Z.of_nat n /\ f_xid f' = f_xid f /\
  ((n <= 6)%nat /\ f_final f' = f_final f /\ t0 + 1000000000 * (2 ^ Z.of_nat n - 1) <= t \/
   (n <= 7)%nat /\ tv_sec (f_final f') = 0).
Proof.
  induction n as [|n IH]; intros f t0 f' t Hf Hmax Hc Hst.
  { inversion Hst; subst. split_and!; [done|done|]. left. simpl. split_and!; [lia|done|lia]. }
  apply nsteps_inv_r in Hst as ([f1 t1] & Hst & Hr).
  destruct (IH _ _ _ _ Hf Hmax Hc Hst) as (Hcur & Hxid & Hcase).
  inversion Hr as [r ? ? dead fresh now r1 f2 ops next r2 dead' ? ? Hnow Hge Htop Hph Hnn Ht' Hto]; subst.
  apply call1_timeout_doubles in Hto as (Hc' & Hfin' & Hx').
  assert (0 < 2 ^ Z.of_nat n) as Hpos by (apply Z.pow_pos_nonneg; lia).
  assert (2 ^ Z.of_nat (S n) = 2 * 2 ^ Z.of_nat n) as Hdbl.
  { rewrite Nat2Z.inj_succ, Z.pow_succ_r; lia. }
  destruct (add_seconds now (1000 * 2 ^ Z.of_nat n)) as (d & Hd & Hdns & Hdn);
    [done|lia|by rewrite Z.mul_comm, Z.mod_mul|].
  assert (exists o, next_deadline (f_final f1) now (f_curr_to f1) = Val o) as [o Ho].
  { unfold next_deadline. rewrite Hcur, Hd. simpl. repeat case_match; eauto. }
  destruct (call1_top_deadline r f1 dead fresh now o Ho) as (r1' & f2' & ops' & Htop' & Hc2 & Hx2 & Hd2).
  rewrite Htop in Htop'. injection Htop' as <- <- <-.
  unfold next_deadline in Ho. destruct (Z.eqb_spec (tv_sec (f_final f1)) 0) as [|Hnz].
  { injection Ho as <-. destruct Hd2. congruence. }
  destruct Hcase as [(Hn & Hfin & Hbound)|[_ ?]]; [|done].
  rewrite Hcur, Hd in Ho. simpl in Ho. split_and!; [lia|congruence|].
  destruct (Z.gtb_spec (cmp_timespec d (f_final f1)) 0) as [Hgt|Hle]; injection Ho as <-;
    destruct Hd2 as [Hp2 Hf2]; rewrite Hph in Hp2; injection Hp2 as ->.
  - right. split; [lia|]. by rewrite Hfin', Hf2.
  - left. rewrite Hfin in *. assert (ns d <= ns (f_final f)) as Hlast.
    { destruct (Z.le_gt_cases (ns d) (ns (f_final f))) as [|Hg]; [done|].
      assert (cmp_timespec d (f_final f) > 0); [|lia]. apply cmp_timespec_gt; [done|done|lia]. }
    unfold to_max in Hmax. split_and!; [|congruence|lia].
    assert (2 ^ Z.of_nat (S n) <= 121) as H121 by lia.
    destruct (decide (S n <= 6)%nat) as [|Hbig]; [done|].
    assert (2 ^ 7 <= 2 ^ Z.of_nat (S n)); [|lia].
    apply Z.pow_le_mono_r; lia.
Qed.

(** The end of a call that had no answer. *)
Lemma call1_end_timeout r f ca :
  XidWindow.wf (xid_rep_window_ r) -> is_u32 (f_xid f) ->
  calls_ r !! s32 (f_xid f) = Some ca -> ca_done ca = false ->
  exists r' ops, call1_end r f = Val (r', timeout_failure, ca_un ca, ops).
Proof.
  intros Hwf Hx Hca Hd. destruct (update_xid_rep_ok _ _ Hwf Hx) as (w & Hw & _).
  unfold call1_end. rewrite Hca, Hd. simpl. rewrite Hw. simpl. eauto.
Qed.

Lemma call1_begin_deadline r0 proc req rep to now0 r f :
  normal now0 -> 0 <= to -> call1_begin r0 proc req rep to now0 = Val (inr (r, f)) ->
  f_xid f = xid_ r0 /\ f_curr_to f = to_min /\ ns (f_final f) = ns now0 + to * 1000000 /\
  0 <= tv_nsec (f_final f) <= 1000000000 /\
  (tv_nsec (f_final f) = 1000000000 <-> tv_nsec now0 + (to mod 1000) * 1000000 = 1000000000).
Proof.
  intros Hn Hto. unfold call1_begin. destruct (_ || _); [done|]. destruct (destroy_wait_ r0); [done|].
  destruct (xid_rep_window_ r0); [done|]. intros Hb.
  destruct (add_timespec_spec now0 to Hn Hto) as (fin & Hfin & ? & ? & ?). rewrite Hfin in Hb.
  destruct (pack_req_header _ _); [|done]. simpl in Hb. by injection Hb as <- <-.
Qed.

(** C19: a call gives up. A call starts at [now0] with a timeout of at most
    [to_max] (the default), no reply comes, and the clock is not set back. Then the
    thread sleeps at most seven times, with the time-outs as [call1_timeout] doubles
    them. After any number of rounds the head of the loop does not fault, and the
    thread either leaves the loop, and [call1] returns [timeout_failure]; or sleeps
    until a deadline that [pthread_cond_timedwait] accepts, after which
    [call1_timeout] does not fault and another round is complete; or has a deadline of
    exactly 10^9 nanoseconds, which the wait refuses at once and for ever. This last
    case needs the nanoseconds of the start and the milliseconds of the timeout to
    add up to a whole second exactly. *)
Theorem call1_gives_up r0 proc req rep to now0 r f n (s : idle) :
  normal now0 -> 0 <= to <= to_max -> is_u32 (xid_ r0) ->
  call1_begin r0 proc req rep to now0 = Val (inr (r, f)) ->
  nsteps idle_round n (f, ns now0) s ->
  (n <= 7)%nat /\
  forall r1 dead fresh now, normal now -> s.2 <= ns now ->
    exists r2 f' ops, call1_top r1 s.1 dead fresh now = Val (r2, f', ops) /\
      ((f_phase f' = Leaving /\
        forall r3 ca, XidWindow.wf (xid_rep_window_ r3) -> calls_ r3 !! s32 (f_xid f) = Some ca ->
          ca_done ca = false ->
          exists r4 ops', call1_end r3 f' = Val (r4, timeout_failure, ca_un ca, ops')) \/
       exists next, f_phase f' = Waiting next /\
         ((normal next /\ forall r3 dead', exists f'', call1_timeout r3 f' dead' = Val f'' /\
             idle_round s (f'', ns next)) \/
          (tv_nsec next = 1000000000 /\ tv_nsec now0 + (to mod 1000) * 1000000 = 1000000000))).
Proof.
  intros Hn Hto Hx Hb Hst. destruct s as [g t].
  apply call1_begin_deadline in Hb as (Hfx & Hcur0 & Hns & Hr & Hexact); [|done|lia].
  assert (ns (f_final f) <= ns now0 + to_max * 1000000) as Hmax by (unfold to_max in *; lia).
  destruct (idle_rounds_bound _ _ _ _ _ Hr Hmax Hcur0 Hst) as (Hcur & Hgx & Hcase).
  split; [destruct Hcase; lia|]. simpl. intros r1 dead fresh now Hnow Hge.
  assert (0 < 2 ^ Z.of_nat n <= 2 ^ 7) as [Hpos Hsmall].
  { split; [apply Z.pow_pos_nonneg; lia|apply Z.pow_le_mono_r; destruct Hcase; lia]. }
  destruct (add_seconds now (1000 * 2 ^ Z.of_nat n)) as (d & Hd & _ & Hdn);
    [done|lia|by rewrite Z.mul_comm, Z.mod_mul|].
  assert (exists o, next_deadline (f_final g) now (f_curr_to g) = Val o /\
    match o with
    | None => True
    | Some (next, _) => normal next \/
        (tv_nsec next = 1000000000 /\ tv_nsec now0 + (to mod 1000) * 1000000 = 1000000000)
    end) as (o & Ho & Hok).
  { unfold next_deadline. destruct (Z.eqb_spec (tv_sec (f_final g)) 0) as [|Hnz]; [by exists None|].
    destruct Hcase as [(_ & Hfin & _)|[_ ?]]; [|done]. rewrite Hcur, Hd, Hfin. simpl.
    destruct (_ >? 0); eexists; (split; [done|]); [|by left].
    destruct (decide (tv_nsec (f_final f) = 1000000000)) as [E|]; [right; by rewrite <-Hexact|left].
    unfold normal. lia. }
  destruct (call1_top_deadline r1 g dead fresh now o Ho) as (r2 & f' & ops & Htop & Hc & Hx' & Hd').
  exists r2, f', ops. split; [done|]. destruct o as [[next fin]|]; destruct Hd' as [Hph _]; [right|left].
  - exists next. split; [done|]. destruct Hok as [Hok|Hok]; [left|by right]. split; [done|]. intros r3 dead'.
    assert (exists f'', call1_timeout r3 f' dead' = Val f'') as [f'' Ht].
    { unfold call1_timeout, int_arith. rewrite Hc, Hcur, Z.shiftl_mul_pow2 by lia.
      rewrite bool_decide_eq_true_2; [simpl; eauto|]. change (2 ^ 1) with 2. unfold INT_MAX. lia. }
    exists f''. split; [done|]. by apply (IdleRound r1 g t dead fresh now r2 f' ops next r3 dead'); [..|lia|].
  - split; [done|]. intros r3 ca Hwf Hca Hdone. apply call1_end_timeout; [done| | |done].
    + by rewrite Hx', Hgx, Hfx.
    + by rewrite Hx', Hgx.
Qed.

End call1.
(** ** A run

    A bound client with two calls in flight; the reply to the first arrives
    and its thread returns, then [cancel] is called. *)

#[local] Instance zero_heap : Heap := fun _ => 0.

Definition demo_bound : world :=
  World (bind_result (cl (start 9 None true)) 0 5) ∅ (fun _ => 0) [] [].
Definition demo_begin (w : world) : world :=
  match call1_begin (cl w) 7 marshall_new unmarshall_new 1000 (Timespec 100 0) with
  | Val (inr (r, f)) => World r (<[f_xid f := f]> (frames w)) (refs w) (pdus w) (results w)
  | _ => w
  end.
Definition demo_two : world := demo_begin (demo_begin demo_bound).
Definition demo_reply : list Z := [0;0;0;0; 0;0;0;1; 0;0;0;3] ++ replicate 12 0.
Definition demo_answered : world :=
  match client_got_pdu (cl demo_two) demo_reply 24 with
  | Val (r, _) => World r (frames demo_two) (refs demo_two)
                        (option_list (pdu_reply demo_reply 24) ++ pdus demo_two) (results demo_two)
  | Fault _ => demo_two
  end.
Definition demo_frame : frame :=
  default (Frame 0 marshall_new 0 None false 0 (Timespec 0 0) Leaving) (frames demo_answered !! 1).
Definition demo_slept : world :=
  match call1_top (cl demo_answered) demo_frame false (Some 4) (Timespec 100 5) with
  | Val (r, f, ops) => World r (<[1 := f]> (frames demo_answered))
                             (apply_ops (refs demo_answered) ops)
                             (pdus demo_answered) (results demo_answered)
  | Fault _ => demo_answered
  end.

Lemma demo_begin_step w :
  xid_ (cl w) + 1 < 2 ^ 32 ->
  match call1_begin (cl w) 7 marshall_new unmarshall_new 1000 (Timespec 100 0) with
  | Val (inr _) => true | _ => false end = true ->
  step w (demo_begin w).
Proof.
  unfold demo_begin. intros Hx.
  destruct (call1_begin _ _ _ _ _ _) as [[|[r f]]|] eqn:E; try done. intros _.
  by eapply step_begin.
Qed.

Lemma client_demo_run : rtc step (start 9 None true) demo_slept.
Proof.
  eapply rtc_l; [exact (step_bound (start 9 None true) 0 5)|].
  eapply rtc_l; [apply (demo_begin_step demo_bound); vm_compute; reflexivity|].
  eapply (rtc_l _ _ demo_two); [apply (demo_begin_step (demo_begin demo_bound)); vm_compute; reflexivity|].
  assert (step demo_two demo_answered) as H1.
  { unfold demo_answered. destruct (client_got_pdu (cl demo_two) demo_reply 24) as [[r ok]|] eqn:E.
    - eapply step_pdu; [exact E|]. intros y ret u Hp.
      assert ((fun o => o.1.1) <$> pdu_reply demo_reply 24 = Some 1) as H1
        by (vm_compute; reflexivity).
      rewrite Hp in H1. injection H1 as ->. vm_compute. reflexivity.
    - exfalso. revert E. vm_compute. discriminate. }
  assert (step demo_answered demo_slept) as H2.
  { unfold demo_slept. destruct (call1_top _ _ _ _ _) as [[[r f] ops]|] eqn:E.
    - eapply step_top; [| |exact E]; vm_compute; reflexivity.
    - exfalso. revert E. vm_compute. discriminate. }
  eapply rtc_l; [exact H1|]. eapply rtc_l; [exact H2|]. apply rtc_refl.
Qed.

Lemma xid_rep_never_covers_pending_witness :
  exists ca, calls_ (cl demo_slept) !! s32 1 = Some ca /\ ca_xid ca = 1 /\ ca_done ca = true.
Proof.
  eapply (xid_rep_never_covers_pending 9 None true demo_slept 1 [] 1);
    [exact client_demo_run|vm_compute; reflexivity|vm_compute; reflexivity|lia].
Defined.

Lemma woken_returns w x f next ca r ret u ops :
  frames w !! x = Some f -> f_phase f = Waiting next ->
  calls_ (cl w) !! s32 x = Some ca -> ca_done ca = true ->
  call1_end (cl w) (set_phase f (f_final f) Leaving) = Val (r, ret, u, ops) ->
  rtc step w (World r (delete x (<[x := set_phase f (f_final f) Leaving]> (frames w)))
                    (apply_ops (refs w) ops) (pdus w) ((x, ret, u) :: results w)).
Proof.
  intros Hf Hp Hca Hd He. eapply rtc_l; [by eapply step_woken|].
  eapply rtc_l; [|apply rtc_refl].
  eapply (step_end (World (cl w) _ _ _ _)); [apply lookup_insert_eq|done|exact He].
Qed.

Definition demo_returned : world :=
  match frames demo_slept !! 1 with
  | Some f =>
      let f := set_phase f (f_final f) Leaving in
      match call1_end (cl demo_slept) f with
      | Val (r, ret, u, ops) =>
          World r (delete 1 (<[1 := f]> (frames demo_slept))) (apply_ops (refs demo_slept) ops)
                (pdus demo_slept) ((1, ret, u) :: results demo_slept)
      | Fault _ => demo_slept
      end
  | None => demo_slept
  end.

Lemma demo_run_returned : rtc step (start 9 None true) demo_returned.
Proof.
  etransitivity; [exact client_demo_run|]. unfold demo_returned.
  destruct (frames demo_slept !! 1) as [f|] eqn:Ef; [|apply rtc_refl].
  destruct (call1_end (cl demo_slept) (set_phase f (f_final f) Leaving))
    as [[[[r ret] u] ops]|] eqn:Ee; [|apply rtc_refl].
  assert (exists next, f_phase f = Waiting next) as [next Hp].
  { assert (match f_phase <$> frames demo_slept !! 1 with Some (Waiting _) => true | _ => false end
            = true) as Hw by (vm_compute; reflexivity).
    rewrite Ef in Hw. simpl in Hw. destruct (f_phase f) as [|next|]; try discriminate Hw. by exists next. }
  assert (exists ca, calls_ (cl demo_slept) !! s32 1 = Some ca /\ ca_done ca = true)
    as (ca & Hca & Hd) by (eexists; split; vm_compute; reflexivity).
  exact (woken_returns demo_slept 1 f next ca r ret u ops Ef Hp Hca Hd Ee).
Qed.

Lemma call_runs_all w w' refused : rtc step w w' -> rtc call_step (w, refused) (w', refused).
Proof. induction 1; [apply rtc_refl|]. eapply rtc_l; [by apply call_runs|done]. Qed.

(** A call before [bind] is turned away; of the two calls after it, the first has
    returned with its reply and the second is in progress. *)
Lemma call_returns_own_reply_witness :
  (fst <$> results demo_returned, xid_ (cl demo_returned)) = ([(1, 3)], 3) /\
  Forall (fun n => n = bind_failure \/ n = cancel_failure) [bind_failure] /\
  NoDup ((fun p => p.1.1) <$> results demo_returned) /\
  (is_Some (frames demo_returned !! 2) \/ exists ret u, (2, ret, u) ∈ results demo_returned) /\
  forall x ret u, (x, ret, u) ∈ results demo_returned ->
    frames demo_returned !! x = None /\
    (ret = timeout_failure \/ ret = cancel_failure \/ (x, ret, u) ∈ pdus demo_returned).
Proof.
  destruct (call_returns_own_reply 9 None true demo_returned [bind_failure]) as (H1 & H2 & H3 & H4 & _).
  { eapply rtc_l; [|apply call_runs_all, demo_run_returned].
    apply (call_refused _ _ 7 marshall_new unmarshall_new 1000 (Timespec 100 0)). vm_compute. reflexivity. }
  split_and!; [vm_compute; reflexivity|exact H1|exact H2|apply H3; vm_compute; split; [discriminate|reflexivity]|exact H4].
Defined.

Lemma client_refs_balanced_witness :
  refs demo_slept 4 = chan_ref (cl demo_slept) 4 + holders (frames demo_slept) 4 /\
  (frames demo_slept = ∅ -> exists ops,
     rpcc_delete (cl demo_slept) = Val (chan_ (cl demo_slept), ops) /\ apply_ops (refs demo_slept) ops 4 = 0) /\
  (frames demo_slept <> ∅ -> rpcc_delete (cl demo_slept) = Fault VerifyFailed).
Proof. apply (client_refs_balanced 9 None true). exact client_demo_run. Defined.

Definition demo_cancelled : world :=
  World (cancel (cl demo_slept)) (frames demo_slept) (refs demo_slept) (pdus demo_slept)
        (results demo_slept).

Lemma cancel_drains_witness :
  (forall x f, frames demo_cancelled !! x = Some f ->
     exists ca, calls_ (cl demo_cancelled) !! s32 x = Some ca /\ ca_done ca = true) /\
  (forall proc req rep to now, exists n,
     call1_begin (cl demo_cancelled) proc req rep to now = Val (inl n) /\
     (n = bind_failure \/ n = cancel_failure)).
Proof.
  apply (cancel_drains 9 None true); [|vm_compute; reflexivity].
  eapply rtc_r; [exact client_demo_run|]. exact (step_cancel demo_slept).
Defined.

(** A call with a timeout of three seconds, and its first round. *)
Definition demo_call : rpcc * frame :=
  match call1_begin (cl demo_bound) 7 marshall_new unmarshall_new 3000 (Timespec 100 0) with
  | Val (inr x) => x
  | _ => (cl demo_bound, demo_frame)
  end.
Definition demo_round (f : frame) : frame :=
  match call1_top (cl demo_bound) f false None (Timespec 100 0) with
  | Val (r, f1, _) => val_or f (call1_timeout r f1 false)
  | Fault _ => f
  end.

Lemma demo_idle_round :
  idle_round (demo_call.2, ns (Timespec 100 0)) (demo_round demo_call.2, ns (Timespec 101 0)).
Proof.
  eapply (IdleRound (cl demo_bound) _ _ false None (Timespec 100 0) _ _ _ (Timespec 101 0) (cl demo_bound) false);
    [split; simpl; lia|lia|vm_compute; reflexivity|reflexivity|split; simpl; lia|lia|vm_compute; reflexivity].
Qed.

Definition demo_slept_once : idle := (demo_round demo_call.2, ns (Timespec 101 0)).

Lemma call1_gives_up_witness :
  f_curr_to (demo_round demo_call.2) = 2000 /\ (1 <= 7)%nat /\
  exists r2 f' ops,
    call1_top (cl demo_bound) demo_slept_once.1 false None (Timespec 101 0) = Val (r2, f', ops).
Proof.
  split; [vm_compute; reflexivity|].
  destruct (call1_gives_up (cl demo_bound) 7 marshall_new unmarshall_new 3000 (Timespec 100 0) demo_call.1
              demo_call.2 1 demo_slept_once) as [H1 H2].
  - split; simpl; lia.
  - unfold to_max. lia.
  - vm_compute. split; [discriminate|reflexivity].
  - vm_compute. reflexivity.
  - eapply nsteps_l; [exact demo_idle_round|apply nsteps_O].
  - split; [exact H1|]. destruct (H2 (cl demo_bound) false None (Timespec 101 0)) as (r2 & f' & ops & H & _).
    + split; simpl; lia.
    + vm_compute. discriminate.
    + exists r2, f', ops. exact H.
Defined.

End Rpcc.
