(* ===== verification/RpcServer.v ===== *)
(** * The RPC server endpoint ([rpcs], src/rpc/rpc.cc and include/rpc/rpc.h)

    - [ReplyWindow]: what the server remembers of a client's requests and the
      two operations on it, [checkduplicate_and_update] and [add_reply];
    - [Rpcs]: the server object and [dispatch] with its connection references.

    [std::list] is a list; an iterator is a split of it into the elements
    before and from the position on. *)

From S2P Require Import Prelude.
From S2P Require Import Marshall.
From S2P Require Import Stubs.

Module ReplyWindow.

Inductive rpcstate_t := NEW | INPROGRESS | DONE | FORGOTTEN.

#[global] Instance rpcstate_eq_dec : EqDecision rpcstate_t.
Proof. solve_decision. Defined.

(** [struct reply_t]; [rt_buf] holds the bytes [buf] points to. *)
Record reply_t := Reply {
  rt_xid : Z;
  rt_cb_present : bool;
  rt_buf : option (list Z);
  rt_sz : Z;
}.

Definition reply_new (xid : Z) : reply_t := Reply xid false None 0.

(** What reading through [end()] of a list yields. The standard leaves it
    undefined ([strict_end]); in libstdc++ the end node holds the number of
    elements, which is read as [xid] with [cb_present] unset. *)
Class EndNode := end_node : list reply_t -> outcome reply_t.

Definition strict_end : EndNode := fun _ => Fault Undefined.
Definition libstdcxx_end : EndNode :=
  fun w => Val (Reply (u32 (Z.of_nat (length w))) false None 0).

Inductive scan_result :=
| ScanFound (st : rpcstate_t) (b : option (list Z)) (sz : Z) (w : list reply_t)
| ScanMissing (w : list reply_t)
| ScanOutOfFuel.

Abbreviation window_map := (gmap Z (list reply_t)).

Section ops.
Context `{EndNode}.

(** The two tests of the loop body on the entry the iterator is at. *)
Definition acknowledged (e : reply_t) (xid_rep : Z) : bool :=
  (rt_xid e <? xid_rep) && rt_cb_present e.
Definition found (e : reply_t) (w : list reply_t) : scan_result :=
  if rt_cb_present e then ScanFound DONE (rt_buf e) (rt_sz e) w
  else ScanFound INPROGRESS None 0 w.

(** The first loop of [checkduplicate_and_update]. An acknowledged entry is
    erased and the iterator then stands on the next one, which is compared with
    [xid] and stepped over without being considered for erasure. Where that is
    the end, the comparison reads through [end()] and [++ite] comes back to the
    first element. *)
Fixpoint scan (fuel : nat) (xid xid_rep : Z) (before rest : list reply_t)
    : outcome scan_result :=
  match fuel with
  | O => Val ScanOutOfFuel
  | S fuel =>
      match rest with
      | [] => Val (ScanMissing before)
      | e :: rest' =>
          match (if acknowledged e xid_rep then rest' else rest) with
          | e1 :: rest1 =>
              if rt_xid e1 =? xid then Val (found e1 (before ++ e1 :: rest1))
              else scan fuel xid xid_rep (before ++ [e1]) rest1
          | [] =>
              let! e1 := end_node before in
              if rt_xid e1 =? xid then Val (found e1 before)
              else scan fuel xid xid_rep [] before
          end
      end
  end.

Definition scan_fuel (w : list reply_t) : nat := S (length w) * S (length w).

(** The second loop: insertion in front of the first larger [xid]. *)
Fixpoint insert_reply (tmp : reply_t) (w : list reply_t) : list reply_t :=
  match w with
  | [] => [tmp]
  | e :: w => if rt_xid e >? rt_xid tmp then tmp :: e :: w else e :: insert_reply tmp w
  end.

(** [checkduplicate_and_update]: the new windows, the verdict and the reply
    found ([*b], [*sz]). *)
Definition checkduplicate_and_update (wm : window_map) (clt_nonce xid xid_rep : Z)
    : outcome (window_map * rpcstate_t * option (list Z) * Z) :=
  match wm !! clt_nonce with
  | None => Val (<[clt_nonce := []]> wm, NEW, None, 0)
  | Some w =>
      let! front := match w with [] => end_node [] | e :: _ => Val e end in
      if rt_xid front >? xid then Val (wm, FORGOTTEN, None, 0)
      else
        let! r := scan (scan_fuel w) xid xid_rep [] w in
        match r with
        | ScanFound st b sz w => Val (<[clt_nonce := w]> wm, st, b, sz)
        | ScanMissing w =>
            Val (<[clt_nonce := insert_reply (reply_new xid) w]> wm, NEW, None, 0)
        | ScanOutOfFuel => Fault Undefined
        end
  end.

(** [std::find] and the assignments through the iterator. *)
Fixpoint fill_reply (xid : Z) (b : option (list Z)) (sz : Z) (w : list reply_t)
    : list reply_t :=
  match w with
  | [] => [Reply xid true b sz]
  | e :: w => if rt_xid e =? xid then Reply (rt_xid e) true b sz :: w
              else e :: fill_reply xid b sz w
  end.

Definition add_reply (wm : window_map) (clt_nonce xid : Z) (b : option (list Z)) (sz : Z)
    : window_map :=
  <[clt_nonce := fill_reply xid b sz (default [] (wm !! clt_nonce))]> wm.

Definition free_reply_window (wm : window_map) : window_map := ∅.

End ops.

(** ** The scan terminates *)

Lemma scan_terminates `{EndNode} fuel : forall N xid xid_rep before rest,
  (length before + length rest <= N)%nat ->
  ((length before + length rest) * S N + length rest < fuel)%nat ->
  scan fuel xid xid_rep before rest <> Val ScanOutOfFuel.
Proof.
  induction fuel as [|fuel IH]; intros N xid xid_rep before rest HN Hfuel; [lia|].
  destruct rest as [|e rest']; simpl; [done|]. simpl in *.
  destruct (acknowledged e xid_rep).
  - destruct rest' as [|e1 rest1]; simpl in *.
    + destruct (end_node before) as [e1|]; simpl; [|done].
      destruct (rt_xid e1 =? xid); [unfold found; by destruct (rt_cb_present e1)|].
      apply (IH N); simpl; nia.
    + destruct (rt_xid e1 =? xid); [unfold found; by destruct (rt_cb_present e1)|].
      apply (IH N); rewrite length_app; simpl; nia.
  - destruct (rt_xid e =? xid); [unfold found; by destruct (rt_cb_present e)|].
    apply (IH N); rewrite length_app; simpl; nia.
Qed.

Lemma scan_fuel_enough `{EndNode} xid xid_rep w :
  scan (scan_fuel w) xid xid_rep [] w <> Val ScanOutOfFuel.
Proof. apply (scan_terminates _ (length w)); simpl; unfold scan_fuel; nia. Qed.

(** ** Windows in order of their transaction numbers *)

Definition sorted (w : list reply_t) : Prop := StronglySorted Z.lt (rt_xid <$> w).

Lemma sorted_sublist w w' : sublist w' w -> sorted w -> sorted w'.
Proof.
  unfold sorted. induction 1 as [|e w' w Hs IH|e w' w Hs IH]; simpl; intros Hw.
  - constructor.
  - apply StronglySorted_cons in Hw as [Hall Hw]. constructor; [by apply IH|].
    rewrite Forall_forall in *. intros x (e' & -> & He')%list_elem_of_fmap. apply Hall.
    apply list_elem_of_fmap. exists e'. split; [done|]. by eapply elem_of_sublist.
  - apply StronglySorted_cons in Hw as [_ Hw]. by apply IH.
Qed.

Lemma sorted_unique w e e' :
  sorted w -> e ∈ w -> e' ∈ w -> rt_xid e = rt_xid e' -> e = e'.
Proof.
  unfold sorted. induction w as [|a w IH]; simpl; intros Hs He He' Heq; [by apply elem_of_nil in He|].
  apply StronglySorted_cons in Hs as [Hall Hs]. rewrite Forall_forall in Hall.
  assert (forall x, x ∈ w -> rt_xid a < rt_xid x) as Hlt.
  { intros x Hx. apply Hall, list_elem_of_fmap. eauto. }
  apply elem_of_cons in He as [->|He], He' as [->|He']; [done|..|by apply IH].
  - specialize (Hlt _ He'). lia.
  - specialize (Hlt _ He). lia.
Qed.

Lemma insert_reply_elem tmp w e : e ∈ insert_reply tmp w -> e = tmp \/ e ∈ w.
Proof.
  induction w as [|a w IH]; simpl; [by rewrite elem_of_cons|].
  destruct (rt_xid a >? rt_xid tmp); rewrite !elem_of_cons; tauto.
Qed.

Lemma insert_reply_sorted tmp w :
  sorted w -> Forall (fun e => rt_xid e <> rt_xid tmp) w -> sorted (insert_reply tmp w).
Proof.
  unfold sorted. induction w as [|a w IH]; simpl; intros Hs Hne; [by repeat constructor|].
  apply Forall_cons in Hne as [Ha Hne]. pose proof Hs as Hs0.
  apply StronglySorted_cons in Hs as [Hall Hs].
  destruct (Z.gtb_spec (rt_xid a) (rt_xid tmp)); simpl.
  - constructor; [done|]. constructor; [lia|]. eapply Forall_impl; [exact Hall|]. simpl. lia.
  - constructor; [by apply IH|]. apply Forall_forall.
    intros x (e & -> & [->|He]%insert_reply_elem)%list_elem_of_fmap; [lia|].
    rewrite Forall_forall in Hall. apply Hall, list_elem_of_fmap. eauto.
Qed.

Lemma fill_reply_xids xid b sz w :
  xid ∈ (rt_xid <$> w) -> rt_xid <$> fill_reply xid b sz w = rt_xid <$> w.
Proof.
  induction w as [|a w IH]; simpl; [by intros ?%elem_of_nil|].
  intros Hin. destruct (Z.eqb_spec (rt_xid a) xid) as [|Hne]; simpl; [done|].
  f_equal. apply IH. apply elem_of_cons in Hin as [?|?]; [congruence|done].
Qed.

(** What the scan leaves is a part of the window; a number it does not find is
    in no entry it leaves. *)
Lemma scan_sublist `{EndNode} fuel : forall xid xid_rep before rest r,
  scan fuel xid xid_rep before rest = Val r ->
  Forall (fun e => rt_xid e <> xid) before ->
  match r with
  | ScanFound _ _ _ w => sublist w (before ++ rest)
  | ScanMissing w => sublist w (before ++ rest) /\ Forall (fun e => rt_xid e <> xid) w
  | ScanOutOfFuel => True
  end.
Proof.
  induction fuel as [|fuel IH]; intros xid xid_rep before rest r; simpl; [by intros [= <-]|].
  assert (forall e w w0 r, Val (found e w) = Val r -> sublist w w0 ->
    match r with ScanFound _ _ _ w => sublist w w0
               | ScanMissing w => sublist w w0 /\ Forall (fun e => rt_xid e <> xid) w
               | ScanOutOfFuel => True end) as Hfound.
  { unfold found. intros e w w0 r0. destruct (rt_cb_present e); by intros [= <-]. }
  assert (forall e1 before rest1 w0 r, rt_xid e1 <> xid -> Forall (fun e => rt_xid e <> xid) before ->
    sublist (before ++ e1 :: rest1) w0 -> scan fuel xid xid_rep (before ++ [e1]) rest1 = Val r ->
    match r with ScanFound _ _ _ w => sublist w w0
               | ScanMissing w => sublist w w0 /\ Forall (fun e => rt_xid e <> xid) w
               | ScanOutOfFuel => True end) as Hnext.
  { intros e1 bf rest1 w0 r0 Hne Hbf Hsub Hs. apply IH in Hs.
    - rewrite <-app_assoc in Hs. destruct r0; [by etrans|destruct Hs; split; [by etrans|done]|done].
    - apply Forall_app; split; [done|by constructor]. }
  destruct rest as [|e rest'].
  { intros [= <-] Hb. rewrite app_nil_r. done. }
  destruct (acknowledged e xid_rep).
  - assert (sublist (before ++ rest') (before ++ e :: rest')) as Hsub.
    { apply sublist_app; [done|]. by apply sublist_cons. }
    destruct rest' as [|e1 rest1].
    + rewrite app_nil_r in Hsub. intros Hs Hb. outcome_inv.
      destruct (rt_xid r0 =? xid); [by eapply Hfound|].
      apply IH in Hs; [|constructor]. simpl in Hs.
      destruct r; [by etrans|destruct Hs; split; [by etrans|done]|done].
    + intros Hs Hb. destruct (Z.eqb_spec (rt_xid e1) xid); [by eapply Hfound|]. by eapply Hnext.
  - intros Hs Hb. destruct (Z.eqb_spec (rt_xid e) xid); [by eapply Hfound|]. by eapply Hnext.
Qed.

(** An entry the client has not acknowledged is found. *)
Lemma scan_remembered `{EndNode} fuel : forall xid xid_rep before rest e0,
  sorted rest -> e0 ∈ rest -> rt_xid e0 = xid -> xid_rep <= xid -> (length rest < fuel)%nat ->
  exists w, scan fuel xid xid_rep before rest = Val (found e0 w).
Proof.
  induction fuel as [|fuel IH]; intros xid xid_rep before rest e0 Hs Hin Hx Hle Hfuel; [lia|].
  assert (forall e1 rest1, rest = e1 :: rest1 \/ (exists e, rest = e :: e1 :: rest1) ->
            e0 ∈ e1 :: rest1 ->
            exists w, (if rt_xid e1 =? xid then Val (found e1 (before ++ e1 :: rest1))
                       else scan fuel xid xid_rep (before ++ [e1]) rest1) = Val (found e0 w))
    as Hstep.
  { intros e1 rest1 Hr Hin1.
    assert (sublist (e1 :: rest1) rest) as Hsub.
    { destruct Hr as [->|[e ->]]; [done|by apply sublist_cons]. }
    assert (sorted (e1 :: rest1)) as Hs1 by (by eapply sorted_sublist).
    destruct (Z.eqb_spec (rt_xid e1) xid) as [Heq|Hne].
    - assert (e1 = e0) as ->; [|eauto].
      eapply sorted_unique; [exact Hs1|apply elem_of_cons; by left|done|congruence].
    - apply elem_of_cons in Hin1 as [->|Hin1]; [done|].
      apply IH; try done.
      + eapply sorted_sublist; [|exact Hs1]. by apply sublist_cons.
      + destruct Hr as [->|[e ->]]; simpl in Hfuel; lia. }
  destruct rest as [|e rest']; [by apply elem_of_nil in Hin|]. simpl.
  destruct (acknowledged e xid_rep) eqn:Ha; [|apply Hstep; auto].
  unfold acknowledged in Ha. apply andb_prop in Ha as [Ha%Z.ltb_lt _].
  apply elem_of_cons in Hin as [->|Hin]; [lia|].
  destruct rest' as [|e1 rest1]; [by apply elem_of_nil in Hin|]. apply Hstep; eauto.
Qed.

(** A remembered request is never run again. Whatever the end of a list
    reads as, if the client's window is in order and has an entry for [xid],
    and the client claims receipt of replies only up to [xid], then
    [checkduplicate_and_update] answers DONE with that entry's reply when it is
    there and INPROGRESS when it is not; it answers neither NEW (which would
    run the handler a second time) nor FORGOTTEN, and the window stays in
    order. *)
Theorem remembered_request_never_rerun `{EndNode} wm clt xid xid_rep w e0 :
  wm !! clt = Some w -> sorted w -> e0 ∈ w -> rt_xid e0 = xid -> xid_rep <= xid ->
  exists w', sorted w' /\
    checkduplicate_and_update wm clt xid xid_rep =
      Val (<[clt := w']> wm,
           if rt_cb_present e0 then DONE else INPROGRESS,
           if rt_cb_present e0 then rt_buf e0 else None,
           if rt_cb_present e0 then rt_sz e0 else 0).
Proof.
  intros Hw Hs Hin Hx Hle. unfold checkduplicate_and_update. rewrite Hw.
  destruct w as [|f w0]; [by apply elem_of_nil in Hin|]. cbn [obind].
  assert (rt_xid f <= xid) as Hf.
  { apply elem_of_cons in Hin as [->|Hin]; [lia|].
    unfold sorted in Hs. simpl in Hs. apply StronglySorted_cons in Hs as [Hall _].
    rewrite Forall_forall in Hall. specialize (Hall (rt_xid e0)).
    assert (rt_xid f < rt_xid e0); [|lia]. apply Hall, list_elem_of_fmap. eauto. }
  destruct (Z.gtb_spec (rt_xid f) xid); [lia|].
  destruct (scan_remembered (scan_fuel (f :: w0)) xid xid_rep [] (f :: w0) e0)
    as [w' Hscan]; [done..| |].
  { unfold scan_fuel. simpl. lia. }
  pose proof (scan_sublist _ _ _ _ _ _ Hscan (Forall_nil_2 _)) as Hsub.
  rewrite Hscan. cbn [obind]. exists w'. unfold found in *.
  destruct (rt_cb_present e0); (split; [by eapply sorted_sublist|done]).
Qed.

Lemma remembered_request_never_rerun_witness :
  exists w', sorted w' /\
    checkduplicate_and_update (H := strict_end)
        {[ 8 := [Reply 1 true (Some [65]) 1; Reply 3 true (Some [66]) 1] ]} 8 3 2 =
      Val (<[8 := w']> {[ 8 := [Reply 1 true (Some [65]) 1; Reply 3 true (Some [66]) 1] ]},
           DONE, Some [66], 1).
Proof.
  apply (remembered_request_never_rerun (H := strict_end) _ 8 3 2
    [Reply 1 true (Some [65]) 1; Reply 3 true (Some [66]) 1] (Reply 3 true (Some [66]) 1)).
  - reflexivity.
  - repeat constructor; simpl; lia.
  - apply elem_of_cons; right; apply elem_of_cons; by left.
  - reflexivity.
  - lia.
Defined.

(** ** A client with one call at a time

    The client numbers its calls 1, 2, ..., sends a call when it has the reply
    to the previous one, and then its header says [xid_rep = xid - 1]. The
    network delivers any of the requests sent so far, any number of times, at
    any moment; the handler of a request judged NEW runs for as long as it
    likes, with other deliveries in between. *)

Record session := Session {
  windows : window_map;
  sent_upto : Z;        (* calls 1 .. sent_upto have been sent *)
  running : list Z;     (* handlers that have started and not replied *)
  executed : list Z;    (* every start of a handler, latest first *)
}.

Section sequential.
Context `{EndNode} (clt : Z).

(** [dispatch] makes the window of a client before it consults it, so the first
    request takes [front()] of an empty list. Nothing is assumed of what it reads:
    it may stop the server, or be a number beyond that of the request, which is
    then refused. *)
Definition first_refused : Prop := exists e, end_node [] = Val e /\ 1 < rt_xid e.

Inductive session_step : session -> session -> Prop :=
| step_send s :
    (sent_upto s = 0 \/ sent_upto s ∈ executed s) -> sent_upto s ∉ running s ->
    session_step s (Session (windows s) (sent_upto s + 1) (running s) (executed s))
| step_deliver_new s xid wm b sz :
    1 <= xid <= sent_upto s ->
    checkduplicate_and_update (windows s) clt xid (xid - 1) = Val (wm, NEW, b, sz) ->
    session_step s (Session wm (sent_upto s) (xid :: running s) (xid :: executed s))
| step_deliver_old s xid wm st b sz :
    1 <= xid <= sent_upto s -> st <> NEW ->
    checkduplicate_and_update (windows s) clt xid (xid - 1) = Val (wm, st, b, sz) ->
    session_step s (Session wm (sent_upto s) (running s) (executed s))
| step_reply s xid b sz :
    xid ∈ running s ->
    session_step s (Session (add_reply (windows s) clt xid b sz) (sent_upto s)
                            (filter (.≠ xid) (running s)) (executed s)).

(** [dispatch] creates the window before it consults it. *)
Definition session_init : session := Session {[ clt := [] ]} 0 [] [].

(** The shapes the window takes, with the entry [L] of call [m]. *)
Definition shape (m : Z) (w : list reply_t) (L : reply_t) : Prop :=
  rt_xid L = m /\ (w = [L] \/ exists b sz, w = [Reply (m - 1) true b sz; L]).

(** An earlier call is known: what is found of it is an entry of the window, and
    only a call before the last one can be forgotten. *)
Definition verdict (m xid : Z) (w : list reply_t) (st : rpcstate_t) (b : option (list Z)) (sz : Z) : Prop :=
  match st with
  | NEW => False
  | INPROGRESS => True
  | DONE => exists e, e ∈ w /\ rt_xid e = xid /\ rt_cb_present e = true /\ b = rt_buf e /\ sz = rt_sz e
  | FORGOTTEN => xid < m
  end.

Lemma check_known m wm w L xid :
  wm !! clt = Some w -> shape m w L -> 1 <= xid <= m ->
  exists st b sz, verdict m xid w st b sz /\
    checkduplicate_and_update wm clt xid (xid - 1) = Val (wm, st, b, sz).
Proof.
  intros Hw [HL Hshape] Hx. unfold checkduplicate_and_update. rewrite Hw.
  assert (forall e, acknowledged e (rt_xid e - 1) = false) as Hack.
  { intros e. unfold acknowledged. by destruct (Z.ltb_spec (rt_xid e) (rt_xid e - 1)); [lia|]. }
  assert (forall e, e ∈ w -> rt_xid e = xid ->
            exists st b sz, verdict m xid w st b sz /\ found e w = ScanFound st b sz w) as Hfound.
  { intros e He Hex. unfold found. destruct (rt_cb_present e) eqn:Hp.
    - exists DONE, (rt_buf e), (rt_sz e). split; [|done]. by exists e.
    - by exists INPROGRESS, None, 0. }
  destruct Hshape as [->|(b & sz & ->)]; cbn [obind rt_xid].
  - destruct (Z.gtb_spec (rt_xid L) xid) as [Hgt|Hle].
    { exists FORGOTTEN, None, 0. split; [simpl; lia|done]. }
    assert (rt_xid L = xid) as HLx by lia. simpl. rewrite <-HLx, Hack, Z.eqb_refl, HLx.
    destruct (Hfound L) as (st & b & sz & Hst & ->); [by left|done|].
    simpl. rewrite insert_id by done. by exists st, b, sz.
  - destruct (Z.gtb_spec (m - 1) xid) as [Hgt|Hle].
    { exists FORGOTTEN, None, 0. split; [simpl; lia|done]. }
    simpl. unfold acknowledged at 1. simpl. destruct (Z.ltb_spec (m - 1) (xid - 1)); [lia|]. simpl.
    destruct (Z.eqb_spec (m - 1) xid) as [Heq|Hne]; simpl.
    + rewrite insert_id by done. exists DONE, b, sz. split; [|done].
      eexists. split_and!; [by left|done..].
    + assert (rt_xid L = xid) as HLx by lia. rewrite <-HLx, Hack, Z.eqb_refl, HLx.
      destruct (Hfound L) as (st & b' & sz' & Hst & ->); [by right; left|done|]. simpl.
      rewrite insert_id by done. by exists st, b', sz'.
Qed.

Lemma check_old m wm w L xid :
  wm !! clt = Some w -> shape m w L -> 1 <= xid <= m ->
  exists st b sz, st <> NEW /\
    checkduplicate_and_update wm clt xid (xid - 1) = Val (wm, st, b, sz).
Proof.
  intros Hw Hs Hx. destruct (check_known m wm w L xid Hw Hs Hx) as (st & b & sz & Hv & Hc).
  exists st, b, sz. split; [by destruct st|done].
Qed.

Lemma check_next m wm w L :
  wm !! clt = Some w -> shape m w L -> rt_cb_present L = true ->
  checkduplicate_and_update wm clt (m + 1) m =
    Val (<[clt := [L; reply_new (m + 1)]]> wm, NEW, None, 0).
Proof.
  intros Hw [HL Hshape] Hp. unfold checkduplicate_and_update. rewrite Hw.
  assert ((rt_xid L =? m + 1) = false) as HLne by (apply Z.eqb_neq; lia).
  assert (acknowledged L m = false) as HLack.
  { unfold acknowledged. destruct (Z.ltb_spec (rt_xid L) m); [lia|done]. }
  assert ((rt_xid L >? m + 1) = false) as HLgt by (destruct (Z.gtb_spec (rt_xid L) (m + 1)); [lia|done]).
  destruct Hshape as [->|(b & sz & ->)]; cbn [obind rt_xid].
  - rewrite HLgt. simpl. by rewrite HLack, HLne; simpl; rewrite HLgt.
  - destruct (Z.gtb_spec (m - 1) (m + 1)); [lia|]. simpl. unfold acknowledged at 1. simpl.
    destruct (Z.ltb_spec (m - 1) m); [|lia]. simpl. rewrite HLne. simpl. by rewrite HLgt.
Qed.

Lemma check_first wm :
  wm !! clt = Some [] ->
  (exists f, checkduplicate_and_update wm clt 1 0 = Fault f) \/
  (first_refused /\ checkduplicate_and_update wm clt 1 0 = Val (wm, FORGOTTEN, None, 0)) \/
  checkduplicate_and_update wm clt 1 0 = Val (<[clt := [reply_new 1]]> wm, NEW, None, 0).
Proof.
  intros Hw. unfold checkduplicate_and_update, first_refused. rewrite Hw.
  destruct (end_node []) as [e|f]; simpl; [right|by left; exists f].
  destruct (Z.gtb_spec (rt_xid e) 1) as [Hgt|_]; [left|by right]. split; [by exists e|done].
Qed.

Lemma fill_last m w L b sz :
  shape m w L -> shape m (fill_reply m b sz w) (Reply m true b sz).
Proof.
  intros [HL [->|(b' & sz' & ->)]]; (split; [done|]); simpl.
  - rewrite HL, Z.eqb_refl. by left.
  - destruct (Z.eqb_spec (m - 1) m); [lia|]. rewrite HL, Z.eqb_refl. right. eauto.
Qed.

(** The numbers 1 .. m, latest first. *)
Definition upto (m : Z) : list Z := Z.of_nat <$> rev (seq 1 (Z.to_nat m)).

Lemma upto_succ m : 0 <= m -> upto (m + 1) = (m + 1) :: upto m.
Proof.
  intros Hm. unfold upto. replace (Z.to_nat (m + 1)) with (S (Z.to_nat m)) by lia.
  rewrite seq_S, rev_app_distr. simpl. f_equal. lia.
Qed.

Lemma elem_of_upto m x : x ∈ upto m <-> 1 <= x <= m.
Proof.
  unfold upto. rewrite list_elem_of_fmap. setoid_rewrite list_elem_of_In.
  setoid_rewrite <-in_rev. setoid_rewrite in_seq. split.
  - intros (y & -> & Hy). lia.
  - intros Hx. exists (Z.to_nat x). lia.
Qed.

Lemma upto_NoDup m : NoDup (upto m).
Proof.
  unfold upto. apply NoDup_fmap; [intros a b; lia|]. apply NoDup_ListNoDup, NoDup_rev, seq_NoDup.
Qed.

(** [m] calls have been started: the window is empty or holds the last one,
    in progress or replied, and perhaps the one before. *)
Record session_inv (m : Z) (s : session) : Prop := {
  si_range : 0 <= m <= sent_upto s /\ sent_upto s <= m + 1;
  si_executed : executed s = upto m;
  si_window :
    m = 0 /\ windows s !! clt = Some [] /\ running s = [] \/
    exists w L, 0 < m /\ windows s !! clt = Some w /\ shape m w L /\
      (rt_cb_present L = true /\ running s = [] \/
       L = reply_new m /\ running s = [m] /\ sent_upto s = m);
}.

(** A delivery in such a state: the call after the last started one is NEW, an
    earlier one is not, and its delivery changes nothing. *)
Lemma session_check m s xid :
  session_inv m s -> 1 <= xid <= sent_upto s ->
  (xid = m + 1 /\ running s = [] /\ exists w L,
     checkduplicate_and_update (windows s) clt xid (xid - 1) =
       Val (<[clt := w]> (windows s), NEW, None, 0) /\
     shape (m + 1) w L /\ L = reply_new (m + 1)) \/
  (exists st b sz, st <> NEW /\
     checkduplicate_and_update (windows s) clt xid (xid - 1) = Val (windows s, st, b, sz)) \/
  (m = 0 /\ exists f, checkduplicate_and_update (windows s) clt xid (xid - 1) = Fault f).
Proof.
  intros [[Hr0 Hr1] He Hw] Hx. destruct (decide (xid = m + 1)) as [->|Hne].
  - replace (m + 1 - 1) with m by lia.
    destruct Hw as [(-> & Hw & Hrun)|(w & L & Hm & Hw & Hs & [[Hp Hrun]|(_ & _ & Hsent)])]; [..|lia].
    + change (0 + 1) with 1. destruct (check_first _ Hw) as [[f Hf]|[[_ Hc]|Hc]].
      * right. right. split; [done|by exists f].
      * right. left. exists FORGOTTEN, None, 0. by split.
      * left. split_and!; [done|done|]. exists [reply_new 1], (reply_new 1). rewrite Hc.
        split_and!; [done| |done]. split; [done|by left].
    + left. split_and!; [done|done|]. exists [L; reply_new (m + 1)], (reply_new (m + 1)).
      rewrite (check_next _ _ _ _ Hw Hs Hp). split_and!; [done| |done].
      split; [done|]. right. destruct Hs as [<- _]. replace (rt_xid L + 1 - 1) with (rt_xid L) by lia.
      exists (rt_buf L), (rt_sz L). destruct L; simpl in *. by rewrite Hp.
  - right. left.
    destruct Hw as [(-> & _)|(w & L & Hm & Hw & Hs & _)]; [lia|].
    eapply check_old; [done..|lia].
Qed.

Lemma session_step_inv m s s' :
  session_inv m s -> session_step s s' -> exists m', session_inv m' s'.
Proof.
  intros Hinv Hstep. destruct Hstep as [s Hacc Hnr|s xid wm b sz Hx Hc|s xid wm st b sz Hx Hst Hc|s xid b sz Hrun].
  - exists m. destruct Hinv as [[Hr0 Hr1] He Hw].
    assert (sent_upto s = m) as Hm.
    { destruct Hacc as [?|Hin]; [lia|]. rewrite He in Hin. apply elem_of_upto in Hin. lia. }
    constructor; simpl; [lia|done|].
    destruct Hw as [?|(w & L & Hpos & Hw & Hs & [?|(-> & Hrun & _)])]; [by left|right|].
    + exists w, L. auto.
    + exfalso. apply Hnr. rewrite Hrun, Hm. by apply elem_of_cons; left.
  - destruct (session_check m s xid Hinv Hx) as
      [(-> & Hrun & w & L & Hc' & Hs & HL)|[(st & b' & sz' & Hst & Hc')|(_ & f & Hc')]]; [..|congruence].
    + exists (m + 1). rewrite Hc in Hc'. simplify_eq. destruct Hinv as [Hr He Hw].
      constructor; simpl; [lia| |].
      * by rewrite He, upto_succ by lia.
      * right. exists w, (reply_new (m + 1)). rewrite lookup_insert_eq, Hrun.
        split_and!; [lia|done|done|]. right. split_and!; [done..|lia].
    + rewrite Hc in Hc'. simplify_eq.
  - exists m. destruct (session_check m s xid Hinv Hx) as
      [(-> & _ & w & L & Hc' & _)|[(st' & b' & sz' & _ & Hc')|(_ & f & Hc')]];
      rewrite Hc in Hc'; simplify_eq. by destruct s, Hinv.
  - exists m. destruct Hinv as [Hr He Hw].
    destruct Hw as [(_ & _ & Hr0)|(w & L & Hpos & Hw & Hs & [[_ Hr0]|(-> & Hr0 & Hsent)])];
      rewrite Hr0 in Hrun; [by apply elem_of_nil in Hrun..|].
    apply list_elem_of_singleton in Hrun as ->. constructor; simpl; [done|done|]. right.
    exists (fill_reply m b sz w), (Reply m true b sz). unfold add_reply. rewrite Hw. simpl.
    rewrite lookup_insert_eq. split_and!; [done|done|by eapply fill_last|].
    left. split; [done|]. rewrite Hr0, filter_cons_False; [done|]. tauto.
Qed.

Lemma session_reachable_inv s : rtc session_step session_init s -> exists m, session_inv m s.
Proof.
  intros Hr. assert (session_inv 0 session_init) as Hi.
  { constructor; simpl; [lia|done|]. left. by rewrite lookup_singleton_eq. }
  revert Hi. generalize 0. induction Hr as [s|s1 s2 s3 Hs Hr IH]; intros m Hi; [eauto|].
  destruct (session_step_inv _ _ _ Hi Hs) as [m' Hi']. by eapply IH.
Qed.

(** At most once, for a client with one call at a time. Under any
    delivery schedule, with requests duplicated, delayed and reordered, and
    handlers that run concurrently with later deliveries, no handler is started
    twice for the same call: the calls are started in the order in which they
    were sent, each once. Once a call has been started, every delivery gets a
    verdict. *)
Theorem at_most_once_sequential (s : session) :
  rtc session_step session_init s ->
  NoDup (executed s) /\
  (exists m, 0 <= m <= sent_upto s /\ executed s = upto m) /\
  (forall xid, 1 <= xid <= sent_upto s -> executed s <> [] ->
     exists r, checkduplicate_and_update (windows s) clt xid (xid - 1) = Val r).
Proof.
  intros [m Hinv]%session_reachable_inv. split_and!.
  - rewrite (si_executed _ _ Hinv). apply upto_NoDup.
  - exists m. destruct Hinv. split; [lia|done].
  - intros xid Hx Hne. destruct (session_check _ _ _ Hinv Hx)
      as [(_ & _ & w & L & -> & _)|[(st & b & sz & _ & ->)|(-> & _)]]; eauto.
    by rewrite (si_executed _ _ Hinv) in Hne.
Qed.

End sequential.

(** One call, delivered twice before its handler has finished. *)
Definition demo_session : session :=
  Session {[ 8 := [reply_new 1] ]} 1 [1] [1].

Lemma at_most_once_sequential_witness :
  NoDup (executed demo_session) /\
  (exists m, 0 <= m <= sent_upto demo_session /\ executed demo_session = upto m) /\
  (forall xid, 1 <= xid <= sent_upto demo_session -> executed demo_session <> [] ->
     exists r, checkduplicate_and_update (H := libstdcxx_end)
                 (windows demo_session) 8 xid (xid - 1) = Val r).
Proof.
  apply (at_most_once_sequential (H := libstdcxx_end) 8).
  - apply (rtc_l _ _ (Session {[ 8 := [] ]} 1 [] [])).
    { apply (step_send (H := libstdcxx_end) 8 (session_init 8)); [by left|apply not_elem_of_nil]. }
    apply (rtc_l _ _ demo_session).
    { refine (step_deliver_new (H := libstdcxx_end) 8 (Session {[ 8 := [] ]} 1 [] []) 1
                {[ 8 := [reply_new 1] ]} None 0 _ _); [simpl; lia|reflexivity]. }
    apply (rtc_l _ _ demo_session); [|apply rtc_refl].
    refine (step_deliver_old (H := libstdcxx_end) 8 demo_session 1
              (windows demo_session) INPROGRESS None 0 _ _ _); [simpl; lia|done|reflexivity].
Defined.

(** The requests of the clients below, as pairs of [xid] and [xid_rep], each
    replied to as soon as it is judged NEW. *)
Fixpoint serve `{EndNode} (wm : window_map) (clt : Z) (reqs : list (Z * Z))
    : outcome (window_map * list rpcstate_t) :=
  match reqs with
  | [] => Val (wm, [])
  | (xid, xid_rep) :: reqs =>
      let! '(wm, st, _, _) := checkduplicate_and_update wm clt xid xid_rep in
      let wm := if decide (st = NEW) then add_reply wm clt xid (Some []) 0 else wm in
      let! '(wm, sts) := serve wm clt reqs in
      Val (wm, st :: sts)
  end.

(** With several calls in flight the window loses its order guarantee.
    Calls 1 to 4 are sent together (each with [xid_rep] 0) and answered; call
    5 acknowledges them ([xid_rep] 4). The erasing loop steps over the entry
    that follows an erased one, so it removes 1 and 3 and keeps 2 and 4, and a
    delayed duplicate of call 3 is then judged NEW and run a second time: the
    front of the window (2) no longer tells what was forgotten. This holds
    whatever reading through [end()] yields after the first request. *)
Theorem skipped_erasure_reruns_call `{EndNode} :
  exists wm, serve {[ 8 := [Reply 1 true (Some []) 0] ]} 8 [(2, 0); (3, 0); (4, 0); (5, 4); (3, 0)]
             = Val (wm, [NEW; NEW; NEW; NEW; NEW]).
Proof. by eexists. Qed.

(** A client with one call at a time is not safe either once it has given up on a
    slow call. Call 1 is still being served when its caller times out; calls 2, 3
    and 4 follow and acknowledge what came before. The entry of call 1 stays at
    the front of the window, the one of call 2 is erased, and a delayed duplicate
    of call 2 is judged NEW. *)
Lemma slow_call_reruns_later_one `{EndNode} :
  exists wm, serve {[ 8 := [reply_new 1] ]} 8 [(2, 1); (3, 2); (4, 3); (2, 1)] = Val (wm, [NEW; NEW; NEW; NEW]).
Proof. by eexists. Qed.

(** The first request of every client reads through [end()]. [dispatch]
    creates an empty window for a new client and [checkduplicate_and_update]
    then takes [front()] of it, which the standard leaves undefined. *)
Theorem first_request_is_undefined wm clt xid xid_rep :
  wm !! clt = None ->
  checkduplicate_and_update (H := strict_end) (<[clt := []]> wm) clt xid xid_rep = Fault Undefined.
Proof. intros _. unfold checkduplicate_and_update. by rewrite lookup_insert_eq. Qed.

Lemma first_request_is_undefined_witness :
  checkduplicate_and_update (H := strict_end) (<[8 := []]> ∅) 8 1 0 = Fault Undefined.
Proof. apply (first_request_is_undefined ∅ 8 1 0). reflexivity. Defined.


End ReplyWindow.

(** ** The server object *)

Module Rpcs.
Import ReplyWindow.

(** What [rpcs] uses of a [connection] (src/rpc/connection.cc). *)
Record connection := Connection {
  refno_ : Z;
  dead_ : bool;
  create_time_ : Z * Z;   (* tv_sec, tv_usec *)
}.

Definition compare (a b : connection) : Z :=
  let '(s1, u1) := create_time_ a in
  let '(s2, u2) := create_time_ b in
  if s1 >? s2 then 1 else if s1 <? s2 then -1
  else if u1 >? u2 then 1 else if u1 <? u2 then -1 else 0.

(** The server with the state [app] its handlers work on, the connection
    objects that exist, by address, and what was sent on them. *)
Record rpcs (S : Type) := MkRpcs {
  nonce_ : Z;
  counting_ : Z;
  curr_counts_ : Z;
  counts_ : gmap Z Z;
  reachable_ : bool;
  procs_ : gmap Z (handler_fn S);
  reply_window_ : gmap Z (list reply_t);
  conns_ : gmap Z (option Z);   (* [None] is a null pointer *)
  app : S;
  objs : gmap Z connection;
  sent : list (Z * list Z);
}.
Arguments MkRpcs {S} _ _ _ _ _ _ _ _ _ _ _.
Arguments nonce_ {S} _.
Arguments counting_ {S} _.
Arguments curr_counts_ {S} _.
Arguments counts_ {S} _.
Arguments reachable_ {S} _.
Arguments procs_ {S} _.
Arguments reply_window_ {S} _.
Arguments conns_ {S} _.
Arguments app {S} _.
Arguments objs {S} _.
Arguments sent {S} _.

Section rpcs.
Context `{Heap} `{EndNode} {S : Type}.
Implicit Types s : rpcs S.

Definition set_stats s (curr : Z) (counts : gmap Z Z) : rpcs S :=
  MkRpcs (nonce_ s) (counting_ s) curr counts (reachable_ s) (procs_ s) (reply_window_ s)
         (conns_ s) (app s) (objs s) (sent s).
Definition set_procs s (p : gmap Z (handler_fn S)) : rpcs S :=
  MkRpcs (nonce_ s) (counting_ s) (curr_counts_ s) (counts_ s) (reachable_ s) p
         (reply_window_ s) (conns_ s) (app s) (objs s) (sent s).
Definition set_windows s (w : gmap Z (list reply_t)) : rpcs S :=
  MkRpcs (nonce_ s) (counting_ s) (curr_counts_ s) (counts_ s) (reachable_ s) (procs_ s) w
         (conns_ s) (app s) (objs s) (sent s).
Definition set_conns s (m : gmap Z (option Z)) : rpcs S :=
  MkRpcs (nonce_ s) (counting_ s) (curr_counts_ s) (counts_ s) (reachable_ s) (procs_ s)
         (reply_window_ s) m (app s) (objs s) (sent s).
Definition set_app s (a : S) : rpcs S :=
  MkRpcs (nonce_ s) (counting_ s) (curr_counts_ s) (counts_ s) (reachable_ s) (procs_ s)
         (reply_window_ s) (conns_ s) a (objs s) (sent s).
Definition set_objs s (o : gmap Z connection) : rpcs S :=
  MkRpcs (nonce_ s) (counting_ s) (curr_counts_ s) (counts_ s) (reachable_ s) (procs_ s)
         (reply_window_ s) (conns_ s) (app s) o (sent s).
Definition set_sent s (l : list (Z * list Z)) : rpcs S :=
  MkRpcs (nonce_ s) (counting_ s) (curr_counts_ s) (counts_ s) (reachable_ s) (procs_ s)
         (reply_window_ s) (conns_ s) (app s) (objs s) l.

(** Member calls on a connection that was deleted, or through a null pointer,
    are undefined. *)
Definition deref s (c : Z) : outcome connection :=
  match objs s !! c with Some k => Val k | None => Fault Undefined end.
Definition deref_ptr (p : option Z) : outcome Z :=
  match p with Some c => Val c | None => Fault Undefined end.

Definition incref s (c : Z) : outcome (rpcs S) :=
  let! k := deref s c in
  Val (set_objs s (<[c := Connection (refno_ k + 1) (dead_ k) (create_time_ k)]> (objs s))).

Definition decref s (c : Z) : outcome (rpcs S) :=
  let! k := deref s c in
  let n := refno_ k - 1 in
  VERIFY (0 <=? n) ;;;
  if (n =? 0) && dead_ k then Val (set_objs s (delete c (objs s)))
  else Val (set_objs s (<[c := Connection n (dead_ k) (create_time_ k)]> (objs s))).

Definition isdead s (c : Z) : outcome bool :=
  let! k := deref s c in Val (dead_ k).

(** [send] hands the bytes to a live connection and refuses on a dead one. *)
Definition send s (c : Z) (b : list Z) : outcome (rpcs S) :=
  let! k := deref s c in
  Val (if dead_ k then s else set_sent s (sent s ++ [(c, b)])).

Definition reg1 s (proc : Z) (h : handler_fn S) : outcome (rpcs S) :=
  VERIFY (bool_decide (procs_ s !! proc = None)) ;;;
  Val (set_procs s (<[proc := h]> (procs_ s))).

Definition updatestat s (proc : Z) : rpcs S :=
  let counts := <[proc := default 0 (counts_ s !! proc) + 1]> (counts_ s) in
  let curr := curr_counts_ s - 1 in
  set_stats s (if curr =? 0 then counting_ s else curr) counts.

(** The constructor, without the listening socket and the thread pool. *)
Definition rpcbind (nonce : Z) : S -> sint -> sint -> outcome (S * sint * Z) :=
  fun a _ _ => Val (a, s32 nonce, 0).
Definition rpcs_new (rnd : Z) (count : Z) (a : S) : outcome (rpcs S) :=
  reg1 (MkRpcs (u32 rnd) count count ∅ true ∅ ∅ ∅ a ∅ []) bind_proc (rpcs_reg_1 (rpcbind (u32 rnd))).

(** The latest good connection to the client. *)
Definition save_conn s (clt_nonce c : Z) : outcome (rpcs S) :=
  match conns_ s !! clt_nonce with
  | None =>
      let! s := incref s c in
      Val (set_conns s (<[clt_nonce := Some c]> (conns_ s)))
  | Some p =>
      let! old := deref_ptr p in
      let! ko := deref s old in
      let! kc := deref s c in
      if compare ko kc <? 0 then
        let! s := decref s old in
        let! s := incref s c in
        Val (set_conns s (<[clt_nonce := Some c]> (conns_ s)))
      else Val s
  end.

(** [dispatch] up to the [switch] and through its cases other than NEW. *)
Inductive job :=
| Finished
| Execute (h : req_header) (req : unmarshall) (f : handler_fn S).

Definition dispatch_enter s (c : Z) (buf : list Z) (sz : Z) : outcome (rpcs S * job) :=
  let! '(req, h) := unpack_req_header (unmarshall_buf buf sz) in
  let proc : Z := rq_proc h in
  if negb (u_ok req) then let! s := decref s c in Val (s, Finished)
  else if negb (rq_srv_nonce h =? 0) && negb (rq_srv_nonce h =? nonce_ s) then
    let! rep := pack_reply_header marshall_new (mk_reply_header (rq_xid h) oldsrv_failure) in
    let! s := send s c (m_bytes rep) in
    Val (s, Finished)
  else
    match procs_ s !! proc with
    | None => Fault VerifyFailed
    | Some f =>
        if rq_clt_nonce h =? 0 then Val (s, Execute h req f)
        else
          let clt : Z := rq_clt_nonce h in
          let s := match reply_window_ s !! clt with
                   | None => set_windows s (<[clt := []]> (reply_window_ s))
                   | Some _ => s
                   end in
          let! s := save_conn s clt c in
          let! '(wm, st, b1, sz1) :=
            checkduplicate_and_update (reply_window_ s) clt (u32 (rq_xid h)) (u32 (rq_xid_rep h)) in
          let s := set_windows s wm in
          match st with
          | NEW => Val (s, Execute h req f)
          | INPROGRESS => let! s := decref s c in Val (s, Finished)
          | DONE =>
              let! s := send s c (take (Z.to_nat sz1) (default [] b1)) in
              let! s := decref s c in Val (s, Finished)
          | FORGOTTEN =>
              let! rep := pack_reply_header marshall_new
                            (mk_reply_header (rq_xid h) atmostonce_failure) in
              let! s := send s c (m_bytes rep) in
              let! s := decref s c in Val (s, Finished)
          end
    end.

(** The connection the reply goes to: the one the request came on, or, if that
    is dead by now, the client's latest. [conns_[clt]] adds a null pointer
    where there was none. *)
Definition reply_conn s (clt_nonce c : Z) : outcome (rpcs S * Z) :=
  let! dead := isdead s c in
  if dead then
    let s := match conns_ s !! clt_nonce with
             | None => set_conns s (<[clt_nonce := None]> (conns_ s))
             | Some _ => s
             end in
    let p := default None (conns_ s !! clt_nonce) in
    if decide (p = Some c) then Val (s, c)
    else
      let! s := decref s c in
      let! c := deref_ptr p in
      let! s := incref s c in
      Val (s, c)
  else Val (s, c).

(** Case NEW. *)
Definition dispatch_new s (c : Z) (h : req_header) (req : unmarshall) (f : handler_fn S)
    : outcome (rpcs S) :=
  let s := if counting_ s =? 0 then s else updatestat s (rq_proc h) in
  let! '(a, rep, ret) := f (app s) req marshall_new in
  let s := set_app s a in
  VERIFY (negb (ret =? unmarshal_args_failure)) ;;;
  VERIFY (0 <=? ret) ;;;
  let! rep := pack_reply_header rep (mk_reply_header (rq_xid h) ret) in
  let '(_, (b1, sz1)) := m_take_buf rep in
  let s := if rq_clt_nonce h >? 0
           then set_windows s (add_reply (reply_window_ s) (rq_clt_nonce h) (u32 (rq_xid h)) b1 sz1)
           else s in
  let! '(s, c) := reply_conn s (rq_clt_nonce h) c in
  let! s := send s c (take (Z.to_nat sz1) (default [] b1)) in
  decref s c.

Definition dispatch s (c : Z) (buf : list Z) (sz : Z) : outcome (rpcs S) :=
  let! '(s, j) := dispatch_enter s c buf sz in
  match j with
  | Finished => Val s
  | Execute h req f => dispatch_new s c h req f
  end.

(** [rpcs::got_pdu]; [accepted] is what [addObjJob] returns. The [bool] says
    whether a [dispatch] of the bytes has been queued. *)
Definition server_got_pdu s (c : Z) (accepted : bool) : outcome (rpcs S * bool * bool) :=
  if negb (reachable_ s) then Val (s, true, false)
  else
    let! s := incref s c in
    if accepted then Val (s, true, true)
    else let! s := decref s c in Val (s, false, false).

(** *** Connection references

    [refs] is the reference count of a connection, 0 once it is deleted, and
    [latest] how many clients have it as their latest one. *)

Definition refs s (d : Z) : Z :=
  match objs s !! d with Some k => refno_ k | None => 0 end.
Definition latest_in (m : gmap Z (option Z)) (d : Z) : Z :=
  Z.of_nat (size (filter (fun p => p.2 = Some d) m)).
Definition latest s (d : Z) : Z := latest_in (conns_ s) d.
Definition at_ (c d : Z) : Z := if decide (c = d) then 1 else 0.
Definition at_ptr (p : option Z) (d : Z) : Z :=
  match p with Some c => at_ c d | None => 0 end.

Lemma incref_refs s c s' :
  incref s c = Val s' ->
  (forall d, refs s' d = refs s d + at_ c d) /\ exists o, s' = set_objs s o.
Proof.
  unfold incref, deref, refs, at_. destruct (objs s !! c) as [k|] eqn:E; [|done].
  simpl. intros [= <-]. split; [|by eexists]. intros d. simpl.
  destruct (decide (c = d)) as [<-|]; [by rewrite lookup_insert_eq, E|].
  rewrite lookup_insert_ne by done. lia.
Qed.

Lemma decref_refs s c s' :
  decref s c = Val s' ->
  (forall d, refs s' d = refs s d - at_ c d) /\ exists o, s' = set_objs s o.
Proof.
  unfold decref, deref, refs, at_. destruct (objs s !! c) as [k|] eqn:E; [|done].
  simpl. intros Hd. outcome_inv.
  destruct (Z.eqb_spec (refno_ k - 1) 0), (dead_ k); simpl in Hd; injection Hd as <-;
    (split; [|by eexists]); intros d; simpl; destruct (decide (c = d)) as [<-|];
    rewrite ?lookup_insert_eq, ?lookup_delete_eq, ?E, ?lookup_insert_ne, ?lookup_delete_ne
      by done; simpl; lia.
Qed.

Lemma send_refs s c b s' : send s c b = Val s' -> objs s' = objs s /\ conns_ s' = conns_ s.
Proof.
  unfold send. intros Hs. outcome_inv. by destruct (dead_ r).
Qed.

Lemma latest_in_new m clt p d :
  m !! clt = None -> latest_in (<[clt := p]> m) d = latest_in m d + at_ptr p d.
Proof.
  intros Hm. unfold latest_in, at_ptr, at_. destruct (decide (p = Some d)) as [->|Hne].
  - rewrite map_filter_insert_True, map_size_insert_None, decide_True; [lia|done| |done].
    by apply map_lookup_filter_None_2; left.
  - rewrite map_filter_insert_False, delete_id by done.
    destruct p; [rewrite decide_False by congruence|]; lia.
Qed.

Lemma latest_in_insert m clt p d :
  latest_in (<[clt := p]> m) d =
    latest_in m d - at_ptr (default None (m !! clt)) d + at_ptr p d.
Proof.
  rewrite <-insert_delete_eq, latest_in_new by apply lookup_delete_eq.
  destruct (m !! clt) as [q|] eqn:E; simpl.
  - rewrite <-(insert_delete_id m clt q E) at 2.
    rewrite latest_in_new by apply lookup_delete_eq. lia.
  - rewrite delete_id by done. lia.
Qed.

Lemma save_conn_refs s clt c s' :
  save_conn s clt c = Val s' ->
  forall d, refs s' d - latest s' d = refs s d - latest s d.
Proof.
  unfold save_conn. intros Hs d.
  destruct (conns_ s !! clt) as [p|] eqn:E.
  - outcome_inv. destruct p as [old|]; [|done]. simpl in E0. injection E0 as ->.
    destruct (compare r0 r1 <? 0); [|by injection Hs as <-]. outcome_inv.
    apply decref_refs in E0 as (Hd & o1 & ->). apply incref_refs in E3 as (Hi & o2 & ->).
    specialize (Hd d). specialize (Hi d). unfold latest, refs in *. simpl in *.
    rewrite latest_in_insert, E. simpl. lia.
  - outcome_inv. apply incref_refs in E0 as (Hi & o1 & ->).
    specialize (Hi d). unfold latest, refs in *. simpl in *.
    rewrite latest_in_insert, E. simpl. lia.
Qed.

Lemma reply_conn_refs s clt c s' c' :
  reply_conn s clt c = Val (s', c') ->
  forall d, refs s' d - latest s' d - at_ c' d = refs s d - latest s d - at_ c d.
Proof.
  unfold reply_conn. intros Hr d. outcome_inv. destruct r; [|by injection Hr as <- <-].
  set (s1 := match conns_ s !! clt with None => _ | Some _ => s end) in Hr.
  assert (refs s1 d = refs s d /\ latest s1 d = latest s d) as [<- <-].
  { subst s1. destruct (conns_ s !! clt) as [q|] eqn:Eq; [done|]. split; [done|].
    unfold latest. simpl. rewrite latest_in_insert, Eq. simpl. lia. }
  clearbody s1. destruct (decide _); [by injection Hr as <- <-|]. outcome_inv.
  apply decref_refs in E0 as (Hd & o1 & ->). apply incref_refs in E2 as (Hi & o2 & ->).
  rewrite Hi, Hd. unfold latest. simpl. lia.
Qed.

(** A request header whose server nonce is that of an earlier instance. *)
Definition stale s (buf : list Z) (sz : Z) : Prop :=
  exists req h, unpack_req_header (unmarshall_buf buf sz) = Val (req, h) /\ u_ok req = true /\
    (rq_srv_nonce h : Z) <> 0 /\ (rq_srv_nonce h : Z) <> nonce_ s.

Definition done_ref (j : job) (c d : Z) : Z :=
  match j with Finished => at_ c d | Execute _ _ _ => 0 end.

Lemma dispatch_enter_refs s c buf sz s' j :
  dispatch_enter s c buf sz = Val (s', j) -> ~ stale s buf sz ->
  forall d, refs s' d - latest s' d = refs s d - latest s d - done_ref j c d.
Proof.
  unfold dispatch_enter. intros Hd Hst d. outcome_inv.
  assert (forall s1 s2, decref s1 c = Val s2 ->
            refs s2 d - latest s2 d = refs s1 d - latest s1 d - at_ c d) as Hdec.
  { intros s1 s2 (Hr & o & ->)%decref_refs. rewrite Hr. unfold latest. simpl. lia. }
  destruct (u_ok a) eqn:Eok; simpl in Hd.
  2: { outcome_inv. by apply Hdec. }
  destruct (negb _ && negb _) eqn:En.
  { exfalso. apply Hst. exists a, b. apply andb_true_iff in En as [H1 H2].
    apply negb_true_iff, Z.eqb_neq in H1, H2. done. }
  destruct (procs_ s !! _) as [f|]; [|done].
  destruct (rq_clt_nonce b =? 0); [injection Hd as <- <-; simpl; lia|].
  set (s1 := match reply_window_ s !! _ with None => _ | Some _ => s end) in Hd.
  assert (refs s1 d - latest s1 d = refs s d - latest s d) as <-.
  { subst s1. by destruct (reply_window_ s !! _). }
  clearbody s1. apply obind_val in Hd as (s2 & Hsave & Hd).
  apply save_conn_refs with (d := d) in Hsave. rewrite <-Hsave.
  apply obind_val in Hd as ([[[wm st] b1] sz1] & _ & Hd).
  destruct st; outcome_inv; [unfold refs, latest; simpl; lia|by rewrite (Hdec _ _ E0)|..].
  all: match goal with Es : send _ _ _ = Val _, Ed : decref _ _ = Val _ |- _ =>
         apply send_refs in Es as [Ho Hc]; rewrite (Hdec _ _ Ed) end;
       unfold refs, latest; rewrite Ho, Hc; simpl; lia.
Qed.

Lemma dispatch_new_refs s c h req f s' :
  dispatch_new s c h req f = Val s' ->
  forall d, refs s' d - latest s' d = refs s d - latest s d - at_ c d.
Proof.
  unfold dispatch_new. intros Hd d. outcome_inv.
  match goal with E : reply_conn ?s1 _ _ = Val _ |- _ =>
    assert (refs s1 d - latest s1 d = refs s d - latest s d) as <-;
    [|apply reply_conn_refs with (d := d) in E] end.
  { destruct (rq_clt_nonce h >? 0), (counting_ s =? 0); done. }
  match goal with E : send _ _ _ = Val _ |- _ => apply send_refs in E as [Ho Hc] end.
  apply decref_refs in Hd as (Hd & o & ->). rewrite Hd.
  assert (forall s1 s2 : rpcs S, objs s2 = objs s1 -> conns_ s2 = conns_ s1 ->
            refs s2 d = refs s1 d /\ latest s2 d = latest s1 d) as Hsame.
  { intros s1 s2 Eo Ec. unfold refs, latest. by rewrite Eo, Ec. }
  destruct (Hsame _ _ Ho Hc) as [-> Hl].
  change (latest (set_objs ?s1 _) d) with (latest s1 d). rewrite Hl. lia.
Qed.

(** C20: [dispatch] releases exactly the reference that [got_pdu] took. Over a
    whole dispatch (header errors, duplicates in every state, forgotten
    requests, executed requests and a change of connection included) the
    references on each connection change by those of the latest-connection
    table and by the one of the connection the request came on, except for a
    request addressed to an earlier server instance. *)
Theorem dispatch_reference_balance s c buf sz s' :
  dispatch s c buf sz = Val s' -> ~ stale s buf sz ->
  forall d, refs s' d - latest s' d = refs s d - latest s d - at_ c d.
Proof.
  unfold dispatch. intros Hd Hst d. outcome_inv.
  apply dispatch_enter_refs with (d := d) in E; [|done]. destruct b as [|h req f].
  - injection Hd as <-. done.
  - apply dispatch_new_refs with (d := d) in Hd. simpl in E. lia.
Qed.

(** A request addressed to an earlier server instance leaks its
    connection: that branch of [dispatch] answers [oldsrv_failure] and returns
    without [decref], so every reference count is left as it was and the
    connection is never deleted. *)
Theorem stale_request_leaks_reference s c buf sz s' :
  dispatch s c buf sz = Val s' -> stale s buf sz ->
  forall d, refs s' d = refs s d /\ latest s' d = latest s d.
Proof.
  unfold dispatch, dispatch_enter. intros Hd (req & h & Hu & Hok & Hn0 & Hn1) d.
  rewrite Hu in Hd. cbn [obind] in Hd. rewrite Hok in Hd. cbn [negb] in Hd.
  apply Z.eqb_neq in Hn0, Hn1. rewrite Hn0, Hn1 in Hd. cbn [negb andb] in Hd. outcome_inv.
  apply send_refs in E1 as [Ho Hc]. unfold refs, latest. by rewrite Ho, Hc.
Qed.

End rpcs.
(** ** A server with one counter procedure *)

#[local] Instance zero_heap : Heap := fun _ => 0.
#[local] Existing Instance libstdcxx_end.

Definition demo_add : Z -> sint -> sint -> outcome (Z * sint * Z) :=
  fun a x _ => Val (a + x, a + x, 0).
Definition demo_server : rpcs Z :=
  MkRpcs 9 0 0 ∅ true {[ 7 := rpcs_reg_1 demo_add ]} ∅ ∅ 40
         {[ 1 := Connection 2 false (10, 0) ]} [].

(** Call 1 of client 8 to procedure 7 with argument 2, for server [srv]. *)
Definition demo_request (srv : Z) : list Z :=
  [0;0;0;0; 0;0;0;1; 0;0;0;7; 0;0;0;8; 0;0;0;srv; 0;0;0;0; 0;0;0;2].
Definition demo_after (srv : Z) : rpcs Z :=
  match dispatch demo_server 1 (demo_request srv) 28 with
  | Val s => s
  | Fault _ => demo_server
  end.

Definition is_val {A} (m : outcome A) : bool := match m with Val _ => true | Fault _ => false end.

Lemma demo_dispatch srv :
  is_val (dispatch demo_server 1 (demo_request srv) 28) = true ->
  dispatch demo_server 1 (demo_request srv) 28 = Val (demo_after srv).
Proof. unfold demo_after. by destruct (dispatch _ _ _ _). Qed.

Lemma dispatch_reference_balance_witness :
  refs (demo_after 9) 1 - latest (demo_after 9) 1 =
  refs demo_server 1 - latest demo_server 1 - at_ 1 1.
Proof.
  apply (dispatch_reference_balance demo_server 1 (demo_request 9) 28).
  - apply demo_dispatch. vm_compute. reflexivity.
  - intros (req & h & Hu & _ & _ & Hn). apply Hn.
    vm_compute in Hu. injection Hu as _ <-. reflexivity.
Defined.

Lemma stale_request_leaks_reference_witness :
  refs (demo_after 5) 1 = refs demo_server 1 /\
  latest (demo_after 5) 1 = latest demo_server 1.
Proof.
  apply (stale_request_leaks_reference demo_server 1 (demo_request 5) 28).
  - apply demo_dispatch. vm_compute. reflexivity.
  - unfold stale. eexists _, _. split; [vm_compute; reflexivity|]. vm_compute. done.
Defined.

End Rpcs.
