(* ===== verification/Streams.v ===== *)
(** * Formatted input and output

    What the program uses of [std::istream] and [std::ostream]: extraction of
    words and unsigned numbers, [get], [getline], and decimal output. A stream
    is the text that is left and its fail bit; once that is set every further
    operation leaves the stream and its target as they are. *)

From S2P Require Import Prelude.

Definition nl : Ascii.ascii := Ascii.Ascii false true false true false false false false.

Definition minus : Ascii.ascii := Ascii.Ascii true false true true false true false false.
Definition plus : Ascii.ascii := Ascii.Ascii true true false true false true false false.

(** [isspace] in the C locale: 9 to 13 and the blank. *)
Definition is_space (c : Ascii.ascii) : bool :=
  let n := Z.of_N (Ascii.N_of_ascii c) in
  ((9 <=? n) && (n <=? 13)) || (n =? 32).

Definition digit_value (c : Ascii.ascii) : option Z :=
  let n := Z.of_N (Ascii.N_of_ascii c) in
  if (48 <=? n) && (n <=? 57) then Some (n - 48) else None.
Definition digit (d : Z) : Ascii.ascii := Ascii.ascii_of_N (Z.to_N (d + 48)).

Record istream := Istream { rest : string; fail : bool }.

Fixpoint skipws (s : string) : string :=
  match s with
  | String c s' => if is_space c then skipws s' else s
  | EmptyString => EmptyString
  end.

(** The longest prefix without white space. *)
Fixpoint span_word (s : string) : string * string :=
  match s with
  | String c s' =>
      if is_space c then (EmptyString, s)
      else let '(w, r) := span_word s' in (String c w, r)
  | EmptyString => (EmptyString, EmptyString)
  end.

(** [from >> w] for a string. *)
Definition get_word (st : istream) (w : string) : istream * string :=
  if fail st then (st, w)
  else match skipws (rest st) with
       | EmptyString => (Istream EmptyString true, w)
       | s => let '(w, r) := span_word s in (Istream r false, w)
       end.

(** The digits from here on, with the value they make after [acc]. *)
Fixpoint span_digits (acc : Z) (s : string) : Z * string :=
  match s with
  | String c s' =>
      match digit_value c with
      | Some d => span_digits (acc * 10 + d) s'
      | None => (acc, s)
      end
  | EmptyString => (acc, EmptyString)
  end.

Definition starts_with_digit (s : string) : bool :=
  match s with
  | String c _ => match digit_value c with Some _ => true | None => false end
  | EmptyString => false
  end.

(** [from >> n] for an [unsigned]: an optional sign, then digits. Without
    digits the result is 0, out of range it is the largest value, and both set
    the fail bit; a negative number wraps. *)
Definition get_unsigned (st : istream) (n : Z) : istream * Z :=
  if fail st then (st, n)
  else match skipws (rest st) with
       | EmptyString => (Istream EmptyString true, n)
       | String c s' as s =>
           let '(neg, s) := if Ascii.eqb c minus then (true, s')
                            else if Ascii.eqb c plus then (false, s') else (false, s) in
           if starts_with_digit s then
             let '(v, r) := span_digits 0 s in
             if v <? 2 ^ 32 then (Istream r false, if (neg : bool) then u32 (- v) else v)
             else (Istream r true, 2 ^ 32 - 1)
           else (Istream s true, 0)
       end.

(** [from.get()] *)
Definition get_char (st : istream) : istream :=
  if fail st then st
  else match rest st with
       | EmptyString => Istream EmptyString true
       | String _ s => Istream s false
       end.

Fixpoint span_line (s : string) : string * string :=
  match s with
  | String c s' => if Ascii.eqb c nl then (EmptyString, s')
                   else let '(l, r) := span_line s' in (String c l, r)
  | EmptyString => (EmptyString, EmptyString)
  end.

(** [getline(from, v)] *)
Definition getline (st : istream) (v : string) : istream * string :=
  if fail st then (st, v)
  else match rest st with
       | EmptyString => (Istream EmptyString true, EmptyString)
       | s => let '(l, r) := span_line s in (Istream r false, l)
       end.

(** [f << n] for an [unsigned], of at most twenty digits. *)
Fixpoint put_digits (fuel : nat) (n : Z) (tail : string) : string :=
  match fuel with
  | O => tail
  | S fuel =>
      let tail := String (digit (n mod 10)) tail in
      if n / 10 =? 0 then tail else put_digits fuel (n / 10) tail
  end.
Definition put_unsigned (n : Z) : string := put_digits 20 n EmptyString.

(** ** Words *)

Fixpoint all_chars (p : Ascii.ascii -> bool) (s : string) : bool :=
  match s with
  | String c s => p c && all_chars p s
  | EmptyString => true
  end.

(** A word as [>>] reads it back: not empty, no white space. *)
Definition is_word (s : string) : Prop :=
  s <> EmptyString /\ all_chars (fun c => negb (is_space c)) s = true.
(** A line as [getline] reads it back. *)
Definition is_line (s : string) : Prop := all_chars (fun c => negb (Ascii.eqb c nl)) s = true.

#[global] Instance is_word_dec s : Decision (is_word s).
Proof. unfold is_word. apply _. Defined.
#[global] Instance is_line_dec s : Decision (is_line s).
Proof. unfold is_line. apply _. Defined.

Lemma app_string_cons c (a b : string) : (String c a +:+ b = String c (a +:+ b))%string.
Proof. done. Qed.
Lemma app_string_empty (b : string) : ("" +:+ b = b)%string.
Proof. done. Qed.

Lemma app_string_assoc (a b c : string) : ((a +:+ b) +:+ c = a +:+ (b +:+ c))%string.
Proof.
  induction a as [|x a IH]; [done|]. rewrite !app_string_cons. by rewrite IH.
Qed.

Lemma app_string_nil (a : string) : (a +:+ "" = a)%string.
Proof. induction a as [|x a IH]; [done|]. rewrite app_string_cons. by rewrite IH. Qed.

Lemma span_word_app w c s :
  all_chars (fun c => negb (is_space c)) w = true -> is_space c = true ->
  span_word (w +:+ String c s) = (w, String c s).
Proof.
  intros Hw Hc. induction w as [|x w IH]; [unfold String.append; simpl; by rewrite Hc|].
  simpl in Hw.
  apply andb_prop in Hw as [Hx%negb_true_iff Hw].
  rewrite app_string_cons. cbn [span_word]. by rewrite Hx, IH.
Qed.

Lemma span_word_all w :
  all_chars (fun c => negb (is_space c)) w = true -> span_word w = (w, EmptyString).
Proof.
  intros Hw. induction w as [|x w IH]; simpl in *; [done|].
  apply andb_prop in Hw as [Hx%negb_true_iff Hw]. by rewrite Hx, IH.
Qed.

Lemma skipws_word w s : is_word w -> skipws (w +:+ s) = (w +:+ s)%string.
Proof.
  intros [Hne Hw]. destruct w as [|c w]; [done|]. simpl in Hw. rewrite app_string_cons. simpl.
  by apply andb_prop in Hw as [->%negb_true_iff _].
Qed.

(** A word is read back up to the white space that follows it. *)
Lemma get_word_spec w c s v :
  is_word w -> is_space c = true ->
  get_word (Istream (w +:+ String c s) false) v = (Istream (String c s) false, w).
Proof.
  intros Hw Hc. unfold get_word. simpl fail. cbn [rest]. rewrite skipws_word by done.
  destruct Hw as [Hne Hw]. pose proof (span_word_app w c s Hw Hc) as Hs.
  destruct w as [|x w]; [done|]. rewrite app_string_cons in *. by rewrite Hs.
Qed.

Lemma get_word_blank c st v :
  is_space c = true ->
  get_word (Istream (String c st) false) v = get_word (Istream st false) v.
Proof. intros Hc. unfold get_word. simpl. by rewrite Hc. Qed.

Lemma span_line_app l s :
  is_line l -> span_line (l +:+ String nl s) = (l, s).
Proof.
  unfold is_line. induction l as [|c l IH]; [done|]. rewrite app_string_cons.
  cbn [all_chars span_line]. intros [Hc%negb_true_iff Hl]%andb_prop. by rewrite Hc, IH.
Qed.

Lemma getline_spec l s v :
  is_line l -> getline (Istream (l +:+ String nl s) false) v = (Istream s false, l).
Proof.
  intros Hl. unfold getline. cbn [fail rest]. pose proof (span_line_app l s Hl) as Hs.
  destruct (l +:+ String nl s)%string eqn:E; [by destruct l|]. by rewrite Hs.
Qed.

(** ** Numbers *)

Lemma digit_value_digit d : 0 <= d < 10 -> digit_value (digit d) = Some d.
Proof.
  intros Hd. assert (In d [0;1;2;3;4;5;6;7;8;9]) as Hin.
  { simpl. lia. }
  simpl in Hin. decompose [or] Hin; subst; done.
Qed.

Lemma put_digits_starts fuel n tail : starts_with_digit (put_digits (S fuel) n tail) = true.
Proof.
  revert n tail. induction fuel as [|fuel IH]; intros n tail;
    cbn [put_digits]; destruct (n / 10 =? 0); cbn [put_digits starts_with_digit];
    try (by rewrite digit_value_digit by (apply Z.mod_pos_bound; lia)).
  apply IH.
Qed.

Lemma span_put_digits fuel : forall n a tail,
  0 <= n < 10 ^ Z.of_nat fuel ->
  exists k, 0 <= k /\ span_digits a (put_digits fuel n tail) = span_digits (a * 10 ^ k + n) tail.
Proof.
  induction fuel as [|fuel IH]; intros n a tail Hn.
  - exists 0. split; [lia|]. simpl in *. f_equal. lia.
  - cbn [put_digits]. pose proof (Z.mod_pos_bound n 10). pose proof (Z.div_mod n 10).
    destruct (Z.eqb_spec (n / 10) 0) as [Hz|Hz].
    + exists 1. split; [lia|]. cbn [span_digits]. rewrite digit_value_digit by lia. f_equal. lia.
    + destruct (IH (n / 10) a (String (digit (n mod 10)) tail)) as (k & Hk & ->).
      { split; [apply Z.div_pos; lia|]. apply Z.div_lt_upper_bound; [lia|].
        rewrite Nat2Z.inj_succ, Z.pow_succ_r in Hn by lia. lia. }
      exists (k + 1). split; [lia|]. cbn [span_digits]. rewrite digit_value_digit by lia.
      f_equal. rewrite Z.pow_add_r by lia. lia.
Qed.

Lemma put_digits_app fuel n tail :
  put_digits fuel n tail = (put_digits fuel n "" +:+ tail)%string.
Proof.
  revert n tail. induction fuel as [|fuel IH]; intros n tail; [done|]. cbn [put_digits].
  destruct (n / 10 =? 0); [done|].
  rewrite (IH _ (String _ tail)), (IH _ (String _ "")), app_string_assoc.
  by rewrite app_string_cons, app_string_empty.
Qed.

Lemma digit_no_sign s :
  starts_with_digit s = true ->
  exists c s', s = String c s' /\ is_space c = false /\ Ascii.eqb c minus = false /\
               Ascii.eqb c plus = false.
Proof.
  destruct s as [|c s]; simpl; [done|]. intros Hd. exists c, s. split; [done|].
  destruct c as [[] [] [] [] [] [] [] []]; simpl in Hd; try discriminate Hd; done.
Qed.

(** A number is read back up to the character that follows it, if that is no
    digit. *)
Lemma get_unsigned_spec n c s v :
  is_u32 n -> digit_value c = None ->
  get_unsigned (Istream (put_unsigned n +:+ String c s) false) v
  = (Istream (String c s) false, n).
Proof.
  intros Hn Hc. unfold get_unsigned, put_unsigned. cbn [fail rest].
  rewrite <-put_digits_app.
  pose proof (put_digits_starts 19 n (String c s)) as Hst.
  destruct (span_put_digits 20 n 0 (String c s)) as (k & _ & Hspan).
  { unfold is_u32 in Hn. change (10 ^ Z.of_nat 20) with 100000000000000000000. lia. }
  destruct (digit_no_sign _ Hst) as (c0 & s0 & He & Hsp & Hm & Hp).
  rewrite He in *. simpl skipws. rewrite Hsp, Hm, Hp. cbv zeta iota beta.
  rewrite Hst, Hspan. cbn [span_digits]. rewrite Hc. rewrite Z.mul_0_l, Z.add_0_l.
  destruct (Z.ltb_spec n (2 ^ 32)); [done|]. unfold is_u32 in Hn. lia.
Qed.

Lemma get_unsigned_blank c st v :
  is_space c = true ->
  get_unsigned (Istream (String c st) false) v = get_unsigned (Istream st false) v.
Proof. intros Hc. unfold get_unsigned. simpl. by rewrite Hc. Qed.
