(* ===== verification/PaxosLog.v ===== *)
(** * The acceptor's durable log (src/log/log.cc)

    [acceptor] is the acceptor's state (include/paxos/paxos.h) with the text of
    its log file; the operations of class [log] append records to that text and
    read it back. *)

From S2P Require Import Prelude.
From S2P Require Import Marshall.
From S2P Require Import Protocol.
From S2P Require Import Streams.

Local Open Scope string_scope.
Local Open Scope Z_scope.

Record acceptor := Acceptor {
  me : string;
  n_h : prop_t;
  n_a : prop_t;
  v_a : string;
  instance_h : Z;
  values : gmap Z string;
  l : string;   (* the log file *)
}.

Definition set_log (a : acceptor) (s : string) : acceptor :=
  Acceptor (me a) (n_h a) (n_a a) (v_a a) (instance_h a) (values a) s.

Definition newline : string := String nl EmptyString.

(** ** Writing *)

Definition loginstance (f : string) (instance : Z) (v : string) : string :=
  f +:+ "done" +:+ " " +:+ put_unsigned instance +:+ " " +:+ v +:+ newline.
Definition logprop (f : string) (n : prop_t) : string :=
  f +:+ "propseen" +:+ " " +:+ put_unsigned (pn n) +:+ " " +:+ pm n +:+ newline.
Definition logaccept (f : string) (n : prop_t) (v : string) : string :=
  f +:+ "accepted" +:+ " " +:+ put_unsigned (pn n) +:+ " " +:+ pm n +:+ " " +:+ v +:+ newline.

(** ** Reading *)

(** The three assignments of the branches of [logread]. *)
Definition replay_done (a : acceptor) (instance : Z) (v : string) : acceptor :=
  Acceptor (me a) (Prop_t 0 (pm (n_h a))) (Prop_t 0 (pm (n_a a))) "" instance
           (<[instance := v]> (values a)) (l a).
Definition replay_propseen (a : acceptor) (n : prop_t) : acceptor :=
  Acceptor (me a) n (n_a a) (v_a a) (instance_h a) (values a) (l a).
Definition replay_accepted (a : acceptor) (n : prop_t) (v : string) : acceptor :=
  Acceptor (me a) (n_h a) n v (instance_h a) (values a) (l a).

(** The loop of [logread]; [instance] is its local variable. Each round reads
    at least one character, so the length of the text bounds the rounds. *)
Fixpoint logread_loop (fuel : nat) (from : istream) (instance : Z) (a : acceptor)
    : outcome acceptor :=
  match fuel with
  | O => Fault Undefined
  | S fuel =>
      let '(from, type) := get_word from "" in
      if fail from then Val a
      else if String.eqb type "done" then
        let '(from, instance) := get_unsigned from instance in
        let from := get_char from in
        let '(from, v) := getline from "" in
        logread_loop fuel from instance (replay_done a instance v)
      else if String.eqb type "propseen" then
        let '(from, n) := get_unsigned from (pn (n_h a)) in
        let '(from, m) := get_word from (pm (n_h a)) in
        logread_loop fuel from instance (replay_propseen a (Prop_t n m))
      else if String.eqb type "accepted" then
        let '(from, n) := get_unsigned from (pn (n_a a)) in
        let '(from, m) := get_word from (pm (n_a a)) in
        let from := get_char from in
        let '(from, v) := getline from "" in
        logread_loop fuel from instance (replay_accepted a (Prop_t n m) v)
      else Fault VerifyFailed
  end.

Definition logread (a : acceptor) : outcome acceptor :=
  logread_loop (S (String.length (l a))) (Istream (l a) false) 0 a.

(** [dump] reads the file line by line. *)
Fixpoint dump_loop (fuel : nat) (from : istream) (res : string) : string :=
  match fuel with
  | O => res
  | S fuel =>
      let '(from, v) := getline from "" in
      if fail from then res else dump_loop fuel from (res +:+ v +:+ newline)
  end.
Definition log_dump (a : acceptor) : string :=
  dump_loop (S (String.length (l a))) (Istream (l a) false) "".
Definition log_restore (a : acceptor) (s : string) : acceptor := set_log a s.

(** ** The log as a list of records *)

Inductive record :=
| RDone (instance : Z) (v : string)
| RPropseen (n : prop_t)
| RAccepted (n : prop_t) (v : string).

Definition write (f : string) (r : record) : string :=
  match r with
  | RDone i v => loginstance f i v
  | RPropseen n => logprop f n
  | RAccepted n v => logaccept f n v
  end.
Definition replay (a : acceptor) (r : record) : acceptor :=
  match r with
  | RDone i v => replay_done a i v
  | RPropseen n => replay_propseen a n
  | RAccepted n v => replay_accepted a n v
  end.

(** What can be written and read back: numbers of 32 bits, node names that are
    words, values of one line. *)
Definition prop_ok (n : prop_t) : Prop := is_u32 (pn n) /\ is_word (pm n).
Definition record_ok (r : record) : Prop :=
  match r with
  | RDone i v => is_u32 i /\ is_line v
  | RPropseen n => prop_ok n
  | RAccepted n v => prop_ok n /\ is_line v
  end.

Definition blank : Ascii.ascii := Ascii.Ascii false false false false false true false false.

(** The text of a record in front of what follows it. *)
Definition print (r : record) (s : string) : string :=
  match r with
  | RDone i v => "done" +:+ String blank (put_unsigned i +:+ String blank (v +:+ String nl s))
  | RPropseen n => "propseen" +:+ String blank (put_unsigned (pn n) +:+ String blank (pm n +:+ String nl s))
  | RAccepted n v =>
      "accepted" +:+ String blank (put_unsigned (pn n) +:+ String blank (pm n +:+ String blank (v +:+ String nl s)))
  end.

Lemma write_print f r s : write f r +:+ s = f +:+ print r s.
Proof.
  destruct r as [i v|n|n v]; simpl; unfold loginstance, logprop, logaccept, newline;
    rewrite !app_string_assoc; repeat f_equal; rewrite ?app_string_cons; done.
Qed.

Lemma logread_loop_nl fuel s i a :
  logread_loop fuel (Istream (String nl s) false) i a = logread_loop fuel (Istream s false) i a.
Proof. destruct fuel as [|fuel]; [done|]. cbn [logread_loop]. by rewrite get_word_blank. Qed.

(** One round of the loop reads one record back. *)
(** Computes with pairs and streams, not with their text. *)
Ltac red_stream := cbv beta iota zeta delta [fail rest].

Lemma logread_loop_record fuel r s i a :
  record_ok r ->
  exists i', logread_loop (S fuel) (Istream (print r s) false) i a
             = logread_loop fuel (Istream s false) i' (replay a r).
Proof.
  destruct r as [j v|[n m]|[n m] v]; cbn [record_ok print pn pm prop_ok]; unfold prop_ok; cbn [pn pm].
  - intros [Hj Hv]. exists j. cbn [logread_loop]. rewrite get_word_spec by done.
    red_stream.
    change (String.eqb "done" "done") with true. red_stream.
    rewrite get_unsigned_blank by done.
    rewrite get_unsigned_spec by done. red_stream. cbn [get_char fail rest]. red_stream. by rewrite getline_spec.
  - intros [Hn Hm]. exists i. cbn [logread_loop]. rewrite get_word_spec by done.
    red_stream.
    change (String.eqb "propseen" "done") with false.
    change (String.eqb "propseen" "propseen") with true. red_stream.
    rewrite get_unsigned_blank by done.
    rewrite get_unsigned_spec by done. red_stream. rewrite get_word_blank by done.
    rewrite get_word_spec by done. red_stream. by rewrite logread_loop_nl.
  - intros [[Hn Hm] Hv]. exists i. cbn [logread_loop]. rewrite get_word_spec by done.
    red_stream.
    change (String.eqb "accepted" "done") with false.
    change (String.eqb "accepted" "propseen") with false.
    change (String.eqb "accepted" "accepted") with true. red_stream.
    rewrite get_unsigned_blank by done.
    rewrite get_unsigned_spec by done. red_stream. rewrite get_word_blank by done.
    rewrite get_word_spec by done. red_stream. cbn [get_char fail rest]. red_stream. by rewrite getline_spec.
Qed.

Lemma logread_loop_records recs : forall fuel i a,
  Forall record_ok recs -> (length recs < fuel)%nat ->
  logread_loop fuel (Istream (foldr print "" recs) false) i a = Val (foldl replay a recs).
Proof.
  induction recs as [|r recs IH]; intros fuel i a Hok Hfuel; (destruct fuel as [|fuel]; [lia|]).
  - done.
  - apply Forall_cons in Hok as [Hr Hok]. cbn [foldr].
    destruct (logread_loop_record fuel r (foldr print "" recs) i a Hr) as [i' ->].
    simpl in Hfuel. by apply IH; [|lia].
Qed.

Lemma length_app_string (a b : string) :
  String.length (a +:+ b) = (String.length a + String.length b)%nat.
Proof. induction a as [|c a IH]; [done|]. rewrite app_string_cons. simpl. by rewrite IH. Qed.

Lemma print_length r s : (String.length s < String.length (print r s))%nat.
Proof.
  destruct r; cbn [print]; rewrite !length_app_string; simpl; rewrite !length_app_string; simpl;
    rewrite ?length_app_string; simpl; rewrite ?length_app_string; simpl; lia.
Qed.

Lemma records_length recs : (length recs <= String.length (foldr print "" recs))%nat.
Proof.
  induction recs as [|r recs IH]; simpl; [lia|].
  pose proof (print_length r (foldr print "" recs)). lia.
Qed.

(** A log file made of records is read back as those records. *)
Lemma logread_records recs a :
  Forall record_ok recs -> l a = foldr print "" recs -> logread a = Val (foldl replay a recs).
Proof.
  intros Hok Hl. unfold logread. rewrite Hl. apply logread_loop_records; [done|].
  pose proof (records_length recs). lia.
Qed.

Lemma print_app_string r s t : print r s +:+ t = print r (s +:+ t).
Proof.
  pose proof (write_print "" r (s +:+ t)) as H1. rewrite <-app_string_assoc in H1.
  rewrite (write_print "" r s) in H1. by rewrite !app_string_empty in H1.
Qed.

Lemma write_records recs r :
  write (foldr print "" recs) r = foldr print "" (recs ++ [r]).
Proof.
  rewrite foldr_app. cbn [foldr]. pose proof (write_print (foldr print "" recs) r "") as H1.
  rewrite app_string_nil in H1. rewrite H1. generalize (print r ""). intros s. clear H1.
  induction recs as [|r' recs IH]; [done|]. cbn [foldr]. by rewrite print_app_string, IH.
Qed.

(** ** Dumping and restoring *)

Lemma all_chars_app p (a b : string) :
  all_chars p (a +:+ b) = all_chars p a && all_chars p b.
Proof.
  induction a as [|c a IH]; [done|]. rewrite app_string_cons. simpl. by rewrite IH, andb_assoc.
Qed.

Lemma digit_not_nl d : 0 <= d < 10 -> Ascii.eqb (digit d) nl = false.
Proof.
  intros Hd. assert (In d [0;1;2;3;4;5;6;7;8;9]) as Hin by (simpl; lia).
  simpl in Hin. decompose [or] Hin; subst; done.
Qed.

Lemma put_digits_line fuel : forall n tail, is_line tail -> is_line (put_digits fuel n tail).
Proof.
  induction fuel as [|fuel IH]; intros n tail Ht; [done|]. cbn [put_digits].
  assert (is_line (String (digit (n mod 10)) tail)) as Hd.
  { unfold is_line. cbn [all_chars]. rewrite digit_not_nl by (apply Z.mod_pos_bound; lia). done. }
  destruct (n / 10 =? 0); [done|]. by apply IH.
Qed.

Lemma word_line w : is_word w -> is_line w.
Proof.
  intros [_ Hw]. unfold is_line. induction w as [|c w IH]; [done|]. cbn [all_chars] in *.
  apply andb_prop in Hw as [Hc Hw]. rewrite IH by done. rewrite andb_true_r.
  destruct (Ascii.eqb c nl) eqn:E; [|done]. apply Ascii.eqb_eq in E as ->. done.
Qed.

Lemma line_app a b : is_line a -> is_line b -> is_line (a +:+ b).
Proof. unfold is_line. intros Ha Hb. by rewrite all_chars_app, Ha, Hb. Qed.
Lemma line_blank s : is_line s -> is_line (String blank s).
Proof. done. Qed.

(** A record is one line. *)
Lemma record_line r : record_ok r ->
  exists line, is_line line /\ (forall s, print r s = line +:+ String nl s).
Proof.
  assert (forall n, is_line (put_unsigned n)) as Hn by (intros; by apply put_digits_line).
  assert (forall a b c : string, (a +:+ b) +:+ c = a +:+ (b +:+ c)) as Ha by apply app_string_assoc.
  destruct r as [i v|[n m]|[n m] v]; cbn [record_ok print]; unfold prop_ok; cbn [pn pm];
    intros Hok; destruct_and?.
  - exists ("done" +:+ String blank (put_unsigned i +:+ String blank v)).
    split; [|by intros s; rewrite Ha, (app_string_cons blank), Ha].
    apply (line_app "done"); [done|]. apply line_blank. by apply line_app, line_blank.
  - exists ("propseen" +:+ String blank (put_unsigned n +:+ String blank m)).
    split; [|by intros s; rewrite Ha, (app_string_cons blank), Ha].
    apply (line_app "propseen"); [done|]. apply line_blank. by apply line_app, line_blank, word_line.
  - exists ("accepted" +:+ String blank (put_unsigned n +:+ String blank (m +:+ String blank v))).
    split; [|by intros s; rewrite Ha, (app_string_cons blank), Ha, (app_string_cons blank), Ha].
    apply (line_app "accepted"); [done|]. apply line_blank. apply line_app, line_blank; [done|].
    by apply line_app, line_blank; [apply word_line|].
Qed.

Lemma dump_loop_records recs : forall fuel res,
  Forall record_ok recs -> (length recs < fuel)%nat ->
  dump_loop fuel (Istream (foldr print "" recs) false) res = res +:+ foldr print "" recs.
Proof.
  induction recs as [|r recs IH]; intros fuel res Hok Hfuel; (destruct fuel as [|fuel]; [lia|]).
  - simpl. by rewrite app_string_nil.
  - apply Forall_cons in Hok as [Hr Hok]. cbn [foldr dump_loop].
    destruct (record_line r Hr) as (line & Hline & Hp). rewrite Hp, getline_spec by done.
    red_stream. simpl in Hfuel. rewrite IH by (done || lia). rewrite app_string_assoc. f_equal.
    unfold newline. by rewrite app_string_assoc, app_string_cons, app_string_empty.
Qed.

(** [dump] returns the file as it is. *)
Lemma log_dump_records recs a :
  Forall record_ok recs -> l a = foldr print "" recs -> log_dump a = l a.
Proof.
  intros Hok Hl. unfold log_dump. rewrite Hl. rewrite dump_loop_records; [done|done|].
  pose proof (records_length recs). lia.
Qed.
