(* ===== verification/Paxos.v ===== *)
(** * Paxos (src/paxos/paxos.cc, include/paxos/paxos.h)

    - the order on proposal numbers, [isamember] and [majority];
    - [Acceptor]: the acceptor's handlers and its recovery from the log;
    - [Proposer]: [run] with its phases [prepare], [accept] and [decide], over
      an interface [PaxosNet] to the other nodes. *)

From S2P Require Import Prelude.
From S2P Require Import Marshall.
From S2P Require Import Protocol.
From S2P Require Import Streams.
From S2P Require Import PaxosLog.

Local Open Scope string_scope.
Local Open Scope Z_scope.

(** ** Proposal numbers *)

(** [operator>] on [std::string] compares unsigned characters. *)
Definition str_gtb (a b : string) : bool :=
  match String.compare a b with Gt => true | _ => false end.

Definition prop_gtb (a b : prop_t) : bool :=
  (pn a >? pn b) || ((pn a =? pn b) && str_gtb (pm a) (pm b)).
Definition prop_geb (a b : prop_t) : bool :=
  (pn a >? pn b) || ((pn a =? pn b) && negb (str_gtb (pm b) (pm a))).

Definition prop_lt (a b : prop_t) : Prop := prop_gtb b a = true.
Definition prop_le (a b : prop_t) : Prop := prop_geb b a = true.

Lemma str_compare_refl a : String.compare a a = Eq.
Proof.
  induction a as [|c a IH]; simpl; [done|]. unfold Ascii.compare. by rewrite N.compare_refl.
Qed.

Lemma str_gtb_irrefl a : str_gtb a a = false.
Proof. unfold str_gtb. by rewrite str_compare_refl. Qed.

Lemma str_total a b : str_gtb a b = false -> str_gtb b a = false -> a = b.
Proof.
  unfold str_gtb. rewrite (String.compare_antisym a b).
  destruct (String.compare b a) eqn:E; simpl; try done. intros _ _.
  by apply String.compare_eq_iff in E.
Qed.

Lemma str_asym a b : str_gtb a b = true -> str_gtb b a = false.
Proof.
  unfold str_gtb. rewrite (String.compare_antisym a b). by destruct (String.compare b a).
Qed.

Lemma str_gtb_trans a : forall b c, str_gtb a b = true -> str_gtb b c = true -> str_gtb a c = true.
Proof.
  unfold str_gtb. induction a as [|x a IH]; intros [|y b] [|z c]; simpl; try done.
  unfold Ascii.compare. intros H1 H2.
  destruct (N.compare_spec (Ascii.N_of_ascii x) (Ascii.N_of_ascii y)),
    (N.compare_spec (Ascii.N_of_ascii y) (Ascii.N_of_ascii z)); try done;
    destruct (N.compare_spec (Ascii.N_of_ascii x) (Ascii.N_of_ascii z)); try done; try lia.
  by eapply IH.
Qed.

Lemma prop_lt_irrefl a : ~ prop_lt a a.
Proof.
  unfold prop_lt, prop_gtb. rewrite str_gtb_irrefl, andb_false_r, orb_false_r.
  destruct (Z.gtb_spec (pn a) (pn a)); [lia|done].
Qed.

Lemma prop_lt_spec a b :
  prop_lt a b <-> pn a < pn b \/ pn a = pn b /\ str_gtb (pm b) (pm a) = true.
Proof.
  unfold prop_lt, prop_gtb. rewrite orb_true_iff, andb_true_iff, Z.gtb_lt, Z.eqb_eq.
  split; (intros [?|[? ?]]; [by left|by right]).
Qed.

Lemma prop_lt_trans a b c : prop_lt a b -> prop_lt b c -> prop_lt a c.
Proof.
  rewrite !prop_lt_spec. intros [H1|[H1 H1']] [H2|[H2 H2']]; [left; lia..|].
  right. split; [lia|]. by eapply str_gtb_trans.
Qed.

Lemma prop_le_lt a b : prop_le a b <-> prop_lt a b \/ a = b.
Proof.
  rewrite prop_lt_spec. unfold prop_le, prop_geb.
  rewrite orb_true_iff, andb_true_iff, Z.gtb_lt, Z.eqb_eq, negb_true_iff.
  destruct a as [x m], b as [y m']; simpl. split.
  - intros [?|[<- Hm]]; [by left; left|]. destruct (str_gtb m' m) eqn:E; [left; right; done|].
    right. by rewrite (str_total _ _ E Hm).
  - intros [[?|[<- Hm]]|[= -> ->]]; [by left|right|right].
    + split; [done|]. by apply str_asym.
    + split; [done|]. apply str_gtb_irrefl.
Qed.

Lemma prop_total a b : prop_lt a b \/ a = b \/ prop_lt b a.
Proof.
  rewrite !prop_lt_spec. destruct (Z.lt_trichotomy (pn a) (pn b)) as [?|[Heq|?]]; [auto| |auto].
  destruct (str_gtb (pm b) (pm a)) eqn:E1; [auto|]. destruct (str_gtb (pm a) (pm b)) eqn:E2; [auto|].
  right; left. destruct a, b; simpl in *. by rewrite Heq, (str_total _ _ E1 E2).
Qed.

Lemma prop_not_lt a b : ~ prop_lt a b <-> prop_le b a.
Proof.
  rewrite prop_le_lt. destruct (prop_total a b) as [H|[<-|H]].
  - split; [done|]. intros [H'|<-]; [|by apply prop_lt_irrefl in H].
    by destruct (prop_lt_irrefl a (prop_lt_trans _ _ _ H H')).
  - split; [by right|]. intros _. apply prop_lt_irrefl.
  - split; [by left|]. intros _ H'. by destruct (prop_lt_irrefl a (prop_lt_trans _ _ _ H' H)).
Qed.

Lemma prop_le_lt_trans a b c : prop_le a b -> prop_lt b c -> prop_lt a c.
Proof. intros [H| ->]%prop_le_lt H'; [by eapply prop_lt_trans|done]. Qed.
Lemma prop_lt_le_trans a b c : prop_lt a b -> prop_le b c -> prop_lt a c.
Proof. intros H [H'| ->]%prop_le_lt; [by eapply prop_lt_trans|done]. Qed.
Lemma prop_le_antisym a b : prop_le a b -> prop_le b a -> a = b.
Proof.
  intros [H| ->]%prop_le_lt H'; [|done]. by apply prop_not_lt in H'.
Qed.
Lemma prop_le_trans a b c : prop_le a b -> prop_le b c -> prop_le a c.
Proof.
  intros H [H'| ->]%prop_le_lt; [|done]. apply prop_le_lt. left. by eapply prop_le_lt_trans.
Qed.
Lemma prop_le_refl a : prop_le a a.
Proof. apply prop_le_lt. by right. Qed.

(** ** Majorities *)

Fixpoint isamember (m : string) (nodes : list string) : bool :=
  match nodes with
  | [] => false
  | x :: nodes => if String.eqb x m then true else isamember m nodes
  end.

Fixpoint count_members (l1 l2 : list string) : Z :=
  match l1 with
  | [] => 0
  | x :: l1 => (if isamember x l2 then 1 else 0) + count_members l1 l2
  end.

Definition majority (l1 l2 : list string) : bool :=
  count_members l1 l2 >=? Z.shiftr (Z.of_nat (length l1)) 1 + 1.

Fixpoint print_members (nodes : list string) : string :=
  match nodes with
  | [] => ""
  | [x] => x
  | x :: nodes => x +:+ "," +:+ print_members nodes
  end.

Lemma isamember_spec m nodes : isamember m nodes = true <-> m ∈ nodes.
Proof.
  induction nodes as [|x nodes IH]; simpl; [by rewrite elem_of_nil|].
  rewrite elem_of_cons. destruct (String.eqb_spec x m) as [->|Hne]; [tauto|].
  rewrite IH. split; [by right|]. intros [->|?]; done.
Qed.

(** Two majorities of the same nodes have a node in common. *)
Lemma majority_intersect l1 q q' :
  majority l1 q = true -> majority l1 q' = true ->
  exists x, x ∈ l1 /\ x ∈ q /\ x ∈ q'.
Proof.
  unfold majority. rewrite Z.shiftr_div_pow2 by lia. change (2 ^ 1) with 2.
  rewrite !Z.geb_le. intros Hq Hq'.
  assert ((exists x, x ∈ l1 /\ x ∈ q /\ x ∈ q') \/
          count_members l1 q + count_members l1 q' <= Z.of_nat (length l1)) as [?|Hle]; [|done|].
  - clear Hq Hq'. induction l1 as [|x l1 IH]; [by right|]. cbn [count_members length].
    destruct IH as [(y & ? & ?)|IH]; [left; exists y; split; [by apply elem_of_cons; right|done]|].
    destruct (isamember x q) eqn:E1, (isamember x q') eqn:E2; [|right; lia..].
    left. exists x. rewrite <-!isamember_spec, E1, E2. split; [|done].
    simpl. by rewrite String.eqb_refl.
  - pose proof (Z.div_mod (Z.of_nat (length l1)) 2). 
    pose proof (Z.mod_pos_bound (Z.of_nat (length l1)) 2). lia.
Qed.

Lemma majority_all l1 : l1 <> [] -> majority l1 l1 = true.
Proof.
  intros Hne. unfold majority. rewrite Z.shiftr_div_pow2 by lia. change (2 ^ 1) with 2.
  assert (forall l l', (forall x, x ∈ l -> x ∈ l') -> count_members l l' = Z.of_nat (length l)) as Hc.
  { induction l as [|x l IH]; intros l' Hin; [done|]. cbn [count_members length].
    rewrite IH by (intros; apply Hin; apply elem_of_cons; by right).
    assert (isamember x l' = true) as -> by (apply isamember_spec, Hin, elem_of_cons; by left). lia. }
  rewrite Hc by done. apply Z.geb_le. destruct l1 as [|x l1]; [done|].
  cbn [length]. pose proof (Z.div_mod (Z.of_nat (S (length l1))) 2).
  pose proof (Z.mod_pos_bound (Z.of_nat (S (length l1))) 2). lia.
Qed.

(** ** The acceptor *)

Module Acceptor.

Definition set_n_h (a : acceptor) (n : prop_t) : acceptor :=
  PaxosLog.Acceptor (me a) n (n_a a) (v_a a) (instance_h a) (values a) (l a).
Definition set_accepted (a : acceptor) (n : prop_t) (v : string) : acceptor :=
  PaxosLog.Acceptor (me a) (n_h a) n v (instance_h a) (values a) (l a).

(** [values[i]] creates an empty entry where there is none. *)
Definition touch (a : acceptor) (i : Z) : acceptor * string :=
  match values a !! i with
  | Some v => (a, v)
  | None => (PaxosLog.Acceptor (me a) (n_h a) (n_a a) (v_a a) (instance_h a)
               (<[i := ""]> (values a)) (l a), "")
  end.

Definition value (a : acceptor) (i : Z) : acceptor * string := touch a i.

(** The constructor on a node whose log file holds [file]. *)
Definition acceptor_fresh (me : string) (file : string) : acceptor :=
  PaxosLog.Acceptor me (Prop_t 0 me) (Prop_t 0 me) "" 0 ∅ file.
Definition acceptor_new (first : bool) (me value : string) (file : string) : outcome acceptor :=
  let! a := logread (acceptor_fresh me file) in
  if (instance_h a =? 0) && first then
    Val (PaxosLog.Acceptor me (n_h a) (n_a a) (v_a a) 1 (<[1 := value]> (values a))
           (loginstance (l a) 1 value))
  else Val a.

Definition preparereq (a : acceptor) (arg : preparearg) (r : prepareres)
    : acceptor * prepareres * Z :=
  if pa_instance arg <=? instance_h a then
    let '(a, v) := touch a (pa_instance arg) in
    (a, Prepareres true false (pr_n_a r) v, paxos_OK)
  else if prop_gtb (pa_n arg) (n_h a) then
    let r := Prepareres false true (n_a a) (v_a a) in
    let a := set_n_h a (pa_n arg) in
    (set_log a (logprop (l a) (n_h a)), r, paxos_OK)
  else (a, Prepareres false false (pr_n_a r) (pr_v_a r), paxos_OK).

Definition acceptreq (a : acceptor) (arg : acceptarg) : acceptor * bool * Z :=
  if prop_geb (aa_n arg) (n_h a) then
    let a := set_accepted a (aa_n arg) (aa_v arg) in
    (set_log a (logaccept (l a) (n_a a) (v_a a)), true, paxos_OK)
  else (a, false, paxos_ERR).

(** The second component lists the upcalls [cfg->paxos_commit(instance, value)]. *)
Definition commit_wo (a : acceptor) (instance : Z) (v : string) : acceptor * list (Z * string) :=
  if instance >? instance_h a then
    (PaxosLog.Acceptor (me a) (Prop_t 0 (me a)) (Prop_t 0 (me a)) "" instance
       (<[instance := v]> (values a)) (loginstance (l a) instance v),
     [(instance, v)])
  else (a, []).

Definition commit (a : acceptor) (instance : Z) (v : string) : acceptor * list (Z * string) :=
  commit_wo a instance v.

Definition decidereq (a : acceptor) (arg : decidearg)
    : outcome (acceptor * list (Z * string) * Z) :=
  if da_instance arg =? u32 (instance_h a + 1) then
    VERIFY (String.eqb (v_a a) (da_v arg)) ;;;
    Val (commit_wo a (da_instance arg) (v_a a), paxos_OK)
  else if da_instance arg <=? instance_h a then Val (a, [], paxos_OK)
  else Fault VerifyFailed.

Definition dump (a : acceptor) : string := log_dump a.
Definition restore (a : acceptor) (s : string) : outcome acceptor := logread (log_restore a s).

(** ** Recovery *)

(** Proposal numbers with [n = 0] stand for "none" whatever the name. *)
Definition prop_equiv (p q : prop_t) : Prop :=
  pn p = pn q /\ ((pn p : Z) <> 0 -> p = q).

(** Acceptors that hold the same promises, votes and decisions. *)
Record acc_equiv (a b : acceptor) : Prop := {
  ae_me : me a = me b;
  ae_n_h : prop_equiv (n_h a) (n_h b);
  ae_n_a : prop_equiv (n_a a) (n_a b);
  ae_v_a : v_a a = v_a b;
  ae_instance : instance_h a = instance_h b;
  ae_values : forall i, default "" (values a !! i) = default "" (values b !! i);
}.

#[global] Instance prop_equiv_equivalence : Equivalence prop_equiv.
Proof.
  split.
  - by intros p.
  - intros p q [H1 H2]. split; [done|]. intros Hq. symmetry. apply H2. congruence.
  - intros p q r [H1 H2] [H3 H4]. split; [congruence|]. intros Hp.
    rewrite H2 by done. apply H4. congruence.
Qed.

#[global] Instance acc_equiv_equivalence : Equivalence acc_equiv.
Proof.
  split.
  - intros a. by constructor.
  - intros a b [H1 H2 H3 H4 H5 H6]. constructor; by symmetry.
  - intros a b c [H1 H2 H3 H4 H5 H6] [G1 G2 G3 G4 G5 G6].
    constructor; [congruence|by rewrite H2|by rewrite H3|congruence..|]. intros i. by rewrite H6.
Qed.

(** The requests that reach an acceptor of a running system: numbers of 32
    bits counting from 1, node names that are words and values of one line. *)
Inductive request :=
| Prepare (arg : preparearg) (r : prepareres)
| Accept (arg : acceptarg)
| Decide (arg : decidearg)
| Commit (instance : Z) (v : string)
| Value (i : Z).

Definition ballot_ok (n : prop_t) : Prop := prop_ok n /\ (pn n : Z) <> 0.
Definition request_ok (q : request) : Prop :=
  match q with
  | Prepare arg _ => ballot_ok (pa_n arg)
  | Accept arg => ballot_ok (aa_n arg) /\ is_line (aa_v arg)
  | Decide arg => True
  | Commit i v => is_u32 i /\ is_line v
  | Value _ => True
  end.

Definition handle (a : acceptor) (q : request) : outcome acceptor :=
  match q with
  | Prepare arg r => Val (preparereq a arg r).1.1
  | Accept arg => Val (acceptreq a arg).1.1
  | Decide arg => let! '(a, _, _) := decidereq a arg in Val a
  | Commit i v => Val (commit a i v).1
  | Value i => Val (value a i).1
  end.

Fixpoint handle_all (a : acceptor) (qs : list request) : outcome acceptor :=
  match qs with
  | [] => Val a
  | q :: qs => let! a := handle a q in handle_all a qs
  end.

(** The log holds the acceptor's state: reading its records from scratch
    gives an equivalent acceptor. *)
Definition logged (a : acceptor) : Prop :=
  exists recs, Forall record_ok recs /\ l a = foldr print "" recs /\
    acc_equiv (foldl replay (acceptor_fresh (me a) (l a)) recs) a /\
    is_u32 (instance_h a) /\ is_line (v_a a).

Lemma replay_log a recs s :
  foldl replay (set_log a s) recs = set_log (foldl replay a recs) s.
Proof. revert a. induction recs as [|r recs IH]; intros a; [done|]. simpl. by destruct r; simpl; rewrite <-IH. Qed.

(** An operation that appends one record and does to the state what reading
    that record does keeps the log in step. *)
Lemma logged_write a b r :
  logged a -> record_ok r -> me b = me a -> l b = write (l a) r ->
  (forall c, acc_equiv c a -> acc_equiv (replay c r) b) ->
  is_u32 (instance_h b) -> is_line (v_a b) -> logged b.
Proof.
  intros (recs & Hok & Hl & Heq & _ & _) Hr Hme Hlb Hrep Hi Hv.
  exists (recs ++ [r])%list. split_and!; [| | |done|done].
  - apply Forall_app; split; [done|by constructor].
  - by rewrite Hlb, Hl, write_records.
  - rewrite foldl_app. cbn [foldl]. apply Hrep. rewrite Hme.
    change (acceptor_fresh (me a) (l b)) with (set_log (acceptor_fresh (me a) (l a)) (l b)).
    rewrite replay_log. destruct Heq. by constructor.
Qed.

Lemma logged_same a b :
  logged a -> l b = l a -> acc_equiv a b -> logged b.
Proof.
  intros (recs & Hok & Hl & Heq & Hi & Hv) Hlb Hab. exists recs.
  pose proof Hab as [Hme _ _ Hva Hins _]. rewrite Hlb, <-Hme, <-Hva, <-Hins.
  split_and!; [done..| |done|done]. by rewrite <-Hab.
Qed.

Lemma touch_equiv a i : acc_equiv (touch a i).1 a /\ l (touch a i).1 = l a.
Proof.
  unfold touch. destruct (values a !! i) eqn:E; [done|]. split; [|done].
  constructor; try done. intros j. simpl. destruct (decide (i = j)) as [<-|Hne].
  - by rewrite lookup_insert_eq, E.
  - by rewrite lookup_insert_ne.
Qed.
Lemma prop_equiv_zero m m' : prop_equiv (Prop_t 0 m) (Prop_t 0 m').
Proof. by split. Qed.
#[local] Hint Resolve prop_equiv_zero : yfs.

Lemma commit_wo_logged a i v :
  logged a -> is_u32 i -> is_line v -> logged (commit_wo a i v).1.
Proof.
  intros Ha Hi Hv. unfold commit_wo. destruct (Z.gtb_spec i (instance_h a)); [|done].
  apply (logged_write a _ (RDone i v)); simpl; try done.
  intros c []. constructor; simpl; auto with yfs. intros j.
  destruct (decide (i = j)) as [<-|Hne]; [by rewrite !lookup_insert_eq|].
  by rewrite !lookup_insert_ne.
Qed.

Lemma decide_handled a arg b :
  handle a (Decide arg) = Val b ->
  da_instance arg = u32 (instance_h a + 1) /\ b = (commit_wo a (da_instance arg) (v_a a)).1 \/ b = a.
Proof.
  cbn [handle]. unfold decidereq, VERIFY.
  destruct (Z.eqb_spec (da_instance arg) (u32 (instance_h a + 1))) as [Heq|].
  - destruct (String.eqb _ _); [|done]. simpl. destruct (commit_wo _ _ _) as [a' ev]. simpl.
    intros [= <-]. by left.
  - destruct (_ <=? _); [|done]. simpl. intros [= <-]. by right.
Qed.

Lemma handle_logged a q b : logged a -> request_ok q -> handle a q = Val b -> logged b.
Proof.
  intros Ha Hok Hh. pose proof Ha as (_ & _ & _ & _ & Hi & Hv).
  destruct q as [arg r|arg|arg|i v|i]; cbn [handle request_ok] in *.
  - injection Hh as <-. unfold preparereq. destruct (_ <=? _).
    + destruct (touch_equiv a (pa_instance arg)) as [He Hl].
      destruct (touch a (pa_instance arg)) as [a' v']. simpl in *.
      by apply (logged_same a).
    + destruct (prop_gtb _ _); [|done].
      apply (logged_write a _ (RPropseen (pa_n arg))); simpl; try done.
      * apply Hok.
      * intros c []. by constructor.
  - injection Hh as <-. unfold acceptreq. destruct (prop_geb _ _); [|done].
    destruct Hok as [[Hok _] Hline].
    apply (logged_write a _ (RAccepted (aa_n arg) (aa_v arg))); simpl; try done.
    intros c []. by constructor.
  - destruct (decide_handled _ _ _ Hh) as [[Heq ->]| ->]; [|done]. rewrite Heq.
    apply commit_wo_logged; [done|apply u32_range|done].
  - injection Hh as <-. destruct Hok. by apply commit_wo_logged.
  - injection Hh as <-. destruct (touch_equiv a i) as [He Hl]. by apply (logged_same a).
Qed.

Lemma commit_wo_instance a i v : instance_h a <= instance_h (commit_wo a i v).1.
Proof. unfold commit_wo. destruct (Z.gtb_spec i (instance_h a)); simpl; lia. Qed.

Lemma handle_instance a q b : handle a q = Val b -> me b = me a /\ instance_h a <= instance_h b.
Proof.
  assert (forall i v, me (commit_wo a i v).1 = me a) as Hcm.
  { intros i v. unfold commit_wo. by destruct (_ >? _). }
  assert (forall i, me (touch a i).1 = me a /\ instance_h a <= instance_h (touch a i).1) as Ht.
  { intros i. unfold touch. destruct (values a !! i); simpl; (split; [done|lia]). }
  destruct q as [arg r|arg|arg|i v|i]; cbn [handle]; intros Hh.
  - injection Hh as <-. unfold preparereq. destruct (_ <=? _).
    + specialize (Ht (pa_instance arg)). by destruct (touch a (pa_instance arg)).
    + destruct (prop_gtb _ _); simpl; (split; [done|lia]).
  - injection Hh as <-. unfold acceptreq. destruct (prop_geb _ _); simpl; (split; [done|lia]).
  - destruct (decide_handled _ _ _ Hh) as [[_ ->]| ->]; [|split; [done|lia]].
    split; [apply Hcm|apply commit_wo_instance].
  - injection Hh as <-. split; [apply Hcm|apply commit_wo_instance].
  - injection Hh as <-. apply Ht.
Qed.

Lemma handle_all_logged qs : forall a b,
  logged a -> Forall request_ok qs -> handle_all a qs = Val b ->
  logged b /\ me b = me a /\ instance_h a <= instance_h b.
Proof.
  induction qs as [|q qs IH]; intros a b Ha Hok Hh; cbn [handle_all] in Hh.
  - injection Hh as <-. split_and!; [done..|lia].
  - apply Forall_cons in Hok as [Hq Hok]. outcome_inv.
    destruct (handle_instance _ _ _ E) as [Hm Hi].
    destruct (IH _ _ (handle_logged _ _ _ Ha Hq E) Hok Hh) as (Hb & Hm' & Hi').
    split_and!; [done|congruence|lia].
Qed.

Lemma acceptor_new_logged first me0 value a :
  is_line value -> acceptor_new first me0 value "" = Val a ->
  logged a /\ me a = me0 /\ (first = true -> instance_h a = 1).
Proof.
  intros Hv Hn. unfold acceptor_new, logread in Hn. simpl in Hn. destruct first; injection Hn as <-.
  - split_and!; [|done|done]. exists [RDone 1 value]. split_and!; [..|done|done].
    + constructor; [|constructor]. split; [|done]. unfold is_u32. lia.
    + cbn [foldr]. pose proof (write_print "" (RDone 1 value) "") as Hw.
      by rewrite app_string_nil, app_string_empty in Hw.
    + constructor; simpl; auto with yfs.
  - split_and!; [|done|done]. exists []. split_and!; [constructor|done|by constructor| |done].
    unfold is_u32. simpl. lia.
Qed.

(** C33: a crashed acceptor comes back as it was. Whatever sequence of
    prepare, accept, decide, commit and value requests an acceptor has
    handled since it was created on an empty log, constructing it again from
    its log file gives an acceptor with the same promises, the same vote, the
    same decided instance and the same decided values (up to the node name in a
    proposal number 0, which stands for "none"). *)
Theorem acceptor_recovers first me0 value qs a b :
  is_line value -> acceptor_new first me0 value "" = Val a ->
  Forall request_ok qs -> handle_all a qs = Val b ->
  exists c, acceptor_new first me0 value (l b) = Val c /\ acc_equiv c b.
Proof.
  intros Hv Hn Hok Hh. destruct (acceptor_new_logged _ _ _ _ Hv Hn) as (Ha & Hma & H1).
  destruct (handle_all_logged _ _ _ Ha Hok Hh) as ((recs & Hrecs & Hl & Heq & Hi & _) & Hmb & Hle).
  rewrite Hmb, Hma in Heq. unfold acceptor_new.
  rewrite (logread_records recs _ Hrecs); [|done]. cbn [obind].
  destruct (Z.eqb_spec (instance_h (foldl replay (acceptor_fresh me0 (l b)) recs)) 0) as [E|];
    destruct first; simpl; try (by eexists).
  destruct Heq as [_ _ _ _ Hins _]. rewrite E in Hins. specialize (H1 eq_refl). lia.
Qed.

Lemma acceptor_recovers_witness :
  exists c,
    acceptor_new true "n1" "n1" (l (PaxosLog.Acceptor "n1" (Prop_t 2 "n2") (Prop_t 2 "n2") "n1 n2 " 1
      {[ 1 := "n1" ]}
      (logaccept (logprop (loginstance "" 1 "n1") (Prop_t 2 "n2")) (Prop_t 2 "n2") "n1 n2 "))) = Val c /\
    acc_equiv c (PaxosLog.Acceptor "n1" (Prop_t 2 "n2") (Prop_t 2 "n2") "n1 n2 " 1 {[ 1 := "n1" ]}
      (logaccept (logprop (loginstance "" 1 "n1") (Prop_t 2 "n2")) (Prop_t 2 "n2") "n1 n2 ")).
Proof.
  eapply (acceptor_recovers true "n1" "n1"
    [Prepare (Preparearg 2 (Prop_t 2 "n2")) (Prepareres false false (Prop_t 0 "") "");
     Accept (Acceptarg 2 (Prop_t 2 "n2") "n1 n2 ")]).
  - reflexivity.
  - reflexivity.
  - repeat constructor; simpl; try done; unfold is_u32; simpl; lia.
  - reflexivity.
Defined.

(** Reading the same records from two states: what they decide wins. *)
Lemma replay_adopts recs : forall a b,
  (forall i v, values a !! i = Some v -> values b !! i = Some v) ->
  (instance_h a <> 0 -> instance_h b = instance_h a) ->
  (forall i v, values (foldl replay a recs) !! i = Some v ->
               values (foldl replay b recs) !! i = Some v) /\
  (instance_h (foldl replay a recs) <> 0 ->
   instance_h (foldl replay b recs) = instance_h (foldl replay a recs)) /\
  l (foldl replay b recs) = l b.
Proof.
  induction recs as [|r recs IH]; intros a b Hv Hi; [done|]. cbn [foldl].
  destruct (IH (replay a r) (replay b r)) as (H1 & H2 & H3).
  - destruct r as [j v|n|n v]; simpl; [|done..]. intros i w.
    rewrite !lookup_insert_Some. intros [?|[? ?]]; [by left|right; auto].
  - by destruct r.
  - split_and!; [done..|]. rewrite H3. by destruct r.
Qed.

(** A joining node takes over every decision. Sending one acceptor's
    [dump] to another and calling [restore] there makes the receiver's log that
    text, moves it to the sender's decided instance and gives it every
    non-empty decided value of the sender, whatever the receiver held
    before. *)
Theorem restore_adopts_decisions first me0 value qs a0 a b :
  is_line value -> acceptor_new first me0 value "" = Val a0 ->
  Forall request_ok qs -> handle_all a0 qs = Val a ->
  exists c, restore b (dump a) = Val c /\ l c = l a /\
    (instance_h a <> 0 -> instance_h c = instance_h a) /\
    (forall i v, v <> "" -> values a !! i = Some v -> values c !! i = Some v).
Proof.
  intros Hline Hn Hok Hh. destruct (acceptor_new_logged _ _ _ _ Hline Hn) as (Ha0 & _ & _).
  destruct (handle_all_logged _ _ _ Ha0 Hok Hh) as ((recs & Hrecs & Hl & Heq & _ & _) & _ & _).
  unfold restore, dump. rewrite (log_dump_records recs) by done.
  rewrite (logread_records recs); [|done|done]. eexists. split; [done|].
  destruct (replay_adopts recs (acceptor_fresh (me a) (l a)) (log_restore b (l a)))
    as (H1 & H2 & H3); [simpl; intros i v; by rewrite lookup_empty|done|].
  destruct Heq as [_ _ _ _ Hins Hvals]. split_and!.
  - by rewrite H3.
  - rewrite <-Hins. apply H2.
  - intros i v Hne Hv. apply H1. specialize (Hvals i). rewrite Hv in Hvals. simpl in Hvals.
    destruct (values (foldl replay _ recs) !! i) as [w|]; simpl in Hvals; congruence.
Qed.

Definition demo_sender : acceptor :=
  PaxosLog.Acceptor "n1" (Prop_t 0 "n1") (Prop_t 0 "n1") "" 2
    (<[2 := "n1 n2 "]> {[ 1 := "n1" ]}) (loginstance (loginstance "" 1 "n1") 2 "n1 n2 ").

Lemma restore_adopts_decisions_witness :
  exists c, restore (acceptor_fresh "n2" "") (dump demo_sender) = Val c /\ l c = l demo_sender /\
    (instance_h demo_sender <> 0 -> instance_h c = instance_h demo_sender) /\
    (forall i v, v <> "" -> values demo_sender !! i = Some v -> values c !! i = Some v).
Proof.
  eapply (restore_adopts_decisions true "n1" "n1" [Commit 2 "n1 n2 "]).
  - reflexivity.
  - reflexivity.
  - repeat constructor; simpl; try done; unfold is_u32; simpl; lia.
  - reflexivity.
Defined.

End Acceptor.

(** ** The proposer *)

(** What [proposer] needs of its environment: the RPCs to the other nodes
    ([None]: no handle for the node; otherwise the status and the reply), the
    local acceptor's [commit] and [get_n_h]. *)
Class PaxosNet (W : Type) := {
  net_prepare : W -> string -> preparearg -> W * option (Z * prepareres);
  net_accept : W -> string -> acceptarg -> W * option (Z * bool);
  net_decide : W -> string -> decidearg -> W * option Z;
  net_commit : W -> Z -> string -> W;
  net_n_h : W -> prop_t;
}.

Module Proposer.

Record proposer := MkProposer {
  pme : string;
  break1 : bool;
  break2 : bool;
  stable : bool;
  my_n : prop_t;
}.

Definition proposer_new (me : string) : proposer := MkProposer me false false true (Prop_t 0 me).
Definition isrunning (p : proposer) : bool := negb (stable p).
Definition set_stable (p : proposer) (b : bool) : proposer :=
  MkProposer (pme p) (break1 p) (break2 p) b (my_n p).

Definition breakpoint (p : proposer) (b : Z) : proposer :=
  if b =? 3 then MkProposer (pme p) true (break2 p) (stable p) (my_n p)
  else if b =? 4 then MkProposer (pme p) (break1 p) true (stable p) (my_n p)
  else p.

Definition setn (p : proposer) (nh : prop_t) : proposer :=
  let n := if u32 (pn nh + 1) >? u32 (pn (my_n p) + 1) then u32 (pn nh + 1)
           else u32 (pn (my_n p) + 1) in
  MkProposer (pme p) (break1 p) (break2 p) (stable p) (Prop_t n (pm (my_n p))).

(** The body of [prepare]'s loop on a reply: the nodes that accepted, the
    highest vote reported so far, and its value; or the decided value of an old
    instance. *)
Definition prepare_reply (node : string) (res : prepareres)
    (st : list string * prop_t * string) : string + list string * prop_t * string :=
  let '(accepts, max_n_a, max_v) := st in
  if pr_oldinstance res then inl (pr_v_a res)
  else if pr_accept res then
    if prop_gtb (pr_n_a res) max_n_a
    then inr (app accepts [node], pr_n_a res, pr_v_a res)
    else inr (app accepts [node], max_n_a, max_v)
  else inr (accepts, max_n_a, max_v).

Section run.
Context {W : Type} `{PaxosNet W}.

Fixpoint prepare_loop (w : W) (arg : preparearg) (nodes : list string)
    (st : list string * prop_t * string) : W * (string + list string * prop_t * string) :=
  match nodes with
  | [] => (w, inr st)
  | node :: nodes =>
      match net_prepare w node arg with
      | (w, Some (ret, res)) =>
          if negb (ret =? paxos_OK) then prepare_loop w arg nodes st
          else match prepare_reply node res st with
               | inl v => (w, inl v)
               | inr st => prepare_loop w arg nodes st
               end
      | (w, None) => prepare_loop w arg nodes st
      end
  end.

(** [prepare] returns [false] ([None]) after committing an old instance, or the
    nodes that accepted and the value to propose (empty: none). *)
Definition prepare (w : W) (p : proposer) (instance : Z) (nodes : list string)
    : W * option (list string * string) :=
  match prepare_loop w (Preparearg instance (my_n p)) nodes ([], Prop_t 0 "0", "") with
  | (w, inl v) => (net_commit w instance v, None)
  | (w, inr (accepts, _, max_v)) => (w, Some (accepts, max_v))
  end.

Fixpoint accept_loop (w : W) (arg : acceptarg) (nodes : list string) (accepts : list string)
    : W * list string :=
  match nodes with
  | [] => (w, accepts)
  | node :: nodes =>
      match net_accept w node arg with
      | (w, Some (ret, r)) =>
          accept_loop w arg nodes
            (if (ret =? paxos_OK) && r then app accepts [node] else accepts)
      | (w, None) => accept_loop w arg nodes accepts
      end
  end.
Definition accept (w : W) (p : proposer) (instance : Z) (nodes : list string) (v : string)
    : W * list string :=
  accept_loop w (Acceptarg instance (my_n p) v) nodes [].

Fixpoint decide_loop (w : W) (arg : decidearg) (nodes : list string) : W :=
  match nodes with
  | [] => w
  | node :: nodes => decide_loop (net_decide w node arg).1 arg nodes
  end.
Definition decide_nodes (w : W) (instance : Z) (accepts : list string) (v : string) : W :=
  decide_loop w (Decidearg instance v) accepts.

(** [breakpoint1] and [breakpoint2] leave the process when armed. *)
Definition breakpoint1 (p : proposer) : outcome unit :=
  if break1 p then Fault Exited else Val tt.
Definition breakpoint2 (p : proposer) : outcome unit :=
  if break2 p then Fault Exited else Val tt.

Definition run (w : W) (p : proposer) (instance : Z) (cur_nodes : list string) (newv : string)
    : outcome (W * proposer * bool) :=
  if negb (stable p) then Val (w, p, false)
  else
    let p := setn (set_stable p false) (net_n_h w) in
    match prepare w p instance cur_nodes with
    | (w, Some (accepts, v)) =>
        if majority cur_nodes accepts then
          let v := if Z.of_nat (String.length v) =? 0 then newv else v in
          breakpoint1 p ;;;
          let '(w, accepts) := accept w p instance accepts v in
          if majority cur_nodes accepts then
            breakpoint2 p ;;;
            let w := decide_nodes w instance accepts v in
            Val (w, set_stable p true, true)
          else Val (w, set_stable p true, false)
        else Val (w, set_stable p true, false)
    | (w, None) => Val (w, set_stable p true, false)
    end.

End run.
End Proposer.

(** ** A cluster whose nodes answer at once

    The acceptors of a system by name; [self] is the node the proposer runs
    on. A failed [VERIFY] takes its node down. *)

Module Cluster.
Import Acceptor Proposer.

Section cluster.
Context (self : string).

Abbreviation cluster := (gmap string acceptor).

#[local] Instance cluster_net : PaxosNet cluster := {|
  net_prepare w x arg :=
    match w !! x with
    | Some a => let '(a, res, st) := preparereq a arg (Prepareres false false (Prop_t 0 "") "") in
                (<[x := a]> w, Some (st, res))
    | None => (w, None)
    end;
  net_accept w x arg :=
    match w !! x with
    | Some a => let '(a, r, st) := acceptreq a arg in (<[x := a]> w, Some (st, r))
    | None => (w, None)
    end;
  net_decide w x arg :=
    match w !! x with
    | Some a => match decidereq a arg with
                | Val (a, _, st) => (<[x := a]> w, Some st)
                | Fault _ => (delete x w, None)
                end
    | None => (w, None)
    end;
  net_commit w i v :=
    match w !! self with
    | Some a => <[self := (commit a i v).1]> w
    | None => w
    end;
  net_n_h w := match w !! self with Some a => n_h a | None => Prop_t 0 "" end;
|}.

(** Every node of [nodes] is up and satisfies [P]. *)
Definition all_up (w : cluster) (nodes : list string) (P : acceptor -> Prop) : Prop :=
  forall x, x ∈ nodes -> exists a, w !! x = Some a /\ P a.

Lemma all_up_insert w nodes P x a : x ∉ nodes -> all_up w nodes P -> all_up (<[x := a]> w) nodes P.
Proof.
  intros Hx Hup y Hy. rewrite lookup_insert_ne by (intros ->; done). by apply Hup.
Qed.

Lemma prepare_loop_ok i n nodes : forall w acc mn mv,
  NoDup nodes ->
  all_up w nodes (fun a => instance_h a = i - 1 /\ prop_lt (n_h a) n) ->
  exists w' mn' mv',
    prepare_loop w (Preparearg i n) nodes (acc, mn, mv) = (w', inr (app acc nodes, mn', mv')) /\
    all_up w' nodes (fun a => instance_h a = i - 1 /\ n_h a = n) /\
    (forall x, x ∉ nodes -> w' !! x = w !! x) /\
    (mv' = mv \/ exists x a, x ∈ nodes /\ w !! x = Some a /\ mv' = v_a a).
Proof.
  induction nodes as [|x nodes IH]; intros w acc mn mv Hnd Hup.
  { exists w, mn, mv. rewrite app_nil_r. split_and!; [done| |done|by left].
    intros x Hx. by apply elem_of_nil in Hx. }
  apply NoDup_cons in Hnd as [Hx Hnd].
  destruct (Hup x) as (a & Ha & Hi & Hlt); [apply elem_of_cons; by left|].
  set (a' := set_log (set_n_h a n) (logprop (l a) n)).
  assert (forall mn1 mv1, exists w' mn' mv',
    prepare_loop (<[x := a']> w) (Preparearg i n) nodes (app acc [x], mn1, mv1)
      = (w', inr (app acc (x :: nodes), mn', mv')) /\
    all_up w' (x :: nodes) (fun a => instance_h a = i - 1 /\ n_h a = n) /\
    (forall y, y ∉ x :: nodes -> w' !! y = w !! y) /\
    (mv' = mv1 \/ exists y b, y ∈ nodes /\ w !! y = Some b /\ mv' = v_a b)) as Hnext.
  { intros mn1 mv1. destruct (IH (<[x := a']> w) (app acc [x]) mn1 mv1 Hnd) as (w' & mn' & mv' & E & H1 & H2 & H3).
    { apply all_up_insert; [done|]. intros y Hy. apply Hup, elem_of_cons. by right. }
    exists w', mn', mv'. rewrite E, <-app_assoc. split_and!; [done|..].
    - intros y [->|Hy]%elem_of_cons; [|by apply H1].
      exists a'. by rewrite H2, lookup_insert_eq.
    - intros y [Hyx Hy]%not_elem_of_cons. by rewrite H2, lookup_insert_ne.
    - destruct H3 as [?|(y & b & Hy & Hb & ?)]; [by left|right]. exists y, b.
      rewrite lookup_insert_ne in Hb by (intros ->; done). done. }
  cbn [prepare_loop]. unfold net_prepare at 1. cbn [cluster_net]. rewrite Ha. unfold preparereq.
  cbn [pa_instance pa_n]. destruct (Z.leb_spec i (instance_h a)); [lia|].
  unfold prop_lt in Hlt. rewrite Hlt. cbn [Z.eqb paxos_OK negb prepare_reply pr_oldinstance pr_accept].
  cbn. change (set_log (set_n_h a n) (logprop (l a) n)) with a'.
  destruct (prop_gtb (n_a a) mn).
  - destruct (Hnext (n_a a) (v_a a)) as (w' & mn' & mv' & E & H1 & H2 & H3).
    exists w', mn', mv'. split_and!; [done..|]. right.
    destruct H3 as [->|(y & b & Hy & Hb & ->)]; [exists x, a|exists y, b];
      (split; [apply elem_of_cons; by (left + right)|done]).
  - destruct (Hnext mn mv) as (w' & mn' & mv' & E & H1 & H2 & H3).
    exists w', mn', mv'. split_and!; [done..|].
    destruct H3 as [->|(y & b & Hy & Hb & ->)]; [by left|right]. exists y, b.
    split; [apply elem_of_cons; by right|done].
Qed.

Lemma accept_loop_ok i n v nodes : forall w acc,
  NoDup nodes -> all_up w nodes (fun a => instance_h a = i - 1 /\ n_h a = n) ->
  exists w',
    accept_loop w (Acceptarg i n v) nodes acc = (w', app acc nodes) /\
    all_up w' nodes (fun a => instance_h a = i - 1 /\ v_a a = v) /\
    (forall x, x ∉ nodes -> w' !! x = w !! x).
Proof.
  induction nodes as [|x nodes IH]; intros w acc Hnd Hup.
  { exists w. rewrite app_nil_r. split_and!; [done| |done]. intros x Hx. by apply elem_of_nil in Hx. }
  apply NoDup_cons in Hnd as [Hx Hnd].
  destruct (Hup x) as (a & Ha & Hi & Hn); [apply elem_of_cons; by left|].
  cbn [accept_loop]. unfold net_accept at 1. cbn [cluster_net]. rewrite Ha. unfold acceptreq.
  cbn [aa_n aa_v]. rewrite Hn. assert (prop_geb n n = true) as -> by apply prop_le_refl.
  cbn. set (a' := set_log _ _).
  destruct (IH (<[x := a']> w) (app acc [x]) Hnd) as (w' & E & H1 & H2).
  { apply all_up_insert; [done|]. intros y Hy. apply Hup, elem_of_cons. by right. }
  exists w'. rewrite E, <-app_assoc. split_and!; [done|..].
  - intros y [->|Hy]%elem_of_cons; [|by apply H1]. exists a'. by rewrite H2, lookup_insert_eq.
  - intros y [Hyx Hy]%not_elem_of_cons. by rewrite H2, lookup_insert_ne.
Qed.

Lemma decide_loop_ok i v nodes : forall w,
  0 < i < 2 ^ 32 -> NoDup nodes ->
  all_up w nodes (fun a => instance_h a = i - 1 /\ v_a a = v) ->
  all_up (decide_loop w (Decidearg i v) nodes) nodes
         (fun a => instance_h a = i /\ values a !! i = Some v) /\
  (forall x, x ∉ nodes -> decide_loop w (Decidearg i v) nodes !! x = w !! x).
Proof.
  induction nodes as [|x nodes IH]; intros w Hi Hnd Hup.
  { split; [|done]. intros x Hx. by apply elem_of_nil in Hx. }
  apply NoDup_cons in Hnd as [Hx Hnd].
  destruct (Hup x) as (a & Ha & Hia & Hv); [apply elem_of_cons; by left|].
  cbn [decide_loop]. cbn [net_decide cluster_net]. rewrite Ha. unfold decidereq.
  cbn [da_instance da_v]. rewrite Hia. replace (i - 1 + 1) with i by lia.
  rewrite u32_id by (unfold is_u32; lia). rewrite Z.eqb_refl, Hv, String.eqb_refl.
  unfold VERIFY, commit_wo. cbn [obind]. rewrite Hia. destruct (Z.gtb_spec i (i - 1)); [|lia].
  cbn [fst]. set (a' := PaxosLog.Acceptor _ _ _ _ _ _ _).
  destruct (IH (<[x := a']> w) Hi Hnd) as [H1 H2].
  { apply all_up_insert; [done|]. intros y Hy. apply Hup, elem_of_cons. by right. }
  split.
  - intros y [->|Hy]%elem_of_cons; [|by apply H1]. exists a'. rewrite H2 by done.
    rewrite lookup_insert_eq. split_and!; [done..|]. simpl. apply lookup_insert_eq.
  - intros y [Hyx Hy]%not_elem_of_cons. by rewrite H2, lookup_insert_ne.
Qed.

(** C34: an undisturbed proposal succeeds. If all current nodes are up, have
    decided everything before the instance and have promised nothing higher
    than the number [setn] chooses, then [run] returns true, leaves the
    proposer idle, and every node has committed one and the same value for the
    instance: the value of an earlier vote if there was one (a node's accepted,
    non-empty value), and the proposed one if there was none. Other nodes are
    not touched. *)
Theorem healthy_run_commits (w : cluster) (p : proposer) (i : Z) (nodes : list string)
    (newv : string) :
  0 < i < 2 ^ 32 -> nodes <> [] -> NoDup nodes ->
  stable p = true -> break1 p = false -> break2 p = false ->
  all_up w nodes (fun a => instance_h a = i - 1 /\ prop_lt (n_h a) (my_n (setn p (net_n_h w)))) ->
  exists w' p' v,
    run w p i nodes newv = Val (w', p', true) /\ stable p' = true /\
    all_up w' nodes (fun a => instance_h a = i /\ values a !! i = Some v) /\
    (forall x, x ∉ nodes -> w' !! x = w !! x) /\
    (v = newv \/ exists x a, x ∈ nodes /\ w !! x = Some a /\ v = v_a a /\ v <> "") /\
    (all_up w nodes (fun a => v_a a = "") -> v = newv).
Proof.
  intros Hi Hne Hnd Hst Hb1 Hb2 Hup. unfold run, prepare. rewrite Hst. cbn [negb].
  set (p1 := setn (set_stable p false) (net_n_h w)).
  change (my_n (setn p (net_n_h w))) with (my_n p1) in Hup.
  destruct (prepare_loop_ok i (my_n p1) nodes w [] (Prop_t 0 "0") "" Hnd Hup)
    as (w1 & mn & mv & E1 & Hup1 & Hout1 & Hmv).
  rewrite E1. cbn [app]. rewrite (majority_all nodes Hne).
  set (v := if Z.of_nat (String.length mv) =? 0 then newv else mv).
  assert (breakpoint1 p1 = Val tt) as -> by (unfold breakpoint1; simpl; by rewrite Hb1).
  cbn [obind]. unfold accept.
  destruct (accept_loop_ok i (my_n p1) v nodes w1 [] Hnd Hup1) as (w2 & E2 & Hup2 & Hout2).
  rewrite E2. cbn [app]. rewrite (majority_all nodes Hne).
  assert (breakpoint2 p1 = Val tt) as -> by (unfold breakpoint2; simpl; by rewrite Hb2).
  cbn [obind]. unfold decide_nodes.
  destruct (decide_loop_ok i v nodes w2 Hi Hnd Hup2) as [Hup3 Hout3].
  eexists _, _, v. split; [done|]. split_and!; [done|done| | |].
  - intros x Hx. by rewrite Hout3, Hout2, Hout1.
  - subst v. destruct (Z.eqb_spec (Z.of_nat (String.length mv)) 0) as [|Hlen]; [by left|].
    right. destruct Hmv as [->|(x & a & Hx & Ha & ->)]; [done|]. exists x, a.
    split_and!; [done..|]. intros Hv. by rewrite Hv in Hlen.
  - intros Hempty. subst v. destruct Hmv as [->|(x & a & Hx & Ha & ->)]; [done|].
    destruct (Hempty x Hx) as (a' & Ha' & Hv'). rewrite Ha in Ha'. injection Ha' as <-. by rewrite Hv'.
Qed.

End cluster.

Definition demo_acceptor (me : string) : acceptor :=
  PaxosLog.Acceptor me (Prop_t 0 me) (Prop_t 0 me) "" 1 {[ 1 := "n1" ]} "".
Definition demo_cluster : gmap string acceptor :=
  <["n2" := demo_acceptor "n2"]> {[ "n1" := demo_acceptor "n1" ]}.

Lemma healthy_run_commits_witness :
  exists w' p' v,
    run (H := cluster_net "n1") demo_cluster (proposer_new "n1") 2 ["n1"; "n2"] "n1 n2 "
      = Val (w', p', true) /\ stable p' = true /\
    all_up w' ["n1"; "n2"] (fun a => instance_h a = 2 /\ values a !! 2 = Some v) /\
    (forall x, x ∉ ["n1"; "n2"] -> w' !! x = demo_cluster !! x) /\
    (v = "n1 n2 " \/ exists x a, x ∈ ["n1"; "n2"] /\ demo_cluster !! x = Some a /\ v = v_a a /\ v <> "") /\
    (all_up demo_cluster ["n1"; "n2"] (fun a => v_a a = "") -> v = "n1 n2 ").
Proof.
  apply (healthy_run_commits "n1"); try done.
  - apply NoDup_cons. split; [|by apply NoDup_singleton].
    intros ?%list_elem_of_singleton. done.
  - intros x [->|[->|Hx%elem_of_nil]%elem_of_cons]%elem_of_cons; [..|done];
      (eexists; split; [reflexivity|split; reflexivity]).
Defined.

End Cluster.
