(* ===== verification/PaxosSafety.v ===== *)
(** * Agreement

    Any number of proposers and acceptors, with their requests and replies
    delayed, lost and repeated, as a transition system whose steps are the
    handlers of [Paxos.Acceptor] and the decisions of [Paxos.Proposer]. The
    first part proves that at most one value is decided per instance as long
    as acceptors see requests of an instance while they are at it; the second
    part runs the handlers without that restriction to two different
    decisions. *)

From S2P Require Import Prelude.
From S2P Require Import Marshall.
From S2P Require Import Protocol.
From S2P Require Import Streams.
From S2P Require Import PaxosLog.
From S2P Require Import Paxos.

Local Open Scope string_scope.
Local Open Scope Z_scope.

Module PaxosSafety.
Import Acceptor Proposer.

(** One [proposer::run] past [setn]: the prepare replies it has received (in
    order), the value of its accept requests once the prepare phase had a
    majority, the nodes whose accept replies arrived, and whether the accept
    phase had a majority. *)
Record round := Round {
  r_inst : Z;
  r_n : prop_t;
  r_newv : string;
  r_replies : list (string * prepareres);
  r_val : option string;
  r_accepted : list string;
  r_decided : bool;
}.

(** History: the prepare requests an acceptor accepted, for the round that
    sent them, with the vote it reported; and the votes it cast. *)
Record promise := Promise {
  p_node : string;
  p_inst : Z;
  p_n : prop_t;
  p_rid : nat;
  p_na : prop_t;
  p_va : string;
}.
Record vote := Vote { v_node : string; v_inst : Z; v_n : prop_t; v_val : string }.

Record system := System {
  accs : gmap string acceptor;
  rounds : gmap nat round;
  promises : list promise;
  votes : list vote;
}.

(** The state of [prepare]'s loop after the replies. *)
Definition collect (replies : list (string * prepareres)) (st : list string * prop_t * string)
    : string + list string * prop_t * string :=
  foldl (fun s r => match s with inl v => inl v | inr st => prepare_reply r.1 r.2 st end)
        (inr st) replies.

Definition set_replies (r : round) (rs : list (string * prepareres)) : round :=
  Round (r_inst r) (r_n r) (r_newv r) rs (r_val r) (r_accepted r) (r_decided r).
Definition set_val (r : round) (v : string) : round :=
  Round (r_inst r) (r_n r) (r_newv r) (r_replies r) (Some v) (r_accepted r) (r_decided r).
Definition set_accepted_by (r : round) (l : list string) : round :=
  Round (r_inst r) (r_n r) (r_newv r) (r_replies r) (r_val r) l (r_decided r).
Definition set_decided (r : round) : round :=
  Round (r_inst r) (r_n r) (r_newv r) (r_replies r) (r_val r) (r_accepted r) true.

Section safety.
(** The nodes of the view an instance is decided in. *)
Context (view : Z -> list string).

Definition res0 : prepareres := Prepareres false false (Prop_t 0 "") "".

Inductive step : system -> system -> Prop :=
(* a proposer enters [run]; [setn] gives it a number that counts from 1 *)
| step_start s rid i n newv :
    rounds s !! rid = None -> 0 < pn n -> is_u32 i -> newv <> "" ->
    step s (System (accs s) (<[rid := Round i n newv [] None [] false]> (rounds s))
                   (promises s) (votes s))
(* a prepare request is handled; its reply arrives in time or not *)
| step_prepare s rid r x a a' res st (arrives : bool) :
    rounds s !! rid = Some r -> accs s !! x = Some a -> x ∈ view (r_inst r) ->
    r_inst r <= instance_h a + 1 ->
    preparereq a (Preparearg (r_inst r) (r_n r)) res0 = (a', res, st) ->
    (arrives = true -> pr_accept res = true /\ r_val r = None) ->
    step s (System (<[x := a']> (accs s))
                   (if arrives then <[rid := set_replies r (app (r_replies r) [(x, res)])]> (rounds s)
                    else rounds s)
                   (if pr_accept res
                    then Promise x (r_inst r) (r_n r) rid (pr_n_a res) (pr_v_a res) :: promises s
                    else promises s)
                   (votes s))
(* the prepare phase has a majority *)
| step_propose s rid r accepts mn mv :
    rounds s !! rid = Some r -> r_val r = None ->
    collect (r_replies r) ([], Prop_t 0 "0", "") = inr (accepts, mn, mv) ->
    majority (view (r_inst r)) accepts = true ->
    step s (System (accs s)
             (<[rid := set_val r (if Z.of_nat (String.length mv) =? 0 then r_newv r else mv)]> (rounds s))
             (promises s) (votes s))
(* an accept request is handled by a node that accepted the prepare *)
| step_accept s rid r v x a a' ok st (arrives : bool) :
    rounds s !! rid = Some r -> r_val r = Some v -> x ∈ (r_replies r).*1 ->
    accs s !! x = Some a -> r_inst r = instance_h a + 1 ->
    acceptreq a (Acceptarg (r_inst r) (r_n r) v) = (a', ok, st) ->
    (arrives = true -> ok = true) ->
    step s (System (<[x := a']> (accs s))
                   (if arrives then <[rid := set_accepted_by r (app (r_accepted r) [x])]> (rounds s)
                    else rounds s)
                   (promises s)
                   (if ok then Vote x (r_inst r) (r_n r) v :: votes s else votes s))
(* the accept phase has a majority *)
| step_decide s rid r :
    rounds s !! rid = Some r -> majority (view (r_inst r)) (r_accepted r) = true ->
    step s (System (accs s) (<[rid := set_decided r]> (rounds s)) (promises s) (votes s))
(* a decide request is handled *)
| step_learn s rid r v x a a' up st :
    rounds s !! rid = Some r -> r_decided r = true -> r_val r = Some v ->
    accs s !! x = Some a -> decidereq a (Decidearg (r_inst r) v) = Val (a', up, st) ->
    step s (System (<[x := a']> (accs s)) (rounds s) (promises s) (votes s))
(* a proposer is told of an old instance and commits the value it is sent *)
| step_catch_up s x a y b i v :
    accs s !! x = Some a -> accs s !! y = Some b -> i <= instance_h b ->
    values b !! i = Some v -> i = instance_h a + 1 ->
    step s (System (<[x := (commit a i v).1]> (accs s)) (rounds s) (promises s) (votes s)).

(** All acceptors start after instance [h0], with the same values and no
    promise or vote. *)
Record initial (h0 : Z) (s : system) : Prop := {
  ini_acc : forall x a, accs s !! x = Some a ->
    instance_h a = h0 /\ pn (n_h a) = 0 /\ pn (n_a a) = 0 /\ v_a a = "" /\
    (forall j, h0 < j -> values a !! j = None);
  ini_h0 : is_u32 h0;
  ini_rounds : rounds s = ∅;
  ini_promises : promises s = [];
  ini_votes : votes s = [];
}.

(** ** The invariant *)

(** No quorum can any more be completed for value [w] in the round [m]. *)
Definition blocked (s : system) (i : Z) (m : prop_t) (w : string) : Prop :=
  forall q, majority (view i) q = true ->
    exists x, x ∈ q /\ (Vote x i m w ∉ votes s) /\
      exists p, p ∈ promises s /\ p_node p = x /\ p_inst p = i /\ prop_lt m (p_n p).

Record acc_inv (h0 : Z) (s : system) (x : string) (a : acceptor) : Prop := {
  ai_h : h0 <= instance_h a < 2 ^ 32;
  ai_promises : forall p, p ∈ promises s -> p_node p = x ->
    p_inst p <= instance_h a + 1 /\ (p_inst p = instance_h a + 1 -> prop_le (p_n p) (n_h a));
  ai_votes : forall i n v, Vote x i n v ∈ votes s ->
    i <= instance_h a + 1 /\ (i = instance_h a + 1 -> prop_le n (n_a a) /\ pn (n_a a) <> 0);
  ai_n_a : 0 <= pn (n_a a) /\ 0 <= pn (n_h a) /\
    (pn (n_a a) = 0 -> v_a a = "") /\
    (pn (n_a a) <> 0 -> Vote x (instance_h a + 1) (n_a a) (v_a a) ∈ votes s /\ prop_le (n_a a) (n_h a));
  ai_values : forall j v, h0 < j -> values a !! j = Some v ->
    j <= instance_h a /\
    exists rid r, rounds s !! rid = Some r /\ r_inst r = j /\ r_val r = Some v /\ r_decided r = true;
  ai_dense : forall j, h0 < j <= instance_h a -> is_Some (values a !! j);
}.

Record promise_inv (s : system) (p : promise) : Prop := {
  pi_n : 0 < pn (p_n p);
  pi_round : exists r, rounds s !! p_rid p = Some r /\ r_inst r = p_inst p /\ r_n r = p_n p;
  pi_some : pn (p_na p) <> 0 ->
    Vote (p_node p) (p_inst p) (p_na p) (p_va p) ∈ votes s /\ prop_lt (p_na p) (p_n p);
  pi_none : pn (p_na p) = 0 -> p_va p = "";
  pi_nonneg : 0 <= pn (p_na p);
  pi_between : forall m w, Vote (p_node p) (p_inst p) m w ∈ votes s -> prop_lt m (p_n p) ->
    pn (p_na p) <> 0 /\ prop_le m (p_na p);
}.

Record round_inv (s : system) (rid : nat) (r : round) : Prop := {
  ri_n : 0 < pn (r_n r) /\ is_u32 (r_inst r) /\ r_newv r <> "";
  ri_replies : forall x res, (x, res) ∈ r_replies r ->
    Promise x (r_inst r) (r_n r) rid (pr_n_a res) (pr_v_a res) ∈ promises s /\
    pr_accept res = true /\ pr_oldinstance res = false;
  ri_majority : r_val r <> None -> majority (view (r_inst r)) (r_replies r).*1 = true;
  ri_safe : forall v, r_val r = Some v ->
    v <> "" /\ forall m w, prop_lt m (r_n r) -> w <> v -> blocked s (r_inst r) m w;
  ri_accepted : forall x, x ∈ r_accepted r ->
    exists v, r_val r = Some v /\ Vote x (r_inst r) (r_n r) v ∈ votes s;
  ri_decided : r_decided r = true ->
    r_val r <> None /\ majority (view (r_inst r)) (r_accepted r) = true;
}.

Record inv (h0 : Z) (s : system) : Prop := {
  inv_h0 : 0 <= h0;
  inv_accs : forall x a, accs s !! x = Some a -> acc_inv h0 s x a;
  inv_promises : forall p, p ∈ promises s -> promise_inv s p;
  inv_unique : forall p q, p ∈ promises s -> q ∈ promises s ->
    p_node p = p_node q -> p_inst p = p_inst q -> p_n p = p_n q -> p = q;
  inv_votes : forall x i n v, Vote x i n v ∈ votes s ->
    v <> "" /\ 0 < pn n /\
    exists rid r, rounds s !! rid = Some r /\ r_inst r = i /\ r_n r = n /\ r_val r = Some v;
  inv_rounds : forall rid r, rounds s !! rid = Some r -> round_inv s rid r;
}.

(** ** Consequences of the invariant *)

Lemma same_round h0 s rid1 rid2 r1 r2 :
  inv h0 s -> rounds s !! rid1 = Some r1 -> rounds s !! rid2 = Some r2 ->
  r_inst r1 = r_inst r2 -> r_n r1 = r_n r2 -> r_val r1 <> None -> r_val r2 <> None ->
  rid1 = rid2.
Proof.
  intros Hinv H1 H2 Hi Hn Hv1 Hv2.
  destruct (inv_rounds _ _ Hinv _ _ H1) as [_ Hr1 Hm1 _ _ _].
  destruct (inv_rounds _ _ Hinv _ _ H2) as [_ Hr2 Hm2 _ _ _].
  destruct (majority_intersect _ _ _ (Hm1 Hv1) ltac:(rewrite Hi; exact (Hm2 Hv2)))
    as (x & _ & ([x1 res1] & -> & Hx1)%list_elem_of_fmap & ([x2 res2] & Heq & Hx2)%list_elem_of_fmap).
  simpl in Heq. subst x2. destruct (Hr1 _ _ Hx1) as [Hp1 _], (Hr2 _ _ Hx2) as [Hp2 _].
  assert (Promise x1 (r_inst r1) (r_n r1) rid1 (pr_n_a res1) (pr_v_a res1)
          = Promise x1 (r_inst r2) (r_n r2) rid2 (pr_n_a res2) (pr_v_a res2)) as Heq'
    by (by eapply inv_unique).
  congruence.
Qed.

Lemma decided_agree h0 s rid1 rid2 r1 r2 v1 v2 :
  inv h0 s -> rounds s !! rid1 = Some r1 -> rounds s !! rid2 = Some r2 ->
  r_inst r1 = r_inst r2 -> r_decided r1 = true -> r_decided r2 = true ->
  r_val r1 = Some v1 -> r_val r2 = Some v2 -> v1 = v2.
Proof.
  intros Hinv.
  (* a lower decided round fixes the value of a higher one *)
  assert (forall rid1 rid2 r1 r2 v1 v2,
    rounds s !! rid1 = Some r1 -> rounds s !! rid2 = Some r2 -> r_inst r1 = r_inst r2 ->
    r_decided r1 = true -> r_val r1 = Some v1 -> r_val r2 = Some v2 ->
    prop_lt (r_n r1) (r_n r2) -> v1 = v2) as Hlow.
  { clear rid1 rid2 r1 r2 v1 v2. intros rid1 rid2 r1 r2 v1 v2 H1 H2 Hi Hd Hv1 Hv2 Hlt.
    destruct (inv_rounds _ _ Hinv _ _ H1) as [_ _ _ _ Hacc1 Hdec1].
    destruct (inv_rounds _ _ Hinv _ _ H2) as [_ _ _ Hsafe2 _ _].
    destruct (decide (v1 = v2)) as [|Hne]; [done|].
    destruct (Hsafe2 _ Hv2) as [_ Hs]. destruct (Hdec1 Hd) as [_ Hmaj].
    destruct (Hs _ _ Hlt Hne (r_accepted r1)) as (x & Hx & Hnv & _); [by rewrite <-Hi|].
    destruct (Hacc1 _ Hx) as (v & Hv & Hvote). rewrite <-Hi in Hnv. congruence. }
  intros H1 H2 Hi Hd1 Hd2 Hv1 Hv2. destruct (prop_total (r_n r1) (r_n r2)) as [Hlt|[Heq|Hlt]].
  - by eapply (Hlow rid1 rid2).
  - assert (rid1 = rid2) as -> by (eapply same_round; try done; congruence). congruence.
  - symmetry. by eapply (Hlow rid2 rid1).
Qed.

(** ** What every step respects *)

Record grows (s s' : system) : Prop := {
  g_promises : forall p, p ∈ promises s -> p ∈ promises s';
  g_votes : forall v, v ∈ votes s -> v ∈ votes s';
  g_rounds : forall rid r, rounds s !! rid = Some r ->
    exists r', rounds s' !! rid = Some r' /\ r_inst r' = r_inst r /\ r_n r' = r_n r /\
      (forall v, r_val r = Some v -> r_val r' = Some v) /\
      (r_decided r = true -> r_decided r' = true);
  g_new_votes : forall x i m w, Vote x i m w ∈ votes s' ->
    Vote x i m w ∈ votes s \/
    (forall p, p ∈ promises s -> p_node p = x -> p_inst p = i -> prop_le (p_n p) m);
}.

Lemma prop_le_not_lt a b : prop_le a b -> prop_lt b a -> False.
Proof. intros H1 H2. by apply prop_not_lt in H1. Qed.

Lemma blocked_grows s s' i m w : grows s s' -> blocked s i m w -> blocked s' i m w.
Proof.
  intros Hg Hb q Hq. destruct (Hb q Hq) as (x & Hx & Hnv & p & Hp & Hpx & Hpi & Hlt).
  exists x. split; [done|]. split.
  - intros [?|Hle]%(g_new_votes _ _ Hg); [done|].
    by eapply prop_le_not_lt; [apply (Hle p)|].
  - exists p. split; [by apply (g_promises _ _ Hg)|done].
Qed.

Lemma promise_inv_grows s s' p :
  grows s s' -> p ∈ promises s -> promise_inv s p -> promise_inv s' p.
Proof.
  intros Hg Hin [H1 H2 H3 H4 H5 H6]. constructor; try done.
  - destruct H2 as (r & Hr & ? & ?). destruct (g_rounds _ _ Hg _ _ Hr) as (r' & Hr' & E1 & E2 & _).
    exists r'. by rewrite E1, E2.
  - intros Hn. destruct (H3 Hn). split; [by apply (g_votes _ _ Hg)|done].
  - intros m w [Hv|Hle]%(g_new_votes _ _ Hg) Hlt; [by eapply H6|].
    exfalso. by eapply prop_le_not_lt; [apply (Hle p)|].
Qed.

Lemma round_inv_grows s s' rid r : grows s s' -> round_inv s rid r -> round_inv s' rid r.
Proof.
  intros Hg [H1 H2 H3 H4 H5 H6]. constructor; try done.
  - intros x res Hx. destruct (H2 _ _ Hx) as (? & ? & ?). split; [by apply (g_promises _ _ Hg)|done].
  - intros v Hv. destruct (H4 _ Hv) as [? Hb]. split; [done|]. intros m w Hlt Hne.
    eapply blocked_grows; [done|]. by apply Hb.
  - intros x Hx. destruct (H5 _ Hx) as (v & ? & ?). exists v. split; [done|]. by apply (g_votes _ _ Hg).
Qed.

(** An acceptor that a step leaves alone. *)
Lemma acc_inv_grows h0 s s' x a :
  grows s s' -> acc_inv h0 s x a ->
  (forall p, p ∈ promises s' -> p_node p = x -> p ∈ promises s) ->
  (forall i n v, Vote x i n v ∈ votes s' -> Vote x i n v ∈ votes s) ->
  acc_inv h0 s' x a.
Proof.
  intros Hg [H1 H2 H3 H4 H5 H6] Hp Hv. constructor; try done.
  - intros p Hin Hx. apply H2; auto.
  - intros i n v Hin. apply (H3 i n v). auto.
  - destruct H4 as (? & ? & ? & H4). split_and!; [done..|]. intros Hn. destruct (H4 Hn).
    split; [by apply (g_votes _ _ Hg)|done].
  - intros j v Hj Hjv. destruct (H5 j v Hj Hjv) as (Hle & rid & r & Hr & ? & Hrv & Hd).
    split; [done|]. destruct (g_rounds _ _ Hg _ _ Hr) as (r' & Hr' & E1 & _ & E3 & E4).
    exists rid, r'. rewrite E1. split_and!; auto.
Qed.

Lemma inv_grows h0 s s' :
  inv h0 s -> grows s s' ->
  (forall x a, accs s' !! x = Some a -> acc_inv h0 s' x a) ->
  (forall p, p ∈ promises s' -> p ∈ promises s \/ promise_inv s' p) ->
  (forall p q, p ∈ promises s' -> q ∈ promises s' ->
     p_node p = p_node q -> p_inst p = p_inst q -> p_n p = p_n q -> p = q) ->
  (forall x i n v, Vote x i n v ∈ votes s' -> Vote x i n v ∈ votes s \/
     (v <> "" /\ 0 < pn n /\
      exists rid r, rounds s' !! rid = Some r /\ r_inst r = i /\ r_n r = n /\ r_val r = Some v)) ->
  (forall rid r, rounds s' !! rid = Some r -> rounds s !! rid = Some r \/ round_inv s' rid r) ->
  inv h0 s'.
Proof.
  intros Hinv Hg Ha Hp Hu Hv Hr. constructor; try done; [by eapply inv_h0|..].
  - intros p [Hin|?]%Hp; [|done]. eapply promise_inv_grows; [done|done|]. by eapply inv_promises.
  - intros x i n v [Hin|?]%Hv; [|done].
    destruct (inv_votes _ _ Hinv _ _ _ _ Hin) as (? & ? & rid & r & Hrr & <- & <- & Hval).
    split_and!; [done..|]. destruct (g_rounds _ _ Hg _ _ Hrr) as (r' & Hr' & E1 & E2 & E3 & _).
    exists rid, r'. rewrite E1, E2. auto.
  - intros rid r [Hin|?]%Hr; [|done]. eapply round_inv_grows; [done|]. by eapply inv_rounds.
Qed.

(** ** The steps, one by one *)

Lemma grows_same s s' :
  promises s' = promises s -> votes s' = votes s -> rounds s' = rounds s -> grows s s'.
Proof.
  intros E1 E2 E3. constructor; rewrite ?E1, ?E2, ?E3; [done|done| |by left].
  intros rid r Hr. exists r. auto.
Qed.

(** A step that only changes one acceptor. *)
Lemma inv_acc_only h0 s x a' :
  inv h0 s -> acc_inv h0 s x a' ->
  inv h0 (System (<[x := a']> (accs s)) (rounds s) (promises s) (votes s)).
Proof.
  intros Hinv Ha'. set (s' := System _ _ _ _).
  assert (grows s s') as Hg by (by apply grows_same).
  apply (inv_grows h0 s s' Hinv Hg); simpl; auto.
  - intros y b [[<- <-]|[_ Hb]]%lookup_insert_Some.
    + by apply (acc_inv_grows _ s).
    + apply (acc_inv_grows _ s); [done| |done|done]. by eapply inv_accs.
  - by apply (inv_unique _ _ Hinv).
Qed.

Lemma touch_acc_inv h0 s x a j :
  acc_inv h0 s x a -> j <= instance_h a -> acc_inv h0 s x (touch a j).1.
Proof.
  intros Ha Hj. unfold touch. destruct (values a !! j) eqn:E; [done|]. destruct Ha.
  assert (j <= h0) as Hj0.
  { destruct (decide (j <= h0)) as [|]; [done|].
    destruct (ai_dense0 j) as [v Hv]; [lia|congruence]. }
  constructor; simpl; try done.
  - intros k v Hk. rewrite lookup_insert_ne by lia. by apply ai_values0.
  - intros k Hk. rewrite lookup_insert_ne by lia. by apply ai_dense0.
Qed.

Lemma commit_acc_inv h0 s x a v rid r :
  acc_inv h0 s x a -> is_u32 (instance_h a + 1) ->
  rounds s !! rid = Some r -> r_inst r = instance_h a + 1 -> r_val r = Some v ->
  r_decided r = true -> acc_inv h0 s x (commit_wo a (instance_h a + 1) v).1.
Proof.
  intros [] Hu Hr Hi Hv Hd. unfold commit_wo.
  destruct (Z.gtb_spec (instance_h a + 1) (instance_h a)); [|lia]. unfold is_u32 in Hu.
  constructor; simpl; try done.
  - lia.
  - intros p Hp Hx. destruct (ai_promises0 p Hp Hx). lia.
  - intros i n w Hvote. destruct (ai_votes0 i n w Hvote). lia.
  - intros j w Hj [[<- <-]|[Hne Hw]]%lookup_insert_Some.
    + split; [lia|]. eauto 10.
    + destruct (ai_values0 j w Hj Hw) as [? ?]. split; [lia|done].
  - intros j Hj. destruct (decide (j = instance_h a + 1)) as [->|].
    + rewrite lookup_insert_eq. eauto.
    + rewrite lookup_insert_ne by done. apply ai_dense0. lia.
Qed.

Lemma inv_start h0 s rid i n newv :
  inv h0 s -> rounds s !! rid = None -> 0 < pn n -> is_u32 i -> newv <> "" ->
  inv h0 (System (accs s) (<[rid := Round i n newv [] None [] false]> (rounds s))
                 (promises s) (votes s)).
Proof.
  intros Hinv Hnew Hn Hi Hv. set (s' := System _ _ _ _).
  assert (grows s s') as Hg.
  { constructor; simpl; auto. intros rid' r Hr. exists r.
    rewrite lookup_insert_ne by congruence. auto. }
  apply (inv_grows h0 s s' Hinv Hg); simpl; auto.
  - intros x a Ha. apply (acc_inv_grows _ s); [done| |done|done]. by eapply inv_accs.
  - by apply (inv_unique _ _ Hinv).
  - intros rid' r [[<- <-]|[_ Hr]]%lookup_insert_Some; [right|by left].
    constructor; simpl; try done; intros x; [intros res|]; by intros ?%elem_of_nil.
Qed.

Lemma inv_decide h0 s rid r :
  inv h0 s -> rounds s !! rid = Some r -> majority (view (r_inst r)) (r_accepted r) = true ->
  inv h0 (System (accs s) (<[rid := set_decided r]> (rounds s)) (promises s) (votes s)).
Proof.
  intros Hinv Hr Hmaj. set (s' := System _ _ _ _).
  assert (grows s s') as Hg.
  { constructor; simpl; auto. intros rid' r' Hr'. destruct (decide (rid' = rid)) as [->|].
    - exists (set_decided r). rewrite lookup_insert_eq. simplify_eq. auto.
    - exists r'. rewrite lookup_insert_ne by done. auto. }
  apply (inv_grows h0 s s' Hinv Hg); simpl; auto.
  - intros x a Ha. apply (acc_inv_grows _ s); [done| |done|done]. by eapply inv_accs.
  - by apply (inv_unique _ _ Hinv).
  - intros rid' r' [[<- <-]|[_ Hr']]%lookup_insert_Some; [right|by left].
    destruct (round_inv_grows _ _ _ _ Hg (inv_rounds _ _ Hinv _ _ Hr)) as [H1 H2 H3 H4 H5 H6].
    constructor; simpl; try done. intros _. split; [|done].
    destruct (majority_intersect _ _ _ Hmaj Hmaj) as (x & _ & Hx & _).
    destruct (H5 _ Hx) as (v & -> & _). done.
Qed.

Lemma preparereq_cases a i n a' res st :
  preparereq a (Preparearg i n) res0 = (a', res, st) ->
  (i <= instance_h a /\ a' = (touch a i).1 /\ pr_accept res = false) \/
  (instance_h a < i /\ a' = a /\ pr_accept res = false) \/
  (instance_h a < i /\ prop_lt (n_h a) n /\ res = Prepareres false true (n_a a) (v_a a) /\
   a' = set_log (set_n_h a n) (logprop (l a) n)).
Proof.
  unfold preparereq. cbn [pa_instance pa_n]. destruct (Z.leb_spec i (instance_h a)).
  - destruct (touch a i) as [b w]. intros [= <- <- <-]. by left.
  - destruct (prop_gtb n (n_h a)) eqn:E; intros [= <- <- <-]; right; [by right|by left].
Qed.

Lemma inv_prepare h0 s rid r x a (arrives : bool) :
  inv h0 s -> rounds s !! rid = Some r -> accs s !! x = Some a ->
  r_inst r = instance_h a + 1 -> prop_lt (n_h a) (r_n r) ->
  (arrives = true -> r_val r = None) ->
  inv h0 (System (<[x := set_log (set_n_h a (r_n r)) (logprop (l a) (r_n r))]> (accs s))
    (if arrives
     then <[rid := set_replies r (app (r_replies r) [(x, Prepareres false true (n_a a) (v_a a))])]> (rounds s)
     else rounds s)
    (Promise x (r_inst r) (r_n r) rid (n_a a) (v_a a) :: promises s) (votes s)).
Proof.
  intros Hinv Hr Ha Hi Hlt Harr. set (s' := System _ _ _ _). set (P := Promise _ _ _ _ _ _) in s'.
  pose proof (inv_accs _ _ Hinv _ _ Ha) as Hacc. pose proof (inv_rounds _ _ Hinv _ _ Hr) as Hround.
  assert (grows s s') as Hg.
  { constructor; simpl; auto.
    - intros p Hp. by apply elem_of_cons; right.
    - intros rid' r' Hr'. destruct arrives; [|by exists r'].
      destruct (decide (rid' = rid)) as [->|].
      + eexists. rewrite lookup_insert_eq. split; [done|]. simplify_eq. auto.
      + exists r'. rewrite lookup_insert_ne by done. auto. }
  destruct Hacc as [Hh Hps Hvs (Hna0 & Hnh0 & Hnone & Hsome) Hvals Hdense].
  apply (inv_grows h0 s s' Hinv Hg); simpl; auto.
  - intros y b [[<- <-]|[Hne Hb]]%lookup_insert_Some.
    + constructor; simpl; try done.
      * intros p [->|Hp]%elem_of_cons Hx; simpl.
        { split; [lia|]. intros _. apply prop_le_refl. }
        destruct (Hps p Hp Hx) as [? Hle]. split; [done|]. intros E.
        apply prop_le_lt. left. eapply prop_le_lt_trans; [by apply Hle|done].
      * split_and!; [done| |done|].
        { destruct Hround as [[? _] _ _ _ _ _]. lia. }
        intros Hn. destruct (Hsome Hn) as [? ?]. split; [done|].
        apply prop_le_lt. left. by eapply prop_le_lt_trans.
      * intros j v Hj Hv. destruct (Hvals j v Hj Hv) as (? & rid' & r' & Hr' & E1 & E2 & E3).
        split; [done|]. destruct (g_rounds _ _ Hg _ _ Hr') as (r'' & ? & F1 & _ & F3 & F4).
        exists rid', r''. rewrite F1. split_and!; auto.
    + apply (acc_inv_grows _ s); [done|by eapply inv_accs| |done].
      intros p [->|Hp]%elem_of_cons Hy; [done|done].
  - intros p [->|Hp]%elem_of_cons; [right|by left]. constructor; simpl; try done.
    + by destruct Hround as [[? _] _ _ _ _ _].
    + destruct (g_rounds _ _ Hg _ _ Hr) as (r' & ? & ? & ? & _). eauto.
    + intros Hn. destruct (Hsome Hn). rewrite Hi. split; [done|]. by eapply prop_le_lt_trans.
    + intros m w Hv _. destruct (Hvs _ _ _ Hv) as [_ Hle]. by destruct (Hle Hi).
  - assert (forall q, q ∈ promises s -> x = p_node q -> r_inst r = p_inst q -> r_n r = p_n q -> False)
      as Hfresh.
    { intros q Hq Hx Hqi Hqn. destruct (Hps q Hq (eq_sym Hx)) as [_ Hle].
      eapply prop_le_not_lt; [apply Hle; lia|]. by rewrite <-Hqn. }
    intros p q [->|Hp]%elem_of_cons [->|Hq]%elem_of_cons Hx Hpi Hpn; simpl in *; try done.
    + by destruct (Hfresh q).
    + by destruct (Hfresh p).
    + by apply (inv_unique _ _ Hinv).
  - intros rid' r' Hr'. destruct arrives; [|by left].
    apply lookup_insert_Some in Hr' as [[<- <-]|[_ Hr']]; [right|by left].
    destruct (round_inv_grows _ _ _ _ Hg Hround) as [H1 H2 H3 H4 H5 H6].
    specialize (Harr eq_refl). constructor; simpl; try done.
    + intros y res [Hy|[= -> ->]%list_elem_of_singleton]%elem_of_app; [by apply H2|].
      simpl. split; [|done]. by apply elem_of_cons; left.
Qed.

Lemma majority_app l q q' : majority l q = true -> majority l (app q q') = true.
Proof.
  unfold majority. rewrite !Z.geb_le. intros Hq. etrans; [exact Hq|]. clear Hq.
  induction l as [|x l IH]; [done|]. cbn [count_members].
  destruct (isamember x q) eqn:E.
  - assert (isamember x (app q q') = true) as ->; [|lia].
    apply isamember_spec, elem_of_app. left. by apply isamember_spec.
  - destruct (isamember x (app q q')); lia.
Qed.

Lemma inv_accept h0 s rid r v x a (arrives : bool) :
  inv h0 s -> rounds s !! rid = Some r -> r_val r = Some v -> x ∈ (r_replies r).*1 ->
  accs s !! x = Some a -> r_inst r = instance_h a + 1 -> prop_le (n_h a) (r_n r) ->
  inv h0 (System (<[x := set_log (set_accepted a (r_n r) v) (logaccept (l a) (r_n r) v)]> (accs s))
    (if arrives then <[rid := set_accepted_by r (app (r_accepted r) [x])]> (rounds s) else rounds s)
    (promises s) (Vote x (r_inst r) (r_n r) v :: votes s)).
Proof.
  intros Hinv Hr Hv ([x' res] & -> & Hx)%list_elem_of_fmap Ha Hi Hge. simpl in *.
  set (s' := System _ _ _ _). set (V := Vote _ _ _ _) in s'.
  pose proof (inv_rounds _ _ Hinv _ _ Hr) as Hround.
  destruct (ri_replies _ _ _ Hround _ _ Hx) as [Hprom _].
  destruct (ri_n _ _ _ Hround) as [Hn0 _]. destruct (ri_safe _ _ _ Hround _ Hv) as [Hvne _].
  destruct (inv_accs _ _ Hinv _ _ Ha) as [Hh Hps Hvs (Hna0 & Hnh0 & Hnone & Hsome) Hvals Hdense].
  assert (r_n r = n_h a) as Hn.
  { apply prop_le_antisym; [|done]. by destruct (Hps _ Hprom eq_refl) as [_ Hle]; apply Hle. }
  assert (grows s s') as Hg.
  { constructor; simpl; auto.
    - intros w Hw. by apply elem_of_cons; right.
    - intros rid' r' Hr'. destruct arrives; [|by exists r'].
      destruct (decide (rid' = rid)) as [->|].
      + eexists. rewrite lookup_insert_eq. split; [done|]. simplify_eq. auto.
      + exists r'. rewrite lookup_insert_ne by done. auto.
    - intros y i m w [[= -> -> -> ->]|?]%elem_of_cons; [right|by left].
      intros p Hp Hpx Hpi. rewrite Hn. destruct (Hps p Hp Hpx) as [_ Hle]. apply Hle. lia. }
  apply (inv_grows h0 s s' Hinv Hg); simpl; auto.
  - intros y b [[<- <-]|[Hne Hb]]%lookup_insert_Some.
    + constructor; simpl; try done.
      * intros i n w [[= -> -> ->]|Hvote]%elem_of_cons.
        { split; [lia|]. intros _. split; [apply prop_le_refl|lia]. }
        destruct (Hvs _ _ _ Hvote) as [? Hle]. split; [done|]. intros E.
        destruct (Hle E) as [Hle1 Hne]. destruct (Hsome Hne) as [_ Hle2].
        split; [|lia]. rewrite Hn. by eapply prop_le_trans.
      * split_and!; [lia|done|lia|]. intros _. rewrite Hn. split; [|apply prop_le_refl].
        rewrite <-Hn, <-Hi. by apply elem_of_cons; left.
      * intros j w Hj Hw. destruct (Hvals j w Hj Hw) as (? & rid' & r' & Hr' & E1 & E2 & E3).
        split; [done|]. destruct (g_rounds _ _ Hg _ _ Hr') as (r'' & ? & F1 & _ & F3 & F4).
        exists rid', r''. rewrite F1. split_and!; auto.
    + apply (acc_inv_grows _ s); [done|by eapply inv_accs|done|].
      intros i n w [[= -> -> -> ->]|?]%elem_of_cons; [done|done].
  - by apply (inv_unique _ _ Hinv).
  - intros y i n w [[= -> -> -> ->]|?]%elem_of_cons; [right|by left].
    split_and!; [done|lia|]. destruct (g_rounds _ _ Hg _ _ Hr) as (r' & ? & ? & ? & E3 & _).
    exists rid, r'. split_and!; auto.
  - intros rid' r' Hr'. destruct arrives; [|by left].
    apply lookup_insert_Some in Hr' as [[<- <-]|[_ Hr']]; [right|by left].
    destruct (round_inv_grows _ _ _ _ Hg Hround) as [H1 H2 H3 H4 H5 H6].
    constructor; simpl; try done.
    + intros y [Hy| ->%list_elem_of_singleton]%elem_of_app; [by apply H5|].
      exists v. split; [done|]. by apply elem_of_cons; left.
    + intros Hd. destruct (H6 Hd) as [? Hmaj]. split; [done|]. by apply majority_app.
Qed.

(** What [prepare]'s loop has found out after the replies. *)
Lemma collect_spec replies : forall acc mn mv,
  Forall (fun r => pr_accept r.2 = true /\ pr_oldinstance r.2 = false) replies ->
  exists mn' mv',
    collect replies (acc, mn, mv) = inr (app acc replies.*1, mn', mv') /\
    prop_le mn mn' /\ Forall (fun r => prop_le (pr_n_a r.2) mn') replies /\
    (mn' = mn /\ mv' = mv \/ exists r, r ∈ replies /\ mn' = pr_n_a r.2 /\ mv' = pr_v_a r.2).
Proof.
  induction replies as [|[x res] replies IH]; intros acc mn mv Hok.
  { exists mn, mv. simpl. rewrite app_nil_r. split_and!; [done|apply prop_le_refl|constructor|by left]. }
  apply Forall_cons in Hok as [[Hacc Hold] Hok]. simpl in Hacc, Hold.
  unfold collect. cbn [foldl fst snd].
  unfold prepare_reply at 2. rewrite Hold, Hacc.
  set (mn1 := if prop_gtb (pr_n_a res) mn then pr_n_a res else mn).
  set (mv1 := if prop_gtb (pr_n_a res) mn then pr_v_a res else mv).
  assert ((if prop_gtb (pr_n_a res) mn then inr (app acc [x], pr_n_a res, pr_v_a res)
           else inr (app acc [x], mn, mv)) = @inr string _ (app acc [x], mn1, mv1)) as ->.
  { subst mn1 mv1. by destruct (prop_gtb _ _). }
  destruct (IH (app acc [x]) mn1 mv1 Hok) as (mn' & mv' & E & Hle & Hall & Hcase).
  assert (prop_le mn mn1 /\ prop_le (pr_n_a res) mn1) as [Hm1 Hm2].
  { subst mn1. destruct (prop_gtb (pr_n_a res) mn) eqn:G.
    - split; [apply prop_le_lt; by left|apply prop_le_refl].
    - split; [apply prop_le_refl|]. apply prop_not_lt. unfold prop_lt. by rewrite G. }
  exists mn', mv'. unfold collect in E. rewrite E, <-app_assoc. split_and!; [done|..].
  - by eapply prop_le_trans.
  - constructor; [|done]. simpl. by eapply prop_le_trans.
  - destruct Hcase as [[-> ->]|(r & Hr & -> & ->)].
    + subst mn1 mv1. destruct (prop_gtb (pr_n_a res) mn); [right|by left].
      exists (x, res). split; [by apply elem_of_cons; left|done].
    + right. exists r. split; [by apply elem_of_cons; right|done].
Qed.

(** A quorum of promises without a vote in [m] for [w] blocks them. *)
Lemma blocked_by_replies s rid r m w :
  round_inv s rid r -> majority (view (r_inst r)) (r_replies r).*1 = true ->
  prop_lt m (r_n r) ->
  (forall x res, (x, res) ∈ r_replies r -> Vote x (r_inst r) m w ∉ votes s) ->
  blocked s (r_inst r) m w.
Proof.
  intros Hround Hmaj Hlt Hno q Hq.
  destruct (majority_intersect _ _ _ Hq Hmaj) as (x & _ & Hxq & ([x' res] & -> & Hx)%list_elem_of_fmap).
  simpl in *. exists x'. split; [done|]. split; [by eapply Hno|].
  destruct (ri_replies _ _ _ Hround _ _ Hx) as [Hp _].
  by eexists; split; [exact Hp|].
Qed.

(** The heart of the argument: the value [run] proposes is safe. *)
Lemma proposed_value_safe h0 s rid r accepts mn mv :
  inv h0 s -> rounds s !! rid = Some r ->
  collect (r_replies r) ([], Prop_t 0 "0", "") = inr (accepts, mn, mv) ->
  majority (view (r_inst r)) accepts = true ->
  let v := if Z.of_nat (String.length mv) =? 0 then r_newv r else mv in
  accepts = (r_replies r).*1 /\ v <> "" /\
  forall m w, prop_lt m (r_n r) -> w <> v -> blocked s (r_inst r) m w.
Proof.
  intros Hinv Hr Hcol Hmaj v. pose proof (inv_rounds _ _ Hinv _ _ Hr) as Hround.
  destruct (collect_spec (r_replies r) [] (Prop_t 0 "0") "") as (mn' & mv' & E & _ & Hall & Hmax).
  { apply Forall_forall. intros [x res] Hx. by destruct (ri_replies _ _ _ Hround _ _ Hx) as (_ & ? & ?). }
  rewrite E in Hcol. simplify_eq. rewrite Forall_forall in Hall. split; [done|].
  (* what a promise reported is the latest vote below this round *)
  assert (forall x res m w, (x, res) ∈ r_replies r -> Vote x (r_inst r) m w ∈ votes s ->
            prop_lt m (r_n r) -> pn (pr_n_a res) <> 0 /\ prop_le m mn) as Hbelow.
  { intros x res m w Hx Hv Hlt. destruct (ri_replies _ _ _ Hround _ _ Hx) as [Hp _].
    destruct (pi_between _ _ (inv_promises _ _ Hinv _ Hp) m w Hv Hlt) as [? Hle].
    split; [done|]. eapply prop_le_trans; [exact Hle|]. apply (Hall _ Hx). }
  assert (mv = "" \/ mv <> "" /\ exists x, Vote x (r_inst r) mn mv ∈ votes s) as Hcase.
  { destruct Hmax as [[-> ->]|([x res] & Hx & -> & ->)]; [by left|]. simpl.
    destruct (ri_replies _ _ _ Hround _ _ Hx) as [Hp _].
    destruct (inv_promises _ _ Hinv _ Hp) as [_ _ Hsome Hnone _ _]. simpl in *.
    destruct (Z.eq_dec (pn (pr_n_a res)) 0) as [Hz|Hz]; [left; by apply Hnone|right].
    destruct (Hsome Hz) as [Hv _]. split; [by apply (inv_votes _ _ Hinv _ _ _ _ Hv)|eauto]. }
  destruct Hcase as [->|(Hmv & x0 & Hvote0)].
  - (* nobody in the majority had voted *)
    split; [by apply (ri_n _ _ _ Hround)|]. intros m w Hlt _.
    apply (blocked_by_replies _ rid); [done..|]. intros x res Hx Hv.
    destruct (Hbelow _ _ _ _ Hx Hv Hlt) as [Hnz Hle].
    assert ((pn mn : Z) = 0) as Hmn.
    { destruct Hmax as [[-> _]|([y resy] & Hy & -> & Hvy)]; [done|]. simpl in *.
      destruct (ri_replies _ _ _ Hround _ _ Hy) as [Hp _].
      destruct (inv_promises _ _ Hinv _ Hp) as [_ _ Hsome _ _ _]. simpl in Hsome.
      destruct (Z.eq_dec (pn (pr_n_a resy)) 0) as [|Hz]; [done|].
      destruct (Hsome Hz) as [Hvt _]. rewrite <-Hvy in Hvt.
      by destruct (inv_votes _ _ Hinv _ _ _ _ Hvt) as (? & _). }
    destruct (inv_votes _ _ Hinv _ _ _ _ Hv) as (_ & Hm & _).
    apply prop_le_lt in Hle as [Hle%prop_lt_spec| ->]; [|lia].
    pose proof (Hall _ Hx) as Hx'. simpl in Hx'. lia.
  - (* [mn] is the latest vote of the majority *)
    destruct (inv_votes _ _ Hinv _ _ _ _ Hvote0) as (_ & _ & rid0 & r0 & Hr0 & Hi0 & Hn0 & Hv0).
    assert (v = mv) as ->.
    { subst v. destruct (Z.eqb_spec (Z.of_nat (String.length mv)) 0); [|done].
      by destruct mv. }
    split; [done|]. intros m w Hlt Hne.
    destruct (prop_total m mn) as [Hlt'|[->|Hgt]].
    + rewrite <-Hi0. destruct (inv_rounds _ _ Hinv _ _ Hr0) as [_ _ _ Hsafe0 _ _].
      apply (Hsafe0 _ Hv0); [by rewrite Hn0|done].
    + apply (blocked_by_replies _ rid); [done..|]. intros x res Hx Hv.
      destruct (inv_votes _ _ Hinv _ _ _ _ Hv) as (_ & _ & rid1 & r1 & Hr1 & Hi1 & Hn1 & Hv1).
      assert (rid0 = rid1) as <-.
      { apply (same_round h0 s rid0 rid1 r0 r1); try done; congruence. }
      congruence.
    + apply (blocked_by_replies _ rid); [done..|]. intros x res Hx Hv.
      destruct (Hbelow _ _ _ _ Hx Hv Hlt) as [_ Hle]. by eapply prop_le_not_lt.
Qed.

Lemma inv_propose h0 s rid r accepts mn mv :
  inv h0 s -> rounds s !! rid = Some r -> r_val r = None ->
  collect (r_replies r) ([], Prop_t 0 "0", "") = inr (accepts, mn, mv) ->
  majority (view (r_inst r)) accepts = true ->
  inv h0 (System (accs s)
    (<[rid := set_val r (if Z.of_nat (String.length mv) =? 0 then r_newv r else mv)]> (rounds s))
    (promises s) (votes s)).
Proof.
  intros Hinv Hr Hnone Hcol Hmaj.
  destruct (proposed_value_safe h0 s rid r accepts mn mv Hinv Hr Hcol Hmaj) as (-> & Hne & Hsafe).
  set (v := if _ =? 0 then r_newv r else mv) in *. set (s' := System _ _ _ _).
  assert (grows s s') as Hg.
  { constructor; simpl; auto. intros rid' r' Hr'. destruct (decide (rid' = rid)) as [->|].
    - exists (set_val r v). rewrite lookup_insert_eq. simplify_eq. split_and!; [done|done|done| |done].
      intros w Hw. congruence.
    - exists r'. rewrite lookup_insert_ne by done. auto. }
  apply (inv_grows h0 s s' Hinv Hg); simpl; auto.
  - intros x a Ha. apply (acc_inv_grows _ s); [done| |done|done]. by eapply inv_accs.
  - by apply (inv_unique _ _ Hinv).
  - intros rid' r' [[<- <-]|[_ Hr']]%lookup_insert_Some; [right|by left].
    destruct (round_inv_grows _ _ _ _ Hg (inv_rounds _ _ Hinv _ _ Hr)) as [H1 H2 H3 H4 H5 H6].
    constructor; simpl; try done.
    + intros w [= <-]. split; [done|]. intros m w Hlt Hw. eapply blocked_grows; [done|]. by apply Hsafe.
    + intros x Hx. destruct (H5 _ Hx) as (w & Hw & _). congruence.
    + intros Hd. by destruct (H6 Hd) as [? _].
Qed.

Lemma paxos_step_inv h0 s s' : inv h0 s -> step s s' -> inv h0 s'.
Proof.
  intros Hinv Hstep.
  destruct Hstep as [s rid i n newv Hnew Hn Hi Hv|s rid r x a a' res st arrives Hr Ha Hx Hle Hp Harr
    |s rid r accepts mn mv Hr Hnone Hc Hm|s rid r v x a a' ok st arrives Hr Hv Hx Ha Hi Hacc Harr
    |s rid r Hr Hm|s rid r v x a a' up st Hr Hd Hv Ha Hdec|s x a y b i v Ha Hb Hle Hv Hi].
  - by apply inv_start.
  - apply preparereq_cases in Hp as [(Hi & -> & Hf)|[(Hi & -> & Hf)|(Hi & Hlt & -> & ->)]].
    + rewrite Hf in *. destruct arrives; [by destruct (Harr eq_refl)|].
      apply inv_acc_only; [done|]. apply touch_acc_inv; [by eapply inv_accs|done].
    + rewrite Hf in *. destruct arrives; [by destruct (Harr eq_refl)|].
      apply inv_acc_only; [done|]. by eapply inv_accs.
    + cbn [pr_accept pr_n_a pr_v_a]. apply inv_prepare; try done; [lia|].
      intros E. by destruct (Harr E).
  - by eapply inv_propose.
  - unfold acceptreq in Hacc. cbn [aa_n aa_v] in Hacc. destruct (prop_geb (r_n r) (n_h a)) eqn:E.
    + injection Hacc as <- <- <-. by apply inv_accept.
    + injection Hacc as <- <- <-. destruct arrives; [by specialize (Harr eq_refl)|].
      apply inv_acc_only; [done|]. by eapply inv_accs.
  - by apply inv_decide.
  - apply inv_acc_only; [done|]. pose proof (inv_accs _ _ Hinv _ _ Ha) as Hai.
    destruct (inv_rounds _ _ Hinv _ _ Hr) as [(_ & Hu & _) _ _ _ _ _].
    unfold decidereq in Hdec. cbn [da_instance da_v] in Hdec.
    destruct (Z.eqb_spec (r_inst r) (u32 (instance_h a + 1))) as [Hi|].
    + apply obind_val in Hdec as ([] & HV%VERIFY_val%String.eqb_eq & Hdec).
      assert (a' = (commit_wo a (r_inst r) (v_a a)).1) as ->.
      { destruct (commit_wo a (r_inst r) (v_a a)) as [b ev]. by simplify_eq. }
      pose proof (ai_h _ _ _ _ Hai) as Hh.
      destruct (decide (instance_h a + 1 = 2 ^ 32)) as [Hmax|Hmax].
      { rewrite Hi, Hmax. unfold commit_wo. change (u32 (2 ^ 32)) with 0.
        destruct (Z.gtb_spec 0 (instance_h a)); [lia|done]. }
      rewrite u32_id in Hi by (unfold is_u32; pose proof (inv_h0 _ _ Hinv); lia).
      rewrite Hi. eapply commit_acc_inv; try done; [|congruence].
      rewrite <-Hi. done.
    + destruct (r_inst r <=? instance_h a); [|done]. by simplify_eq.
  - apply inv_acc_only; [done|]. pose proof (inv_accs _ _ Hinv _ _ Ha) as Hai.
    pose proof (inv_accs _ _ Hinv _ _ Hb) as Hbi. pose proof (ai_h _ _ _ _ Hai).
    destruct (ai_values _ _ _ _ Hbi i v ltac:(lia) Hv) as (_ & rid & r & Hr & Hri & Hrv & Hrd).
    subst i. eapply commit_acc_inv; try done.
    destruct (inv_rounds _ _ Hinv _ _ Hr) as [(_ & Hu & _) _ _ _ _ _]. by rewrite <-Hri.
Qed.

Lemma initial_inv h0 s : initial h0 s -> inv h0 s.
Proof.
  intros [Ha [H0 H1] Hr Hp Hv].
  assert (forall x a, accs s !! x = Some a -> acc_inv h0 s x a) as Hacc.
  { intros x a Hx. destruct (Ha _ _ Hx) as (E1 & E2 & E3 & E4 & E5).
    constructor; rewrite ?Hr, ?Hp, ?Hv, ?E1, ?E2, ?E3; try done.
    - intros p Hin. by apply elem_of_nil in Hin.
    - intros i n v Hin. by apply elem_of_nil in Hin.
    - intros j v Hj. by rewrite E5.
    - intros j Hj. lia. }
  constructor; rewrite ?Hr, ?Hp, ?Hv; [done|done|..].
  - intros p Hin. by apply elem_of_nil in Hin.
  - intros p q Hin. by apply elem_of_nil in Hin.
  - intros x i n v Hin. by apply elem_of_nil in Hin.
  - intros rid r. by rewrite lookup_empty.
Qed.

Lemma reachable_paxos_inv h0 s0 s : initial h0 s0 -> rtc step s0 s -> inv h0 s.
Proof.
  intros Hini%initial_inv Hr. revert Hini. induction Hr as [|s1 s2 s3 Hs Hr IH]; [done|].
  intros Hi. apply IH. by eapply paxos_step_inv.
Qed.

(** C1: agreement. Any number of proposers run concurrently over the same
    view, requests are delayed, lost, repeated and answered too late, proposers
    stop anywhere: as long as acceptors handle the requests of an instance
    while they are at that instance, any two rounds that reach the decide phase
    of an instance carry the same value, and any two acceptors that have
    committed an instance have committed the same value for it. *)
Theorem paxos_agreement (h0 : Z) (s0 s : system) :
  initial h0 s0 -> rtc step s0 s ->
  (forall rid1 rid2 r1 r2, rounds s !! rid1 = Some r1 -> rounds s !! rid2 = Some r2 ->
     r_inst r1 = r_inst r2 -> r_decided r1 = true -> r_decided r2 = true -> r_val r1 = r_val r2) /\
  (forall x y a b i v w, accs s !! x = Some a -> accs s !! y = Some b -> h0 < i ->
     values a !! i = Some v -> values b !! i = Some w -> v = w).
Proof.
  intros Hini Hr. pose proof (reachable_paxos_inv _ _ _ Hini Hr) as Hinv. split.
  - intros rid1 rid2 r1 r2 H1 H2 Hi Hd1 Hd2.
    destruct (ri_decided _ _ _ (inv_rounds _ _ Hinv _ _ H1) Hd1) as [Hn1 _].
    destruct (ri_decided _ _ _ (inv_rounds _ _ Hinv _ _ H2) Hd2) as [Hn2 _].
    destruct (r_val r1) as [v1|] eqn:E1; [|done]. destruct (r_val r2) as [v2|] eqn:E2; [|done].
    f_equal. by eapply (decided_agree h0 s rid1 rid2 r1 r2).
  - intros x y a b i v w Ha Hb Hi Hv Hw.
    destruct (ai_values _ _ _ _ (inv_accs _ _ Hinv _ _ Ha) i v Hi Hv) as (_ & rid1 & r1 & ? & ? & ? & ?).
    destruct (ai_values _ _ _ _ (inv_accs _ _ Hinv _ _ Hb) i w Hi Hw) as (_ & rid2 & r2 & ? & ? & ? & ?).
    eapply (decided_agree h0 s rid1 rid2 r1 r2); try done. congruence.
Qed.

End safety.

(** One node decides instance 2. *)
Definition demo_n : prop_t := Prop_t 1 "n1".
Definition demo_view (i : Z) : list string := ["n1"].
Definition demo_a0 : acceptor :=
  PaxosLog.Acceptor "n1" (Prop_t 0 "n1") (Prop_t 0 "n1") "" 1 {[ 1 := "n1" ]} "".
Definition demo_a1 : acceptor := (preparereq demo_a0 (Preparearg 2 demo_n) res0).1.1.
Definition demo_a2 : acceptor := (acceptreq demo_a1 (Acceptarg 2 demo_n "n1 n2 ")).1.1.
Definition demo_a3 : acceptor := (commit_wo demo_a2 2 "n1 n2 ").1.
Definition demo_res : prepareres := Prepareres false true (Prop_t 0 "n1") "".
Definition demo_s0 : system := System {[ "n1" := demo_a0 ]} ∅ [] [].
Definition demo_end : system :=
  System {[ "n1" := demo_a3 ]}
    {[ 0%nat := Round 2 demo_n "n1 n2 " [("n1", demo_res)] (Some "n1 n2 ") ["n1"] true ]}
    [Promise "n1" 2 demo_n 0 (Prop_t 0 "n1") ""] [Vote "n1" 2 demo_n "n1 n2 "].

Lemma paxos_demo_run : rtc (step demo_view) demo_s0 demo_end.
Proof.
  pose (r0 := Round 2 demo_n "n1 n2 " [] None [] false).
  pose (r1 := Round 2 demo_n "n1 n2 " [("n1", demo_res)] None [] false).
  pose (r2 := Round 2 demo_n "n1 n2 " [("n1", demo_res)] (Some "n1 n2 ") [] false).
  pose (r3 := Round 2 demo_n "n1 n2 " [("n1", demo_res)] (Some "n1 n2 ") ["n1"] false).
  pose (ps := [Promise "n1" 2 demo_n 0 (Prop_t 0 "n1") ""]).
  pose (vs := [Vote "n1" 2 demo_n "n1 n2 "]).
  apply (rtc_l _ _ (System {[ "n1" := demo_a0 ]} {[ 0%nat := r0 ]} [] [])).
  { refine (step_start demo_view demo_s0 0 2 demo_n "n1 n2 " _ _ _ _); done. }
  apply (rtc_l _ _ (System {[ "n1" := demo_a1 ]} {[ 0%nat := r1 ]} ps [])).
  { refine (step_prepare demo_view (System {[ "n1" := demo_a0 ]} {[ 0%nat := r0 ]} [] [])
      0 r0 "n1" demo_a0 demo_a1 demo_res 0 true _ _ _ _ _ _); try done.
    by apply elem_of_cons; left. }
  apply (rtc_l _ _ (System {[ "n1" := demo_a1 ]} {[ 0%nat := r2 ]} ps [])).
  { by refine (step_propose demo_view (System {[ "n1" := demo_a1 ]} {[ 0%nat := r1 ]} ps [])
      0 r1 ["n1"] (Prop_t 0 "n1") "" _ _ _ _). }
  apply (rtc_l _ _ (System {[ "n1" := demo_a2 ]} {[ 0%nat := r3 ]} ps vs)).
  { refine (step_accept demo_view (System {[ "n1" := demo_a1 ]} {[ 0%nat := r2 ]} ps [])
      0 r2 "n1 n2 " "n1" demo_a1 demo_a2 true 0 true _ _ _ _ _ _ _); try done.
    by apply elem_of_cons; left. }
  apply (rtc_l _ _ (System {[ "n1" := demo_a2 ]}
    {[ 0%nat := Round 2 demo_n "n1 n2 " [("n1", demo_res)] (Some "n1 n2 ") ["n1"] true ]} ps vs)).
  { by refine (step_decide demo_view (System {[ "n1" := demo_a2 ]} {[ 0%nat := r3 ]} ps vs) 0 r3 _ _). }
  apply (rtc_l _ _ demo_end); [|apply rtc_refl].
  by refine (step_learn demo_view (System {[ "n1" := demo_a2 ]} _ ps vs) 0
    (Round 2 demo_n "n1 n2 " [("n1", demo_res)] (Some "n1 n2 ") ["n1"] true) "n1 n2 " "n1"
    demo_a2 demo_a3 [(2, "n1 n2 ")] 0 _ _ _ _ _).
Qed.

Lemma paxos_agreement_witness :
  (forall rid1 rid2 r1 r2, rounds demo_end !! rid1 = Some r1 -> rounds demo_end !! rid2 = Some r2 ->
     r_inst r1 = r_inst r2 -> r_decided r1 = true -> r_decided r2 = true -> r_val r1 = r_val r2) /\
  (forall x y a b i v w, accs demo_end !! x = Some a -> accs demo_end !! y = Some b -> 1 < i ->
     values a !! i = Some v -> values b !! i = Some w -> v = w).
Proof.
  apply (paxos_agreement demo_view 1 demo_s0 demo_end); [|exact paxos_demo_run].
  constructor; try done.
  unfold demo_s0. cbn [accs]. intros x a [<- <-]%lookup_singleton_Some. split_and!; try done.
  intros j Hj. unfold demo_a0. cbn [values]. by rewrite lookup_singleton_ne by lia.
Defined.

(** ** Without the restriction *)

(** Acceptors n1, n2 and n3, all at instance 1. Proposer n3 prepares number
    (1, n3) at all three. Then proposer n1 prepares (2, n1) at n1 and n2, has
    [v1] accepted by both and decides: both commit instance 2 and reset their
    numbers. Now n3's accept requests arrive. *)
Definition late_accept (v1 v2 : string) : outcome (acceptor * acceptor * acceptor) :=
  let start me := PaxosLog.Acceptor me (Prop_t 0 me) (Prop_t 0 me) "" 1 {[ 1 := "n1 n2 n3 " ]} "" in
  let nodes := ["n1"; "n2"; "n3"] in
  let p3 := Preparearg 2 (Prop_t 1 "n3") in
  let p1 := Preparearg 2 (Prop_t 2 "n1") in
  (* n3: prepare *)
  let '(a1, q1, _) := preparereq (start "n1") p3 res0 in
  let '(a2, q2, _) := preparereq (start "n2") p3 res0 in
  let '(a3, q3, _) := preparereq (start "n3") p3 res0 in
  VERIFY (pr_accept q1 && pr_accept q2 && pr_accept q3 && majority nodes nodes) ;;;
  (* n1: prepare, accept, decide *)
  let '(a1, q1, _) := preparereq a1 p1 res0 in
  let '(a2, q2, _) := preparereq a2 p1 res0 in
  VERIFY (pr_accept q1 && pr_accept q2 && majority nodes ["n1"; "n2"]) ;;;
  let '(a1, r1, _) := acceptreq a1 (Acceptarg 2 (Prop_t 2 "n1") v1) in
  let '(a2, r2, _) := acceptreq a2 (Acceptarg 2 (Prop_t 2 "n1") v1) in
  VERIFY (r1 && r2 && majority nodes ["n1"; "n2"]) ;;;
  let! '(a1, _, _) := decidereq a1 (Decidearg 2 v1) in
  let! '(a2, _, _) := decidereq a2 (Decidearg 2 v1) in
  (* n3: accept, decide *)
  let '(a1, r1, _) := acceptreq a1 (Acceptarg 2 (Prop_t 1 "n3") v2) in
  let '(a2, r2, _) := acceptreq a2 (Acceptarg 2 (Prop_t 1 "n3") v2) in
  let '(a3, r3, _) := acceptreq a3 (Acceptarg 2 (Prop_t 1 "n3") v2) in
  VERIFY (r1 && r2 && r3 && majority nodes nodes) ;;;
  let! '(a1, _, _) := decidereq a1 (Decidearg 2 v2) in
  let! '(a2, _, _) := decidereq a2 (Decidearg 2 v2) in
  let! '(a3, _, _) := decidereq a3 (Decidearg 2 v2) in
  Val (a1, a2, a3).

Lemma preparereq_ok a i n r :
  (i <=? instance_h a) = false -> prop_gtb n (n_h a) = true ->
  preparereq a (Preparearg i n) r =
    (set_log (set_n_h a n) (logprop (l a) n), Prepareres false true (n_a a) (v_a a), paxos_OK).
Proof. unfold preparereq. cbn [pa_instance pa_n]. by intros -> ->. Qed.

Lemma acceptreq_ok a i n v :
  prop_geb n (n_h a) = true ->
  acceptreq a (Acceptarg i n v) =
    (set_log (set_accepted a n v) (logaccept (l a) n v), true, paxos_OK).
Proof. unfold acceptreq. cbn [aa_n aa_v]. by intros ->. Qed.

Lemma decidereq_ok a i v :
  (i =? u32 (instance_h a + 1)) = true -> (i >? instance_h a) = true -> v_a a = v ->
  decidereq a (Decidearg i v) =
    Val (PaxosLog.Acceptor (me a) (Prop_t 0 (me a)) (Prop_t 0 (me a)) "" i
           (<[i := v]> (values a)) (loginstance (l a) i v), [(i, v)], paxos_OK).
Proof.
  unfold decidereq, commit_wo. cbn [da_instance da_v]. intros -> -> ->. by rewrite String.eqb_refl.
Qed.

Lemma decidereq_old a i v :
  (i =? u32 (instance_h a + 1)) = false -> (i <=? instance_h a) = true ->
  decidereq a (Decidearg i v) = Val (a, [], paxos_OK).
Proof. unfold decidereq. cbn [da_instance da_v]. by intros -> ->. Qed.

(** An accept request of an instance already decided is accepted.
    [acceptreq] does not look at the instance and [commit_wo] resets [n_h], so
    a delayed proposer of the same instance gets its majority and a third node
    commits its value: for any two proposed values the run above ends with n1
    and n2 having committed the first and n3 the second for instance 2. *)
Theorem late_accept_breaks_agreement (v1 v2 : string) :
  exists a1 a2 a3, late_accept v1 v2 = Val (a1, a2, a3) /\
    values a1 !! 2 = Some v1 /\ values a2 !! 2 = Some v1 /\ values a3 !! 2 = Some v2.
Proof.
  unfold late_accept.
  change (majority ["n1"; "n2"; "n3"] ["n1"; "n2"; "n3"]) with true.
  change (majority ["n1"; "n2"; "n3"] ["n1"; "n2"]) with true.
  do 2 (repeat (rewrite preparereq_ok by reflexivity; cbv beta iota zeta);
        cbn [pr_accept andb VERIFY obind]).
  do 2 (repeat (rewrite acceptreq_ok by reflexivity; cbv beta iota zeta);
        cbn [andb VERIFY obind];
        repeat (first [rewrite decidereq_ok by reflexivity | rewrite decidereq_old by reflexivity];
                cbn [obind])).
  eexists _, _, _. split; [reflexivity|]. done.
Qed.

End PaxosSafety.
