(* ===== verification/Config.v ===== *)
(** * The configuration service (src/rsm/config.cc, include/rsm/config.h)

    Views are the values Paxos agrees on: node names separated by blanks. The
    state is the current view and the local acceptor; the proposer appears as
    the function [run] that [add] and [remove_wo] call with the lock released. *)

From S2P Require Import Prelude.
From S2P Require Import Marshall.
From S2P Require Import Protocol.
From S2P Require Import Stubs.
From S2P Require Import Streams.
From S2P Require Import PaxosLog.
From S2P Require Import Paxos.

Local Open Scope string_scope.
Local Open Scope Z_scope.

Module Config.
Import Acceptor.

(** [members]: the words of a string; each round of the loop consumes at least
    one character. *)
Fixpoint members_loop (fuel : nat) (ist : istream) (view : list string) : list string :=
  match fuel with
  | O => view
  | S fuel =>
      let '(ist, m) := get_word ist "" in
      if fail ist then view else members_loop fuel ist (app view [m])
  end.
Definition members (value : string) : list string :=
  members_loop (S (String.length value)) (Istream value false) [].

Fixpoint value (m : list string) : string :=
  match m with
  | [] => ""
  | x :: m => x +:+ " " +:+ value m
  end.

Inductive heartbeat_t := HOK | HVIEWERR | HFAILURE.

#[global] Instance heartbeat_eq_dec : EqDecision heartbeat_t.
Proof. solve_decision. Defined.

Record config := MkConfig {
  acc : acceptor;
  myvid : Z;
  cme : string;
  mems : list string;
}.

(** [value(instance)] of the acceptor may add an empty entry to its map. *)
Definition get_view_wo (c : config) (instance : Z) : config * list string :=
  let '(a, v) := Acceptor.value (acc c) instance in
  (MkConfig a (myvid c) (cme c) (mems c), members v).

Definition get_view (c : config) (instance : Z) : config * list string := get_view_wo c instance.

Definition reconstruct (c : config) : config :=
  if instance_h (acc c) >? 0 then
    let c := MkConfig (acc c) (instance_h (acc c)) (cme c) (mems c) in
    let '(c, v) := get_view_wo c (myvid c) in
    MkConfig (acc c) (myvid c) (cme c) v
  else c.

(** The constructor on a node whose log file holds [file]. *)
Definition config_new (first me : string) (file : string) : outcome config :=
  let! a := acceptor_new (String.eqb me first) me me file in
  Val (reconstruct (MkConfig a 0 me [])).

Definition config_restore (c : config) (s : string) : outcome config :=
  let! a := Acceptor.restore (acc c) s in
  Val (reconstruct (MkConfig a (myvid c) (cme c) (mems c))).

(** The upcall of the acceptor: the new state, the handles deleted and the
    argument of [vc->commit_change]. *)
Definition paxos_commit (c : config) (instance : Z) (v : string)
    : config * list string * Z :=
  let newmem := members v in
  let gone := filter (fun x => negb (isamember x newmem) && negb (String.eqb (cme c) x)) (mems c) in
  (MkConfig (acc c) instance (cme c) newmem, gone, instance).

Definition ismember (c : config) (m : string) (vid : Z) : config * bool :=
  let '(c, v) := get_view_wo c vid in (c, isamember m v).

(** What [add] and [remove_wo] hand to [pro->run]. *)
Definition add_proposal (c : config) (new_m : string) : Z * list string * string :=
  (s32 (myvid c + 1), mems c, value (app (mems c) [new_m])).
Definition remove_proposal (c : config) (m : string) : Z * list string * string :=
  (s32 (myvid c + 1), mems c, value (filter (fun x => negb (String.eqb x m)) (mems c))).

Section run.
Context {W : Type} (cfg : W -> config).
Context (run : W -> Z -> list string -> string -> outcome (W * bool)).

Definition add (w : W) (new_m : string) (vid : Z) : outcome (W * bool) :=
  if negb (vid =? myvid (cfg w)) then Val (w, false)
  else let '(nextvid, curm, v) := add_proposal (cfg w) new_m in run w nextvid curm v.

Definition remove_wo (w : W) (m : string) : outcome (W * bool) :=
  let '(nextvid, cmems, v) := remove_proposal (cfg w) m in run w nextvid cmems v.

End run.

(** [heartbeat] from a node at view [vid]; [running] is [pro->isrunning()]. *)
Definition heartbeat (c : config) (vid : Z) (running : bool) : outcome (Z * Z) :=
  if vid =? myvid c then Val (paxos_OK, s32 (myvid c))
  else if running then
    VERIFY ((vid =? u32 (myvid c + 1)) || (u32 (vid + 1) =? myvid c)) ;;;
    Val (paxos_OK, s32 (myvid c))
  else Val (paxos_ERR, s32 (myvid c)).

(** [doheartbeat]; [ret] is the status of the call, [timeout_failure] without
    a handle. The [bool] says whether the handle is deleted. *)
Definition doheartbeat (ret : Z) : heartbeat_t * bool :=
  if ret =? paxos_OK then (HOK, false)
  else if (ret =? atmostonce_failure) || (ret =? oldsrv_failure) then (HOK, true)
  else if ret <? 0 then (HFAILURE, false)
  else (HVIEWERR, false).

Fixpoint smallest (m : string) (nodes : list string) : string :=
  match nodes with
  | [] => m
  | x :: nodes => smallest (if str_gtb m x then x else m) nodes
  end.

(** The loop that pings the others; [ping x] is the status of the call. *)
Fixpoint ping_rest (me : string) (ping : string -> Z) (nodes : list string) : option string :=
  match nodes with
  | [] => None
  | x :: nodes =>
      if negb (String.eqb x me) && negb (bool_decide ((doheartbeat (ping x)).1 = HOK))
      then Some x else ping_rest me ping nodes
  end.

(** One round of [heartbeater]: the node to be removed, if there is one.
    [vid'] is [myvid] after the pings, during which the lock is released. *)
Definition heartbeater_round (c : config) (ping : string -> Z) (vid' : Z)
    : config * option string :=
  let vid := myvid c in
  let '(c, cmems) := get_view_wo c vid in
  if negb (isamember (cme c) cmems) then (c, None)
  else
    let m := smallest (cme c) cmems in
    let bad :=
      if String.eqb m (cme c) then ping_rest (cme c) ping cmems
      else if bool_decide ((doheartbeat (ping m)).1 = HOK) then None else Some m in
    (c, match bad with
        | Some m => if vid =? vid' then Some m else None
        | None => None
        end).

(** ** Views are lists of words *)

Lemma value_app l1 l2 : value (app l1 l2) = value l1 +:+ value l2.
Proof.
  induction l1 as [|x l1 IH]; [done|]. cbn [value app]. by rewrite IH, !app_string_assoc.
Qed.

Lemma members_loop_value m : forall fuel view,
  Forall is_word m -> (length m < fuel)%nat ->
  members_loop fuel (Istream (value m) false) view = app view m.
Proof.
  induction m as [|x m IH]; intros fuel view Hok Hfuel; (destruct fuel as [|fuel]; [lia|]).
  - simpl. by rewrite app_nil_r.
  - apply Forall_cons in Hok as [Hx Hok]. cbn [value members_loop].
    change (" " +:+ value m) with (String blank (value m)).
    rewrite get_word_spec by done. cbv beta iota zeta. cbn [fail]. simpl in Hfuel.
    destruct fuel as [|fuel]; [lia|]. cbn [members_loop]. rewrite get_word_blank by done.
    change (members_loop (S fuel) (Istream (value m) false) (app view [x]) = app view (x :: m)).
    rewrite IH by (done || lia). by rewrite <-app_assoc.
Qed.

Lemma value_length m : Forall is_word m -> (length m <= String.length (value m))%nat.
Proof.
  induction 1 as [|x m Hx Hm IH]; [done|]. cbn [value length]. rewrite !length_app_string. simpl. lia.
Qed.

Lemma members_of_value m : Forall is_word m -> members (value m) = m.
Proof.
  intros Hok. unfold members. rewrite members_loop_value; [done|done|].
  pose proof (value_length m Hok). lia.
Qed.

(** C36: a view survives its encoding, and the proposals are the views they
    should be. For node names that are words [members] inverts [value]; the
    value [add] proposes is the current view with the new node at the end, the
    one [remove_wo] proposes is the current view without the node, and both
    are put to the nodes of the current view for the next instance. *)
Theorem proposals_encode_views (c : config) (x : string) :
  Forall is_word (mems c) -> is_word x -> 0 <= myvid c < 2 ^ 31 - 1 ->
  let '(i, nodes, v) := add_proposal c x in
  let '(j, nodes', w) := remove_proposal c x in
  members (value (mems c)) = mems c /\
  i = myvid c + 1 /\ nodes = mems c /\ members v = app (mems c) [x] /\
  j = myvid c + 1 /\ nodes' = mems c /\
  (forall y, y ∈ members w <-> y ∈ mems c /\ y <> x).
Proof.
  intros Hm Hx Hv. unfold add_proposal, remove_proposal.
  assert (s32 (myvid c + 1) = myvid c + 1) as -> by (apply s32_id; unfold is_s32; lia).
  split_and!; try done.
  - by apply members_of_value.
  - apply members_of_value, Forall_app. split; [done|by constructor].
  - intros y. rewrite members_of_value.
    + rewrite list_elem_of_filter. rewrite Is_true_true, negb_true_iff, String.eqb_neq. tauto.
    + apply Forall_forall. intros z [_ Hz]%list_elem_of_filter. by eapply Forall_forall in Hm.
Qed.

Definition demo_config : config :=
  MkConfig (acceptor_fresh "n1" "") 3 "n1" ["n1"; "n2"].

Lemma proposals_encode_views_witness :
  members (value (mems demo_config)) = mems demo_config /\
  4 = myvid demo_config + 1 /\ mems demo_config = mems demo_config /\
  members "n1 n2 n2 " = app (mems demo_config) ["n2"] /\
  4 = myvid demo_config + 1 /\ mems demo_config = mems demo_config /\
  (forall y, y ∈ members "n1 " <-> y ∈ mems demo_config /\ y <> "n2").
Proof.
  apply (proposals_encode_views demo_config "n2").
  - repeat constructor; done.
  - done.
  - simpl. lia.
Defined.

(** ** The current view follows the acceptor *)

(** What [config] keeps of the acceptor it listens to. *)
Definition in_step (c : config) : Prop :=
  instance_h (acc c) > 0 ->
  myvid c = instance_h (acc c) /\ mems c = members (default "" (values (acc c) !! myvid c)).

Definition set_acc (c : config) (a : acceptor) : config := MkConfig a (myvid c) (cme c) (mems c).

(** A node, and the upcalls of threads that have left [pxs_mutex] in [commit_wo] and
    not yet entered [cfg_mutex] in [paxos_commit], oldest first. *)
Record following := Following { fc : config; ups : list (Z * string) }.

(** One critical section of some thread. With [fifo] the upcalls are made in the
    order of the commits; the locks do not ensure it. *)
Inductive fstep (fifo : bool) : following -> following -> Prop :=
| f_prepare f arg r a r' st :
    preparereq (acc (fc f)) arg r = (a, r', st) -> fstep fifo f (Following (set_acc (fc f) a) (ups f))
| f_accept f arg a b st :
    acceptreq (acc (fc f)) arg = (a, b, st) -> fstep fifo f (Following (set_acc (fc f) a) (ups f))
| f_decide f arg a u st :
    decidereq (acc (fc f)) arg = Val (a, u, st) -> fstep fifo f (Following (set_acc (fc f) a) (app (ups f) u))
| f_commit f i v a u :
    Acceptor.commit (acc (fc f)) i v = (a, u) -> fstep fifo f (Following (set_acc (fc f) a) (app (ups f) u))
| f_view f j :
    fstep fifo f (Following (get_view (fc f) j).1 (ups f))
| f_upcall f l1 i v l2 :
    ups f = app l1 ((i, v) :: l2) -> (fifo = true -> l1 = []) ->
    fstep fifo f (Following (paxos_commit (fc f) i v).1.1 (app l1 l2)).

Lemma touch_lookup a i j :
  default "" (values (touch a i).1 !! j) = default "" (values a !! j) /\
  instance_h (touch a i).1 = instance_h a.
Proof.
  unfold touch. destruct (values a !! i) eqn:E; [done|]. split; [|done]. simpl.
  destruct (decide (i = j)) as [<-|]; [by rewrite lookup_insert_eq, E|by rewrite lookup_insert_ne].
Qed.

Lemma touch_value a i : (touch a i).2 = default "" (values a !! i).
Proof. unfold touch. by destruct (values a !! i). Qed.

Lemma get_view_in_step c i : in_step c -> in_step (get_view_wo c i).1.
Proof.
  unfold in_step, get_view_wo, Acceptor.value. pose proof (touch_lookup (acc c) i) as Ht.
  destruct (touch (acc c) i) as [a v]. simpl in *. intros Hs.
  destruct (Ht (myvid c)) as [-> ->]. done.
Qed.

Lemma reconstruct_in_step c : in_step (reconstruct c).
Proof.
  unfold in_step, reconstruct. destruct (Z.gtb_spec (instance_h (acc c)) 0); simpl; [|lia].
  unfold get_view_wo, Acceptor.value. simpl.
  pose proof (touch_lookup (acc c) (instance_h (acc c)) (instance_h (acc c))) as [Ht1 Ht2].
  pose proof (touch_value (acc c) (instance_h (acc c))) as Ht3.
  destruct (touch (acc c) (instance_h (acc c))) as [a v]. simpl in *.
  intros _. by rewrite Ht2, Ht1, Ht3.
Qed.

(** What other operations leave alone in an acceptor. *)
Definition same_decided (a a' : acceptor) : Prop :=
  instance_h a' = instance_h a /\ forall j, default "" (values a' !! j) = default "" (values a !! j).

Lemma touch_decided a i : same_decided a (touch a i).1.
Proof. split; [apply (touch_lookup a i 0)|]. intros j. apply touch_lookup. Qed.

Lemma preparereq_decided a arg r a' r' st : preparereq a arg r = (a', r', st) -> same_decided a a'.
Proof.
  unfold preparereq. destruct (_ <=? _).
  - pose proof (touch_decided a (pa_instance arg)) as Ht. destruct (touch _ _). by intros [= <- _ _].
  - destruct (prop_gtb _ _); by intros [= <- _ _].
Qed.

Lemma acceptreq_decided a arg a' b st : acceptreq a arg = (a', b, st) -> same_decided a a'.
Proof. unfold acceptreq. destruct (prop_geb _ _); by intros [= <- _ _]. Qed.

(** The node uses a view that was decided, and the upcalls are for decided views. *)
Definition decided (a : acceptor) (i : Z) (v : string) : Prop :=
  0 < i <= instance_h a /\ default "" (values a !! i) = v.

Record finv (f : following) : Prop := {
  fi_view : exists v, decided (acc (fc f)) (myvid (fc f)) v /\ mems (fc f) = members v;
  fi_ups : forall i v, (i, v) ∈ ups f -> decided (acc (fc f)) i v;
}.

(** With [fifo], the views still to come are later ones, in order, up to the last. *)
Definition climbs (f : following) : Prop :=
  StronglySorted Z.lt (myvid (fc f) :: (ups f).*1) /\ last (myvid (fc f) :: (ups f).*1) = Some (instance_h (acc (fc f))).

Lemma same_decided_finv f a :
  same_decided (acc (fc f)) a -> finv f -> finv (Following (set_acc (fc f) a) (ups f)).
Proof.
  intros [Hi Hv] [(v & [H1 H2] & H3) Hu]. unfold decided in *.
  split; simpl; unfold decided; rewrite Hi; [|by intros i w [? ?]%Hu; rewrite Hv].
  exists v. by rewrite Hv.
Qed.

Lemma same_decided_climbs f a :
  same_decided (acc (fc f)) a -> climbs f -> climbs (Following (set_acc (fc f) a) (ups f)).
Proof. intros [Hi _]. unfold climbs. simpl. by rewrite Hi. Qed.

Lemma commit_follows f i v a u :
  commit_wo (acc (fc f)) i v = (a, u) -> finv f ->
  finv (Following (set_acc (fc f) a) (app (ups f) u)) /\
  (climbs f -> climbs (Following (set_acc (fc f) a) (app (ups f) u))).
Proof.
  intros Hc Hf. unfold commit_wo in Hc. destruct (Z.gtb_spec i (instance_h (acc (fc f)))) as [Hgt|Hle].
  2: { injection Hc as <- <-. rewrite app_nil_r. destruct f as [[] ?]. done. }
  injection Hc as <- <-. destruct Hf as [(v0 & [H1 H2] & H3) Hu]. split; [split; simpl|].
  - exists v0. split; [|done]. split; simpl; [lia|]. by rewrite lookup_insert_ne by lia.
  - intros j w [[Hj Hw]%Hu|[= -> ->]%list_elem_of_singleton]%elem_of_app; split; simpl; try lia.
    + by rewrite lookup_insert_ne by lia.
    + by rewrite lookup_insert_eq.
  - unfold climbs. simpl. rewrite fmap_app. simpl. intros [Hs Hl].
    change (myvid (fc f) :: app (ups f).*1 [i]) with (app (myvid (fc f) :: (ups f).*1) [i]).
    rewrite last_snoc. split; [|done]. apply StronglySorted_app. split_and!; [|done|repeat constructor].
    intros x y Hx ->%list_elem_of_singleton. apply elem_of_cons in Hx as [->|([j w] & -> & [Hj _]%Hu)%list_elem_of_fmap]; simpl; lia.
Qed.

Lemma fstep_follows fifo f f' :
  fstep fifo f f' -> finv f -> finv f' /\ (fifo = true -> climbs f -> climbs f').
Proof.
  intros Hs Hf. destruct Hs as [f arg r a r' st Hp|f arg a b st Ha|f arg a u st Hd|f i v a u Hc|f j|f l1 i v l2 Hu Hfifo].
  - apply preparereq_decided in Hp. split; [by apply same_decided_finv|intros _; by apply same_decided_climbs].
  - apply acceptreq_decided in Ha. split; [by apply same_decided_finv|intros _; by apply same_decided_climbs].
  - unfold decidereq in Hd. destruct (_ =? _).
    + apply obind_val in Hd as (_ & _ & [= Hc _]).
      destruct (commit_follows f _ _ a u Hc Hf). done.
    + destruct (_ <=? _); [|done]. injection Hd as <- <- _. rewrite app_nil_r. by destruct f as [[] ?].
  - destruct (commit_follows f _ _ a u Hc Hf). done.
  - pose proof (touch_decided (acc (fc f)) j) as Ht. unfold get_view, get_view_wo, Acceptor.value.
    destruct (touch _ _) as [a v]. simpl in *.
    split; [by apply same_decided_finv|intros _; by apply same_decided_climbs].
  - destruct Hf as [_ Hf]. split.
    + split; simpl; [exists v; split; [apply Hf; rewrite Hu; set_solver|done]|].
      intros j w Hj. apply Hf. rewrite Hu. set_solver.
    + intros ->. unfold climbs. rewrite Hu, (Hfifo eq_refl). simpl. intros [Hs Hl].
      split; [by inversion Hs|done].
Qed.

Lemma fsteps_follow fifo f f' :
  rtc (fstep fifo) f f' -> finv f -> finv f' /\ (fifo = true -> climbs f -> climbs f').
Proof.
  induction 1 as [f|f1 f2 f3 Hs _ IH]; [done|]. intros Hf. destruct (fstep_follows _ _ _ Hs Hf) as [H1 H2].
  destruct (IH H1). auto.
Qed.

Lemma in_step_start c : in_step c -> instance_h (acc c) > 0 -> finv (Following c []) /\ climbs (Following c []).
Proof.
  intros Hs Hi. destruct (Hs Hi) as [Hm Hv]. split; [split; simpl|].
  - eexists. split; [|exact Hv]. split; [lia|done].
  - by intros i v ?%not_elem_of_nil.
  - unfold climbs. simpl. rewrite Hm. split; [repeat constructor|done].
Qed.

(** C38: the view a node uses is one its acceptor decided, and the last one when the
    upcalls are made in order. A node starts from its log or from the one it is sent
    ([restore]), with a view decided. Then come requests of Paxos, commits and reads of
    views, and the upcalls of the commits at any later time and in any order: at every
    moment [myvid] is a decided instance, [mems] are the members encoded in its value,
    and the upcalls under way are for decided values. If they are made in the order of
    the commits, the views to come have rising numbers and the last of them, or [myvid]
    when there is none, is the highest decided instance. The handles [paxos_commit]
    drops are those of nodes that left, never the node's own. *)
Theorem config_follows_acceptor (first me file s : string) (c0 c : config) (fifo : bool) (f : following) :
  config_new first me file = Val c \/ config_restore c0 s = Val c ->
  instance_h (acc c) > 0 -> rtc (fstep fifo) (Following c []) f ->
  in_step c /\
  (exists v, decided (acc (fc f)) (myvid (fc f)) v /\ mems (fc f) = members v) /\
  (forall i v, (i, v) ∈ ups f -> decided (acc (fc f)) i v) /\
  (fifo = true ->
     StronglySorted Z.lt (myvid (fc f) :: (ups f).*1) /\
     last (myvid (fc f) :: (ups f).*1) = Some (instance_h (acc (fc f)))) /\
  (forall i w x, x ∈ (paxos_commit (fc f) i w).1.2 <->
     x ∈ mems (fc f) /\ (x ∉ members w) /\ x <> cme (fc f)).
Proof.
  intros Hc Hi Hf.
  assert (in_step c) as Hin.
  { destruct Hc as [Hc|Hc]; apply obind_val in Hc as (a & _ & [= <-]); apply reconstruct_in_step. }
  destruct (in_step_start c Hin Hi) as [H1 H2]. destruct (fsteps_follow _ _ _ Hf H1) as [[H3 H4] H5].
  split_and!; [done|done|done|by intros Hff; apply (H5 Hff H2)|].
  intros i w x. simpl. rewrite list_elem_of_filter, Is_true_true, andb_true_iff, !negb_true_iff.
  rewrite String.eqb_neq, <-not_true_iff_false, isamember_spec. simpl. intuition congruence.
Qed.

(** A first node commits two views, and the upcalls are made in order. *)
Definition demo_born : config :=
  reconstruct (MkConfig (PaxosLog.Acceptor "n1" (Prop_t 0 "n1") (Prop_t 0 "n1") "" 1
                           {[ 1 := "n1" ]} (loginstance "" 1 "n1")) 0 "n1" []).
Definition demo_grown : following :=
  let '(a, u) := Acceptor.commit (acc demo_born) 2 "n1 n2 " in
  let '(a', u') := Acceptor.commit a 3 "n2 " in
  Following (set_acc (set_acc demo_born a) a') (app u u').
(** The upcalls of [f] with the [k]th first. *)
Definition upcall_at (f : following) (k : nat) : following :=
  match ups f !! k with
  | Some (i, v) => Following (paxos_commit (fc f) i v).1.1 (app (firstn k (ups f)) (skipn (S k) (ups f)))
  | None => f
  end.

Lemma upcall_at_step fifo f k : (fifo = true -> k = 0%nat) -> rtc (fstep fifo) f (upcall_at f k).
Proof.
  intros Hk. unfold upcall_at. destruct (ups f !! k) as [[i v]|] eqn:E; [|done]. apply rtc_once.
  apply (f_upcall _ f (firstn k (ups f)) i v (skipn (S k) (ups f))).
  - by rewrite take_drop_middle.
  - by intros ->%Hk.
Qed.

Lemma demo_grown_run fifo : rtc (fstep fifo) (Following demo_born []) demo_grown.
Proof.
  eapply rtc_l; [by eapply (f_commit _ (Following demo_born []) 2 "n1 n2 ")|].
  apply rtc_once. by eapply (f_commit _ (Following _ _) 3 "n2 ").
Qed.

Lemma config_follows_acceptor_witness :
  (myvid (fc (upcall_at (upcall_at demo_grown 0) 0)), mems (fc (upcall_at (upcall_at demo_grown 0) 0))) = (3, ["n2"]) /\
  last (myvid (fc (upcall_at demo_grown 0)) :: (ups (upcall_at demo_grown 0)).*1) =
    Some (instance_h (acc (fc (upcall_at demo_grown 0)))).
Proof.
  split; [vm_compute; reflexivity|].
  apply (config_follows_acceptor "n1" "n1" "" "" demo_born demo_born true (upcall_at demo_grown 0));
    [left; reflexivity|vm_compute; reflexivity| |done].
  etrans; [apply demo_grown_run|]. by apply upcall_at_step.
Defined.

(** [commit_wo] gives up [pxs_mutex] before the upcall, and [paxos_commit] does not
    compare instances: when the upcalls of two commits overtake each other, the node
    goes back to the older view and stays there, although none is under way. *)
Theorem overtaken_upcall_goes_back :
  rtc (fstep false) (Following demo_born []) (upcall_at (upcall_at demo_grown 1) 0) /\
  (instance_h (acc (fc (upcall_at (upcall_at demo_grown 1) 0))), myvid (fc (upcall_at demo_grown 1)),
   myvid (fc (upcall_at (upcall_at demo_grown 1) 0)), ups (upcall_at (upcall_at demo_grown 1) 0)) = (3, 3, 2, []).
Proof.
  split; [|vm_compute; reflexivity]. etrans; [apply demo_grown_run|].
  etrans; [by apply (upcall_at_step false _ 1)|by apply upcall_at_step].
Qed.

(** ** The heartbeater *)

Lemma smallest_in m l : smallest m l = m \/ smallest m l ∈ l.
Proof.
  revert m. induction l as [|x l IH]; intros m; simpl; [by left|].
  destruct (str_gtb m x); destruct (IH x) as [E|E], (IH m) as [E'|E']; rewrite ?E, ?E'; set_solver.
Qed.

Lemma str_gtb_negtrans a b c :
  str_gtb a b = false -> str_gtb b c = false -> str_gtb a c = false.
Proof.
  intros H1 H2. destruct (str_gtb a c) eqn:H3; [|done].
  destruct (str_gtb b a) eqn:H4.
  - by rewrite (str_gtb_trans b a c H4 H3) in H2.
  - by rewrite (str_total a b H1 H4), H2 in H3.
Qed.

Lemma smallest_least l : forall m y, y = m \/ y ∈ l -> str_gtb (smallest m l) y = false.
Proof.
  induction l as [|x l IH]; intros m y Hy; simpl.
  { destruct Hy as [->|Hy]; [apply str_gtb_irrefl|by apply not_elem_of_nil in Hy]. }
  destruct (str_gtb m x) eqn:E.
  - destruct Hy as [->|[->|Hy]%elem_of_cons]; [|by apply IH; left|by apply IH; right].
    eapply str_gtb_negtrans; [apply IH; by left|by apply str_asym].
  - destruct Hy as [->|[->|Hy]%elem_of_cons]; [by apply IH; left| |by apply IH; right].
    eapply str_gtb_negtrans; [apply IH; by left|done].
Qed.

(** The outcomes of a call on which [doheartbeat] reports no problem. *)
Definition ping_ok (ret : Z) : Prop :=
  ret = paxos_OK \/ ret = atmostonce_failure \/ ret = oldsrv_failure.

Lemma doheartbeat_ok ret : (doheartbeat ret).1 = HOK <-> ping_ok ret.
Proof.
  unfold doheartbeat, ping_ok. destruct (Z.eqb_spec ret paxos_OK); [simpl; tauto|].
  destruct (Z.eqb_spec ret atmostonce_failure); [simpl; tauto|].
  destruct (Z.eqb_spec ret oldsrv_failure); [simpl; tauto|].
  simpl. destruct (ret <? 0); simpl; intuition discriminate.
Qed.

Lemma ping_rest_some me ping nodes x :
  ping_rest me ping nodes = Some x ->
  x <> me /\ ~ ping_ok (ping x) /\
  exists before after, nodes = app before (x :: after) /\
    forall y, y ∈ before -> y = me \/ ping_ok (ping y).
Proof.
  induction nodes as [|z nodes IH]; [done|]. simpl.
  destruct (String.eqb_spec z me) as [->|Hne]; simpl; [|case_bool_decide as Hd; simpl].
  3: { intros [= ->]. rewrite doheartbeat_ok in Hd. split_and!; [done..|].
       exists [], nodes. split; [done|]. by intros y ?%not_elem_of_nil. }
  all: intros (? & ? & before & after & -> & Hb)%IH; split_and!; [done..|].
  - exists (me :: before), after. split; [done|].
    intros y [->|Hy]%elem_of_cons; [by left|by apply Hb].
  - exists (z :: before), after. split; [done|].
    intros y [->|Hy]%elem_of_cons; [right; by apply doheartbeat_ok|by apply Hb].
Qed.

(** The view that the round works on. *)
Definition current_view (c : config) : list string :=
  members (default "" (values (acc c) !! myvid c)).

(** C39: a node is voted out only for cause. The node that a round of the
    heartbeater removes is another member of the current view, the view has
    not changed during the calls, and its own call failed or was answered with
    an error that is not that of a restarted connection. Either the node that
    removes it has the smallest name of the view, and the members that come
    before it all answered; or the removed one has the smallest name. *)
Theorem heartbeater_removes_failed (c : config) (ping : string -> Z) (vid' : Z) (x : string) :
  (heartbeater_round c ping vid').2 = Some x ->
  vid' = myvid c /\ x <> cme c /\ x ∈ current_view c /\ cme c ∈ current_view c /\
  ~ ping_ok (ping x) /\
  ((forall y, y ∈ current_view c -> str_gtb (cme c) y = false) /\
   (exists before after, current_view c = app before (x :: after) /\
      forall y, y ∈ before -> y = cme c \/ ping_ok (ping y)) \/
   (forall y, y ∈ current_view c -> str_gtb x y = false)).
Proof.
  unfold heartbeater_round, get_view_wo, Acceptor.value, current_view.
  pose proof (touch_value (acc c) (myvid c)) as Ht.
  destruct (touch (acc c) (myvid c)) as [a v]. simpl in *. subst v.
  set (view := members _). destruct (isamember (cme c) view) eqn:Hme; simpl; [|done].
  apply isamember_spec in Hme.
  pose proof (smallest_in (cme c) view) as Hin.
  pose proof (fun y Hy => smallest_least view (cme c) y (or_intror Hy)) as Hleast.
  destruct (String.eqb_spec (smallest (cme c) view) (cme c)) as [E|E].
  - destruct (ping_rest _ _ _) as [z|] eqn:Hp; simpl; [|done].
    destruct (Z.eqb_spec (myvid c) vid') as [<-|]; [|done]. intros [= ->].
    apply ping_rest_some in Hp as (? & ? & before & after & Hv & Hb).
    split_and!; [done|done|rewrite Hv; set_solver|done|done|].
    left. rewrite E in Hleast. eauto.
  - case_bool_decide as Hd; [done|]. rewrite doheartbeat_ok in Hd.
    destruct (Z.eqb_spec (myvid c) vid') as [<-|]; [|done]. intros [= <-].
    destruct Hin as [?|Hx]; [done|]. split_and!; try done. by right.
Qed.

Definition demo_hb : config :=
  MkConfig (PaxosLog.Acceptor "n1" (Prop_t 0 "n1") (Prop_t 0 "n1") "" 3
              {[ 3 := "n1 n2 n3 " ]} "") 3 "n1" ["n1"; "n2"; "n3"].

Lemma heartbeater_removes_failed_witness :
  3 = myvid demo_hb /\ "n3" <> cme demo_hb /\ "n3" ∈ current_view demo_hb /\
  cme demo_hb ∈ current_view demo_hb /\ ~ ping_ok timeout_failure /\
  ((forall y, y ∈ current_view demo_hb -> str_gtb (cme demo_hb) y = false) /\
   (exists before after, current_view demo_hb = app before ("n3" :: after) /\
      forall y, y ∈ before -> y = cme demo_hb \/
        ping_ok (if String.eqb y "n3" then timeout_failure else paxos_OK)) \/
   (forall y, y ∈ current_view demo_hb -> str_gtb "n3" y = false)).
Proof.
  apply (heartbeater_removes_failed demo_hb
           (fun y => if String.eqb y "n3" then timeout_failure else paxos_OK) 3 "n3").
  vm_compute. reflexivity.
Defined.

End Config.
