(* ===== verification/Rsm.v ===== *)
(** * The replicated state machine (src/rsm/rsm.cc, include/rsm/rsm.h)

    One node: its configuration, the registered procedures with the object they
    work on, the view stamps, and the state of the recovery thread. Handlers
    are functions of the node's state; the recovery thread is cut at the points
    where it releases [rsm_mutex]. [client_invoke] holds only [invoke_mutex]
    while it calls the backups, so it runs in a world that contains its own
    node and that the calls may change. *)

From S2P Require Import Prelude.
From S2P Require Import Marshall.
From S2P Require Import Protocol.
From S2P Require Import Stubs.
From S2P Require Import PaxosLog.
From S2P Require Import Paxos.
From S2P Require Import Config.

Local Open Scope string_scope.
Local Open Scope Z_scope.

(** The interface of the service that is replicated
    (include/rsm/rsm_state_transfer.h), and what it promises. *)
Class rsm_state_transfer (S : Type) := {
  marshal_state : S -> string;
  unmarshal_state : string -> S -> S;
}.

Class StateTransferLaws (S : Type) `{!rsm_state_transfer S} :=
  unmarshal_marshal (s t : S) : unmarshal_state (marshal_state s) t = s.

Module Rsm.
Import Config.

Section rsm.
Context `{Heap} {S : Type} `{!rsm_state_transfer S}.

Record testing := Testing {
  partitioned : bool;
  dopartition : bool;
  rbreak1 : bool;
  rbreak2 : bool;
}.

(** [stf] says whether [set_state_transfer] was called; [sobj] is the object
    behind the handlers in [procs]. *)
Record rsm := MkRsm {
  procs : gmap Z (handler_fn S);
  cfg : config;
  stf : bool;
  sobj : S;
  myvs : viewstamp;
  last_myvs : viewstamp;
  primary : string;
  insync : bool;
  inviewchange : bool;
  vid_commit : Z;
  vid_insync : Z;
  backups : list string;
  test : testing;
}.

Definition myaddr (r : rsm) : string := cme (cfg r).

Definition set_cfg (r : rsm) (c : config) : rsm :=
  MkRsm (procs r) c (stf r) (sobj r) (myvs r) (last_myvs r) (primary r) (insync r)
        (inviewchange r) (vid_commit r) (vid_insync r) (backups r) (test r).
Definition set_sobj (r : rsm) (s : S) : rsm :=
  MkRsm (procs r) (cfg r) (stf r) s (myvs r) (last_myvs r) (primary r) (insync r)
        (inviewchange r) (vid_commit r) (vid_insync r) (backups r) (test r).
Definition set_vs (r : rsm) (vs last : viewstamp) : rsm :=
  MkRsm (procs r) (cfg r) (stf r) (sobj r) vs last (primary r) (insync r)
        (inviewchange r) (vid_commit r) (vid_insync r) (backups r) (test r).
Definition set_prim (r : rsm) (p : string) : rsm :=
  MkRsm (procs r) (cfg r) (stf r) (sobj r) (myvs r) (last_myvs r) p (insync r)
        (inviewchange r) (vid_commit r) (vid_insync r) (backups r) (test r).
Definition set_sync (r : rsm) (sync change : bool) (vc vi : Z) : rsm :=
  MkRsm (procs r) (cfg r) (stf r) (sobj r) (myvs r) (last_myvs r) (primary r) sync
        change vc vi (backups r) (test r).
Definition set_backups (r : rsm) (b : list string) : rsm :=
  MkRsm (procs r) (cfg r) (stf r) (sobj r) (myvs r) (last_myvs r) (primary r) (insync r)
        (inviewchange r) (vid_commit r) (vid_insync r) b (test r).
Definition set_test (r : rsm) (t : testing) : rsm :=
  MkRsm (procs r) (cfg r) (stf r) (sobj r) (myvs r) (last_myvs r) (primary r) (insync r)
        (inviewchange r) (vid_commit r) (vid_insync r) (backups r) t.

(** ** Breakpoints *)

Definition breakpoint1 (r : rsm) : outcome unit :=
  if rbreak1 (test r) then Fault Exited else Val tt.
Definition breakpoint2 (r : rsm) : outcome unit :=
  if rbreak2 (test r) then Fault Exited else Val tt.

(** The second component is the argument of [cfg->breakpoint], if it is
    called. *)
Definition breakpointreq (r : rsm) (b : Z) : rsm * option Z * Z :=
  let t := test r in
  if b =? 1 then (set_test r (Testing (partitioned t) (dopartition t) true (rbreak2 t)), None, rsmt_OK)
  else if b =? 2 then
    (set_test r (Testing (partitioned t) (dopartition t) (rbreak1 t) true), None, rsmt_OK)
  else if (b =? 3) || (b =? 4) then (r, Some b, rsmt_OK)
  else (r, None, rsmt_ERR).

(** ** Views and the primary *)

Fixpoint first_member (p c : list string) : option string :=
  match p with
  | [] => None
  | x :: p => if isamember x c then Some x else first_member p c
  end.

Definition set_primary (r : rsm) (vid : Z) : outcome rsm :=
  let '(cf, c) := get_view (cfg r) vid in
  let '(cf, p) := get_view cf (u32 (vid - 1)) in
  let r := set_cfg r cf in
  VERIFY (0 <? Z.of_nat (length c)) ;;;
  if isamember (primary r) c then Val r
  else
    VERIFY (0 <? Z.of_nat (length p)) ;;;
    match first_member p c with
    | Some x => Val (set_prim r x)
    | None => Fault VerifyFailed
    end.

Definition commit_change_wo (r : rsm) (vid : Z) : outcome rsm :=
  if vid <=? vid_commit r then Val r
  else
    let r := set_sync r (insync r) true vid (vid_insync r) in
    let! r := set_primary r vid in
    let '(cf, b) := ismember (cfg r) (myaddr r) (vid_commit r) in
    let r := set_cfg r cf in
    (if b then breakpoint2 r else Val tt) ;;;
    Val r.

Definition commit_change (r : rsm) (vid : Z) : outcome rsm := commit_change_wo r vid.

Definition amiprimary (r : rsm) : bool :=
  String.eqb (primary r) (myaddr r) && negb (inviewchange r).

Definition client_members (r : rsm) : rsm * list string * Z :=
  let '(cf, m) := get_view (cfg r) (vid_commit r) in
  (set_cfg r cf, app m [primary r], rsmc_OK).

(** The constructor; [vi] is the value that [vid_insync] happens to have. *)
Definition rsm_new (ps : gmap Z (handler_fn S)) (s : S) (first me file : string) (vi : Z)
    : outcome rsm :=
  let! c := config_new first me file in
  let r := MkRsm ps c false s (Viewstamp 0 1) (Viewstamp 0 0) first false true 0 vi []
                 (Testing false false false false) in
  if String.eqb first me then commit_change r 1 else Val r.

Definition reg1 (r : rsm) (proc : Z) (h : handler_fn S) : rsm :=
  MkRsm (<[proc := h]> (procs r)) (cfg r) (stf r) (sobj r) (myvs r) (last_myvs r) (primary r)
        (insync r) (inviewchange r) (vid_commit r) (vid_insync r) (backups r) (test r).
Definition set_state_transfer (r : rsm) : rsm :=
  MkRsm (procs r) (cfg r) true (sobj r) (myvs r) (last_myvs r) (primary r) (insync r)
        (inviewchange r) (vid_commit r) (vid_insync r) (backups r) (test r).

(** ** Requests *)

Definition execute (r : rsm) (procno : Z) (req : string) : outcome (rsm * string) :=
  match (procs r !! procno : option (handler_fn S)) with
  | None => Fault VerifyFailed
  | Some h =>
      let! args := take_content req in
      let! '(s, rep, ret) := h (sobj r) args marshall_new in
      let! rep1 := put_int marshall_new ret in
      let! reps := str rep in
      let! rep1 := put_string rep1 reps in
      let! out := str rep1 in
      Val (set_sobj r s, out)
  end.

Definition next_vs (vs : viewstamp) : viewstamp := Viewstamp (vs_vid vs) (u32 (vs_seqno vs + 1)).

(** [last_myvs = myvs; myvs.seqno++] *)
Definition advance (r : rsm) : rsm := set_vs r (next_vs (myvs r)) (myvs r).

Definition invoke (r : rsm) (proc : Z) (vs : viewstamp) (req : string) : outcome (rsm * Z) :=
  if inviewchange r then Val (r, rsm_BUSY)
  else if vs_neqb vs (myvs r) then Val (r, rsm_ERR)
  else
    let! '(r, _) := execute (advance r) proc req in
    breakpoint1 r ;;;
    Val (r, rsm_OK).

(** ** State transfer *)

Definition transferreq (r : rsm) (last : viewstamp) (vid : Z) (res : transferres)
    : transferres * Z :=
  if negb (insync r) || negb (vid =? vid_insync r) then (res, rsm_BUSY)
  else
    let st := if stf r && vs_neqb last (last_myvs r) then marshal_state (sobj r)
              else tr_state res in
    (Transferres st (last_myvs r), rsm_OK).

(** The loop that erases the first occurrence of [m]. *)
Fixpoint erase_first (m : string) (l : list string) : list string :=
  match l with
  | [] => []
  | x :: l => if String.eqb x m then l else x :: erase_first m l
  end.

Definition transferdonereq (r : rsm) (m : string) (vid : Z) : rsm * Z :=
  if (vid_insync r =? 0) || negb (vid =? vid_commit r) then (r, rsm_BUSY)
  else (set_backups r (erase_first m (backups r)), rsm_OK).

(** The part of [statetransfer] after the call; [reply] is [None] when there is
    no handle. *)
Definition statetransfer (r : rsm) (reply : option (Z * transferres)) : rsm * bool :=
  match reply with
  | None => (r, false)
  | Some (ret, res) =>
      if negb (ret =? rsm_OK) then (r, false)
      else
        let r := if stf r && vs_neqb (last_myvs r) (tr_last res)
                 then set_sobj r (unmarshal_state (tr_state res) (sobj r)) else r in
        (set_vs r (myvs r) (tr_last res), true)
  end.

Definition statetransferdone (reply : option Z) : bool :=
  match reply with None => false | Some ret => ret =? rsm_OK end.

(** ** Joining *)

Definition join (r : rsm) (reply : option (Z * joinres)) : outcome (rsm * bool) :=
  match reply with
  | None => Val (r, false)
  | Some (ret, res) =>
      if negb (ret =? rsm_OK) then Val (r, false)
      else let! c := config_restore (cfg r) (jr_log res) in Val (set_cfg r c, true)
  end.

(** ** The recovery thread *)

(** A turn of the inner loop of [recovery]: [reply] is what [join]'s call
    returned; the state is the one after the call. *)
Definition recovery_join (r : rsm) (reply : option (Z * joinres)) : outcome rsm :=
  let! '(r, joined) := join r reply in
  if joined then commit_change_wo r (myvid (cfg r)) else Val r.

Definition recovery_member (r : rsm) : rsm * bool :=
  let '(cf, b) := ismember (cfg r) (myaddr r) (vid_commit r) in (set_cfg r cf, b).

Definition recovery_begin (r : rsm) : rsm :=
  set_sync r (insync r) (inviewchange r) (vid_commit r) (vid_commit r).

(** [sync_with_backups] between the two acquisitions of the lock and the wait. *)
Definition sync_with_backups_begin (r : rsm) : rsm :=
  let '(cf, mems) := get_view (cfg r) (vid_insync r) in
  let r := set_cfg r cf in
  let r := set_backups r (filter (fun m => negb (String.eqb m (myaddr r))) mems) in
  set_sync r true (inviewchange r) (vid_commit r) (vid_insync r).
Definition sync_with_backups_waits (r : rsm) : bool :=
  negb (bool_decide (backups r = [])) && (vid_commit r =? vid_insync r).

(** The end of both [sync] functions. *)
Definition sync_end (r : rsm) : rsm * bool :=
  (set_sync r false (inviewchange r) (vid_commit r) (vid_insync r), vid_commit r =? vid_insync r).

(** What [recovery] does with the result; [true]: it goes to sleep. *)
Definition recovery_end (r : rsm) (ok : bool) : rsm * bool :=
  if negb (vid_insync r =? vid_commit r) then (r, false)
  else if ok then
    (set_sync (set_vs r (Viewstamp (vid_commit r) 1) (last_myvs r))
              (insync r) false (vid_commit r) (vid_insync r), true)
  else (r, true).

(** ** Calls to other nodes *)

(** The world of one node: its own state, the call of a backup ([None]: no
    handle), and the two reachability switches of the testing server. *)
Class RsmNet (W : Type) := {
  self : W -> rsm;
  put_self : W -> rsm -> W;
  net_invoke : W -> string -> Z -> viewstamp -> string -> W * option Z;
  net_reachable : W -> string -> bool -> W;
  net_rpcs_reachable : W -> bool -> W;
}.

Section world.
Context {W : Type} `{!RsmNet W}.

Fixpoint repair_members (w : W) (me : string) (m : list string) (heal : bool) : W :=
  match m with
  | [] => w
  | x :: m => repair_members (if String.eqb x me then w else net_reachable w x heal) me m heal
  end.

Definition net_repair_wo (w : W) (heal : bool) : W :=
  let '(cf, m) := get_view (cfg (self w)) (vid_commit (self w)) in
  let w := put_self w (set_cfg (self w) cf) in
  net_rpcs_reachable (repair_members w (myaddr (self w)) m heal) heal.

Definition set_partition (r : rsm) (part dopart : bool) : rsm :=
  set_test r (Testing part dopart (rbreak1 (test r)) (rbreak2 (test r))).

Definition partition1 (w : W) : W :=
  if dopartition (test (self w)) then
    let w := net_repair_wo w false in put_self w (set_partition (self w) true false)
  else w.

Definition test_net_repairreq (w : W) (heal : Z) : W * Z :=
  if negb (heal =? 0) then
    let w := net_repair_wo w true in
    (put_self w (set_partition (self w) false (dopartition (test (self w)))), rsmt_OK)
  else (put_self w (set_partition (self w) false true), rsmt_OK).

(** The loop of [client_invoke]: [inl] is an early return. *)
Fixpoint invoke_slaves (w : W) (procno : Z) (req : string) (slaves : list string) (ret : Z)
    : outcome (W * (Z + Z)) :=
  match slaves with
  | [] => Val (w, inr ret)
  | slave :: slaves =>
      if String.eqb slave (myaddr (self w)) then invoke_slaves w procno req slaves ret
      else
        match net_invoke w slave procno (myvs (self w)) req with
        | (w, None) => Val (w, inl rsmc_BUSY)
        | (w, Some ret) =>
            if negb (ret =? rsm_OK) then Val (w, inl rsmc_BUSY)
            else breakpoint1 (self w) ;;;
                 invoke_slaves (partition1 w) procno req slaves ret
        end
  end.

(** The reply stays as the caller made it on an early return. *)
Definition client_invoke (w : W) (procno : Z) (req : string) (r0 : string)
    : outcome (W * Z * string) :=
  let ret := if inviewchange (self w) then rsmc_BUSY else rsmc_OK in
  let ret := if negb (amiprimary (self w)) then rsmc_NOTPRIMARY else ret in
  let '(cf, slaves) := get_view (cfg (self w)) (vs_vid (myvs (self w))) in
  let w := put_self w (set_cfg (self w) cf) in
  let! '(w, res) := invoke_slaves w procno req slaves ret in
  match res with
  | inl ret => Val (w, ret, r0)
  | inr ret =>
      let! '(r, rep) := execute (advance (self w)) procno req in
      Val (put_self w r, ret, rep)
  end.

(** [joinreq]; [run] is the proposer as [config::add] calls it, with both
    locks released. *)
Definition joinreq (run : W -> Z -> list string -> string -> outcome (W * bool))
    (w : W) (m : string) (res : joinres) : outcome (W * joinres * Z) :=
  let '(cf, mem) := ismember (cfg (self w)) m (vid_commit (self w)) in
  let w := put_self w (set_cfg (self w) cf) in
  if mem then Val (w, Joinres (Acceptor.dump (acc (cfg (self w)))), rsm_OK)
  else if negb (String.eqb (myaddr (self w)) (primary (self w))) then Val (w, res, rsm_BUSY)
  else
    let! '(w, succ) := add (fun w => cfg (self w)) run w m (vid_commit (self w)) in
    let '(cf, mem) := ismember (cfg (self w)) m (myvid (cfg (self w))) in
    let w := put_self w (set_cfg (self w) cf) in
    if mem then Val (w, Joinres (Acceptor.dump (acc (cfg (self w)))), rsm_OK)
    else Val (w, res, rsm_BUSY).

End world.
End rsm.
Arguments rsm : clear implicits.
Arguments RsmNet : clear implicits.

End Rsm.
