(* ===== verification/RsmReplication.v ===== *)
(** * Replication within a view

    A primary and its backups over a network that loses, delays and repeats
    the calls [rsm::client_invoke] makes. The theorem shows that the nodes of a
    view never disagree about an executed request, which is what lets the next
    view start from the state of any of them. *)

From S2P Require Import Prelude.
From S2P Require Import Marshall.
From S2P Require Import Protocol.
From S2P Require Import Stubs.
From S2P Require Import PaxosLog.
From S2P Require Import Paxos.
From S2P Require Import Config.
From S2P Require Import Rsm.

Local Open Scope string_scope.
Local Open Scope Z_scope.

Module Replication.
Import Config Rsm.

Section replication.
Context `{Heap} {S : Type} `{!rsm_state_transfer S}.
Implicit Types (p b : rsm S).

(** ** The network *)

Record msg := Msg { g_to : string; g_proc : Z; g_vs : viewstamp; g_req : string }.

(** What happens to a call: before it, earlier requests (by their index) may
    be delivered, again or for the first time; then it is answered, or handled
    while its answer is lost, or it times out on the way, or there is no
    handle. *)
Inductive delivery := Delivered | ReplyLost | Delayed | NoHandle.
Record fate := Fate { late : list nat; how : delivery }.

Record net := Net {
  prim : rsm S;
  others : gmap string (rsm S);
  flight : list msg;
  fates : list fate;
}.

Definition set_others (w : net) (o : gmap string (rsm S)) : net :=
  Net (prim w) o (flight w) (fates w).
Definition set_fates (w : net) (fs : list fate) : net :=
  Net (prim w) (others w) (flight w) fs.
Definition set_node (w : net) (p : rsm S) : net := Net p (others w) (flight w) (fates w).
Definition push (w : net) (m : msg) : net :=
  Net (prim w) (others w) (app (flight w) [m]) (fates w).

(** A node whose handler fails goes down. *)
Definition deliver (w : net) (m : msg) : net * Z :=
  match others w !! g_to m with
  | None => (w, timeout_failure)
  | Some b =>
      match invoke b (g_proc m) (g_vs m) (g_req m) with
      | Val (b, st) => (set_others w (<[g_to m := b]> (others w)), st)
      | Fault _ => (set_others w (delete (g_to m) (others w)), timeout_failure)
      end
  end.

Fixpoint deliver_late (w : net) (idx : list nat) : net :=
  match idx with
  | [] => w
  | i :: idx =>
      deliver_late (match flight w !! i with Some m => (deliver w m).1 | None => w end) idx
  end.

Definition next_fate (w : net) : fate * net :=
  match fates w with
  | [] => (Fate [] Delayed, w)
  | f :: fs => (f, set_fates w fs)
  end.

Definition call_backup (w : net) (x : string) (proc : Z) (vs : viewstamp) (req : string)
    : net * option Z :=
  let '(f, w) := next_fate w in
  let w := deliver_late w (late f) in
  let m := Msg x proc vs req in
  match how f with
  | NoHandle => (w, None)
  | Delayed => (push w m, Some timeout_failure)
  | ReplyLost => ((deliver (push w m) m).1, Some timeout_failure)
  | Delivered => let '(w, st) := deliver (push w m) m in (w, Some st)
  end.

(** Reachability is part of the fates. *)
#[global] Instance replication_net : RsmNet S net := {|
  self := prim;
  put_self := set_node;
  net_invoke := call_backup;
  net_reachable w _ _ := w;
  net_rpcs_reachable w _ := w;
|}.

(** Clients call the primary; requests of earlier calls arrive late. *)
Inductive event := Invoke (proc : Z) (req : string) (fs : list fate) | Late (i : nat).

Definition run_event (w : net) (e : event) : outcome net :=
  match e with
  | Invoke proc req fs =>
      let! '(w, _, _) := client_invoke (set_fates w fs) proc req "" in Val w
  | Late i => Val (deliver_late w [i])
  end.

Fixpoint run_events (w : net) (es : list event) : outcome net :=
  match es with
  | [] => Val w
  | e :: es => let! w := run_event w e in run_events w es
  end.

(** ** Execution as a function of the object *)

Definition apply_request (ps : gmap Z (handler_fn S)) (s : S) (procno : Z) (req : string)
    : outcome (S * string) :=
  match (ps !! procno : option (handler_fn S)) with
  | None => Fault VerifyFailed
  | Some h =>
      let! args := take_content req in
      let! '(s, rep, ret) := h s args marshall_new in
      let! rep1 := put_int marshall_new ret in
      let! reps := str rep in
      let! rep1 := put_string rep1 reps in
      let! out := str rep1 in
      Val (s, out)
  end.

Lemma execute_bind r procno req :
  execute r procno req =
  let! '(s, out) := apply_request (procs r) (sobj r) procno req in Val (set_sobj r s, out).
Proof.
  unfold execute, apply_request.
  destruct (procs r !! procno) as [h|]; [|done].
  destruct (take_content req) as [args|]; cbn [obind]; [|done].
  destruct (h (sobj r) args marshall_new) as [[[s rep] ret]|]; cbn [obind]; [|done].
  destruct (put_int marshall_new ret) as [rep1|]; cbn [obind]; [|done].
  destruct (str rep) as [reps|]; cbn [obind]; [|done].
  destruct (put_string rep1 reps) as [rep2|]; cbn [obind]; [|done].
  by destruct (str rep2).
Qed.

Lemma execute_apply r procno req r' out :
  execute r procno req = Val (r', out) <->
  exists s, apply_request (procs r) (sobj r) procno req = Val (s, out) /\ r' = set_sobj r s.
Proof.
  rewrite execute_bind. destruct (apply_request _ _ _ _) as [[s o]|]; cbn [obind].
  - split; [intros [= <- <-]; by exists s|intros (? & [= <- <-] & ->); done].
  - by split; [|intros (? & ? & ?)].
Qed.

(** ** The invariant *)

Section view.
Context (ps : gmap Z (handler_fn S)) (v : Z) (view : list string) (me : string).

(** The names the primary calls, in this order. *)
Definition slaves : list string := filter (fun x => negb (String.eqb x me)) view.

(** What the protocol reads of the primary's state. *)
Record steady (p : rsm S) : Prop := {
  st_procs : procs p = ps;
  st_change : inviewchange p = false;
  st_primary : primary p = me;
  st_me : myaddr p = me;
  st_vid : vs_vid (myvs p) = v;
  st_view : members (default "" (values (acc (cfg p)) !! v)) = view;
}.

(** A backup is where the primary is, or it has executed the request in
    doubt [q] already. *)
Inductive standing (q : option (Z * string)) (p b : rsm S) : Prop :=
| Level : myvs b = myvs p -> last_myvs b = last_myvs p -> sobj b = sobj p -> standing q p b
| Ahead proc req out : q = Some (proc, req) ->
    myvs b = next_vs (myvs p) -> last_myvs b = myvs p ->
    apply_request ps (sobj p) proc req = Val (sobj b, out) -> standing q p b.

(** A request of the present view stamp to any but the first backup is the
    request in doubt. *)
Definition msg_ok (q : option (Z * string)) (p : rsm S) (m : msg) : Prop :=
  g_to m ∈ slaves /\ vs_vid (g_vs m) = v /\ vs_seqno (g_vs m) <= vs_seqno (myvs p) /\
  (g_vs m = myvs p -> Some (g_to m) <> head slaves -> q = Some (g_proc m, g_req m)).

Record inv (q : option (Z * string)) (w : net) : Prop := {
  inv_prim : steady (prim w);
  inv_seqno : 0 <= vs_seqno (myvs (prim w)) < 2 ^ 32 - 1;
  inv_last : last_myvs (prim w) <> myvs (prim w);
  inv_others : forall x b, others w !! x = Some b ->
    x ∈ slaves /\ inviewchange b = false /\ procs b = ps /\ standing q (prim w) b;
  inv_flight : forall m, m ∈ flight w -> msg_ok q (prim w) m;
  inv_head : forall x b, head slaves = Some x -> others w !! x = Some b ->
    (q <> None <-> myvs b = next_vs (myvs (prim w)));
  inv_doubt : forall X, q = Some X ->
    exists m, m ∈ flight w /\ g_vs m = myvs (prim w) /\ X = (g_proc m, g_req m);
}.

Lemma next_vs_seqno vs : 0 <= vs_seqno vs < 2 ^ 32 - 1 -> vs_seqno (next_vs vs) = vs_seqno vs + 1.
Proof. intros Hv. unfold next_vs. simpl. apply u32_id. unfold is_u32. lia. Qed.

Lemma next_vs_ne vs : 0 <= vs_seqno vs < 2 ^ 32 - 1 -> next_vs vs <> vs.
Proof. intros Hv%next_vs_seqno E. rewrite E in Hv. lia. Qed.

Lemma vs_neqb_spec (a b : viewstamp) : vs_neqb a b = false <-> a = b.
Proof.
  unfold vs_neqb. rewrite orb_false_iff, !negb_false_iff, !Z.eqb_eq.
  destruct a, b; simpl. split; [intros [-> ->]|intros [= -> ->]]; done.
Qed.

(** [invoke] on a node out of a view change. *)
Lemma invoke_cases b proc vs req :
  inviewchange b = false ->
  (vs <> myvs b /\ invoke b proc vs req = Val (b, rsm_ERR)) \/
  (vs = myvs b /\ exists f, invoke b proc vs req = Fault f) \/
  (vs = myvs b /\ exists s out, apply_request (procs b) (sobj b) proc req = Val (s, out) /\
     invoke b proc vs req = Val (set_sobj (advance b) s, rsm_OK)).
Proof.
  intros Hc. unfold invoke. rewrite Hc. destruct (vs_neqb vs (myvs b)) eqn:E.
  - left. split; [|done]. intros ->. by rewrite (proj2 (vs_neqb_spec _ _) eq_refl) in E.
  - apply vs_neqb_spec in E. right.
    destruct (execute (advance b) proc req) as [[b' out]|f] eqn:He; simpl; [|left; eauto].
    pose proof He as (s & Ha & ->)%execute_apply.
    unfold breakpoint1. simpl. destruct (rbreak1 (test b)); simpl; [left; eauto|].
    right. split; [done|]. exists s, out. by split.
Qed.

(** What a delivery leaves as it was. *)
Record same_frame (w w' : net) : Prop := {
  sf_prim : prim w' = prim w;
  sf_flight : flight w' = flight w;
  sf_fates : fates w' = fates w;
}.

Lemma set_others_frame w o : same_frame w (set_others w o).
Proof. by split. Qed.

(** The nodes that have executed the request in doubt stay as they are. *)
Definition keeps_ahead (w w' : net) : Prop :=
  forall x b, others w !! x = Some b -> myvs b = next_vs (myvs (prim w)) -> others w' !! x = Some b.

Definition grows_doubt (q q' : option (Z * string)) : Prop := forall X, q = Some X -> q' = Some X.

Lemma msg_ok_grows q q' p m : grows_doubt q q' -> msg_ok q p m -> msg_ok q' p m.
Proof. intros Hg (? & ? & ? & Hq). split_and!; auto. Qed.

Lemma standing_grows q q' p b : grows_doubt q q' -> standing q p b -> standing q' p b.
Proof. intros Hg [|]; [by apply Level|]. eapply Ahead; eauto. Qed.

(** A delivery that changes nothing but takes the node down. *)
Lemma inv_delete q w x : inv q w -> inv q (set_others w (delete x (others w))).
Proof.
  intros [Hp Hn Hla0 Ho Hf Hh Hdb]. split; simpl; try done.
  - intros y b [_ Hy]%lookup_delete_Some. by apply Ho.
  - intros y b Hy [_ Hb]%lookup_delete_Some. by eapply Hh.
Qed.

(** A level backup executes a request that may be in doubt. *)
Lemma inv_execute q w m b s out :
  inv q w -> msg_ok q (prim w) m -> m ∈ flight w -> others w !! g_to m = Some b ->
  g_vs m = myvs b -> apply_request ps (sobj b) (g_proc m) (g_req m) = Val (s, out) ->
  let q' := Some (g_proc m, g_req m) in
  inv q' (set_others w (<[g_to m := set_sobj (advance b) s]> (others w))) /\
  grows_doubt q q' /\ g_vs m = myvs (prim w).
Proof.
  intros [Hp Hn Hla0 Ho Hf Hh Hdb] Hm Hmf Hb Hvs Ha q'.
  destruct (Ho _ _ Hb) as (Hin & Hc & Hps & Hst). destruct Hm as (_ & Hv & Hle & Hq).
  assert (standing None (prim w) b) as Hlev.
  { destruct Hst as [| ? ? ? ? Hnext]; [by apply Level|].
    rewrite Hvs, Hnext, next_vs_seqno in Hle by done. lia. }
  destruct Hlev as [Hmy Hla Hob|]; [|done].
  assert (g_vs m = myvs (prim w)) as Hcur by congruence.
  assert (grows_doubt q q') as Hg.
  { intros X HX. destruct (decide (Some (g_to m) = head slaves)) as [He|He].
    - assert (q <> None) as HqN by (rewrite HX; done).
      apply (Hh _ _ (eq_sym He) Hb) in HqN. rewrite Hmy in HqN.
      by destruct (next_vs_ne (myvs (prim w)) Hn).
    - rewrite (Hq Hcur He) in HX. by injection HX as <-. }
  split_and!; [|done|done]. split; simpl; try done.
  - intros x c [[<- <-]|[Hne Hx]]%lookup_insert_Some.
    + split_and!; [done|done|done|]. eapply Ahead; [done| | |]; simpl.
      * by rewrite Hmy.
      * done.
      * by rewrite <-Hob.
    + destruct (Ho _ _ Hx) as (? & ? & ? & ?). split_and!; try done. by eapply standing_grows.
  - intros m' Hm'. eapply msg_ok_grows; [done|by apply Hf].
  - intros x c Hx [[<- <-]|[Hne Hc']]%lookup_insert_Some.
    + simpl. by rewrite Hmy.
    + assert (q <> None); [|].
      { rewrite (Hq Hcur); [done|]. rewrite Hx. congruence. }
      split; [intros _; by eapply (Hh _ _ Hx Hc')|done].
  - intros X [= <-]. by exists m.
Qed.

Lemma deliver_inv q w m :
  inv q w -> m ∈ flight w ->
  exists q', inv q' (deliver w m).1 /\ same_frame w (deliver w m).1 /\ grows_doubt q q' /\
    keeps_ahead w (deliver w m).1 /\
    ((deliver w m).2 = rsm_OK ->
       q' = Some (g_proc m, g_req m) /\
       exists b, others (deliver w m).1 !! g_to m = Some b /\ myvs b = next_vs (myvs (prim w))).
Proof.
  intros Hi Hmf. pose proof (inv_flight _ _ Hi _ Hmf) as Hm.
  unfold deliver. destruct (others w !! g_to m) as [b|] eqn:Hb.
  2: { exists q. split_and!; [done|by split|by intros ?|by intros ?|done]. }
  destruct (inv_others _ _ Hi _ _ Hb) as (Hin & Hc & Hps & Hst).
  assert (g_vs m = myvs b -> myvs b <> next_vs (myvs (prim w))) as Hno.
  { intros E E'. destruct Hm as (_ & _ & Hle & _). pose proof (inv_seqno _ _ Hi) as Hn.
    rewrite E, E', next_vs_seqno in Hle by done. lia. }
  destruct (invoke_cases b (g_proc m) (g_vs m) (g_req m) Hc)
    as [[Hne ->]|[(Hvs & f & ->)|(Hvs & s & out & Ha & ->)]]; simpl.
  - exists q. rewrite insert_id by done. split_and!; [by destruct w|by split|by intros ?| |done].
    by intros ?.
  - exists q. split_and!; [by apply inv_delete|by split|by intros ?| |done].
    intros x c Hx Hn. simpl. rewrite lookup_delete_ne; [done|]. intros <-. simplify_eq. by apply Hno.
  - rewrite Hps in Ha. destruct (inv_execute _ _ _ _ _ _ Hi Hm Hmf Hb Hvs Ha) as (Hi' & Hg & Hcur).
    eexists. split_and!; [exact Hi'|by split|done| |].
    + intros x c Hx Hn. simpl. rewrite lookup_insert_ne; [done|]. intros <-. simplify_eq.
      by apply Hno.
    + intros _. split; [done|]. eexists. split; [apply lookup_insert_eq|]. simpl.
      by rewrite <-Hvs, Hcur.
Qed.

(** What follows from a delivery, without its answer. *)
Definition evolves (q : option (Z * string)) (w w' : net) : Prop :=
  exists q', inv q' w' /\ prim w' = prim w /\ grows_doubt q q' /\ keeps_ahead w w'.

Lemma evolves_trans q w1 w2 w3 q2 :
  grows_doubt q q2 -> prim w2 = prim w1 -> keeps_ahead w1 w2 ->
  evolves q2 w2 w3 -> evolves q w1 w3.
Proof.
  intros Hg Hp Hk (q3 & Hi & Hp3 & Hg3 & Hk3). exists q3. split_and!; [done|congruence| |].
  - intros X HX. by apply Hg3, Hg.
  - intros x b Hx Hn. apply Hk3; [by apply Hk|by rewrite Hp].
Qed.

Lemma evolves_refl q w : inv q w -> evolves q w w.
Proof. intros Hi. exists q. by split_and!; try intros ?. Qed.

Lemma deliver_late_inv idx : forall q w, inv q w -> evolves q w (deliver_late w idx).
Proof.
  induction idx as [|i idx IH]; intros q w Hi; simpl; [by apply evolves_refl|].
  destruct (flight w !! i) as [m|] eqn:Hm; [|by apply IH].
  destruct (deliver_inv q w m Hi) as (q' & Hi' & Hf & Hg & Hk & _).
  { by eapply list_elem_of_lookup_2. }
  eapply evolves_trans; [done|apply (sf_prim _ _ Hf)|done|by apply IH].
Qed.

Lemma inv_set_fates q w fs : inv q w -> inv q (set_fates w fs).
Proof. intros [? ? ? ? ? ? ?]. by split. Qed.

Lemma inv_push q w m : inv q w -> msg_ok q (prim w) m -> inv q (push w m).
Proof.
  intros [Hp Hn Hla0 Ho Hf Hh Hdb] Hm. split; simpl; try done.
  - intros m' [Hm'|Hm']%elem_of_app; [by apply Hf|]. by apply list_elem_of_singleton in Hm' as ->.
  - intros X (m' & ? & ? & ?)%Hdb. exists m'. split_and!; [|done|done]. apply elem_of_app. by left.
Qed.

(** A call: the invariant is kept, and an OK means that the callee has
    executed just this request. *)
Lemma call_backup_inv q w x proc req :
  inv q w -> x ∈ slaves -> (Some x <> head slaves -> q = Some (proc, req)) ->
  exists q', inv q' (call_backup w x proc (myvs (prim w)) req).1 /\
    prim (call_backup w x proc (myvs (prim w)) req).1 = prim w /\ grows_doubt q q' /\
    keeps_ahead w (call_backup w x proc (myvs (prim w)) req).1 /\
    ((call_backup w x proc (myvs (prim w)) req).2 = Some rsm_OK ->
       q' = Some (proc, req) /\
       exists b, others (call_backup w x proc (myvs (prim w)) req).1 !! x = Some b /\
         myvs b = next_vs (myvs (prim w))).
Proof.
  intros Hi Hx Hq. unfold call_backup.
  assert (exists f w0, next_fate w = (f, w0) /\ inv q w0 /\ prim w0 = prim w /\
            others w0 = others w) as (f & w0 & -> & Hi0 & Hp0 & Ho0).
  { unfold next_fate. destruct (fates w); eexists _, _; split_and!; try done.
    by apply inv_set_fates. }
  destruct (deliver_late_inv (late f) q w0 Hi0) as (q1 & Hi1 & Hp1 & Hg1 & Hk1).
  set (w1 := deliver_late w0 (late f)) in *. set (m := Msg x proc (myvs (prim w)) req).
  assert (prim w1 = prim w) as Hp by congruence.
  assert (keeps_ahead w w1) as Hk.
  { intros y b Hy Hn. apply Hk1; [by rewrite Ho0|by rewrite Hp0]. }
  assert (msg_ok q1 (prim w1) m) as Hm.
  { rewrite Hp. split_and!; [done|apply (inv_prim _ _ Hi)|done|]. intros _ Hne. by apply Hg1, Hq. }
  pose proof (inv_push _ _ _ Hi1 Hm) as Hip.
  destruct (deliver_inv q1 (push w1 m) m Hip) as (q2 & Hi2 & Hf2 & Hg2 & Hk2 & Hok).
  { apply elem_of_app. right. by left. }
  assert (keeps_ahead w (deliver (push w1 m) m).1) as Hkd.
  { intros y b Hy Hn. apply Hk2; [by apply Hk|simpl; by rewrite Hp]. }
  destruct (how f); simpl.
  - destruct (deliver (push w1 m) m) as [w2 st] eqn:E. simpl in *.
    exists q2. split_and!; [done|by rewrite (sf_prim _ _ Hf2)|by intros X HX; apply Hg2, Hg1|done|].
    intros [= ->]. destruct (Hok eq_refl) as (-> & b & Hb & Hn). split; [done|].
    exists b. by rewrite Hp in Hn.
  - exists q2. split_and!; [done|by rewrite (sf_prim _ _ Hf2)|by intros X HX; apply Hg2, Hg1|done|done].
  - exists q1. by split_and!.
  - exists q1. by split_and!.
Qed.

(** Steps of the primary that the protocol does not see. *)
Record same_core (p p' : rsm S) : Prop := {
  sc_steady : steady p -> steady p';
  sc_myvs : myvs p' = myvs p;
  sc_last : last_myvs p' = last_myvs p;
  sc_sobj : sobj p' = sobj p;
}.

Lemma replication_inv_core q w p' : same_core (prim w) p' -> inv q w -> inv q (set_node w p').
Proof.
  intros [Hs Hm Hl Ho'] [Hp Hn Hla0 Ho Hf Hh Hdb]. split; simpl; rewrite ?Hm, ?Hl; auto.
  - intros x b Hx. destruct (Ho _ _ Hx) as (? & ? & ? & Hst). split_and!; try done.
    destruct Hst; [apply Level|eapply Ahead]; rewrite ?Hm, ?Hl, ?Ho'; done.
  - intros m Hm'. destruct (Hf _ Hm') as (? & ? & ? & ?). unfold msg_ok. by rewrite Hm.
Qed.

Lemma same_core_get_view p i : same_core p (set_cfg p (get_view (cfg p) i).1).
Proof.
  split; try done. intros [? ? ? ? ? Hv]. split; try done.
  - unfold myaddr, get_view, get_view_wo in *. simpl. by destruct (Acceptor.value _ _).
  - rewrite <-Hv. f_equal. unfold get_view, get_view_wo, Acceptor.value. simpl.
    pose proof (touch_lookup (acc (cfg p)) i v) as [Ht _].
    by destruct (Acceptor.touch (acc (cfg p)) i).
Qed.

Lemma same_core_trans p1 p2 p3 : same_core p1 p2 -> same_core p2 p3 -> same_core p1 p3.
Proof. intros [] []. split; auto; congruence. Qed.

Lemma repair_members_id (w : net) x m heal : repair_members w x m heal = w.
Proof. revert w. induction m as [|y m IH]; intros w; simpl; [done|]. by destruct (String.eqb y x). Qed.

Lemma partition1_core (w : net) :
  exists p', partition1 w = set_node w p' /\ same_core (prim w) p'.
Proof.
  unfold partition1, net_repair_wo. simpl. destruct (dopartition (test (prim w))).
  2: { exists (prim w). split; [by destruct w|by split]. }
  pose proof (same_core_get_view (prim w) (vid_commit (prim w))) as Hg.
  destruct (get_view _ _) as [cf m]. rewrite repair_members_id. simpl in *.
  eexists. split; [done|]. eapply same_core_trans; [exact Hg|].
  split; try done. by intros [].
Qed.

(** The loop of [client_invoke]: [done] are the backups that have answered. *)
Lemma invoke_slaves_inv proc req rest : forall (dn : list string) q (w w' : net) ret res,
  inv q w -> slaves = app dn (filter (fun x => negb (String.eqb x me)) rest) ->
  (forall x, x ∈ dn -> exists b, others w !! x = Some b /\ myvs b = next_vs (myvs (prim w))) ->
  (dn <> [] -> q = Some (proc, req)) ->
  invoke_slaves w proc req rest ret = Val (w', res) ->
  exists q', inv q' w' /\ same_core (prim w) (prim w') /\
    (forall ret', res = inr ret' ->
       (ret' = ret \/ ret' = rsm_OK) /\ (slaves <> [] -> q' = Some (proc, req)) /\
       forall x, x ∈ slaves -> exists b, others w' !! x = Some b /\ myvs b = next_vs (myvs (prim w'))).
Proof.
  induction rest as [|x rest IH]; intros dn q w w' ret res Hi Hsl Hdn Hq Hrun; simpl in Hrun.
  { injection Hrun as <- <-. exists q. rewrite app_nil_r in Hsl. rewrite Hsl.
    split_and!; [done|by split|]. intros ? [= <-]. split_and!; [by left|done|done]. }
  rewrite (st_me _ (inv_prim _ _ Hi)) in Hrun. rewrite filter_cons in Hsl.
  destruct (String.eqb_spec x me) as [->|Hne]; simpl in Hsl.
  { by eapply IH. }
  assert (x ∈ slaves) as Hx by (rewrite Hsl; set_solver).
  assert (Some x <> head slaves -> q = Some (proc, req)) as Hhd.
  { intros Hh. apply Hq. intros ->. by rewrite Hsl in Hh. }
  destruct (call_backup_inv q w x proc req Hi Hx Hhd) as (q1 & Hi1 & Hp1 & Hg1 & Hk1 & Hok).
  destruct (call_backup w x proc (myvs (prim w)) req) as [w1 [st|]]; simpl in *.
  2: { injection Hrun as <- <-. exists q1. rewrite Hp1. split_and!; [done|by split|done]. }
  destruct (Z.eqb_spec st rsm_OK) as [Est|Hst]; simpl in Hrun.
  2: { injection Hrun as <- <-. exists q1. rewrite Hp1. split_and!; [done|by split|done]. }
  rewrite Est in Hok, Hrun. destruct (Hok eq_refl) as (-> & b & Hb & Hn).
  apply obind_val in Hrun as (? & _ & Hrun).
  destruct (partition1_core w1) as (p' & Hpart & Hcore). rewrite Hpart in Hrun.
  rewrite Hp1 in Hcore.
  eapply (IH (app dn [x]) (Some (proc, req))) in Hrun as (q' & Hi' & Hc' & Hres).
  - exists q'. split_and!; [done|by eapply same_core_trans|].
    intros ret' Hr. destruct (Hres _ Hr) as ([->| ->] & ? & ?); split_and!; auto.
  - apply replication_inv_core; [by rewrite Hp1|done].
  - by rewrite <-app_assoc.
  - simpl. rewrite (sc_myvs _ _ Hcore).
    intros y [Hy|Hy%list_elem_of_singleton]%elem_of_app; [|subst y; eauto].
    destruct (Hdn _ Hy) as (c & Hc & Hcn). exists c. split; [by apply Hk1|done].
  - done.
Qed.

(** All backups have executed the request; the primary follows. *)
Lemma inv_finish q (w : net) proc req s out :
  inv q w -> vs_seqno (myvs (prim w)) + 1 < 2 ^ 32 - 1 ->
  (slaves <> [] -> q = Some (proc, req)) ->
  (forall x, x ∈ slaves -> exists b, others w !! x = Some b /\ myvs b = next_vs (myvs (prim w))) ->
  apply_request ps (sobj (prim w)) proc req = Val (s, out) ->
  let w' := set_node w (set_sobj (advance (prim w)) s) in
  inv None w' /\ forall x, x ∈ slaves -> exists b, others w' !! x = Some b /\ standing None (prim w') b.
Proof.
  intros [Hp Hn Hla0 Ho Hf Hh Hdb] Hb Hq Hall Ha w'.
  pose proof (next_vs_seqno _ Hn) as Hnx.
  assert (forall x b, others w !! x = Some b -> standing None (prim w') b) as Hlev.
  { intros x b Hx. destruct (Ho _ _ Hx) as (Hin & _ & _ & Hst).
    destruct (Hall _ Hin) as (b' & Hb' & Hnb). simplify_eq.
    destruct Hst as [E|? ? ? E ? ? Ha'].
    - rewrite E in Hnb. symmetry in Hnb. by apply next_vs_ne in Hnb.
    - rewrite Hq in E; [|intros E'; by rewrite E' in Hin; apply elem_of_nil in Hin].
      injection E as <- <-. rewrite Ha in Ha'. injection Ha' as -> ->. by apply Level. }
  split; [split|].
  - destruct Hp. by split.
  - simpl in *. lia.
  - intros E. by destruct (next_vs_ne _ Hn).
  - intros x b Hx. destruct (Ho _ _ Hx) as (? & ? & ? & _). split_and!; try done. by eapply Hlev.
  - intros m Hm. destruct (Hf _ Hm) as (? & ? & Hle & _). simpl in Hnx.
    split_and!; [done|done|simpl; lia|]. intros E. rewrite E in Hle. simpl in Hle. lia.
  - intros x b Hx Hb'. split; [done|]. destruct (Hlev _ _ Hb') as [E|]; [|done].
    intros E'. rewrite E in E'. simpl in E'. symmetry in E'. apply next_vs_ne in E'; [done|].
    simpl in Hnx |- *. lia.
  - done.
  - intros x Hx. destruct (Hall _ Hx) as (b & Hb' & _). exists b. split; [done|]. by eapply Hlev.
Qed.

Lemma early_return_busy proc req sl : forall (w0 w' : net) ret e,
  invoke_slaves w0 proc req sl ret = Val (w', inl e) -> e = rsmc_BUSY.
Proof.
  induction sl as [|x sl IH]; intros w0 w' ret e Hr; simpl in Hr; [done|].
  destruct (String.eqb x _); [by eapply IH|].
  destruct (call_backup _ _ _ _ _) as [w1 [st|]]; [|by injection Hr].
  destruct (negb _); [by injection Hr|]. apply obind_val in Hr as (? & _ & Hr). by eapply IH.
Qed.

Lemma client_invoke_inv q (w w' : net) proc req (r0 : string) ret rep :
  inv q w -> vs_seqno (myvs (prim w)) + 1 < 2 ^ 32 - 1 ->
  client_invoke w proc req r0 = Val (w', ret, rep) ->
  exists q', inv q' w' /\ vs_seqno (myvs (prim w')) <= vs_seqno (myvs (prim w)) + 1 /\
    (ret = rsmc_OK ->
       apply_request ps (sobj (prim w)) proc req = Val (sobj (prim w'), rep) /\
       forall x, x ∈ slaves -> exists b, others w' !! x = Some b /\
         sobj b = sobj (prim w') /\ myvs b = myvs (prim w') /\ last_myvs b = last_myvs (prim w')) /\
    (ret = rsmc_OK ->
       last_myvs (prim w') = myvs (prim w) /\ q' = None /\ forall m, m ∈ flight w' -> g_vs m <> myvs (prim w')) /\
    (ret <> rsmc_OK ->
       myvs (prim w') = myvs (prim w) /\ last_myvs (prim w') = last_myvs (prim w) /\
       sobj (prim w') = sobj (prim w)).
Proof.
  intros Hi Hn Hrun. unfold client_invoke in Hrun. simpl in Hrun.
  pose proof (inv_prim _ _ Hi) as [_ Hch Hpr Hme Hvid Hview].
  unfold amiprimary in Hrun. rewrite Hch, Hpr, Hme, String.eqb_refl in Hrun. simpl in Hrun.
  pose proof (same_core_get_view (prim w) v) as Hcore. rewrite Hvid in Hrun.
  assert ((get_view (cfg (prim w)) v).2 = view) as Hv.
  { unfold get_view, get_view_wo, Acceptor.value. pose proof (touch_value (acc (cfg (prim w))) v) as Ht.
    destruct (Acceptor.touch _ _) as [a x]. simpl in *. by rewrite Ht. }
  destruct (get_view (cfg (prim w)) v) as [cf sl]. simpl in Hv. subst sl.
  apply obind_val in Hrun as ([w1 res] & Hsl & Hrun).
  assert (forall e, res = inl e -> e = rsmc_BUSY) as Hbusy.
  { intros e ->. by eapply early_return_busy. }
  apply (invoke_slaves_inv proc req view [] q) in Hsl as (q1 & Hi1 & Hc1 & Hres);
    [|by apply replication_inv_core|done|by intros ? ?%not_elem_of_nil|done].
  simpl in Hc1. pose proof (same_core_trans _ _ _ Hcore Hc1) as Hc.
  destruct res as [early|r1].
  - injection Hrun as -> <- <-. exists q1. rewrite (sc_myvs _ _ Hc). split_and!; [done|lia| | |].
    + intros E. by rewrite (Hbusy _ eq_refl) in E.
    + intros E. by rewrite (Hbusy _ eq_refl) in E.
    + intros _. destruct Hc as [_ ? ? ?]. done.
  - destruct (Hres _ eq_refl) as (Hret & Hq & Hall).
    apply obind_val in Hrun as ([p' out] & Hex & Hrun). injection Hrun as <- <- <-.
    apply execute_apply in Hex as (s & Ha & ->). simpl in Ha.
    rewrite (st_procs _ (inv_prim _ _ Hi1)) in Ha.
    destruct (inv_finish q1 w1 proc req s out Hi1) as (Hi' & Hall'); try done.
    { by rewrite (sc_myvs _ _ Hc). }
    assert (r1 = rsmc_OK) as -> by (by destruct Hret as [->| ->]).
    exists None. split_and!; [done| | | |done].
    + simpl. rewrite (sc_myvs _ _ Hc). pose proof (inv_seqno _ _ Hi). rewrite u32_id; unfold is_u32; lia.
    + intros _. simpl. rewrite (sc_sobj _ _ Hc) in Ha. split; [done|].
      intros x Hx. destruct (Hall' x Hx) as (b & Hb & [? ? ?|]); [|done]. by exists b.
    + intros _. split_and!; [apply (sc_myvs _ _ Hc)|done|]. intros m Hm E.
      destruct (inv_flight _ _ Hi1 m Hm) as (_ & _ & Hle & _). rewrite E in Hle.
      pose proof (next_vs_seqno _ (inv_seqno _ _ Hi1)) as Hnx. simpl in Hle, Hnx. lia.
Qed.

(** ** The theorems *)

(** A view after recovery: every node has the same stamps and the same
    object, and nothing is on its way. *)
Record ready (w : net) : Prop := {
  rd_prim : steady (prim w);
  rd_seqno : 0 <= vs_seqno (myvs (prim w)) < 2 ^ 32 - 1;
  rd_last : last_myvs (prim w) <> myvs (prim w);
  rd_others : forall x b, others w !! x = Some b ->
    x ∈ slaves /\ inviewchange b = false /\ procs b = ps /\
    myvs b = myvs (prim w) /\ last_myvs b = last_myvs (prim w) /\ sobj b = sobj (prim w);
  rd_flight : flight w = [];
}.

Lemma ready_inv w : ready w -> inv None w.
Proof.
  intros [Hp Hn Hl Ho Hf]. split; try done.
  - intros x b Hx. destruct (Ho _ _ Hx) as (? & ? & ? & ? & ? & ?). split_and!; try done.
    by apply Level.
  - rewrite Hf. by intros m ?%not_elem_of_nil.
  - intros x b _ Hx. destruct (Ho _ _ Hx) as (_ & _ & _ & E & _). rewrite E.
    split; [done|]. intros E'. symmetry in E'. by apply next_vs_ne in E'.
Qed.

Lemma run_events_inv es : forall q w w',
  inv q w -> vs_seqno (myvs (prim w)) + Z.of_nat (length es) < 2 ^ 32 - 1 ->
  run_events w es = Val w' ->
  exists q', inv q' w' /\
    vs_seqno (myvs (prim w')) <= vs_seqno (myvs (prim w)) + Z.of_nat (length es).
Proof.
  induction es as [|e es IH]; intros q w w' Hi Hn Hrun; cbn [run_events length] in *.
  { injection Hrun as <-. exists q. split; [done|lia]. }
  apply obind_val in Hrun as (w1 & He & Hrun).
  assert (exists q1, inv q1 w1 /\ vs_seqno (myvs (prim w1)) <= vs_seqno (myvs (prim w)) + 1)
    as (q1 & Hi1 & Hn1).
  { destruct e as [proc req fs|i]; simpl in He.
    - apply obind_val in He as ([[w2 ret] rep] & Hc & [= ->]).
      eapply client_invoke_inv in Hc as (q1 & ? & ? & _); [eauto|by apply inv_set_fates|simpl; lia].
    - injection He as <-. destruct (deliver_late_inv [i] q w Hi) as (q1 & ? & Hp & _).
      exists q1. split; [done|]. simpl in Hp. rewrite Hp. lia. }
  apply (IH _ _ _ Hi1) in Hrun as (q2 & ? & ?); [|lia]. exists q2. split; [done|lia].
Qed.

(** The nodes of the view that are up. *)
Definition node (w : net) (b : rsm S) : Prop := b = prim w \/ exists x, others w !! x = Some b.

Lemma standing_agree q w a b :
  inv q w -> node w a -> node w b -> last_myvs a = last_myvs b -> sobj a = sobj b.
Proof.
  intros Hi Ha Hb. pose proof (inv_last _ _ Hi) as Hl.
  assert (forall c, node w c -> standing q (prim w) c) as Hst.
  { intros c [->|[x Hx]]; [by apply Level|]. by apply (inv_others _ _ Hi) in Hx as (_ & _ & _ & ?). }
  destruct (Hst _ Ha) as [? ? ?|p1 r1 o1 Hq1 ? ? E1], (Hst _ Hb) as [? ? ?|p2 r2 o2 Hq2 ? ? E2];
    intros E; [congruence|congruence|congruence|].
  rewrite Hq1 in Hq2. injection Hq2 as -> ->. rewrite E1 in E2. by injection E2.
Qed.

(** C3: the nodes of a view do not disagree. The clients' requests reach the
    primary one after the other; each of the calls it makes to the backups is
    answered, handled without an answer, lost or delivered (again) much later,
    backups go down, and the primary gives up where [client_invoke] does. Then
    (1) two nodes whose last executed view stamp is the same have the same
    object, which is why [transferreq] may omit the state for equal stamps;
    (2) a backup has executed what the primary has, or one request more; and
    (3) when a request is answered with OK, its reply is that of the handler on
    the primary's object, and every backup of the view is up and has executed
    the same requests as the primary, this one included. The number of
    requests keeps the sequence number from wrapping around. *)
Theorem replicas_agree (w0 w : net) (es : list event) :
  ready w0 -> vs_seqno (myvs (prim w0)) + Z.of_nat (length es) + 1 < 2 ^ 32 - 1 ->
  run_events w0 es = Val w ->
  (forall a b, node w a -> node w b -> last_myvs a = last_myvs b -> sobj a = sobj b) /\
  (forall x b, others w !! x = Some b ->
     myvs b = myvs (prim w) /\ sobj b = sobj (prim w) \/
     myvs b = next_vs (myvs (prim w)) /\
     exists proc req out, apply_request ps (sobj (prim w)) proc req = Val (sobj b, out)) /\
  (forall fs proc req w' rep,
     client_invoke (set_fates w fs) proc req "" = Val (w', rsmc_OK, rep) ->
     apply_request ps (sobj (prim w)) proc req = Val (sobj (prim w'), rep) /\
     forall x, x ∈ slaves -> exists b, others w' !! x = Some b /\ sobj b = sobj (prim w') /\
       myvs b = myvs (prim w') /\ last_myvs b = last_myvs (prim w')).
Proof.
  intros Hr Hn Hrun.
  destruct (run_events_inv es None w0 w (ready_inv _ Hr)) as (q & Hi & Hle); [lia|done|].
  split_and!.
  - intros a b. by apply (standing_agree q).
  - intros x b Hx. apply (inv_others _ _ Hi) in Hx as (_ & _ & _ & [? ? ?|]); [by left|right; eauto].
  - intros fs proc req w' rep Hc.
    eapply client_invoke_inv in Hc as (_ & _ & _ & Hok & _);
      [by apply Hok|by apply inv_set_fates|simpl; lia].
Qed.

(** One state transfer makes a new view start from one state. Take any
    two nodes of a view in which requests ran as above, with calls lost and
    nodes down. When both take part in the synchronisation of a later view, the
    answer of the one to the other's [transferreq] leaves the other with the
    same object and the same last view stamp, although the state is omitted
    when the stamps are equal; while the node does not synchronise, or for
    another view, the request is answered BUSY. *)
Theorem transfer_equalises `{!StateTransferLaws S} (w0 w : net) (es : list event)
    (a b : rsm S) (vid vid' : Z) (res0 : transferres) :
  ready w0 -> vs_seqno (myvs (prim w0)) + Z.of_nat (length es) < 2 ^ 32 - 1 ->
  run_events w0 es = Val w -> node w a -> node w b -> stf a = true -> stf b = true ->
  vid' <> vid ->
  let sync r := set_sync r true true vid vid in
  (exists res b', transferreq (sync a) (last_myvs (sync b)) vid res0 = (res, rsm_OK) /\
     statetransfer (sync b) (Some (rsm_OK, res)) = (b', true) /\
     sobj b' = sobj a /\ last_myvs b' = last_myvs a) /\
  (transferreq (sync a) (last_myvs (sync b)) vid' res0).2 = rsm_BUSY /\
  (transferreq (set_sync a false true vid vid) (last_myvs (sync b)) vid res0).2 = rsm_BUSY.
Proof.
  intros Hr Hn Hrun Ha Hb Hsa Hsb Hne sync.
  destruct (run_events_inv es None w0 w (ready_inv _ Hr)) as (q & Hi & _); [lia|done|].
  split_and!.
  - unfold transferreq, statetransfer. simpl. rewrite Z.eqb_refl, Hsa, Hsb. simpl.
    eexists _, _. split; [reflexivity|]. simpl. split; [reflexivity|].
    destruct (vs_neqb (last_myvs b) (last_myvs a)) eqn:E; simpl.
    + by rewrite unmarshal_marshal.
    + apply vs_neqb_spec in E. split; [by apply (standing_agree q w b a)|done].
  - unfold transferreq. simpl. by rewrite (proj2 (Z.eqb_neq _ _) Hne).
  - done.
Qed.

(** Every call is answered at once. *)
Definition prompt (n : nat) : list fate := replicate n (Fate [] Delivered).

(** A backup that will execute the next request. *)
Definition able (p b : rsm S) : Prop :=
  inviewchange b = false /\ procs b = ps /\ myvs b = myvs p /\ sobj b = sobj p /\
  rbreak1 (test b) = false.

Lemma call_able (w : net) x proc req b s out fs :
  fates w = Fate [] Delivered :: fs -> others w !! x = Some b -> able (prim w) b ->
  apply_request ps (sobj (prim w)) proc req = Val (s, out) ->
  call_backup w x proc (myvs (prim w)) req =
    (Net (prim w) (<[x := set_sobj (advance b) s]> (others w))
         (app (flight w) [Msg x proc (myvs (prim w)) req]) fs, Some rsm_OK).
Proof.
  intros Hf Hx (Hc & Hps & Hvs & Hob & Hbr) Ha. unfold call_backup, next_fate. rewrite Hf.
  cbn [late how deliver_late]. unfold deliver. simpl. rewrite Hx.
  unfold invoke. rewrite Hc, (proj2 (vs_neqb_spec _ _) (eq_sym Hvs)).
  rewrite execute_bind. simpl. rewrite Hps, Hob, Ha. simpl. unfold breakpoint1. simpl.
  by rewrite Hbr.
Qed.

Lemma invoke_slaves_prompt proc req s out rest : forall (w : net) ret,
  NoDup rest -> myaddr (prim w) = me -> rbreak1 (test (prim w)) = false ->
  dopartition (test (prim w)) = false ->
  fates w = prompt (length (filter (fun x => negb (String.eqb x me)) rest)) ->
  apply_request ps (sobj (prim w)) proc req = Val (s, out) ->
  (forall x, x ∈ rest -> x <> me -> exists b, others w !! x = Some b /\ able (prim w) b) ->
  exists w' r', invoke_slaves w proc req rest ret = Val (w', inr r') /\
    (ret = rsm_OK -> r' = rsm_OK) /\ prim w' = prim w /\
    (forall x, x ∉ rest -> others w' !! x = others w !! x) /\
    (forall x, x ∈ rest -> x <> me -> exists b, others w' !! x = Some b /\
       sobj b = s /\ myvs b = next_vs (myvs (prim w))).
Proof.
  induction rest as [|x rest IH]; intros w ret Hnd Hme Hbr Hdp Hf Ha Hup; simpl.
  { exists w, ret. split_and!; try done. by intros ? ?%not_elem_of_nil. }
  apply NoDup_cons in Hnd as [Hx Hnd]. rewrite Hme. rewrite filter_cons in Hf.
  destruct (String.eqb_spec x me) as [->|Hne]; simpl in Hf.
  - destruct (IH w ret) as (w' & r' & Hr & ? & ? & Hout & Hin); try done.
    { intros y Hy. apply Hup. by right. }
    exists w', r'. split_and!; try done.
    + intros y [_ Hy]%not_elem_of_cons. by apply Hout.
    + intros y [->|Hy]%elem_of_cons Hyn; [done|]. by apply Hin.
  - destruct (Hup x) as (b & Hb & Hab); [by left|done|].
    rewrite (call_able w x proc req b s out _ Hf Hb Hab Ha). cbv beta iota zeta. simpl.
    unfold breakpoint1, partition1. simpl. rewrite Hbr, Hdp. simpl.
    match goal with |- context [invoke_slaves ?w1 _ _ _ _] =>
      destruct (IH w1 rsm_OK) as (w' & r' & Hr & Hr' & Hp & Hout & Hin); try done end.
    { intros y Hy Hyn. simpl. rewrite lookup_insert_ne by (intros ->; done). apply Hup; [by right|done]. }
    simpl in *. exists w', r'. split_and!; [done|by intros _; apply Hr'|done| |].
    + intros y [Hyx Hy]%not_elem_of_cons. rewrite Hout by done. by rewrite lookup_insert_ne.
    + intros y [->|Hy]%elem_of_cons Hyn; [|by apply Hin].
      rewrite Hout by done. rewrite lookup_insert_eq. eexists. split; [done|].
      destruct Hab as (_ & _ & E & _). simpl. by rewrite E.
Qed.

(** C35: a request in a settled view is replicated. With every backup of the
    view up and settled, no breakpoint armed and every call answered,
    [client_invoke] returns OK with the handler's reply, and the primary and
    all backups hold the handler's new object under the next view stamp. *)
Theorem healthy_invoke_replicates (w : net) (proc : Z) (req : string) (s : S) (out : string) :
  ready w -> NoDup view -> (forall x, x ∈ slaves -> is_Some (others w !! x)) ->
  (forall b, node w b -> rbreak1 (test b) = false) -> dopartition (test (prim w)) = false ->
  apply_request ps (sobj (prim w)) proc req = Val (s, out) ->
  exists w', client_invoke (set_fates w (prompt (length slaves))) proc req "" = Val (w', rsmc_OK, out) /\
    sobj (prim w') = s /\ myvs (prim w') = next_vs (myvs (prim w)) /\
    forall x, x ∈ slaves -> exists b, others w' !! x = Some b /\ sobj b = s /\
      myvs b = myvs (prim w').
Proof.
  intros [Hst Hn Hl Ho Hfl] Hnd Hup Hbr Hdp Ha. unfold client_invoke. simpl.
  pose proof Hst as [Hps Hch Hpr Hme Hvid Hview].
  unfold amiprimary. rewrite Hch, Hpr, Hme, String.eqb_refl, Hvid. simpl.
  pose proof (same_core_get_view (prim w) v) as Hcore.
  assert ((get_view (cfg (prim w)) v).2 = view) as Hv.
  { unfold get_view, get_view_wo, Acceptor.value. pose proof (touch_value (acc (cfg (prim w))) v) as Ht.
    destruct (Acceptor.touch _ _) as [a x]. simpl in *. by rewrite Ht. }
  destruct (get_view (cfg (prim w)) v) as [cf sl]. simpl in Hv. subst sl. simpl in Hcore.
  pose proof (sc_steady _ _ Hcore Hst) as Hst'.
  match goal with |- context [invoke_slaves ?w1 _ _ _ _] =>
    destruct (invoke_slaves_prompt proc req s out view w1 rsmc_OK)
      as (w' & r' & Hr & Hr' & Hp & Hout & Hin); try done end.
  { apply (st_me _ Hst'). }
  { simpl. apply Hbr. by left. }
  { simpl. intros x Hx Hxn.
    assert (x ∈ slaves) as Hxs.
    { apply list_elem_of_filter. split; [|done]. apply Is_true_true, negb_true_iff.
      by apply String.eqb_neq. }
    destruct (Hup x Hxs) as [b Hb]. exists b. split; [done|].
    destruct (Ho _ _ Hb) as (_ & ? & ? & ? & ? & ?). split_and!; try done. apply Hbr. right. eauto. }
  rewrite Hr. simpl. rewrite execute_bind. simpl. rewrite Hp. simpl. rewrite Hps, Ha. simpl.
  rewrite (Hr' eq_refl). eexists. split_and!; [done|done|done|].
  intros x [Hxn Hx]%list_elem_of_filter.
  apply Is_true_true, negb_true_iff, String.eqb_neq in Hxn.
  destruct (Hin x Hx Hxn) as (b & ? & ? & E). exists b. by rewrite E.
Qed.
End view.
End replication.
Arguments net : clear implicits.

(** ** Three nodes that replicate a string *)

Section demo.
#[local] Instance demo_heap : Heap := fun _ => 0.

(** The service: append a string, reply with the old length. *)
Definition demo_append (s : string) (a : string) (_ : sint) : outcome (string * sint * Z) :=
  Val (s +:+ a, Z.of_nat (String.length s), 0).
Definition demo_procs : gmap Z (handler_fn string) := {[ 7 := rsm_reg_1 demo_append ]}.

Definition demo_req (a : string) : string :=
  val_or "" (let! m := put_string marshall_new a in str m).

Definition demo_node (me : string) : rsm string :=
  MkRsm demo_procs
    (MkConfig (PaxosLog.Acceptor me (Prop_t 0 me) (Prop_t 0 me) "" 3 {[ 3 := "n1 n2 n3 " ]} "")
              3 me ["n1"; "n2"; "n3"])
    true "" (Viewstamp 3 1) (Viewstamp 2 9) "n1" false false 3 3 []
    (Testing false false false false).

Definition demo_view : list string := ["n1"; "n2"; "n3"].

Definition demo_net : net string :=
  Net (demo_node "n1") {[ "n2" := demo_node "n2"; "n3" := demo_node "n3" ]} [] [].

Lemma demo_others x b :
  others demo_net !! x = Some b -> x = "n2" /\ b = demo_node "n2" \/ x = "n3" /\ b = demo_node "n3".
Proof.
  unfold demo_net. cbn [others]. rewrite lookup_insert_Some, lookup_singleton_Some.
  intros [[<- <-]|[_ [<- <-]]]; auto.
Qed.

Lemma demo_slaves : slaves demo_view "n1" = ["n2"; "n3"].
Proof. reflexivity. Qed.

Lemma demo_ready : ready demo_procs 3 demo_view "n1" demo_net.
Proof.
  split; try done.
  intros x b Hb. apply demo_others in Hb as [[-> ->]|[-> ->]];
    split_and!; try done; rewrite demo_slaves; set_solver.
Qed.

(** The first call reaches both backups, the second only the first backup. *)
Definition demo_events : list event :=
  [Invoke 7 (demo_req "a") (prompt 2); Invoke 7 (demo_req "b") [Fate [0%nat] Delivered]].
Definition demo_after : net string :=
  val_or demo_net (run_events demo_net demo_events).

Lemma replicas_agree_witness :
  (forall a b, node demo_after a -> node demo_after b -> last_myvs a = last_myvs b -> sobj a = sobj b) /\
  (forall x b, others demo_after !! x = Some b ->
     myvs b = myvs (prim demo_after) /\ sobj b = sobj (prim demo_after) \/
     myvs b = next_vs (myvs (prim demo_after)) /\
     exists proc req out,
       apply_request demo_procs (sobj (prim demo_after)) proc req = Val (sobj b, out)) /\
  (forall fs proc req w' rep,
     client_invoke (set_fates demo_after fs) proc req "" = Val (w', rsmc_OK, rep) ->
     apply_request demo_procs (sobj (prim demo_after)) proc req = Val (sobj (prim w'), rep) /\
     forall x, x ∈ slaves demo_view "n1" -> exists b, others w' !! x = Some b /\
       sobj b = sobj (prim w') /\ myvs b = myvs (prim w') /\ last_myvs b = last_myvs (prim w')).
Proof.
  apply (replicas_agree demo_procs 3 demo_view "n1" demo_net demo_after demo_events).
  - exact demo_ready.
  - simpl. lia.
  - apply is_val_or. vm_compute. reflexivity.
Defined.

(** Before the second call has reached the last backup, the first is ahead. *)
Example demo_after_states :
  (sobj (prim demo_after), sobj <$> others demo_after !! "n2", sobj <$> others demo_after !! "n3")
  = ("a", Some "ab", Some "a").
Proof. vm_compute. reflexivity. Qed.

#[local] Instance demo_transfer : rsm_state_transfer string :=
  {| marshal_state s := s; unmarshal_state s _ := s |}.
#[local] Instance demo_transfer_laws : StateTransferLaws string.
Proof. by intros s t. Qed.

Definition demo_backup (x : string) : rsm string := default (demo_node x) (others demo_after !! x).

Lemma demo_backup_up x :
  bool_decide (is_Some (others demo_after !! x)) = true ->
  others demo_after !! x = Some (demo_backup x).
Proof. rewrite bool_decide_eq_true. intros [b E]. unfold demo_backup. by rewrite E. Qed.

Lemma transfer_equalises_witness :
  (exists res b',
     transferreq (set_sync (demo_backup "n3") true true 4 4)
       (last_myvs (set_sync (demo_backup "n2") true true 4 4)) 4 (Transferres "" (Viewstamp 0 0))
     = (res, rsm_OK) /\
     statetransfer (set_sync (demo_backup "n2") true true 4 4) (Some (rsm_OK, res)) = (b', true) /\
     sobj b' = sobj (demo_backup "n3") /\ last_myvs b' = last_myvs (demo_backup "n3")) /\
  (transferreq (set_sync (demo_backup "n3") true true 4 4)
     (last_myvs (set_sync (demo_backup "n2") true true 4 4)) 3 (Transferres "" (Viewstamp 0 0))).2
  = rsm_BUSY /\
  (transferreq (set_sync (demo_backup "n3") false true 4 4)
     (last_myvs (set_sync (demo_backup "n2") true true 4 4)) 4 (Transferres "" (Viewstamp 0 0))).2
  = rsm_BUSY.
Proof.
  apply (transfer_equalises demo_procs 3 demo_view "n1" demo_net demo_after demo_events
           (demo_backup "n3") (demo_backup "n2") 4 3 (Transferres "" (Viewstamp 0 0))).
  - exact demo_ready.
  - simpl. lia.
  - apply is_val_or. vm_compute. reflexivity.
  - right. exists "n3". apply demo_backup_up. vm_compute. reflexivity.
  - right. exists "n2". apply demo_backup_up. vm_compute. reflexivity.
  - vm_compute. reflexivity.
  - vm_compute. reflexivity.
  - lia.
Defined.

Definition demo_reply : string :=
  match apply_request demo_procs "" 7 (demo_req "a") with Val (_, out) => out | Fault _ => "" end.

Lemma healthy_invoke_replicates_witness :
  exists w', client_invoke (set_fates demo_net (prompt (length (slaves demo_view "n1"))))
               7 (demo_req "a") "" = Val (w', rsmc_OK, demo_reply) /\
    sobj (prim w') = "a" /\ myvs (prim w') = next_vs (myvs (prim demo_net)) /\
    forall x, x ∈ slaves demo_view "n1" -> exists b, others w' !! x = Some b /\ sobj b = "a" /\
      myvs b = myvs (prim w').
Proof.
  apply (healthy_invoke_replicates demo_procs 3 demo_view "n1" demo_net).
  - exact demo_ready.
  - repeat constructor; set_solver.
  - intros x. rewrite demo_slaves.
    intros [->|[->|[]%not_elem_of_nil]%elem_of_cons]%elem_of_cons; by eexists.
  - intros b [->|[x [[_ ->]|[_ ->]]%demo_others]]; done.
  - done.
  - vm_compute. reflexivity.
Defined.

(** ** A client at the wrong node *)

(** The same nodes, seen from the node [x]. *)
Definition refocus (w : net string) (x : string) (fs : list fate) : outcome (net string) :=
  match others w !! x with
  | Some b => Val (Net b (<[myaddr (prim w) := prim w]> (delete x (others w))) (flight w) fs)
  | None => Fault Undefined
  end.

(** A request at the primary that reaches only "n2", then one at "n3". *)
Definition wrong_node (a b : string)
    : outcome (bool * (viewstamp * string) * (viewstamp * string)) :=
  let! '(w, _, _) := client_invoke (set_fates demo_net [Fate [] Delivered; Fate [] Delayed])
                                   7 (demo_req a) "" in
  let! w := refocus w "n3" (prompt 2) in
  let ami := amiprimary (prim w) in
  let! '(w, _, _) := client_invoke w 7 (demo_req b) "" in
  match others w !! "n1", others w !! "n2" with
  | Some n1, Some n2 => Val (ami, (last_myvs n1, sobj n1), (last_myvs n2, sobj n2))
  | _, _ => Fault Undefined
  end.

(** [client_invoke] on a node that is not the primary computes NOTPRIMARY
    but goes on. A request that the primary gave up after it reached one
    backup, followed by a request at another backup, leaves the primary and the
    first backup with the same last view stamp and different objects. *)
Theorem wrong_node_diverges :
  wrong_node "a" "b" = Val (false, (Viewstamp 3 1, "b"), (Viewstamp 3 1, "a")).
Proof. vm_compute. reflexivity. Qed.

End demo.
End Replication.
