(* ===== verification/RsmRecovery.v ===== *)
(** * View changes of the replicated state machine

    The choice of the primary, and the recovery thread as a transition system
    interleaved with the handlers of its node. *)

From S2P Require Import Prelude.
From S2P Require Import Marshall.
From S2P Require Import Protocol.
From S2P Require Import Stubs.
From S2P Require Import PaxosLog.
From S2P Require Import Paxos.
From S2P Require Import Config.
From S2P Require Import Rsm.

Local Open Scope string_scope.
Local Open Scope Z_scope.

Module Recovery.
Import Config Rsm.

(** The members of view [i] that a configuration knows. *)
Definition view_of (c : config) (i : Z) : list string :=
  members (default "" (values (acc c) !! i)).

Lemma get_view_members c i : (get_view c i).2 = view_of c i.
Proof.
  unfold get_view, get_view_wo, Acceptor.value, view_of.
  pose proof (touch_value (acc c) i) as Ht. destruct (Acceptor.touch _ _). simpl in *. by rewrite Ht.
Qed.

Lemma get_view_keeps c i j : view_of (get_view c i).1 j = view_of c j /\ cme (get_view c i).1 = cme c.
Proof.
  unfold get_view, get_view_wo, Acceptor.value, view_of.
  pose proof (touch_lookup (acc c) i j) as [Ht _]. destruct (Acceptor.touch _ _). simpl in *.
  by rewrite Ht.
Qed.

Lemma get_view_wo_me c i : cme (get_view_wo c i).1 = cme c.
Proof. apply (get_view_keeps c i 0). Qed.

Lemma ismember_me c m i : cme (ismember c m i).1 = cme c.
Proof.
  unfold ismember. pose proof (get_view_wo_me c i). by destruct (get_view_wo c i).
Qed.

Section recovery.
Context `{Heap} {S : Type} `{!rsm_state_transfer S}.
Implicit Types (r : rsm S).

(** ** The primary *)

Lemma first_member_spec p c x :
  first_member p c = Some x <->
  exists l1 l2, p = app l1 (x :: l2) /\ x ∈ c /\ forall y, y ∈ l1 -> y ∉ c.
Proof.
  induction p as [|y p IH]; simpl.
  { split; [done|]. intros (l1 & l2 & E & _). by destruct l1. }
  destruct (isamember y c) eqn:E.
  - apply isamember_spec in E. split.
    + intros [= ->]. exists [], p. split_and!; [done|done|]. by intros ? ?%not_elem_of_nil.
    + intros ([|z l1] & l2 & Ep & Hx & Hl); injection Ep as -> ->; [done|].
      destruct (Hl z); [by left|done].
  - assert (y ∉ c) as Hy by (rewrite <-isamember_spec, E; done). rewrite IH. split.
    + intros (l1 & l2 & -> & Hx & Hl). exists (y :: l1), l2. split_and!; [done|done|].
      intros z [->|Hz]%elem_of_cons; [done|by apply Hl].
    + intros ([|z l1] & l2 & Ep & Hx & Hl); injection Ep as -> ->; [done|].
      exists l1, l2. split_and!; [done|done|]. intros z' Hz'. apply Hl. by right.
Qed.

Lemma first_member_nil p : first_member p [] = None.
Proof. by induction p. Qed.

(** The primary of a view, from the primary and the members of the one
    before. *)
Definition primary_of (old : string) (c p : list string) : option string :=
  if isamember old c then Some old else first_member p c.

Lemma set_primary_spec r vid :
  set_primary r vid =
  let cf := (get_view (get_view (cfg r) vid).1 (u32 (vid - 1))).1 in
  match primary_of (primary r) (view_of (cfg r) vid) (view_of (cfg r) (u32 (vid - 1))) with
  | Some x => Val (set_prim (set_cfg r cf) x)
  | None => Fault VerifyFailed
  end.
Proof.
  unfold set_primary, primary_of.
  pose proof (get_view_members (cfg r) vid) as Hc.
  destruct (get_view (cfg r) vid) as [cf c] eqn:E1. simpl in Hc. subst c.
  pose proof (get_view_keeps (cfg r) vid (u32 (vid - 1))) as [Hk _]. rewrite E1 in Hk. simpl in Hk.
  pose proof (get_view_members cf (u32 (vid - 1))) as Hp. rewrite Hk in Hp. simpl.
  destruct (get_view cf (u32 (vid - 1))) as [cf2 p] eqn:E2. simpl in Hp. subst p. simpl.
  destruct (view_of (cfg r) vid) as [|z c] eqn:Ec; simpl.
  { by rewrite first_member_nil. }
  destruct (isamember (primary r) (z :: c)) eqn:Em; simpl in Em; rewrite Em; simpl.
  { by destruct r. }
  destruct (view_of (cfg r) (u32 (vid - 1))) as [|y p]; [done|]. simpl.
  by destruct (if isamember y (z :: c) then _ else _).
Qed.

(** Every view change leaves one primary that was there before. When
    [commit_change] takes up a later view, the primary stays if it is a member
    of it and otherwise becomes the first node of the previous view, in the
    order of the view, that is; nodes that agree on the two views and on the
    old primary agree on the new one, the node is in a view change, and
    earlier or repeated announcements change nothing. The call cannot fail as
    long as the two views have a member in common (and the test breakpoint is
    off). *)
Theorem view_change_keeps_a_primary r (vid : Z) (r' : rsm S) :
  vid_commit r < vid -> commit_change r vid = Val r' ->
  let c := view_of (cfg r) vid in
  let p := view_of (cfg r) (u32 (vid - 1)) in
  Some (primary r') = primary_of (primary r) c p /\
  primary r' ∈ c /\
  (primary r' = primary r \/
   (primary r ∉ c) /\ exists l1 l2, p = app l1 (primary r' :: l2) /\ forall y, y ∈ l1 -> y ∉ c) /\
  inviewchange r' = true /\ vid_commit r' = vid /\
  (forall vid', vid' <= vid -> commit_change r' vid' = Val r') /\
  (forall t : rsm S, vid_commit t < vid -> rbreak2 (test t) = false ->
     view_of (cfg t) vid = c -> view_of (cfg t) (u32 (vid - 1)) = p -> primary t = primary r ->
     exists t', commit_change t vid = Val t' /\ primary t' = primary r').
Proof.
  intros Hlt Hcc c p. unfold commit_change, commit_change_wo in Hcc.
  assert (forall t : rsm S, (vid <=? vid_commit t) = false <-> vid_commit t < vid) as Hleb.
  { intros t. apply Z.leb_gt. }
  rewrite (proj2 (Hleb r) Hlt) in Hcc. rewrite set_primary_spec in Hcc. simpl in Hcc.
  fold c p in Hcc. destruct (primary_of (primary r) c p) as [x|] eqn:Hx; [|done]. simpl in Hcc.
  assert (r' = set_cfg r' (cfg r') /\ primary r' = x /\ inviewchange r' = true /\ vid_commit r' = vid)
    as (_ & Hpr & Hin & Hv).
  { destruct (ismember _ _ _) as [cf b]. outcome_inv. done. }
  rewrite Hpr. split_and!; [done| | |done|done| |].
  - unfold primary_of in Hx. destruct (isamember _ _) eqn:E.
    + injection Hx as <-. by apply isamember_spec.
    + by apply first_member_spec in Hx as (? & ? & ? & ? & ?).
  - unfold primary_of in Hx. destruct (isamember _ _) eqn:E.
    + injection Hx as <-. by left.
    + right. split; [by rewrite <-isamember_spec, E|].
      apply first_member_spec in Hx as (l1 & l2 & ? & ? & ?). by exists l1, l2.
  - intros vid' Hv'. unfold commit_change, commit_change_wo. rewrite Hv.
    by rewrite (proj2 (Z.leb_le _ _) Hv').
  - intros t Ht Hb Htc Htp Hto. unfold commit_change, commit_change_wo.
    clear Hcc. rewrite (proj2 (Hleb t) Ht). rewrite set_primary_spec. simpl. rewrite Htc, Htp, Hto, Hx. simpl.
    destruct (ismember _ _ _) as [cf b]. unfold breakpoint2. simpl. rewrite Hb.
    destruct b; simpl; eexists; (split; [reflexivity|]); simpl; congruence.
Qed.

(** ** The recovery thread *)

(** Where the thread is: at the head of the loop, in the call of [join], about
    to synchronise with the backups ([rsm_mutex] released), waiting for them,
    at the head of the loop of [sync_with_primary], in its call, out of the
    loop and about to take [rsm_mutex] again, asleep. *)
Inductive place :=
| AtTop
| Joining
| BeforeBackups
| AwaitingBackups
| PrimaryHead
| PrimaryCall
| PrimaryDone
| Asleep.

(** What the thread and the handlers have seen, latest first. *)
Inductive seen :=
| Collecting (vid : Z) (mems : list string)   (* the view [sync_with_backups] read *)
| Reported (m : string) (vid : Z)             (* a [transferdonereq] answered OK *)
| Copied (vid : Z) (last : viewstamp).        (* state of that stamp fetched and reported *)

Record node := Node { rs : rsm S; at_ : place; trace : list seen }.

(** The end of a synchronisation. *)
Definition finish (r : rsm S) : rsm S * place :=
  let '(r, ok) := sync_end r in
  let '(r, sleeps) := recovery_end r ok in
  (r, if sleeps then Asleep else AtTop).

Inductive step : node -> node -> Prop :=
(* the recovery thread *)
| step_join r r' t :
    recovery_member r = (r', false) -> step (Node r AtTop t) (Node r' Joining t)
| step_joined r r' reply t :
    recovery_join r reply = Val r' -> step (Node r Joining t) (Node r' AtTop t)
| step_lead r r' t :
    recovery_member r = (r', true) -> primary (recovery_begin r') = myaddr (recovery_begin r') ->
    step (Node r AtTop t) (Node (recovery_begin r') BeforeBackups t)
| step_follow r r' t :
    recovery_member r = (r', true) -> primary (recovery_begin r') <> myaddr (recovery_begin r') ->
    step (Node r AtTop t)
         (Node (set_sync (recovery_begin r') true (inviewchange r') (vid_commit r') (vid_commit r'))
               PrimaryHead t)
| step_collect r t :
    step (Node r BeforeBackups t)
         (Node (sync_with_backups_begin r) AwaitingBackups
               (Collecting (vid_insync r) (view_of (cfg r) (vid_insync r)) :: t))
| step_collected r r' pl t :
    sync_with_backups_waits r = false -> finish r = (r', pl) ->
    step (Node r AwaitingBackups t) (Node r' pl t)
| step_fetch r t :
    vid_commit r = vid_insync r -> step (Node r PrimaryHead t) (Node r PrimaryCall t)
| step_give_up r t :
    vid_commit r <> vid_insync r -> step (Node r PrimaryHead t) (Node r PrimaryDone t)
| step_fetch_fails r r' reply reply' b t :
    statetransfer r reply = (r', b) -> b && statetransferdone reply' = false ->
    step (Node r PrimaryCall t) (Node r' PrimaryHead t)
| step_fetched r r' reply reply' t :
    statetransfer r reply = (r', true) -> statetransferdone reply' = true ->
    step (Node r PrimaryCall t) (Node r' PrimaryDone (Copied (vid_insync r') (last_myvs r') :: t))
| step_done r r' pl t :
    finish r = (r', pl) -> step (Node r PrimaryDone t) (Node r' pl t)
| step_wake r t : step (Node r Asleep t) (Node r AtTop t)
(* the handlers and upcalls *)
| step_commit_change r r' pl vid t :
    commit_change r vid = Val r' -> step (Node r pl t) (Node r' pl t)
| step_transferdone r r' pl m vid st t :
    transferdonereq r m vid = (r', st) ->
    step (Node r pl t) (Node r' pl (if st =? rsm_OK then Reported m vid :: t else t))
| step_invoke r r' pl proc vs req st t :
    invoke r proc vs req = Val (r', st) -> step (Node r pl t) (Node r' pl t)
| step_client_members r pl t : step (Node r pl t) (Node (client_members r).1.1 pl t)
(* [client_invoke] and the configuration at work *)
| step_executed r pl s vs last t :
    step (Node r pl t) (Node (set_sobj (set_vs r vs last) s) pl t)
| step_config r pl c t : cme c = myaddr r -> step (Node r pl t) (Node (set_cfg r c) pl t).

(** ** The invariant *)

(** All members of the view that the primary read have reported since. *)
Definition collected (me : string) (vid : Z) (left : list string) (t : list seen) : Prop :=
  exists mems t1 t2, t = app t1 (Collecting vid mems :: t2) /\
    forall x, x ∈ mems -> x <> me -> x ∈ left \/ Reported x vid ∈ t1.

Definition settled (me : string) (vid : Z) (t : list seen) : Prop :=
  collected me vid [] t \/ exists last, Copied vid last ∈ t.

Definition syncing (pl : place) : bool :=
  match pl with
  | BeforeBackups | AwaitingBackups | PrimaryHead | PrimaryCall | PrimaryDone => true
  | AtTop | Joining | Asleep => false
  end.

Record rinv (me : string) (n : node) : Prop := {
  ri_me : myaddr (rs n) = me;
  ri_vid : syncing (at_ n) = true -> vid_insync (rs n) <= vid_commit (rs n);
  ri_await : at_ n = AwaitingBackups -> vid_commit (rs n) = vid_insync (rs n) ->
    collected me (vid_commit (rs n)) (backups (rs n)) (trace n);
  ri_done : at_ n = PrimaryDone -> vid_commit (rs n) = vid_insync (rs n) ->
    settled me (vid_commit (rs n)) (trace n);
  ri_open : inviewchange (rs n) = false -> settled me (vid_commit (rs n)) (trace n);
}.

(** Steps that matter to recovery only by a later view. *)
Record advances (r r' : rsm S) : Prop := {
  ad_vid : vid_commit r' = vid_commit r /\ inviewchange r' = inviewchange r \/
           vid_commit r < vid_commit r' /\ inviewchange r' = true;
  ad_me : myaddr r' = myaddr r;
  ad_insync : vid_insync r' = vid_insync r;
  ad_backups : backups r' = backups r;
}.

Lemma advances_trans r1 r2 r3 : advances r1 r2 -> advances r2 r3 -> advances r1 r3.
Proof.
  intros [[[? ?]|[? ?]] ? ? ?] [[[? ?]|[? ?]] ? ? ?]; split; try congruence;
    (left; split; congruence) || (right; split; [lia|congruence]).
Qed.

Lemma advances_cfg r c : cme c = myaddr r -> advances r (set_cfg r c).
Proof. intros Hc. by split; [left|..]. Qed.

Lemma commit_change_advances r vid r' : commit_change r vid = Val r' -> advances r r'.
Proof.
  unfold commit_change, commit_change_wo. destruct (Z.leb_spec vid (vid_commit r)).
  { intros [= ->]. by split; [left|..]. }
  rewrite set_primary_spec. simpl. destruct (primary_of _ _ _) as [x|]; [|done]. simpl.
  match goal with |- context [ismember ?c ?m ?i] =>
    pose proof (ismember_me c m i) as Hk; destruct (ismember c m i) as [cf b] end.
  intros Hr. outcome_inv. split; simpl in *; try done; [by right|].
  unfold myaddr. simpl. rewrite Hk. unfold get_view. by rewrite !get_view_wo_me.
Qed.

Lemma config_restore_me c s c' : config_restore c s = Val c' -> cme c' = cme c.
Proof.
  unfold config_restore, reconstruct. intros Hr. outcome_inv. simpl. destruct (_ >? 0); [|done].
  simpl. match goal with |- context [get_view_wo ?c ?i] =>
    pose proof (get_view_wo_me c i) as Hk; destruct (get_view_wo c i) as [cf m] end.
  by simpl in *.
Qed.

Lemma recovery_join_advances r reply r' : recovery_join r reply = Val r' -> advances r r'.
Proof.
  unfold recovery_join, join. intros Hj. destruct reply as [[ret res]|]; simpl in Hj.
  2: { injection Hj as <-. by split; [left|..]. }
  destruct (negb _); simpl in Hj; [injection Hj as <-; by split; [left|..]|].
  apply obind_val in Hj as ([r1 b] & Hc & Hj). apply obind_val in Hc as (c & Hc & [= <- <-]).
  apply config_restore_me in Hc. apply commit_change_advances in Hj.
  eapply advances_trans; [by apply advances_cfg|done].
Qed.

Lemma recovery_member_advances r r' b : recovery_member r = (r', b) -> advances r r'.
Proof.
  unfold recovery_member. pose proof (ismember_me (cfg r) (myaddr r) (vid_commit r)) as Hk.
  destruct (ismember _ _ _). intros [= <- _]. by apply advances_cfg.
Qed.

Lemma client_members_advances r : advances r (client_members r).1.1.
Proof.
  unfold client_members. pose proof (get_view_keeps (cfg r) (vid_commit r) 0) as [_ Hk].
  destruct (get_view _ _). by apply advances_cfg.
Qed.

Lemma invoke_advances r proc vs req r' st : invoke r proc vs req = Val (r', st) -> advances r r'.
Proof.
  unfold invoke. destruct (inviewchange r) eqn:E; [intros [= <- _]; by split; [left|..]|].
  destruct (vs_neqb _ _); [intros [= <- _]; by split; [left|..]|].
  intros Hi. apply obind_val in Hi as ([r1 out] & He & Hi).
  apply obind_val in Hi as (_ & _ & [= <- _]).
  assert (exists s, r1 = set_sobj (advance r) s) as [s ->].
  { unfold execute in He. destruct (procs _ !! _) as [h|]; [|done].
    repeat (let a := fresh "a" in apply obind_val in He as (a & _ & He); try destruct a as [[? ?] ?]).
    injection He as <- _. eauto. }
  by split; [left|..].
Qed.

Lemma collected_more me vid l t e : collected me vid l t -> collected me vid l (e :: t).
Proof.
  intros (mems & t1 & t2 & -> & Hx). exists mems, (e :: t1), t2. split; [done|].
  intros x Hin Hne. destruct (Hx x Hin Hne); [by left|by right; right].
Qed.

Lemma settled_more me vid t e : settled me vid t -> settled me vid (e :: t).
Proof. intros [?|[last ?]]; [left; by apply collected_more|right; exists last; by right]. Qed.

Lemma rinv_advances me r r' pl t :
  rinv me (Node r pl t) -> advances r r' -> rinv me (Node r' pl t).
Proof.
  intros [Hme Hv Ha Hd Ho] [Had Hm Hi Hb]. split; simpl in *.
  - congruence.
  - intros Hs. specialize (Hv Hs). destruct Had as [[? ?]|[? ?]]; lia.
  - intros Hpl E. rewrite Hb. destruct Had as [[Hvc ?]|[? ?]].
    + rewrite Hvc in *. apply Ha; [done|congruence].
    + rewrite Hpl in Hv. specialize (Hv eq_refl). lia.
  - intros Hpl E. destruct Had as [[Hvc ?]|[? ?]].
    + rewrite Hvc in *. apply Hd; [done|congruence].
    + rewrite Hpl in Hv. specialize (Hv eq_refl). lia.
  - intros E. destruct Had as [[Hvc E']|[? E']]; [|congruence].
    rewrite Hvc. apply Ho. congruence.
Qed.

(** Places at which nothing is promised. *)
Lemma rinv_place me r pl pl' t :
  rinv me (Node r pl t) -> (syncing pl' = true -> syncing pl = true) -> pl' <> AwaitingBackups ->
  pl' <> PrimaryDone -> rinv me (Node r pl' t).
Proof. intros [Hme Hv Ha Hd Ho] Hs Hn Hn'. split; simpl in *; auto; by intros ->. Qed.

Lemma rinv_finish me r pl r' pl' t :
  rinv me (Node r pl t) -> finish r = (r', pl') ->
  (vid_commit r = vid_insync r -> settled me (vid_commit r) t) -> rinv me (Node r' pl' t).
Proof.
  intros [Hme Hv Ha Hd Ho] Hf Hs. unfold finish, sync_end, recovery_end in Hf. simpl in Hf.
  destruct (Z.eqb_spec (vid_insync r) (vid_commit r)) as [E|E]; simpl in Hf.
  - rewrite E, Z.eqb_refl in Hf. injection Hf as <- <-. split; simpl; try done. auto.
  - injection Hf as <- <-. split; simpl; try done.
Qed.

Lemma erase_first_elem m x l : x ∈ l -> x ∈ erase_first m l \/ x = m.
Proof.
  induction l as [|y l IH]; simpl; [by left|].
  intros [->|Hx]%elem_of_cons; (destruct (String.eqb_spec y m) as [->|]; [auto|]).
  - left. by left.
  - destruct (IH Hx); [left; by right|by right].
Qed.

Lemma statetransfer_advances r reply r' b : statetransfer r reply = (r', b) -> advances r r'.
Proof.
  unfold statetransfer. destruct reply as [[ret res]|]; [|intros [= <- _]; by split; [left|..]].
  destruct (negb _); intros [= <- _]; [by split; [left|..]|].
  destruct (stf r && _); by split; [left|..].
Qed.

Lemma rinv_transferdone me r r' pl m vid st t :
  rinv me (Node r pl t) -> transferdonereq r m vid = (r', st) ->
  rinv me (Node r' pl (if st =? rsm_OK then Reported m vid :: t else t)).
Proof.
  intros Hi. unfold transferdonereq. destruct (_ || _) eqn:Hb; intros [= <- <-]; [done|].
  apply orb_false_iff in Hb as [_ Hb]. apply negb_false_iff, Z.eqb_eq in Hb. subst vid.
  destruct Hi as [Hme Hv Ha Hd Ho]. split; simpl in *; try done.
  - intros Hpl E. destruct (Ha Hpl E) as (mems & t1 & t2 & -> & Hx).
    exists mems, (Reported m (vid_commit r) :: t1), t2. split; [done|].
    intros x Hin Hne. destruct (Hx x Hin Hne) as [Hl|Hl]; [|by right; right].
    destruct (erase_first_elem m x _ Hl) as [?| ->]; [by left|by right; left].
  - intros Hpl E. apply settled_more. auto.
  - intros E. apply settled_more. auto.
Qed.

Lemma recovery_step_inv me n n' : rinv me n -> step n n' -> rinv me n'.
Proof.
  intros Hi Hs. destruct Hs.
  - eapply rinv_place; [eapply rinv_advances; [done|by eapply recovery_member_advances]|done|done|done].
  - eapply rinv_place; [eapply rinv_advances; [done|by eapply recovery_join_advances]|done|done|done].
  - destruct (rinv_advances me r r' AtTop t Hi) as [? ? ? ? ?]; [by eapply recovery_member_advances|].
    split; simpl in *; try done.
  - destruct (rinv_advances me r r' AtTop t Hi) as [? ? ? ? ?]; [by eapply recovery_member_advances|].
    split; simpl in *; try done.
  - destruct Hi as [Hme Hv Ha Hd Ho]. unfold sync_with_backups_begin.
    pose proof (get_view_keeps (cfg r) (vid_insync r) 0) as [_ Hk].
    pose proof (get_view_members (cfg r) (vid_insync r)) as Hm.
    destruct (get_view (cfg r) (vid_insync r)) as [cf mems]. simpl in *. subst mems.
    assert (cme cf = me) as Hme' by (by rewrite Hk). split; simpl in *; try done.
    + intros _ ->. eexists _, [], t. split; [done|]. intros x Hx Hne. left.
      apply list_elem_of_filter. split; [|done]. apply Is_true_true, negb_true_iff, String.eqb_neq.
      unfold myaddr. simpl. congruence.
    + intros E. apply settled_more. auto.
  - eapply rinv_finish; [done|done|]. intros E. destruct Hi as [Hme Hv Ha Hd Ho]. simpl in *.
    left. match goal with Hw : sync_with_backups_waits _ = false |- _ => rename Hw into Hw0 end.
    unfold sync_with_backups_waits in Hw0. rewrite E, Z.eqb_refl, andb_true_r in Hw0.
    apply negb_false_iff, bool_decide_eq_true in Hw0. specialize (Ha eq_refl E). by rewrite Hw0 in Ha.
  - by eapply rinv_place.
  - destruct Hi as [Hme Hv Ha Hd Ho]. by split.
  - eapply rinv_place; [eapply rinv_advances; [done|by eapply statetransfer_advances]|done|done|done].
  - assert (rinv me (Node r' PrimaryCall t)) as [Hme Hv Ha Hd Ho].
    { eapply rinv_advances; [done|by eapply statetransfer_advances]. }
    split; simpl in *; try done.
    + intros _ ->. right. eexists. by left.
    + intros E. apply settled_more. auto.
  - eapply rinv_finish; [done|done|]. by apply (ri_done _ _ Hi).
  - by eapply rinv_place.
  - eapply rinv_advances; [done|by eapply commit_change_advances].
  - by eapply rinv_transferdone.
  - eapply rinv_advances; [done|by eapply invoke_advances].
  - eapply rinv_advances; [done|by apply client_members_advances].
  - eapply rinv_advances; [done|]. by split; [left|..].
  - eapply rinv_advances; [done|by apply advances_cfg].
Qed.

(** C12: a node serves requests only when its view has been synchronised. In
    every interleaving of the recovery thread with view changes, state-transfer
    handlers, requests and configuration steps, a node that is not in a view
    change has either, as primary, read the members of the current view and had
    a successful [transferdonereq] for this very view from each of the others
    after that, or, as backup, fetched and reported the primary's state for this
    view. *)
Theorem view_change_ends_synchronised (r0 : rsm S) (n : node) :
  inviewchange r0 = true -> rtc step (Node r0 AtTop []) n -> inviewchange (rs n) = false ->
  (exists mems t1 t2, trace n = app t1 (Collecting (vid_commit (rs n)) mems :: t2) /\
     forall x, x ∈ mems -> x <> myaddr r0 -> Reported x (vid_commit (rs n)) ∈ t1) \/
  (exists last, Copied (vid_commit (rs n)) last ∈ trace n).
Proof.
  intros Hc Hr. assert (rinv (myaddr r0) n) as Hi.
  { assert (rinv (myaddr r0) (Node r0 AtTop [])) as Hi0 by (by split; simpl; try congruence).
    revert Hi0. generalize (Node r0 AtTop []) as n0, Hr. clear.
    induction 1 as [|n1 n2 n3 Hs Hr IH]; [done|]. intros Hi. apply IH. by eapply recovery_step_inv. }
  intros Ho. destruct (ri_open _ _ Hi Ho) as [(mems & t1 & t2 & Ht & Hx)|?]; [left|by right].
  exists mems, t1, t2. split; [done|]. intros x Hin Hne.
  by destruct (Hx x Hin Hne) as [?%not_elem_of_nil|].
Qed.
End recovery.
Arguments node : clear implicits.

(** ** Two nodes change to a view without the old primary *)

Section demo.
#[local] Instance demo_heap : Heap := fun _ => 0.
#[local] Instance demo_transfer : rsm_state_transfer unit :=
  {| marshal_state _ := ""; unmarshal_state _ s := s |}.

Definition demo_cfg (me : string) : config :=
  MkConfig (PaxosLog.Acceptor me (Prop_t 0 me) (Prop_t 0 me) "" 3
              {[ 2 := "n1 n2 n3 "; 3 := "n2 n3 " ]} "") 3 me ["n2"; "n3"].

(** Node [me] in view 2, with the primary "n1". *)
Definition demo_rsm (me : string) : rsm unit :=
  MkRsm ∅ (demo_cfg me) false tt (Viewstamp 2 5) (Viewstamp 2 4) "n1" false false 2 2 []
        (Testing false false false false).
Definition demo_changed : rsm unit := val_or (demo_rsm "n2") (commit_change (demo_rsm "n2") 3).

Lemma view_change_keeps_a_primary_witness :
  let c := view_of (demo_cfg "n2") 3 in
  let p := view_of (demo_cfg "n2") 2 in
  Some (primary demo_changed) = primary_of "n1" c p /\
  primary demo_changed ∈ c /\
  (primary demo_changed = "n1" \/
   ("n1" ∉ c) /\ exists l1 l2, p = app l1 (primary demo_changed :: l2) /\ forall y, y ∈ l1 -> y ∉ c) /\
  inviewchange demo_changed = true /\ vid_commit demo_changed = 3 /\
  (forall vid', vid' <= 3 -> commit_change demo_changed vid' = Val demo_changed) /\
  (forall t : rsm unit, vid_commit t < 3 -> rbreak2 (test t) = false ->
     view_of (cfg t) 3 = c -> view_of (cfg t) 2 = p -> primary t = "n1" ->
     exists t', commit_change t 3 = Val t' /\ primary t' = primary demo_changed).
Proof.
  apply (view_change_keeps_a_primary (demo_rsm "n2") 3 demo_changed).
  - simpl. lia.
  - vm_compute. reflexivity.
Defined.

Example demo_new_primary : primary demo_changed = "n2".
Proof. vm_compute. reflexivity. Qed.

(** The new primary waits for the other node. *)
Definition demo_lead : rsm unit := recovery_begin (recovery_member demo_changed).1.
Definition demo_reported : rsm unit :=
  (transferdonereq (sync_with_backups_begin demo_lead) "n3" 3).1.
Definition demo_end : node unit :=
  Node (finish demo_reported).1 (finish demo_reported).2
       [Reported "n3" 3; Collecting 3 (view_of (cfg demo_lead) 3)].

Lemma demo_recovers : rtc step (Node demo_changed AtTop []) demo_end.
Proof.
  eapply rtc_l. { apply (step_lead demo_changed (recovery_member demo_changed).1); vm_compute; reflexivity. }
  eapply rtc_l. { apply step_collect. }
  eapply rtc_l. { eapply (step_transferdone _ demo_reported _ "n3" 3 rsm_OK). vm_compute. reflexivity. }
  eapply rtc_l. { eapply (step_collected demo_reported _ (finish demo_reported).2);
                  [vm_compute; reflexivity|apply surjective_pairing]. }
  unfold demo_end. apply rtc_refl.
Qed.

Lemma view_change_ends_synchronised_witness :
  (exists mems t1 t2,
     trace demo_end = app t1 (Collecting (vid_commit (rs demo_end)) mems :: t2) /\
     forall x, x ∈ mems -> x <> myaddr demo_changed -> Reported x (vid_commit (rs demo_end)) ∈ t1) \/
  (exists last, Copied (vid_commit (rs demo_end)) last ∈ trace demo_end).
Proof.
  apply (view_change_ends_synchronised demo_changed demo_end).
  - vm_compute. reflexivity.
  - exact demo_recovers.
  - vm_compute. reflexivity.
Defined.

End demo.
End Recovery.
