(* ===== verification/RsmViews.v ===== *)
(** * The replicated state machine across views

    Replication (RsmReplication.v) and view changes (RsmRecovery.v) composed:
    requests run in a view, the view changes, its members synchronise, requests
    run in the next view, with nodes that fail, are cut off, restart and join. The
    theorem is that all this is one object, as long as every primary that takes over
    has an object that comes from a node that served: no acknowledged request is lost
    and none is executed twice. The code does not ensure the condition, and requests
    are lost without it ([unserved_primary_loses_requests]). *)

From S2P Require Import Prelude.
From S2P Require Import Marshall.
From S2P Require Import Protocol.
From S2P Require Import Stubs.
From S2P Require Import PaxosLog.
From S2P Require Import Paxos.
From S2P Require Import Config.
From S2P Require Import Rsm.
From S2P Require Import RsmReplication.
From S2P Require Import RsmRecovery.

Local Open Scope string_scope.
Local Open Scope Z_scope.

Module Views.
Import Config Rsm Replication.
Import Recovery(view_of, primary_of, finish).

Section views.
Context `{Heap} {T : Type} `{!rsm_state_transfer T}.
(** The procedures, the object a node starts with, and the members that were
    agreed on for each view. *)
Context (ps : gmap Z (handler_fn T)) (s0 : T) (view_at : Z -> list string).
Implicit Types (r p b : rsm T) (w : net T) (c : config).

(** ** A view change *)

(** A configuration of node [x] that has learnt view [vid]. *)
Definition follows (x : string) (vid : Z) c : Prop :=
  cme c = x /\ view_of c vid = view_at vid /\ view_of c (vid - 1) = view_at (vid - 1).

(** The recovery thread up to the wait for the backups, and up to the first
    call of the primary. *)
Definition lead_sync r : rsm T := sync_with_backups_begin (recovery_begin (recovery_member r).1).
Definition follow_sync r : rsm T :=
  let r := recovery_begin (recovery_member r).1 in
  set_sync r true (inviewchange r) (vid_commit r) (vid_insync r).

(** The synchronisation of a view: the primary, the backups in the loop of
    [sync_with_primary], and those that are through. *)
Record syncing := Sync {
  sy_lead : rsm T;
  sy_wait : gmap string (rsm T);
  sy_done : gmap string (rsm T);
}.

(** How a turn of the loop ends that reached the primary: [transferdonereq] is
    lost, or its answer is, or neither. A turn that did not reach it changes
    nothing. *)
Inductive turn := RequestLost | AnswerLost | Answered.

Definition sync_turn (y : syncing) (x : string) (t : turn) : syncing :=
  match sy_wait y !! x with
  | None => y
  | Some b =>
      let '(res, st) := transferreq (sy_lead y) (last_myvs b) (vid_insync b)
                                    (Transferres "" (Viewstamp 0 0)) in
      let '(b, ok) := statetransfer b (Some (st, res)) in
      let '(l, st) := match t with
                      | RequestLost => (sy_lead y, None)
                      | AnswerLost => ((transferdonereq (sy_lead y) (myaddr b) (vid_insync b)).1, None)
                      | Answered => let '(l, st) := transferdonereq (sy_lead y) (myaddr b) (vid_insync b) in
                                    (l, Some st)
                      end in
      if negb ok then Sync (sy_lead y) (<[x := b]> (sy_wait y)) (sy_done y)
      else if statetransferdone st
      then Sync l (delete x (sy_wait y)) (<[x := (finish b).1]> (sy_done y))
      else Sync l (<[x := b]> (sy_wait y)) (sy_done y)
  end.

Fixpoint sync_turns (y : syncing) (ts : list (string * turn)) : syncing :=
  match ts with
  | [] => y
  | (x, t) :: ts => sync_turns (sync_turn y x t) ts
  end.

(** ** The system *)

(** The nodes between two views that are synchronised. Ghost: the heirs, whose
    object comes from a node that served. *)
Record changing := Changing {
  ch_nodes : gmap string (rsm T);
  ch_heirs : gset string;
}.

(** A backup in the loop of [sync_with_primary] fetches the object of a primary that
    waits in [sync_with_backups]. *)
Definition fetch p b : rsm T :=
  let b := follow_sync b in
  let '(res, st) := transferreq (lead_sync p) (last_myvs b) (vid_insync b) (Transferres "" (Viewstamp 0 0)) in
  (statetransfer b (Some (st, res))).1.

(** The nodes that serve, the number of their view and its primary; the other
    nodes, with the objects they have; requests of earlier views that are still on
    their way; what clients asked for, and what they had an OK for, with the
    reply. Ghost: the views whose primary, when it took over, had an object that does
    not come from a node that had served. *)
Record cluster := Cluster {
  cnet : net T;
  cvid : Z;
  clead : string;
  pool : gmap string (rsm T);
  stale : list msg;
  submitted : list (Z * string);
  acked : list (Z * string * string);
  unserved : list Z;
}.

Definition with_net (C : cluster) w : cluster :=
  Cluster w (cvid C) (clead C) (pool C) (stale C) (submitted C) (acked C) (unserved C).

Definition serving (C : cluster) : gmap string (rsm T) := <[clead C := prim (cnet C)]> (others (cnet C)).

(** A process that has just been started. *)
Record started (x : string) r : Prop := {
  sd_procs : procs r = ps;
  sd_stf : stf r = true;
  sd_me : myaddr r = x;
  sd_sobj : sobj r = s0;
  sd_last : last_myvs r = Viewstamp 0 0;
  sd_vid : vid_commit r <= 1;
}.

(** What happens until a view is synchronised: a node learns of a later view, a
    backup fetches the object of its primary, a process restarts without its
    state, whether or not it is a member. *)
Inductive chstep : changing -> changing -> Prop :=
| ch_commit D x r c vid r' :
    ch_nodes D !! x = Some r -> vid_commit r < vid -> 1 <= vid < 2 ^ 32 -> follows x vid c ->
    commit_change (set_cfg r c) vid = Val r' ->
    chstep D (Changing (<[x := r']> (ch_nodes D)) (ch_heirs D))
| ch_fetch D x b l p :
    ch_nodes D !! x = Some b -> ch_nodes D !! l = Some p -> x <> l ->
    primary b = l -> primary p = l -> vid_commit b = vid_commit p ->
    chstep D (Changing (<[x := fetch p b]> (ch_nodes D))
                       (if decide (l ∈ ch_heirs D) then {[ x ]} ∪ ch_heirs D else ch_heirs D ∖ {[ x ]}))
| ch_restart D x r :
    started x r -> chstep D (Changing (<[x := r]> (ch_nodes D)) (ch_heirs D ∖ {[ x ]})).

(** The members of view [vid] that synchronise with [l]: those that have learnt of
    the view and take [l] for its primary. *)
Definition backs_up (l : string) (vid : Z) (e : string * rsm T) : Prop :=
  e.1 ∈ view_at vid /\ primary e.2 = l /\ vid_commit e.2 = vid.
#[global] Instance backs_up_dec l vid e : Decision (backs_up l vid e).
Proof. unfold backs_up. apply _. Defined.

Inductive cstep : cluster -> cluster -> Prop :=
| c_invoke C fs proc req w st rep :
    client_invoke (set_fates (cnet C) fs) proc req "" = Val (w, st, rep) ->
    cstep C (Cluster w (cvid C) (clead C) (pool C) (stale C) (app (submitted C) [(proc, req)])
                     (if st =? rsmc_OK then app (acked C) [(proc, req, rep)] else acked C) (unserved C))
| c_late C i : cstep C (with_net C (deliver_late (cnet C) [i]))
| c_stale C m : m ∈ stale C -> cstep C (with_net C (deliver (cnet C) m).1)
| c_crash C x : cstep C (with_net C (set_others (cnet C) (delete x (others (cnet C)))))
| c_start C x r :
    serving C !! x = None -> started x r ->
    cstep C (Cluster (cnet C) (cvid C) (clead C) (<[x := r]> (pool C)) (stale C) (submitted C) (acked C) (unserved C))
| c_change C D l p ts y :
    let vid := vid_commit p in
    let parts := filter (backs_up l vid) (delete l (ch_nodes D)) in
    rtc chstep (Changing (serving C ∪ pool C) (dom (serving C))) D ->
    ch_nodes D !! l = Some p -> primary p = l -> l ∈ view_at vid -> cvid C < vid ->
    sync_turns (Sync (lead_sync p) (follow_sync <$> parts) ∅) ts = y ->
    sync_with_backups_waits (sy_lead y) = false ->
    cstep C (Cluster (Net (finish (sy_lead y)).1 (sy_done y) [] []) vid l
                     (sy_wait y ∪ filter (fun e => parts !! e.1 = None) (delete l (ch_nodes D)))
                     (app (stale C) (flight (cnet C))) (submitted C) (acked C)
                     (if decide (l ∈ ch_heirs D) then unserved C else vid :: unserved C)).

(** One node, in the first view. *)
Record booted p : Prop := {
  bt_started : started (myaddr p) p;
  bt_vs : myvs p = Viewstamp 1 1;
  bt_primary : primary p = myaddr p;
  bt_change : inviewchange p = false;
  bt_vid : vid_commit p = 1;
  bt_view : view_of (cfg p) 1 = view_at 1 /\ view_at 1 = [myaddr p];
}.
Definition boot p : cluster := Cluster (Net p ∅ [] []) 1 (myaddr p) ∅ [] [] [] [].

(** ** One object *)

(** The requests of a log executed one after the other, with the replies of the
    log. *)
Fixpoint exec (s : T) (log : list (Z * string * string)) : option T :=
  match log with
  | [] => Some s
  | (proc, req, rep) :: log =>
      match apply_request ps s proc req with
      | Val (s, out) => if String.eqb out rep then exec s log else None
      | Fault _ => None
      end
  end.

Lemma exec_snoc log : forall s s1 s2 proc req rep,
  exec s log = Some s1 -> apply_request ps s1 proc req = Val (s2, rep) ->
  exec s (app log [(proc, req, rep)]) = Some s2.
Proof.
  induction log as [|[[pr rq] rp] log IH]; intros s s1 s2 proc req rep; simpl.
  - intros [= ->] ->. by rewrite String.eqb_refl.
  - destruct (apply_request ps s pr rq) as [[s' out]|]; [|done]. destruct (String.eqb out rp); [|done].
    apply IH.
Qed.


(** ** What requests leave alone *)

Definition ident r : gmap Z (handler_fn T) * bool * string * Z * string :=
  (procs r, stf r, primary r, vid_commit r, myaddr r).

(** From [w] to [w']: nodes keep their identity, and new messages carry the
    request [X]. *)
Record moves (X : Z * string) w w' : Prop := {
  mv_prim : ident (prim w') = ident (prim w);
  mv_others : forall x b', others w' !! x = Some b' -> exists b, others w !! x = Some b /\ ident b' = ident b;
  mv_flight : forall m, m ∈ flight w' -> m ∈ flight w \/ (g_proc m, g_req m) = X;
}.

#[local] Instance moves_refl X : Reflexive (moves X).
Proof. intros w. split; eauto. Qed.

#[local] Instance moves_trans X : Transitive (moves X).
Proof.
  intros w1 w2 w3 [P1 O1 F1] [P2 O2 F2]. split; [congruence| |].
  - intros x b3 (b2 & (b1 & ? & ?)%O1 & ?)%O2. exists b1. split; [done|congruence].
  - intros m [?%F1|?]%F2; auto.
Qed.

Lemma invoke_ident b proc vs req b' st : invoke b proc vs req = Val (b', st) -> ident b' = ident b.
Proof.
  unfold invoke. destruct (inviewchange b); [by intros [= <- _]|].
  destruct (vs_neqb _ _); [by intros [= <- _]|].
  intros Hi. apply obind_val in Hi as ([b1 out] & (s & _ & ->)%execute_apply & Hi).
  by apply obind_val in Hi as (_ & _ & [= <- _]).
Qed.

Lemma deliver_moves X w m : moves X w (deliver w m).1 /\ flight (deliver w m).1 = flight w.
Proof.
  unfold deliver. destruct (others w !! g_to m) as [b|] eqn:Hb; [|by split].
  destruct (invoke b _ _ _) as [[b' st]|f] eqn:Hi; (split; [|done]); split; simpl; auto.
  - intros x c [[<- <-]|[_ Hc]]%lookup_insert_Some; [|eauto]. exists b. split; [done|]. by eapply invoke_ident.
  - intros x c [_ Hc]%lookup_delete_Some. eauto.
Qed.

Lemma deliver_late_moves X idx : forall w, moves X w (deliver_late w idx) /\ flight (deliver_late w idx) = flight w.
Proof.
  induction idx as [|i idx IH]; intros w; simpl; [by split|].
  destruct (flight w !! i) as [m|]; [|apply IH].
  destruct (deliver_moves X w m) as [H1 F1]. destruct (IH (deliver w m).1) as [H2 F2].
  split; [by etrans|congruence].
Qed.

Lemma push_moves w m : moves (g_proc m, g_req m) w (push w m).
Proof.
  split; simpl; eauto. intros m' [?|E%list_elem_of_singleton]%elem_of_app; [by left|]. subst. by right.
Qed.

Lemma call_backup_moves w x proc vs req : moves (proc, req) w (call_backup w x proc vs req).1.
Proof.
  unfold call_backup. destruct (next_fate w) as [f w0] eqn:Hf.
  assert (moves (proc, req) w w0) as H0.
  { unfold next_fate in Hf. destruct (fates w); injection Hf as _ <-; [done|]. by split; simpl; eauto. }
  etrans; [exact H0|]. etrans; [apply (deliver_late_moves _ (late f))|].
  set (w1 := deliver_late w0 (late f)). set (m := Msg x proc vs req).
  pose proof (push_moves w1 m) as Hp. destruct (deliver_moves (proc, req) (push w1 m) m) as [Hd _].
  destruct (how f); simpl; try done.
  - destruct (deliver (push w1 m) m) as [w2 st]. simpl in *. by etrans.
  - by etrans.
Qed.

Lemma get_view_ident r i : ident (set_cfg r (get_view (cfg r) i).1) = ident r.
Proof. unfold ident, myaddr. simpl. by destruct (Recovery.get_view_keeps (cfg r) i 0) as [_ ->]. Qed.

Lemma set_node_moves X w p : ident p = ident (prim w) -> moves X w (set_node w p).
Proof. intros Hp. split; simpl; eauto. Qed.

Lemma partition1_moves X w : moves X w (partition1 w).
Proof.
  unfold partition1, net_repair_wo. simpl. destruct (dopartition _); [|done].
  pose proof (get_view_ident (prim w) (vid_commit (prim w))) as Hg.
  destruct (get_view _ _) as [cf m]. rewrite repair_members_id. split; simpl; eauto.
Qed.

Lemma invoke_slaves_moves proc req sl : forall w w' ret res,
  invoke_slaves w proc req sl ret = Val (w', res) -> moves (proc, req) w w'.
Proof.
  induction sl as [|x sl IH]; intros w w' ret res Hr; simpl in Hr; [by injection Hr as <- _|].
  destruct (String.eqb x _); [by eapply IH|].
  pose proof (call_backup_moves w x proc (myvs (prim w)) req) as Hc.
  destruct (call_backup _ _ _ _ _) as [w1 [st|]]; [|by injection Hr as <- _].
  destruct (negb _); [by injection Hr as <- _|]. apply obind_val in Hr as (? & _ & Hr).
  apply IH in Hr. etrans; [exact Hc|]. etrans; [apply partition1_moves|done].
Qed.

Lemma client_invoke_moves w w' proc req (r0 : string) st rep :
  client_invoke w proc req r0 = Val (w', st, rep) -> moves (proc, req) w w'.
Proof.
  unfold client_invoke. simpl. pose proof (get_view_ident (prim w) (vs_vid (myvs (prim w)))) as Hg.
  destruct (get_view _ _) as [cf sl]. simpl in Hg.
  intros Hr. apply obind_val in Hr as ([w1 res] & Hs%invoke_slaves_moves & Hr).
  etrans; [by apply set_node_moves|]. etrans; [exact Hs|].
  destruct res as [e|ret]; [by injection Hr as -> _ _|].
  apply obind_val in Hr as ([p out] & (s & _ & ->)%execute_apply & [= <- _ _]). by apply set_node_moves.
Qed.


(** ** Nodes enter a view *)

(** The views that [follows] speaks of have numbers that do not wrap. *)
Definition is_vid (vid : Z) : Prop := 1 <= vid < 2 ^ 32.

(** [r'] is [r] after it has taken up view [vid] with primary [l]. *)
Record entered (vid : Z) (l : string) r r' : Prop := {
  en_ids : (procs r', stf r', sobj r', last_myvs r') = (procs r, stf r, sobj r, last_myvs r);
  en_me : myaddr r' = myaddr r;
  en_primary : primary r' = l;
  en_vid : vid_commit r' = vid;
}.

Definition in_view (vid : Z) r : Prop := view_of (cfg r) vid = view_at vid /\ inviewchange r = true.

Lemma get_view_wo_keeps c i j : view_of (get_view_wo c i).1 j = view_of c j /\ cme (get_view_wo c i).1 = cme c.
Proof. apply (Recovery.get_view_keeps c i j). Qed.

Lemma ismember_keeps c m i j : view_of (ismember c m i).1 j = view_of c j /\ cme (ismember c m i).1 = cme c.
Proof. unfold ismember. pose proof (get_view_wo_keeps c i j). by destruct (get_view_wo c i). Qed.

Lemma commit_change_enters x vid c r r' :
  is_vid vid -> follows x vid c -> myaddr r = x -> vid_commit r < vid ->
  commit_change (set_cfg r c) vid = Val r' ->
  entered vid (primary r') r r' /\ in_view vid r' /\
  primary_of (primary r) (view_at vid) (view_at (vid - 1)) = Some (primary r').
Proof.
  intros Hv (Hx & Hc & Hp) Hme Hlt. unfold commit_change, commit_change_wo. cbn [vid_commit set_cfg].
  rewrite (proj2 (Z.leb_gt _ _) Hlt), Recovery.set_primary_spec.
  cbn [cfg primary set_cfg set_sync]. rewrite u32_id by (unfold is_vid, is_u32 in *; lia). rewrite Hc, Hp.
  destruct (primary_of _ _ _) as [l|] eqn:El; [|done]. cbn [obind].
  match goal with |- context [ismember ?c ?m ?i] =>
    pose proof (ismember_keeps c m i vid) as [K1 K2]; destruct (ismember c m i) as [cf e] end.
  intros Hr. apply obind_val in Hr as (_ & _ & [= <-]). simpl in K1, K2.
  rewrite !(proj1 (Recovery.get_view_keeps _ _ _)) in K1. rewrite !(proj2 (Recovery.get_view_keeps _ _ 0)) in K2.
  split_and!; [split; simpl; try done|split; simpl; [congruence|done]|done]. unfold myaddr in *. simpl. congruence.
Qed.

(** ** Synchronisation *)

(** What a node has executed: a view stamp and the object after it. *)
Definition kept r : viewstamp * T := (last_myvs r, sobj r).

(** A list of such pairs in which a view stamp stands for one object. *)
Definition functional (K : list (viewstamp * T)) : Prop :=
  forall vs s s', (vs, s) ∈ K -> (vs, s') ∈ K -> s = s'.

Section sync.
Context `{!StateTransferLaws T} (vid : Z) (l : string) (k0 : viewstamp * T) (K : list (viewstamp * T)).

Record leading r : Prop := {
  ld_ident : ident r = (ps, true, l, vid, l);
  ld_kept : kept r = k0;
  ld_view : in_view vid r;
  ld_sync : insync r = true /\ vid_insync r = vid;
}.

Record waiting (x : string) b : Prop := {
  wt_member : x ∈ view_at vid /\ x <> l;
  wt_ident : ident b = (ps, true, l, vid, x);
  wt_kept : kept b ∈ K;
  wt_sync : vid_insync b = vid;
}.

Record through (x : string) b : Prop := {
  th_member : x ∈ view_at vid /\ x <> l;
  th_ident : ident b = (ps, true, l, vid, x);
  th_kept : kept b = k0;
  th_vs : myvs b = Viewstamp vid 1;
  th_open : inviewchange b = false;
}.

Record sync_inv (y : syncing) : Prop := {
  sy_leading : leading (sy_lead y);
  sy_waiting : forall x b, sy_wait y !! x = Some b -> waiting x b;
  sy_through : forall x b, sy_done y !! x = Some b -> through x b;
}.

Lemma finish_spec r :
  vid_insync r = vid_commit r ->
  let r' := (finish r).1 in
  ident r' = ident r /\ kept r' = kept r /\ cfg r' = cfg r /\ inviewchange r' = false /\
  myvs r' = Viewstamp (vid_commit r) 1.
Proof. intros E. unfold finish, sync_end, recovery_end. simpl. by rewrite E, !Z.eqb_refl. Qed.

(** A fetch leaves the backup with what the primary has. *)
Lemma fetch_spec p b x :
  functional K -> k0 ∈ K -> leading p -> waiting x b ->
  exists res, transferreq p (last_myvs b) (vid_insync b) (Transferres "" (Viewstamp 0 0)) = (res, rsm_OK) /\
    exists b', statetransfer b (Some (rsm_OK, res)) = (b', true) /\
      ident b' = ident b /\ vid_insync b' = vid_insync b /\ kept b' = k0.
Proof.
  intros HK Hk0 [Hid Hkp _ [Hs Hv]] [_ Hidb Hkb Hvb].
  assert (stf p = true /\ stf b = true) as [Hp Hb] by (unfold ident in *; split; congruence).
  unfold transferreq, statetransfer. rewrite Hs, Hv, Hvb, Z.eqb_refl, Hp, Hb. simpl.
  eexists. split; [done|]. eexists. split; [done|]. simpl.
  unfold kept in *. destruct (vs_neqb (last_myvs b) (last_myvs p)) eqn:E; simpl.
  - by rewrite unmarshal_marshal.
  - apply vs_neqb_spec in E. rewrite E in Hkb. rewrite <-Hkp. split_and!; [done|done|]. f_equal.
    apply (HK (last_myvs p)); [done|by rewrite Hkp].
Qed.

Lemma transferdone_leading p m v : leading p -> leading (transferdonereq p m v).1.
Proof. unfold transferdonereq. destruct (_ || _); [done|]. intros [? ? ? ?]. by split. Qed.

Lemma sync_turn_inv y x t : functional K -> k0 ∈ K -> sync_inv y -> sync_inv (sync_turn y x t).
Proof.
  intros HK Hk0 [Hl Hw Hd]. unfold sync_turn. destruct (sy_wait y !! x) as [b|] eqn:Hb; [|by split].
  destruct (fetch_spec (sy_lead y) b x HK Hk0 Hl (Hw _ _ Hb)) as (res & -> & b' & -> & Hi & Hv & Hk).
  destruct (Hw _ _ Hb) as [Hm Hib Hkb Hvb].
  assert (waiting x b') as Hwb by (split; [done|congruence|by rewrite Hk|congruence]).
  assert (forall p, leading p -> sync_inv (Sync p (<[x := b']> (sy_wait y)) (sy_done y))) as Hagain.
  { intros p Hp. split; simpl; [done| |done]. intros z c [[<- <-]|[_ Hc]]%lookup_insert_Some; [done|by apply Hw]. }
  pose proof (transferdone_leading (sy_lead y) (myaddr b') (vid_insync b') Hl) as Hl'.
  destruct t; simpl; [by apply Hagain|by apply Hagain|].
  destruct (transferdonereq _ _ _) as [p st]. simpl in *. destruct (st =? rsm_OK); [|by apply Hagain].
  assert (vid_commit b' = vid) as Hvc by (unfold ident in *; congruence).
  destruct (finish_spec b') as (F1 & F2 & F3 & F4 & F5); [congruence|].
  split; simpl; [done| |].
  - intros z c [_ Hc]%lookup_delete_Some. by apply Hw.
  - intros z c [[<- <-]|[_ Hc]]%lookup_insert_Some; [|by apply Hd].
    split; [done|congruence|congruence|congruence|done].
Qed.

Lemma sync_turns_inv ts : forall y, functional K -> k0 ∈ K -> sync_inv y -> sync_inv (sync_turns y ts).
Proof. induction ts as [|[x t] ts IH]; intros y HK Hk Hi; simpl; [done|]. by apply IH; [..|by apply sync_turn_inv]. Qed.

(** The new view is ready, with the object of its primary. *)
Lemma sync_ready y :
  1 <= vid -> vs_vid k0.1 < vid -> sync_inv y ->
  let w := Net (finish (sy_lead y)).1 (sy_done y) [] [] in
  ready ps vid (view_at vid) l w /\ ident (prim w) = (ps, true, l, vid, l) /\ kept (prim w) = k0 /\
  myvs (prim w) = Viewstamp vid 1.
Proof.
  intros Hvid Hlt [[Hid Hk [Hvw _] [_ Hs]] _ Hd]. simpl.
  assert (vid_commit (sy_lead y) = vid) as Hvc by (unfold ident in *; congruence).
  destruct (finish_spec (sy_lead y)) as (F1 & F2 & F3 & F4 & F5); [congruence|].
  rewrite Hid in F1. rewrite Hk in F2. rewrite Hvc in F5. split_and!; [|done|done|done].
  unfold ident in F1. split; simpl.
  - split; try congruence; [by rewrite F5|]. rewrite F3. exact Hvw.
  - rewrite F5. simpl. lia.
  - rewrite F5. intros E. rewrite <-F2 in Hlt. simpl in Hlt. rewrite E in Hlt. simpl in Hlt. lia.
  - intros x b Hb. destruct (Hd _ _ Hb) as [[Hm Hne] Hi Hkb Hv Ho].
    unfold ident in Hi. unfold kept in *. rewrite F5. split_and!; try congruence.
    apply list_elem_of_filter. split; [|done]. by apply Is_true_true, negb_true_iff, String.eqb_neq.
  - done.
Qed.

End sync.


(** ** The invariant *)

(** A node that does not serve, when the view [v] does. *)
Record outside (K : list (viewstamp * T)) (v : Z) (x : string) r : Prop := {
  ou_procs : procs r = ps;
  ou_stf : stf r = true;
  ou_me : myaddr r = x;
  ou_kept : kept r ∈ K;
  ou_view : v < vid_commit r -> in_view (vid_commit r) r;
}.

(** [q]: the request in doubt; [K]: what was executed before this view; [log]: what
    the primary has executed; [pre] and [suf]: what was asked for before and since
    the primary's last execution. *)
Record cinv (C : cluster) (q : option (Z * string)) (K : list (viewstamp * T))
    (log : list (Z * string * string)) (pre suf : list (Z * string)) : Prop := {
  ci_inv : inv ps (cvid C) (view_at (cvid C)) (clead C) q (cnet C);
  ci_vid : 1 <= cvid C;
  ci_lead : clead C ∈ view_at (cvid C);
  ci_serving : forall x r, serving C !! x = Some r -> ident r = (ps, true, clead C, cvid C, x);
  ci_functional : functional K;
  ci_start : (Viewstamp 0 0, s0) ∈ K;
  ci_old : forall e, e ∈ K -> vs_vid e.1 < cvid C;
  ci_pool : forall x r, pool C !! x = Some r -> outside K (cvid C) x r;
  ci_prim : kept (prim (cnet C)) ∈ K \/ vs_vid (last_myvs (prim (cnet C))) = cvid C;
  ci_stale : forall m, m ∈ stale C -> vs_vid (g_vs m) < cvid C;
  ci_sub : submitted C = app pre suf;
  ci_log : log.*1 `sublist_of` pre;
  ci_acked : acked C `sublist_of` log;
  ci_exec : exec s0 log = Some (sobj (prim (cnet C)));
  ci_flight : forall m, m ∈ flight (cnet C) -> g_vs m = myvs (prim (cnet C)) -> (g_proc m, g_req m) ∈ suf;
  ci_seqno : vs_seqno (myvs (prim (cnet C))) <= 1 + Z.of_nat (length (submitted C));
}.

Definition good (C : cluster) : Prop := exists q K log pre suf, cinv C q K log pre suf.

Lemma boot_good p : booted p -> good (boot p).
Proof.
  intros [[] Hvs Hpr Hch Hvid [Hv1 Hv2]]. exists None, [(Viewstamp 0 0, s0)], [], [], [].
  split; simpl; try done.
  - apply ready_inv. split; simpl; try done; [|rewrite Hvs; simpl; lia|rewrite Hvs; congruence].
    split; simpl; try done; by rewrite ?Hvs.
  - rewrite Hv2. by left.
  - unfold serving. simpl. intros x r [[<- <-]|[_ [=]]]%lookup_insert_Some. unfold ident. congruence.
  - intros vs s s' [= -> ->]%list_elem_of_singleton [= ->]%list_elem_of_singleton. done.
  - by left.
  - by intros e ->%list_elem_of_singleton.
  - left. unfold kept. apply list_elem_of_singleton. congruence.
  - by intros m ?%not_elem_of_nil.
  - congruence.
  - by intros m ?%not_elem_of_nil.
  - by rewrite Hvs.
Qed.

Lemma serving_moves C C' X :
  moves X (cnet C) (cnet C') -> cvid C' = cvid C -> clead C' = clead C ->
  (forall x r, serving C !! x = Some r -> ident r = (ps, true, clead C, cvid C, x)) ->
  forall x r, serving C' !! x = Some r -> ident r = (ps, true, clead C', cvid C', x).
Proof.
  intros [Hp Ho _] -> Hl Hs x r. unfold serving. rewrite Hl. intros [[<- <-]|[Hne Hx]]%lookup_insert_Some.
  - rewrite Hp. apply Hs. unfold serving. by rewrite lookup_insert_eq.
  - destruct (Ho _ _ Hx) as (b & Hb & ->). apply Hs. unfold serving. by rewrite lookup_insert_ne.
Qed.

(** A step that leaves the primary alone. *)
Lemma quiet_good C w X :
  good C -> moves X (cnet C) w -> prim w = prim (cnet C) -> flight w = flight (cnet C) ->
  (forall q, inv ps (cvid C) (view_at (cvid C)) (clead C) q (cnet C) ->
     exists q', inv ps (cvid C) (view_at (cvid C)) (clead C) q' w) ->
  good (with_net C w).
Proof.
  intros (q & K & log & pre & suf & Hi) Hm Hp Hf Hq. destruct (Hq q) as [q' Hi']; [apply Hi|].
  exists q', K, log, pre, suf. pose proof (serving_moves C (with_net C w) X Hm eq_refl eq_refl (ci_serving _ _ _ _ _ _ Hi)).
  destruct Hi. split; simpl; rewrite ?Hp, ?Hf; done.
Qed.

Lemma late_good C i : good C -> good (with_net C (deliver_late (cnet C) [i])).
Proof.
  intros Hg. destruct (deliver_late_moves (0, "") [i] (cnet C)) as [Hm Hf].
  destruct Hg as (q0 & K & log & pre & suf & Hi). pose proof (ci_inv _ _ _ _ _ _ Hi) as Hi0.
  destruct (deliver_late_inv ps (cvid C) (view_at (cvid C)) (clead C) [i] q0 _ Hi0) as (_ & _ & Hp & _).
  eapply (quiet_good C); [by exists q0, K, log, pre, suf|exact Hm|done|done|].
  intros q Hq. destruct (deliver_late_inv _ _ _ _ [i] q _ Hq) as (q' & ? & _). by exists q'.
Qed.

Lemma crash_good C x : good C -> good (with_net C (set_others (cnet C) (delete x (others (cnet C))))).
Proof.
  intros Hg. eapply (quiet_good C _ (0, "")); [done| |done|done|].
  - split; simpl; auto. intros y b [_ Hb]%lookup_delete_Some. eauto.
  - intros q Hq. exists q. by apply inv_delete.
Qed.

(** A request of an earlier view is refused. *)
Lemma stale_refused C m : good C -> m ∈ stale C -> (deliver (cnet C) m).1 = cnet C.
Proof.
  intros (q & K & log & pre & suf & Hi) Hm. apply (ci_stale _ _ _ _ _ _ Hi) in Hm.
  pose proof (ci_inv _ _ _ _ _ _ Hi) as Hi0. unfold deliver.
  destruct (others (cnet C) !! g_to m) as [b|] eqn:Hb; [|done].
  destruct (inv_others _ _ _ _ _ _ Hi0 _ _ Hb) as (_ & Ho & _ & Hst).
  assert (vs_vid (myvs b) = cvid C) as Hv.
  { pose proof (st_vid _ _ _ _ _ (inv_prim _ _ _ _ _ _ Hi0)). destruct Hst as [E| ? ? ? _ E]; by rewrite E. }
  unfold invoke. rewrite Ho. destruct (vs_neqb (g_vs m) (myvs b)) eqn:E.
  - simpl. rewrite insert_id by done. by destruct (cnet C).
  - apply vs_neqb_spec in E. rewrite E in Hm. lia.
Qed.

Lemma started_outside K v x r : started x r -> (Viewstamp 0 0, s0) ∈ K -> 1 <= v -> outside K v x r.
Proof. intros [] HK Hv. split; try done; [|lia]. unfold kept. congruence. Qed.

Lemma start_good C x r :
  good C -> started x r ->
  good (Cluster (cnet C) (cvid C) (clead C) (<[x := r]> (pool C)) (stale C) (submitted C) (acked C) (unserved C)).
Proof.
  intros (q & K & log & pre & suf & Hi) Hst. exists q, K, log, pre, suf. destruct Hi. split; simpl; try done.
  intros y b [[<- <-]|[_ Hb]]%lookup_insert_Some; [|auto]. by apply started_outside.
Qed.

Lemma invoke_good C fs proc req w st rep :
  Z.of_nat (length (submitted C)) + 3 < 2 ^ 32 -> good C ->
  client_invoke (set_fates (cnet C) fs) proc req "" = Val (w, st, rep) ->
  good (Cluster w (cvid C) (clead C) (pool C) (stale C) (app (submitted C) [(proc, req)])
                (if st =? rsmc_OK then app (acked C) [(proc, req, rep)] else acked C) (unserved C)).
Proof.
  intros Hlen (q & K & log & pre & suf & Hi) Hrun. pose proof Hrun as Hm%client_invoke_moves.
  assert (moves (proc, req) (cnet C) w) as Hmv by (destruct Hm; by split).
  pose proof (inv_set_fates _ _ _ _ q _ fs (ci_inv _ _ _ _ _ _ Hi)) as Hi0. pose proof (ci_seqno _ _ _ _ _ _ Hi).
  eapply client_invoke_inv in Hrun as (q' & Hi' & Hle & Hok & Hok' & Hno); [|done|simpl; lia]. simpl in Hle, Hok, Hok', Hno.
  set (C' := Cluster _ _ _ _ _ _ _ _).
  pose proof (serving_moves C C' _ Hmv eq_refl eq_refl (ci_serving _ _ _ _ _ _ Hi)) as Hsv.
  pose proof (st_vid _ _ _ _ _ (inv_prim _ _ _ _ _ _ Hi0)) as Hvid. simpl in Hvid.
  destruct (Z.eqb_spec st rsmc_OK) as [E|E].
  - destruct (Hok E) as [Hap _]. destruct (Hok' E) as (Hl & -> & Hfl).
    exists None, K, (app log [(proc, req, rep)]), (app (submitted C) [(proc, req)]), [].
    destruct Hi. split; simpl; try done.
    + right. by rewrite Hl.
    + by rewrite app_nil_r.
    + rewrite fmap_app, ci_sub0. simpl. apply sublist_app; [|done]. by apply sublist_inserts_r.
    + by apply sublist_app.
    + by eapply exec_snoc.
    + intros m Hin Em. by apply Hfl in Em.
    + rewrite length_app. simpl. lia.
  - destruct (Hno E) as (Em & El & Es). exists q', K, log, pre, (app suf [(proc, req)]).
    destruct Hi. split; simpl; try done.
    + unfold kept. rewrite El, Es. done.
    + by rewrite ci_sub0, app_assoc.
    + by rewrite Es.
    + intros m Hin. rewrite Em. intros Ev. apply elem_of_app. destruct (mv_flight _ _ _ Hmv m Hin) as [Hf|Hf].
      * left. by apply ci_flight0.
      * right. rewrite Hf. by left.
    + rewrite Em, length_app. simpl. lia.
Qed.


(** ** The view change keeps it *)

Section change.
Context `{!StateTransferLaws T} (C : cluster) (q : option (Z * string)) (K : list (viewstamp * T)).
Context (log : list (Z * string * string)) (pre suf : list (Z * string)) (Hi : cinv C q K log pre suf).

Definition known : list (viewstamp * T) := app K ((fun x => kept x.2) <$> map_to_list (serving C)).

Lemma elem_known e : e ∈ known <-> e ∈ K \/ exists x r, serving C !! x = Some r /\ e = kept r.
Proof.
  unfold known. rewrite elem_of_app, list_elem_of_fmap. split; (intros [?|Hx]; [by left|right]).
  - destruct Hx as ([x r] & -> & Hx%elem_of_map_to_list). by exists x, r.
  - destruct Hx as (x & r & Hx & ->). exists (x, r). by rewrite elem_of_map_to_list.
Qed.

Lemma serving_standing x r : serving C !! x = Some r -> node (cnet C) r /\ standing ps q (prim (cnet C)) r.
Proof.
  unfold serving. intros [[<- <-]|[_ Hx]]%lookup_insert_Some; [split; [by left|by apply Level]|].
  split; [right; by exists x|]. by apply (inv_others _ _ _ _ _ _ (ci_inv _ _ _ _ _ _ Hi)) in Hx as (_ & _ & _ & ?).
Qed.

Lemma serving_kept x r : serving C !! x = Some r -> kept r ∈ K \/ vs_vid (last_myvs r) = cvid C.
Proof.
  intros [_ Hst]%serving_standing. pose proof (st_vid _ _ _ _ _ (inv_prim _ _ _ _ _ _ (ci_inv _ _ _ _ _ _ Hi))) as Hv.
  destruct Hst as [_ El Es|? ? ? _ _ El _]; [|right; by rewrite El].
  unfold kept. rewrite El, Es. apply (ci_prim _ _ _ _ _ _ Hi).
Qed.

Lemma known_functional : functional known.
Proof.
  assert (forall vs s x r, (vs, s) ∈ K -> serving C !! x = Some r -> (vs, s) = kept r \/ vs <> last_myvs r \/
    kept r ∈ K) as Hmix.
  { intros vs s x r He Hr. destruct (serving_kept _ _ Hr) as [Hk|Hv]; [by right; right|].
    right. left. intros ->. apply (ci_old _ _ _ _ _ _ Hi) in He. simpl in He. lia. }
  pose proof (ci_functional _ _ _ _ _ _ Hi) as HK.
  intros vs s s' [H1|(x1 & r1 & H1 & E1)]%elem_known [H2|(x2 & r2 & H2 & E2)]%elem_known.
  - by apply (HK vs).
  - unfold kept in *. destruct (Hmix _ _ _ _ H1 H2) as [E|[E|E]]; [congruence|congruence|].
    apply (HK vs); [done|]. by rewrite E2.
  - unfold kept in *. destruct (Hmix _ _ _ _ H2 H1) as [E|[E|E]]; [congruence|congruence|].
    apply (HK vs); [|done]. by rewrite E1.
  - injection E1 as E1 ->. injection E2 as E2 ->.
    eapply standing_agree; [apply (ci_inv _ _ _ _ _ _ Hi)|by eapply serving_standing..|congruence].
Qed.

(** *** Between two views *)

Record chinv (D : changing) : Prop := {
  ch_outside : forall x r, ch_nodes D !! x = Some r -> outside known (cvid C) x r;
  ch_heir : forall x r, ch_nodes D !! x = Some r -> x ∈ ch_heirs D ->
    exists z r0, serving C !! z = Some r0 /\ kept r = kept r0;
}.

Lemma chinv_start : chinv (Changing (serving C ∪ pool C) (dom (serving C))).
Proof.
  split; simpl.
  - intros x r [Hx|[_ Hx]]%lookup_union_Some_raw.
    + pose proof (ci_serving _ _ _ _ _ _ Hi _ _ Hx) as Hid. unfold ident in Hid.
      split; try congruence; [apply elem_known; right; eauto|]. intros Hlt. exfalso.
      assert (vid_commit r = cvid C) by congruence. lia.
    + destruct (ci_pool _ _ _ _ _ _ Hi _ _ Hx). split; try done. apply elem_known. by left.
  - intros x r Hx [r0 Hr]%elem_of_dom. rewrite (lookup_union_Some_l _ _ _ _ Hr) in Hx. injection Hx as <-. eauto.
Qed.

Lemma recovery_begin_keeps r :
  let r' := recovery_begin (recovery_member r).1 in
  ident r' = ident r /\ kept r' = kept r /\ inviewchange r' = inviewchange r /\
  (forall v, view_of (cfg r') v = view_of (cfg r) v) /\ vid_insync r' = vid_commit r.
Proof.
  unfold recovery_member. pose proof (ismember_keeps (cfg r) (myaddr r) (vid_commit r)) as Hk.
  destruct (ismember _ _ _) as [cf e]. simpl in *. unfold ident, myaddr in *. simpl.
  rewrite (proj2 (Hk 0)). split_and!; try done. intros v. apply Hk.
Qed.

Lemma lead_sync_keeps p :
  let p' := lead_sync p in
  stf p' = stf p /\ kept p' = kept p /\ insync p' = true /\ vid_insync p' = vid_commit p.
Proof.
  destruct (recovery_begin_keeps p) as (Hid & Hk & _ & _ & Hv).
  unfold lead_sync, sync_with_backups_begin. set (r1 := recovery_begin _) in *. clearbody r1.
  destruct (get_view _ _) as [cf m]. simpl. unfold ident, kept in *. simpl. split_and!; congruence.
Qed.

(** A fetch replaces what the backup has by what the primary has, and nothing else. *)
Lemma fetch_keeps p b :
  stf p = true -> stf b = true -> vid_commit b = vid_commit p -> kept p ∈ known -> kept b ∈ known ->
  let b' := fetch p b in
  ident b' = ident b /\ kept b' = kept p /\ inviewchange b' = inviewchange b /\
  (forall v, view_of (cfg b') v = view_of (cfg b) v).
Proof.
  intros Hp Hb Hv Hkp Hkb. destruct (lead_sync_keeps p) as (P1 & P2 & P3 & P4).
  destruct (recovery_begin_keeps b) as (B1 & B2 & B3 & B4 & B5).
  unfold fetch, follow_sync. set (b1 := recovery_begin _) in *. set (p1 := lead_sync p) in *. clearbody b1 p1.
  assert (stf b1 = true) as Hb1 by (unfold ident in B1; congruence).
  unfold transferreq, statetransfer. simpl. rewrite P3, P4, B5, Hv, Z.eqb_refl, P1, Hp. simpl.
  rewrite Hb1. simpl. destruct (vs_neqb (last_myvs b1) (last_myvs p1)) eqn:E; simpl.
  - rewrite unmarshal_marshal. split_and!; done.
  - apply vs_neqb_spec in E. split_and!; try done. unfold kept in *. simpl. rewrite <-P2. f_equal.
    apply (known_functional (last_myvs p1)); [rewrite <-E, B2; done|by rewrite P2].
Qed.

Lemma chstep_inv D D' : chinv D -> chstep D D' -> chinv D'.
Proof.
  intros [Ho Hh] Hs. pose proof (ci_vid _ _ _ _ _ _ Hi) as H1. destruct Hs
    as [D x r c vid r' Hx Hv Hv' Hf Hc|D x b l p Hx Hl Hne Hb Hp Hv|D x r Hst].
  - pose proof (Ho _ _ Hx) as Hox.
    assert (outside known (cvid C) x r' /\ kept r' = kept r) as [Hr Hk].
    { destruct (commit_change_enters x vid c r r') as ([E1 E2 E3 E4] & Hin & _); try done; [apply Hox|].
      destruct Hox. assert (kept r' = kept r) by (unfold kept; congruence).
      split; [|done]. by split; congruence. }
    split; simpl; intros z rz [[<- <-]|[_ Hz]]%lookup_insert_Some; eauto. rewrite Hk. eauto.
  - pose proof (Ho _ _ Hx) as [Q1 Q2 Q3 Q4 Q5]. pose proof (Ho _ _ Hl) as [? ? ? ? _].
    destruct (fetch_keeps p b) as (F1 & F2 & F3 & F4); try done.
    assert (outside known (cvid C) x (fetch p b)) as Hfo.
    { unfold ident in F1. split; try congruence. assert (vid_commit (fetch p b) = vid_commit b) as -> by congruence.
      intros Hlt. destruct (Q5 Hlt). split; [by rewrite F4|congruence]. }
    split; simpl; intros z rz [[<- <-]|[Hz1 Hz]]%lookup_insert_Some; eauto.
    + destruct (decide _) as [Hd|]; [|set_solver]. intros _. rewrite F2. eauto.
    + intros Hz2. apply (Hh _ _ Hz). destruct (decide _); set_solver.
  - assert (outside known (cvid C) x r) as Hr. { apply started_outside; [done| |done]. apply elem_known. left. apply Hi. }
    split; simpl; intros z rz [[<- <-]|[Hz1 Hz]]%lookup_insert_Some; eauto; [set_solver|].
    intros Hz2. apply (Hh _ _ Hz). set_solver.
Qed.

Lemma chsteps_inv D D' : rtc chstep D D' -> chinv D -> chinv D'.
Proof. induction 1; eauto using chstep_inv. Qed.

(** *** Synchronisation *)

Lemma recovery_begin_spec vid l x r :
  ident r = (ps, true, l, vid, x) -> in_view vid r ->
  let r' := recovery_begin (recovery_member r).1 in
  ident r' = (ps, true, l, vid, x) /\ kept r' = kept r /\ in_view vid r' /\ vid_insync r' = vid.
Proof.
  intros Hid [Hv Hc]. destruct (recovery_begin_keeps r) as (H1 & H2 & H3 & H4 & H5).
  unfold in_view. rewrite H3, H4. unfold ident in *. split_and!; try done; congruence.
Qed.

Lemma lead_sync_leading vid l r :
  ident r = (ps, true, l, vid, l) -> in_view vid r -> leading vid l (kept r) (lead_sync r).
Proof.
  intros Hid Hv. destruct (recovery_begin_spec vid l l r Hid Hv) as (H1 & H2 & [H3 H4] & H5).
  unfold lead_sync, sync_with_backups_begin. set (r1 := recovery_begin _) in *. clearbody r1.
  pose proof (Recovery.get_view_keeps (cfg r1) (vid_insync r1) vid) as [K1 K2].
  destruct (get_view _ _) as [cf m]. simpl in K1, K2.
  split; simpl; [|done| |done].
  - unfold ident, myaddr in *. simpl. congruence.
  - split; simpl; [congruence|done].
Qed.

Lemma follow_sync_waiting vid l x r :
  ident r = (ps, true, l, vid, x) -> in_view vid r -> x ∈ view_at vid -> x <> l -> kept r ∈ known ->
  waiting vid l known x (follow_sync r).
Proof.
  intros Hid Hv Hx Hne Hk. destruct (recovery_begin_spec vid l x r Hid Hv) as (H1 & H2 & _ & H5).
  unfold follow_sync. split; simpl; [done|exact H1| |exact H5]. by rewrite <-H2 in Hk.
Qed.

Lemma outside_ident D x r vid l :
  chinv D -> ch_nodes D !! x = Some r -> vid_commit r = vid -> cvid C < vid -> primary r = l ->
  ident r = (ps, true, l, vid, x) /\ in_view vid r /\ kept r ∈ known.
Proof.
  intros HD Hx Hv Hlt Hl. destruct (ch_outside _ HD _ _ Hx). subst vid l. split_and!; eauto.
  unfold ident. congruence.
Qed.

(** The synchronisation of the new view, from its first turn on. *)
Lemma change_sync D l p ts :
  let vid := vid_commit p in
  chinv D -> ch_nodes D !! l = Some p -> primary p = l -> cvid C < vid ->
  sync_inv vid l (kept p) known
    (sync_turns (Sync (lead_sync p) (follow_sync <$> filter (backs_up l vid) (delete l (ch_nodes D))) ∅) ts).
Proof.
  intros vid HD Hl Hp Hlt. destruct (outside_ident D l p vid l) as (Hid & Hin & Hk); try done.
  apply sync_turns_inv; [exact known_functional|done|]. split; simpl; [by apply lead_sync_leading| |done].
  intros x b Hb. rewrite lookup_fmap in Hb. apply fmap_Some in Hb as (r & Hr & ->).
  apply map_lookup_filter_Some in Hr as [[Hne Hr]%lookup_delete_Some (Hx & Hpr & Hv)]. simpl in *.
  destruct (outside_ident D x r vid l) as (? & ? & ?); try done. by apply follow_sync_waiting.
Qed.

(** The primary of the new view has executed what its predecessor had, and perhaps
    the request in doubt. *)
Lemma change_log x r :
  serving C !! x = Some r ->
  exists d, (length d <= 1)%nat /\ exec s0 (app log d) = Some (sobj r) /\ (app log d).*1 `sublist_of` submitted C.
Proof.
  intros [_ Hst]%serving_standing. pose proof (ci_exec _ _ _ _ _ _ Hi) as He. pose proof (ci_log _ _ _ _ _ _ Hi) as Hlog.
  rewrite (ci_sub _ _ _ _ _ _ Hi).
  destruct Hst as [_ _ Es|proc req out -> _ _ Ha].
  - exists []. rewrite app_nil_r, Es. split_and!; [simpl; lia|done|]. by apply sublist_inserts_r.
  - destruct (inv_doubt _ _ _ _ _ _ (ci_inv _ _ _ _ _ _ Hi) _ eq_refl) as (m & Hm & Hvs & Em).
    exists [(proc, req, out)]. split_and!; [done|by eapply exec_snoc|].
    rewrite fmap_app. apply sublist_app; [done|]. apply singleton_sublist_l. simpl. rewrite Em.
    by apply (ci_flight _ _ _ _ _ _ Hi).
Qed.

Lemma change_good D l p ts us :
  let vid := vid_commit p in
  let parts := filter (backs_up l vid) (delete l (ch_nodes D)) in
  let y := sync_turns (Sync (lead_sync p) (follow_sync <$> parts) ∅) ts in
  chinv D -> ch_nodes D !! l = Some p -> primary p = l -> l ∈ view_at vid -> cvid C < vid ->
  l ∈ ch_heirs D ->
  good (Cluster (Net (finish (sy_lead y)).1 (sy_done y) [] []) vid l
                (sy_wait y ∪ filter (fun e => parts !! e.1 = None) (delete l (ch_nodes D)))
                (app (stale C) (flight (cnet C))) (submitted C) (acked C) us).
Proof.
  intros vid parts y HD Hl Hp Hlv Hlt Hheir.
  pose proof (change_sync D l p ts HD Hl Hp Hlt) as Hsy. fold vid parts y in Hsy.
  destruct (ch_heir _ HD _ _ Hl Hheir) as (z & r & Hr & Hkp).
  destruct (change_log _ _ Hr) as (d & _ & Hex & Hsub).
  pose proof (ci_vid _ _ _ _ _ _ Hi) as Hv1.
  assert (forall e, e ∈ known -> vs_vid e.1 < vid) as Hold.
  { intros e [He%(ci_old _ _ _ _ _ _ Hi)|(x & r1 & [Hk1%(ci_old _ _ _ _ _ _ Hi)|Hk1]%serving_kept & ->)]%elem_known;
      simpl in *; lia. }
  assert (kept p ∈ known) as Hpk. { apply elem_known. right. rewrite Hkp. eauto. }
  destruct (sync_ready vid l (kept p) known y) as (Hrd & Hid & Hkept & Hvs); [lia|by apply Hold|done|].
  exists None, known, (app log d), (submitted C), []. split; cbn [cnet cvid clead pool stale submitted acked].
  - by apply ready_inv.
  - lia.
  - done.
  - unfold serving. simpl. intros x b [[<- <-]|[_ Hb]]%lookup_insert_Some; [exact Hid|].
    apply (th_ident _ _ _ _ _ (sy_through _ _ _ _ _ Hsy _ _ Hb)).
  - exact known_functional.
  - apply elem_known. left. apply Hi.
  - exact Hold.
  - intros x b [Hb|[_ [[_ Hb]%lookup_delete_Some _]%map_lookup_filter_Some]]%lookup_union_Some_raw.
    + destruct (sy_waiting _ _ _ _ _ Hsy _ _ Hb) as [_ Hidb Hkb _]. unfold ident in Hidb. split; try congruence.
      assert (vid_commit b = vid) by congruence. lia.
    + destruct (ch_outside _ HD _ _ Hb) as [? ? ? ? Ho]. split; try done. intros ?. apply Ho. lia.
  - left. by rewrite Hkept.
  - intros m [Hm%(ci_stale _ _ _ _ _ _ Hi)|Hm]%elem_of_app; [lia|].
    destruct (inv_flight _ _ _ _ _ _ (ci_inv _ _ _ _ _ _ Hi) _ Hm) as (_ & -> & _). lia.
  - by rewrite app_nil_r.
  - done.
  - apply sublist_inserts_r, Hi.
  - rewrite Hex. f_equal. unfold kept in *. simpl in *. congruence.
  - by intros m ?%not_elem_of_nil.
  - rewrite Hvs. simpl. lia.
Qed.

End change.


(** ** The theorem *)

Lemma cstep_grows C C' :
  cstep C C' -> (length (submitted C) <= length (submitted C'))%nat /\ cvid C <= cvid C' /\
  (unserved C' = [] -> unserved C = []).
Proof.
  intros Hs. destruct Hs; simpl; rewrite ?length_app; try (split_and!; [lia|lia|done]).
  split_and!; [lia|lia|]. by destruct (decide _).
Qed.

Lemma cstep_good `{!StateTransferLaws T} C C' :
  Z.of_nat (length (submitted C')) + 2 < 2 ^ 32 -> unserved C' = [] -> good C -> cstep C C' -> good C'.
Proof.
  intros Hlen Hun Hg Hs. destruct Hs as [| | | | |C D l p ts y vid parts HD].
  - eapply invoke_good; [|done|done]. simpl in Hlen. rewrite length_app in Hlen. simpl in Hlen. lia.
  - by apply late_good.
  - rewrite stale_refused by done. by destruct C.
  - by apply crash_good.
  - by apply start_good.
  - subst y. destruct Hg as (q & K & log & pre & suf & Hi). simpl in Hun. destruct (decide _); [|done].
    eapply change_good; try done. eapply chsteps_inv; [done|done|]. by eapply chinv_start.
Qed.

Lemma csteps_good `{!StateTransferLaws T} C C' :
  rtc cstep C C' -> Z.of_nat (length (submitted C')) + 2 < 2 ^ 32 -> unserved C' = [] -> good C -> good C'.
Proof.
  intros Hr. revert C' Hr.
  apply (rtc_ind_r (fun D => Z.of_nat (length (submitted D)) + 2 < 2 ^ 32 -> unserved D = [] -> good C -> good D)).
  { done. }
  intros D D' Hr Hs IH H1 H2 Hg. destruct (cstep_grows _ _ Hs) as (? & ? & Hu).
  eapply cstep_good; [done|done|apply IH; [lia|by apply Hu|done]|done].
Qed.

(** C2: the replicated service is one object, across views, as long as the primary
    of every view that is synchronised has an object that comes from a node that
    served in the synchronised view before ([unserved C = []], which the code does not
    ensure: [unserved_primary_loses_requests]). A cluster starts with one node; the
    requests of clients run at the primary of a view, with every call to a backup
    lost, delayed or repeated; nodes fail, are cut off, restart without their state
    as members or not, and join; views are agreed on and left again before they are
    synchronised, with objects fetched in between; then the members of a view
    synchronise with their primary, with lost calls and repeated transfers. There is
    one sequence of requests, each taken from what clients asked for, in that order
    and at most once, such that the primary's object is the result of executing it;
    every request a client had an OK for is in it, in order, with the reply the
    client had. A backup has executed this sequence, or one request more. The nodes
    agree on the members of each view, clients ask the primary and only while its
    view serves, and the sequence number does not wrap. *)
Theorem acknowledged_requests_survive `{!StateTransferLaws T} p (C : cluster) :
  booted p -> rtc cstep (boot p) C ->
  Z.of_nat (length (submitted C)) + 2 < 2 ^ 32 -> unserved C = [] ->
  exists log : list (Z * string * string),
    exec s0 log = Some (sobj (prim (cnet C))) /\
    log.*1 `sublist_of` submitted C /\ acked C `sublist_of` log /\
    forall x b, others (cnet C) !! x = Some b -> exists d, (length d <= 1)%nat /\
      exec s0 (app log d) = Some (sobj b) /\ (app log d).*1 `sublist_of` submitted C.
Proof.
  intros Hb%boot_good Hr Hlen Hun.
  destruct (csteps_good _ _ Hr Hlen Hun Hb) as (q & K & log & pre & suf & Hi).
  exists log. split_and!; [apply Hi| |apply Hi|].
  - rewrite (ci_sub _ _ _ _ _ _ Hi). apply sublist_inserts_r, Hi.
  - intros x b Hx. apply (change_log C q K log pre suf Hi x). unfold serving. rewrite lookup_insert_ne; [done|].
    intros <-. apply (inv_others _ _ _ _ _ _ (ci_inv _ _ _ _ _ _ Hi)) in Hx as [Hx _].
    apply list_elem_of_filter in Hx as [Hx _]. by rewrite String.eqb_refl in Hx.
Qed.

End views.
Arguments cluster : clear implicits.

(** ** Two nodes, three views *)

Section demo.
#[local] Existing Instance demo_heap.
#[local] Existing Instance demo_transfer.
#[local] Existing Instance demo_transfer_laws.

Definition demo_view_at (vid : Z) : list string :=
  if vid =? 1 then ["n1"] else if vid =? 2 then ["n1"; "n2"] else if vid =? 3 then ["n2"] else [].

Definition demo_config (x : string) (vid : Z) : config :=
  MkConfig (PaxosLog.Acceptor x (Prop_t 0 x) (Prop_t 0 x) "" vid
              {[ 1 := "n1 "; 2 := "n1 n2 "; 3 := "n2 " ]} "") vid x (demo_view_at vid).

(** A node as its constructor leaves it, and the first one when it has recovered. *)
Definition demo_new (x : string) : rsm string :=
  set_state_transfer (val_or (demo_node x) (rsm_new demo_procs "" "n1" x "" 0)).
Definition demo_first : rsm string := (finish (lead_sync (demo_new "n1"))).1.

Lemma demo_booted : booted demo_procs "" demo_view_at demo_first.
Proof.
  split; [|vm_compute; reflexivity..|split; vm_compute; reflexivity].
  split; [|vm_compute; reflexivity|done|vm_compute; reflexivity..|vm_compute; discriminate]. reflexivity.
Qed.

Definition ask (C : cluster string) (fs : list fate) (a : string) : cluster string :=
  match client_invoke (set_fates (cnet C) fs) 7 (demo_req a) "" with
  | Val (w, st, rep) =>
      Cluster w (cvid C) (clead C) (pool C) (stale C) (app (submitted C) [(7, demo_req a)])
              (if st =? rsmc_OK then app (acked C) [(7, demo_req a, rep)] else acked C) (unserved C)
  | Fault _ => C
  end.

Lemma ask_step C fs a :
  is_val (client_invoke (set_fates (cnet C) fs) 7 (demo_req a) "") = true ->
  cstep demo_procs "" demo_view_at C (ask C fs a).
Proof.
  unfold ask. destruct (client_invoke _ _ _ _) as [[[w st] rep]|] eqn:E; [|done]. intros _. by eapply c_invoke.
Qed.

(** What nodes do between two views. *)
Inductive act := Commits (x : string) (vid : Z) | Fetches (x : string) | Restarts (x : string).

Definition acts (D : changing) (a : act) : changing :=
  match a with
  | Commits x vid =>
      match ch_nodes D !! x with
      | Some r =>
          match commit_change (set_cfg r (demo_config x vid)) vid with
          | Val r' => if (vid_commit r <? vid) && (1 <? vid) && (vid <? 4)
                      then Changing (<[x := r']> (ch_nodes D)) (ch_heirs D) else D
          | Fault _ => D
          end
      | None => D
      end
  | Fetches x =>
      match ch_nodes D !! x with
      | Some b =>
          match ch_nodes D !! primary b with
          | Some p =>
              if negb (String.eqb x (primary b)) && String.eqb (primary p) (primary b)
                 && (vid_commit b =? vid_commit p)
              then Changing (<[x := fetch p b]> (ch_nodes D))
                     (if decide (primary b ∈ ch_heirs D) then {[ x ]} ∪ ch_heirs D else ch_heirs D ∖ {[ x ]})
              else D
          | None => D
          end
      | None => D
      end
  | Restarts x => Changing (<[x := demo_new x]> (ch_nodes D)) (ch_heirs D ∖ {[ x ]})
  end.

Lemma demo_follows x vid : 1 < vid < 4 -> follows demo_view_at x vid (demo_config x vid).
Proof.
  intros Hv. assert (vid = 2 \/ vid = 3) as [->| ->] by lia; split_and!; vm_compute; reflexivity.
Qed.

Lemma demo_started x : x = "n1" \/ x = "n2" -> started demo_procs "" x (demo_new x).
Proof.
  by intros [->| ->]; (split; [|vm_compute; reflexivity|done|vm_compute; reflexivity..|vm_compute; discriminate]).
Qed.

Definition act_ok (a : act) : bool :=
  match a with Restarts x => String.eqb x "n1" || String.eqb x "n2" | _ => true end.

Lemma acts_step D a : act_ok a = true -> rtc (chstep demo_procs "" demo_view_at) D (acts D a).
Proof.
  destruct a as [x vid|x|x]; simpl; intros Ha.
  - destruct (ch_nodes D !! x) as [r|] eqn:Hx; [|done]. destruct (commit_change _ _) as [r'|] eqn:Hc; [|done].
    destruct (_ && _) eqn:E; [|done]. rewrite !andb_true_iff, !Z.ltb_lt in E. apply rtc_once.
    by eapply (ch_commit _ _ _ D x r (demo_config x vid) vid); [|lia|lia|apply demo_follows; lia|].
  - destruct (ch_nodes D !! x) as [b|] eqn:Hx; [|done]. destruct (ch_nodes D !! primary b) as [p|] eqn:Hp; [|done].
    destruct (_ && _) eqn:E; [|done]. rewrite !andb_true_iff, negb_true_iff, String.eqb_neq, String.eqb_eq, Z.eqb_eq in E.
    apply rtc_once. eapply (ch_fetch _ _ _ D x b (primary b) p); naive_solver.
  - apply orb_true_iff in Ha. rewrite !String.eqb_eq in Ha. by apply rtc_once, ch_restart, demo_started.
Qed.

Lemma demo_acts_steps l : forall D,
  forallb act_ok l = true -> rtc (chstep demo_procs "" demo_view_at) D (fold_left acts l D).
Proof.
  induction l as [|a l IH]; intros D; simpl; [done|]. rewrite andb_true_iff. intros [Ha Hl].
  etrans; [by apply acts_step|by apply IH].
Qed.

Definition change (C : cluster string) (a : list act) (l : string) (ts : list (string * turn)) : cluster string :=
  let D := fold_left acts a (Changing (serving C ∪ pool C) (dom (serving C))) in
  match ch_nodes D !! l with
  | Some p =>
      let vid := vid_commit p in
      let parts := filter (backs_up demo_view_at l vid) (delete l (ch_nodes D)) in
      let y := sync_turns (Sync (lead_sync p) (follow_sync <$> parts) ∅) ts in
      if String.eqb (primary p) l && bool_decide (l ∈ demo_view_at vid) && (cvid C <? vid)
         && negb (sync_with_backups_waits (sy_lead y))
      then Cluster (Net (finish (sy_lead y)).1 (sy_done y) [] []) vid l
                   (sy_wait y ∪ filter (fun e => parts !! e.1 = None) (delete l (ch_nodes D)))
                   (app (stale C) (flight (cnet C))) (submitted C) (acked C)
                   (if decide (l ∈ ch_heirs D) then unserved C else vid :: unserved C)
      else C
  | None => C
  end.

Lemma change_step C a l ts :
  forallb act_ok a = true -> rtc (cstep demo_procs "" demo_view_at) C (change C a l ts).
Proof.
  intros Ha. unfold change. pose proof (demo_acts_steps a (Changing (serving C ∪ pool C) (dom (serving C))) Ha) as HD.
  set (D := fold_left _ _ _) in *. clearbody D. destruct (ch_nodes D !! l) as [p|] eqn:Hl; [|done].
  cbv zeta. destruct (_ && _) eqn:E; [|done].
  rewrite !andb_true_iff, negb_true_iff, String.eqb_eq, bool_decide_eq_true, Z.ltb_lt in E.
  destruct E as [[[? ?] ?] ?]. apply rtc_once. by eapply (c_change _ _ _ C D l p ts).
Qed.

Definition start (C : cluster string) (x : string) : cluster string :=
  Cluster (cnet C) (cvid C) (clead C) (<[x := demo_new x]> (pool C)) (stale C) (submitted C) (acked C) (unserved C).

(** A request in the first view; the second node joins, with the first transfer in
    vain; a request at both. *)
Definition demo_1 : cluster string := ask (boot demo_first) [] "a".
Definition demo_2 : cluster string := start demo_1 "n2".
Definition demo_3 : cluster string :=
  change demo_2 [Commits "n1" 2; Commits "n2" 2; Fetches "n2"] "n1" [("n2", RequestLost); ("n2", Answered)].
Definition demo_4 : cluster string := ask demo_3 [Fate [] Delivered] "b".
(** A request whose answer the primary does not see; then it restarts and is gone. *)
Definition demo_5 : cluster string := ask demo_4 [Fate [] ReplyLost] "c".
Definition demo_6 : cluster string := change demo_5 [Restarts "n1"; Commits "n2" 3] "n2" [].

Lemma demo_run_4 : rtc (cstep demo_procs "" demo_view_at) (boot demo_first) demo_4.
Proof.
  eapply (rtc_l _ _ demo_1); [apply ask_step; vm_compute; reflexivity|].
  eapply (rtc_l _ _ demo_2).
  { apply (c_start _ _ _ demo_1 "n2"); [vm_compute; reflexivity|]. apply demo_started. by right. }
  transitivity demo_3; [by apply change_step|].
  apply rtc_once, ask_step. vm_compute. reflexivity.
Qed.

Lemma demo_run : rtc (cstep demo_procs "" demo_view_at) (boot demo_first) demo_6.
Proof.
  etrans; [apply demo_run_4|]. eapply (rtc_l _ _ demo_5); [apply ask_step; vm_compute; reflexivity|].
  by apply change_step.
Qed.

(** Two requests were acknowledged, and the third was executed by the node that
    is left. *)
Lemma acknowledged_requests_survive_witness :
  (length (submitted demo_6), length (acked demo_6), clead demo_6, sobj (prim (cnet demo_6)), unserved demo_6)
  = (3%nat, 2%nat, "n2", "abc", []) /\
  exists log : list (Z * string * string),
    exec demo_procs "" log = Some "abc" /\ log.*1 `sublist_of` submitted demo_6 /\ acked demo_6 `sublist_of` log.
Proof.
  split; [vm_compute; reflexivity|].
  destruct (acknowledged_requests_survive demo_procs "" demo_view_at demo_first demo_6 demo_booted demo_run)
    as (log & He & Hs & Ha & _); [vm_compute; reflexivity|vm_compute; reflexivity|].
  exists log. split_and!; [|exact Hs|exact Ha]. rewrite He. vm_compute. reflexivity.
Defined.


(** ** Where the code does less *)

(** The second node restarts while it is a member, joins again, and is made primary
    of the third view when the first one fails. *)
Definition demo_lost : cluster string :=
  change demo_4 [Restarts "n2"; Commits "n2" 2; Commits "n2" 3] "n2" [].

(** The condition on the primaries of [acknowledged_requests_survive] cannot be left
    out: in this run two requests are acknowledged, and the primary of view 3 has the
    object of a node that has executed nothing. *)
Theorem unserved_primary_loses_requests :
  rtc (cstep demo_procs "" demo_view_at) (boot demo_first) demo_lost /\
  (length (acked demo_lost), cvid demo_lost, clead demo_lost, sobj (prim (cnet demo_lost)), unserved demo_lost)
  = (2%nat, 3, "n2", "", [3]).
Proof.
  split; [|vm_compute; reflexivity]. etrans; [apply demo_run_4|]. by apply change_step.
Qed.

(** A node takes up a view. *)
Definition commit_to (r : rsm string) (x : string) (vid : Z) : rsm string :=
  val_or r (commit_change (set_cfg r (demo_config x vid)) vid).

(** Three nodes in view 3 with the primary "n1", then "n2" and "n3" in view 4. *)
Definition three_config (x : string) : config :=
  MkConfig (PaxosLog.Acceptor x (Prop_t 0 x) (Prop_t 0 x) "" 4
              {[ 3 := "n1 n2 n3 "; 4 := "n2 n3 " ]} "") 4 x ["n2"; "n3"].
(** Node [x] restarts, started with the name [first], and joins view 3. *)
Definition rejoin (first x : string) : outcome (rsm string) :=
  let! r := rsm_new demo_procs "" first x "" 0 in
  commit_change (set_cfg (set_state_transfer r) (three_config x)) 3.

Definition restart_run : outcome (Z * string * (string * option string)) :=
  let! '(w, st, _) := client_invoke (set_fates demo_net (prompt 2)) 7 (demo_req "a") "" in
  let n3 := default (demo_node "n3") (others w !! "n3") in
  let! n2 := rejoin "n1" "n2" in
  let! n2' := commit_change n2 4 in
  let! n3' := commit_change (set_cfg n3 (three_config "n3")) 4 in
  let y := sync_turns (Sync (lead_sync n2') {[ "n3" := follow_sync n3' ]} ∅) [("n3", Answered)] in
  VERIFY (negb (sync_with_backups_waits (sy_lead y))) ;;;
  Val (st, sobj n3, (sobj (sy_lead y), sobj <$> sy_done y !! "n3")).

(** A member that restarts stays in the view, and [set_primary] does not ask
    whether the node it picks has the state: a request is acknowledged with OK by
    all three nodes, "n2" restarts and joins again, "n1" fails, and "n2" becomes the
    primary of the next view, with the empty object, which "n3" copies. *)
Theorem restarted_member_loses_requests : restart_run = Val (rsmc_OK, "a", ("", Some "")).
Proof. vm_compute. reflexivity. Qed.

(** The node a process is started with stays its primary as long as it is a
    member: a process that restarts with the name of a backup has another primary
    than the rest of the view. *)
Theorem rejoin_keeps_wrong_primary :
  ((fun r => (primary r, primary (demo_node "n2"))) <$> match rejoin "n2" "n3" with Val r => Some r | Fault _ => None end)
  = Some ("n2", "n1").
Proof. vm_compute. reflexivity. Qed.

Definition strand_run : bool * Z * Z * option Z :=
  let y := sync_turns (Sync (lead_sync (commit_to (prim (cnet demo_2)) "n1" 2))
                            {[ "n2" := follow_sync (commit_to (demo_new "n2") "n2" 2) ]} ∅)
                      [("n2", AnswerLost)] in
  let l := (finish (sy_lead y)).1 in
  let b := default (demo_new "n2") (sy_wait y !! "n2") in
  (inviewchange l,
   (transferreq l (last_myvs b) (vid_insync b) (Transferres "" (Viewstamp 0 0))).2,
   match invoke b 7 (myvs l) (demo_req "b") with Val (_, st) => st | Fault _ => 0 end,
   match client_invoke (set_fates (Net l {[ "n2" := b ]} [] []) (prompt 1)) 7 (demo_req "b") "" with
   | Val (_, st, _) => Some st | Fault _ => None end).

(** When the answer to the last [transferdonereq] is lost, the primary goes on and
    does not answer [transferreq] any more: the backup stays in its view change, and
    every request of a client ends with BUSY until the view changes. *)
Theorem lost_answer_strands_backup : strand_run = (false, rsm_BUSY, rsm_BUSY, Some rsmc_BUSY).
Proof. vm_compute. reflexivity. Qed.

End demo.
End Views.
