(* ===== verification/RsmClient.v ===== *)
(** * The client of the replicated state machine
    (src/rsm/rsm_client.cc, include/rsm/rsm_client.h)

    [invoke] looks for the primary among the members it knows; the [call]
    templates put the service's request and reply inside those of [invoke].
    [rsm_client_mutex] is released during calls, so the client's state is part
    of the world that the calls may change. *)

From S2P Require Import Prelude.
From S2P Require Import Marshall.
From S2P Require Import Protocol.
From S2P Require Import Stubs.
From S2P Require Import PaxosLog.
From S2P Require Import Config.
From S2P Require Import Rsm.

Local Open Scope string_scope.
Local Open Scope Z_scope.

Module RsmClient.

Record rsm_client := MkClient { primary : string; known_mems : list string }.

(** The two calls the client makes; [None]: no handle. *)
Class ClientNet (W : Type) := {
  rc : W -> rsm_client;
  put_rc : W -> rsm_client -> W;
  net_client_invoke : W -> string -> Z -> string -> W * option (Z * string);
  net_members : W -> string -> W * option (Z * list string);
}.

(** [back()] and [pop_back()] *)
Definition take_back (l : list string) : option (string * list string) :=
  match rev l with [] => None | x :: l => Some (x, rev l) end.

Definition primary_failure (c : rsm_client) : outcome rsm_client :=
  match take_back (known_mems c) with
  | Some (p, l) => Val (MkClient p l)
  | None => Fault VerifyFailed
  end.

Section client.
Context `{ClientNet W}.

Definition init_members (w : W) : outcome (W * bool) :=
  let '(w, res) := net_members w (primary (rc w)) in
  match res with
  | None => Val (w, false)
  | Some (ret, new_view) =>
      if negb (ret =? rsm_OK) then Val (w, false)
      else match take_back new_view with
           | None => Fault VerifyFailed
           | Some (p, l) => Val (put_rc w (MkClient p l), true)
           end
  end.

(** The constructor, for a client that is to contact [dst]. *)
Definition client_start (w : W) (dst : string) : outcome W :=
  let w := put_rc w (MkClient dst []) in
  let! '(w, ok) := init_members w in
  VERIFY ok ;;; Val w.

(** One turn of [invoke]'s loop; [Some] when it returns. *)
Definition prim_fail (w : W) : outcome (W * option (Z * string)) :=
  let! c := primary_failure (rc w) in Val (put_rc w c, None).
Definition invoke_turn (w : W) (proc : Z) (req : string) : outcome (W * option (Z * string)) :=
  let '(w, res) := net_client_invoke w (primary (rc w)) proc req in
  match res with
  | None => prim_fail w
  | Some (ret, rep) =>
      if ret =? rsmc_OK then Val (w, Some (ret, rep))
      else if ret =? rsmc_BUSY then Val (w, None)
      else if ret =? rsmc_NOTPRIMARY then
        let! '(w, ok) := init_members w in
        if ok then Val (w, None) else prim_fail w
      else prim_fail w
  end.

(** [fuel] bounds the turns; a service that stays busy is asked for ever. *)
Fixpoint invoke (fuel : nat) (w : W) (proc : Z) (req : string) : outcome (W * option (Z * string)) :=
  match fuel with
  | O => Val (w, None)
  | S fuel =>
      let! '(w, res) := invoke_turn w proc req in
      match res with Some r => Val (w, Some r) | None => invoke fuel w proc req end
  end.

End client.

Section stubs.
Context `{Heap}.

(** [call_m] on what [invoke] returned. *)
Definition call_m {R} `{!Wire R} (intret : Z) (rep : string) (r : R) : outcome (Z * R) :=
  VERIFY (intret =? rsmc_OK) ;;;
  let! u := take_content rep in
  let! '(u, intret) := get_int u intret in
  if intret <? 0 then Val (intret, r)
  else
    let! '(u, res) := get_string u "" in
    VERIFY (okdone u) ;;;
    let! u1 := take_content res in
    let! '(u1, r) := get u1 r in
    VERIFY (okdone u1) ;;;
    Val (intret, r).

(** The [call] templates: marshal the arguments and hand the string to
    [invoke]. *)
Definition call {W R T} `{!Wire R, !Args T}
    (inv : W -> Z -> string -> outcome (W * Z * string)) (w : W) (proc : Z) (a : T) (r : R)
    : outcome (W * Z * R) :=
  let! m := put_args marshall_new a in
  let! req := str m in
  let! '(w, intret, rep) := inv w proc req in
  let! '(intret, r) := call_m intret rep r in
  Val (w, intret, r).

Section overloads.
Context {W A1 A2 A3 A4 A5 R : Type}.
Context `{!Wire A1, !Wire A2, !Wire A3, !Wire A4, !Wire A5, !Wire R}.
Context (inv : W -> Z -> string -> outcome (W * Z * string)).

Definition call_1 (w : W) (proc : Z) (a1 : A1) (r : R) : outcome (W * Z * R) :=
  call (T := A1 * unit) inv w proc (a1, tt) r.
Definition call_2 (w : W) (proc : Z) (a1 : A1) (a2 : A2) (r : R) : outcome (W * Z * R) :=
  call (T := A1 * (A2 * unit)) inv w proc (a1, (a2, tt)) r.
Definition call_3 (w : W) (proc : Z) (a1 : A1) (a2 : A2) (a3 : A3) (r : R) : outcome (W * Z * R) :=
  call (T := A1 * (A2 * (A3 * unit))) inv w proc (a1, (a2, (a3, tt))) r.
Definition call_4 (w : W) (proc : Z) (a1 : A1) (a2 : A2) (a3 : A3) (a4 : A4) (r : R)
    : outcome (W * Z * R) :=
  call (T := A1 * (A2 * (A3 * (A4 * unit)))) inv w proc (a1, (a2, (a3, (a4, tt)))) r.
Definition call_5 (w : W) (proc : Z) (a1 : A1) (a2 : A2) (a3 : A3) (a4 : A4) (a5 : A5) (r : R)
    : outcome (W * Z * R) :=
  call (T := A1 * (A2 * (A3 * (A4 * (A5 * unit))))) inv w proc (a1, (a2, (a3, (a4, (a5, tt))))) r.

End overloads.

(** ** Through the replicated state machine *)

(** [execute] on one node as the answer to [invoke]. *)
Definition at_node {S} (r : Rsm.rsm S) (proc : Z) (req : string) : outcome (Rsm.rsm S * Z * string) :=
  let! '(r, rep) := Rsm.execute r proc req in Val (r, rsmc_OK, rep).

Lemma rsm_fn_spec {S T R} `{!Args T, !ArgsLaws T, !Wire R, !WireLaws R}
    (meth : method S T R) s s' a r b u :
  u_wf u -> args_ok a -> u_rest u = encode_args a ->
  meth s a dflt = Val (s', r, b) -> wire_ok r ->
  Z.of_nat (length (encode r)) <= MAX_MARSHALL - RPC_HEADER_SZ ->
  exists ret, rsm_fn meth s u marshall_new = Val (s', ret, b) /\
              appended marshall_new (encode r) ret.
Proof.
  intros Hu Ha Hr Hmeth Hok Hlen.
  destruct (get_args_encode u a []) as (u' & Hget & Hc); [done|done|by rewrite app_nil_r|].
  destruct (put_encode marshall_new r) as (ret & Hput & Happ);
    [apply marshall_new_wf|done|change (m_ind marshall_new) with RPC_HEADER_SZ; lia|].
  exists ret. split; [|done]. unfold rsm_fn. rewrite Hget. cbn [obind].
  rewrite (okdone_consumed u u' _ Hc Hr). cbn [VERIFY obind]. rewrite Hmeth. cbn [obind].
  by rewrite Hput.
Qed.


Lemma length_encoded {R} `{!Wire R, !WireLaws R} (r : R) :
  wire_ok r -> String.length (string_of_bytes (encode r)) = length (encode r).
Proof.
  intros Hr. by rewrite <-length_bytes_of_string, bytes_of_string_of_bytes by (by apply encode_u8).
Qed.

(** What [execute] sends back: the status and the marshalled reply. *)
Definition reply_bytes {R} `{!Wire R, !WireLaws R} (b : Z) (r : R) : list Z :=
  app (encode (A := sint) b) (encode (string_of_bytes (encode r))).

Lemma length_reply_bytes {R} `{!Wire R, !WireLaws R} (b : Z) (r : R) :
  wire_ok r -> length (reply_bytes b r) = (8 + length (encode r))%nat.
Proof.
  intros Hr. unfold reply_bytes. rewrite length_app. set (res := string_of_bytes _).
  change (encode res) with (app (be32 (Z.of_nat (String.length res))) (bytes_of_string res)).
  rewrite length_app, length_bytes_of_string. unfold res. rewrite length_encoded by done. done.
Qed.

Lemma execute_spec {S T R} `{!Args T, !ArgsLaws T, !Wire R, !WireLaws R}
    (meth : method S T R) (n : Rsm.rsm S) proc s' a r b :
  Rsm.procs n !! proc = Some (rsm_fn meth) ->
  args_ok a -> Z.of_nat (length (encode_args a)) <= MAX_MARSHALL ->
  meth (Rsm.sobj n) a dflt = Val (s', r, b) -> is_s32 b ->
  wire_ok r -> Z.of_nat (length (encode r)) <= MAX_MARSHALL - RPC_HEADER_SZ - 8 ->
  Rsm.execute n proc (string_of_bytes (encode_args a)) =
  Val (Rsm.set_sobj n s', string_of_bytes (reply_bytes b r)).
Proof.
  intros Hp Ha Hla Hm Hb Hr Hlr. unfold Rsm.execute. rewrite Hp.
  destruct (take_content_bytes (encode_args a)) as (u & -> & Hu & Hur);
    [by apply encode_args_u8|done|]. cbn [obind].
  destruct (rsm_fn_spec meth (Rsm.sobj n) s' a r b u) as (ret & -> & Happ); try done; [lia|].
  cbn [obind]. change (put_int marshall_new b) with (put (A := sint) marshall_new b).
  destruct (put_encode (A := sint) marshall_new b) as (rep1 & -> & Happ1);
    [apply marshall_new_wf|done|change (m_ind marshall_new) with 24; simpl; unfold MAX_MARSHALL; lia|].
  cbn [obind]. rewrite (str_appended _ _ Happ). cbn [obind].
  set (res := string_of_bytes (encode r)).
  assert (String.length res = length (encode r)) as Hlen by (by apply length_encoded).
  change (put_string rep1 res) with (put rep1 res).
  change RPC_HEADER_SZ with 24 in Hlr. unfold MAX_MARSHALL in Hlr.
  destruct (put_encode rep1 res) as (rep2 & -> & Happ2).
  { apply Happ1. }
  { unfold wire_ok. simpl. rewrite Hlen. unfold INT_MAX in *. lia. }
  { destruct Happ1 as (_ & _ & ->). change (m_ind marshall_new) with 24. unfold encode at 1 2. simpl.
    rewrite length_bytes_of_string, Hlen. unfold MAX_MARSHALL. lia. }
  cbn [obind]. rewrite (str_appended rep2 (reply_bytes b r)); [done|]. by eapply appended_trans.
Qed.

(** C15: a call of the replicated service is a method call. The request that
    [rsm_client::call] marshals, [rsm::execute] on the node that runs it, and
    the nested reply that [call_m] takes apart together run the registered
    method once, on the node's object and exactly the arguments of the call,
    and return its status and, unless that is negative, its reply. *)
Theorem rsm_call_is_method_call {S T R} `{!Args T, !ArgsLaws T, !Wire R, !WireLaws R}
    (meth : method S T R) (n : Rsm.rsm S) (proc : Z) (s' : S) (a : T) (r r0 : R) (b : Z) :
  Rsm.procs n !! proc = Some (rsm_fn meth) ->
  args_ok a -> Z.of_nat (length (encode_args a)) <= MAX_MARSHALL - RPC_HEADER_SZ ->
  meth (Rsm.sobj n) a dflt = Val (s', r, b) -> is_s32 b ->
  wire_ok r -> Z.of_nat (length (encode r)) <= MAX_MARSHALL - RPC_HEADER_SZ - 8 ->
  call at_node n proc a r0 = Val (Rsm.set_sobj n s', b, if b <? 0 then r0 else r).
Proof.
  intros Hp Ha Hla Hm Hb Hr Hlr. unfold call.
  destruct (put_args_encode marshall_new a) as (m & -> & Happ);
    [apply marshall_new_wf|done|change (m_ind marshall_new) with RPC_HEADER_SZ; lia|].
  cbn [obind]. rewrite (str_appended _ _ Happ). cbn [obind]. unfold at_node.
  rewrite (execute_spec meth n proc s' a r b) by (done || (change RPC_HEADER_SZ with 24 in *; lia)).
  cbn [obind]. unfold call_m. cbn [VERIFY rsmc_OK Z.eqb obind].
  change RPC_HEADER_SZ with 24 in *. unfold MAX_MARSHALL in *.
  set (res := string_of_bytes (encode r)).
  assert (String.length res = length (encode r)) as Hlen by (by apply length_encoded).
  assert (wire_ok res) as Hres.
  { unfold wire_ok. simpl. rewrite Hlen. unfold INT_MAX. lia. }
  destruct (take_content_bytes (reply_bytes b r)) as (u & -> & Hu & Hur).
  { unfold reply_bytes. apply Forall_app. split; by apply encode_u8. }
  { rewrite length_reply_bytes by done. unfold MAX_MARSHALL. lia. }
  cbn [obind].
  destruct (get_encode (A := sint) u b rsmc_OK (encode res)) as (u1 & Hg1 & Hc1); [done|done|done|].
  change (get_int u rsmc_OK) with (get (A := sint) u rsmc_OK). rewrite Hg1. cbn [obind].
  destruct (b <? 0); [done|].
  assert (u_rest u1 = encode res) as Hur1 by (eapply consumed_rest; done).
  destruct (get_encode u1 res "" []) as (u2 & Hg2 & Hc2); [apply Hc1|done|by rewrite app_nil_r|].
  change (get_string u1 "") with (get u1 ""). rewrite Hg2. cbn [obind].
  rewrite (okdone_consumed u1 u2 _ Hc2 Hur1). cbn [VERIFY obind].
  destruct (take_content_bytes (encode r)) as (u3 & Ht3 & Hu3 & Hur3);
    [by apply encode_u8|unfold MAX_MARSHALL; lia|].
  unfold res. rewrite Ht3. cbn [obind].
  destruct (get_encode u3 r r0 []) as (u4 & -> & Hc4); [done|done|by rewrite app_nil_r|].
  cbn [obind]. by rewrite (okdone_consumed u3 u4 _ Hc4 Hur3).
Qed.

End stubs.

(** ** Looking for the primary *)

(** One thread uses the client: while it is in a call nobody else changes what the
    client knows. The network is free otherwise, nodes answer differently from one
    call to the next. *)
Class ClientNetLaws (W : Type) `{ClientNet W} := {
  rc_put (w : W) c : rc (put_rc w c) = c;
  rc_invoke (w : W) x proc req : rc (net_client_invoke w x proc req).1 = rc w;
  rc_members (w : W) x : rc (net_members w x).1 = rc w;
}.

(** The candidates in the order in which they are tried. *)
Definition candidates (c : rsm_client) : list string := primary c :: rev (known_mems c).

(** How a turn goes: the primary answers OK; it is busy; it is not the primary and
    lists so many members; or it is given up. *)
Inductive kind := Answers | Busy | Moved (members : nat) | Fails.

(** The turns a kind may add to a run. *)
Definition grants (k : kind) : nat := match k with Busy => 1 | Moved n => n | _ => 0 end.

Section search.
Context `{ClientNetLaws W} (proc : Z) (req : string).
Implicit Types (w : W).

Definition turn_kind w : kind :=
  let '(w, res) := net_client_invoke w (primary (rc w)) proc req in
  match res with
  | None => Fails
  | Some (ret, _) =>
      if ret =? rsmc_OK then Answers
      else if ret =? rsmc_BUSY then Busy
      else if ret =? rsmc_NOTPRIMARY then
        match (net_members w (primary (rc w))).2 with
        | Some (ret, l) => if ret =? rsm_OK then Moved (length l) else Fails
        | None => Fails
        end
      else Fails
  end.

(** The kinds of the first [n] turns of [invoke]. *)
Fixpoint kinds (n : nat) w : list kind :=
  match n with
  | O => []
  | S n => turn_kind w :: match invoke_turn w proc req with Val (w, None) => kinds n w | _ => [] end
  end.

Definition granted (n : nat) w : nat := list_sum (grants <$> kinds n w).

(** The states at the head of the loop. *)
Definition next_turn w w' : Prop := invoke_turn w proc req = Val (w', None).

Lemma prim_fail_spec w :
  match rev (known_mems (rc w)) with
  | [] => prim_fail w = Fault VerifyFailed
  | x :: l => exists w', prim_fail w = Val (w', None) /\ candidates (rc w') = x :: l
  end.
Proof.
  unfold prim_fail, primary_failure. unfold take_back. destruct (rev _) as [|x l]; [done|]. simpl.
  eexists. split; [done|]. rewrite rc_put. unfold candidates. simpl. by rewrite rev_involutive.
Qed.

Lemma invoke_turn_spec w :
  match turn_kind w with
  | Answers => exists w' rep, net_client_invoke w (primary (rc w)) proc req = (w', Some (rsmc_OK, rep)) /\
      invoke_turn w proc req = Val (w', Some (rsmc_OK, rep))
  | Busy => exists w', next_turn w w' /\ rc w' = rc w
  | Moved n => (n = 0%nat /\ invoke_turn w proc req = Fault VerifyFailed) \/
      exists w', next_turn w w' /\ length (candidates (rc w')) = n
  | Fails => match rev (known_mems (rc w)) with
             | [] => invoke_turn w proc req = Fault VerifyFailed
             | x :: l => exists w', next_turn w w' /\ candidates (rc w') = x :: l
             end
  end.
Proof.
  unfold turn_kind, next_turn, invoke_turn. pose proof (rc_invoke w (primary (rc w)) proc req) as Hrc.
  destruct (net_client_invoke _ _ _ _) as [w1 res]. simpl in Hrc.
  pose proof (prim_fail_spec w1) as Hpf. rewrite Hrc in Hpf.
  destruct res as [[ret rep]|]; [|done].
  destruct (Z.eqb_spec ret rsmc_OK) as [->|_]; [by eauto|].
  destruct (ret =? rsmc_BUSY); [by eauto|]. destruct (ret =? rsmc_NOTPRIMARY); [|done].
  unfold init_members. pose proof (rc_members w1 (primary (rc w1))) as Hrm.
  destruct (net_members w1 _) as [w2 ans]. simpl in *. rewrite Hrc in Hrm.
  pose proof (prim_fail_spec w2) as Hpf2. rewrite Hrm in Hpf2.
  destruct ans as [[ret' l]|]; [|done]. destruct (ret' =? rsm_OK); [|done]. simpl.
  unfold take_back. destruct (rev l) as [|x l'] eqn:El.
  - left. split; [|done]. by rewrite <-(length_rev l), El.
  - right. simpl. eexists. split; [done|]. rewrite rc_put. unfold candidates. simpl.
    by rewrite rev_involutive, <-(length_rev l), El.
Qed.

(** Every turn that does not end the run uses up a candidate, or is a BUSY, or comes
    with a list of members. *)
Lemma turn_cost w w' :
  next_turn w w' ->
  (1 + length (candidates (rc w')) <= length (candidates (rc w)) + grants (turn_kind w))%nat.
Proof.
  intros Hn. pose proof (invoke_turn_spec w) as Ht. unfold candidates in *. simpl in *. unfold next_turn in *.
  destruct (turn_kind w) as [| |n|]; simpl.
  - destruct Ht as (? & ? & _ & ?). congruence.
  - destruct Ht as (w1 & H1 & H2). assert (w1 = w') as -> by congruence. rewrite H2. lia.
  - destruct Ht as [[_ ?]|(w1 & H1 & H2)]; [congruence|]. assert (w1 = w') as -> by congruence. lia.
  - destruct (rev (known_mems (rc w))) as [|x l] eqn:E; [congruence|]. destruct Ht as (w1 & H1 & H2).
    assert (w1 = w') as -> by congruence. injection H2 as H2 H3. rewrite H3. simpl. lia.
Qed.

Lemma invoke_cost n : forall w w',
  invoke n w proc req = Val (w', None) ->
  (n + length (candidates (rc w')) <= length (candidates (rc w)) + granted n w)%nat.
Proof.
  induction n as [|n IH]; intros w w'; cbn [invoke]; [intros [= <-]; unfold granted; simpl; lia|].
  unfold granted. cbn [kinds]. destruct (invoke_turn w proc req) as [[w1 [r|]]|] eqn:E; simpl; [done| |done].
  intros Hr%IH. pose proof (turn_cost w w1 E). unfold granted, fmap in *. simpl in *. lia.
Qed.

(** How a run ends. *)
Lemma invoke_ends n : forall w,
  match invoke n w proc req with
  | Val (w', Some r) => exists w1 rep, rtc next_turn w w1 /\ r = (rsmc_OK, rep) /\
      net_client_invoke w1 (primary (rc w1)) proc req = (w', Some (rsmc_OK, rep))
  | Val (w', None) => True
  | Fault f => f = VerifyFailed /\ exists w1, rtc next_turn w w1 /\
      (known_mems (rc w1) = [] /\ turn_kind w1 = Fails \/ turn_kind w1 = Moved 0)
  end.
Proof.
  induction n as [|n IH]; intros w; cbn [invoke]; [done|]. pose proof (invoke_turn_spec w) as Ht.
  destruct (invoke_turn w proc req) as [[w1 [r|]]|f] eqn:E; cbn [obind].
  - exists w. unfold next_turn in Ht. destruct (turn_kind w) as [| |m|].
    + destruct Ht as (w' & rep & Hc & He). injection He as -> ->. eauto using rtc_refl.
    + destruct Ht as (? & ? & _). congruence.
    + destruct Ht as [[_ ?]|(? & ? & _)]; congruence.
    + destruct (rev _); [congruence|]. destruct Ht as (? & ? & _). congruence.
  - specialize (IH w1). destruct (invoke n w1 proc req) as [[w' [r|]]|f]; [|done|].
    + destruct IH as (w2 & rep & ? & ?). exists w2, rep. split; [by eapply rtc_l|done].
    + destruct IH as (? & w2 & ? & ?). split; [done|]. exists w2. split; [by eapply rtc_l|done].
  - assert (f = VerifyFailed /\ (known_mems (rc w) = [] /\ turn_kind w = Fails \/ turn_kind w = Moved 0)) as [-> Hw];
      [|eauto using rtc_refl]. unfold next_turn in Ht.
    destruct (turn_kind w) as [| |m|].
    + destruct Ht as (? & ? & _ & ?). congruence.
    + destruct Ht as (? & ? & _). congruence.
    + destruct Ht as [[-> ?]|(? & ? & _)]; [|congruence]. split; [congruence|by right].
    + destruct (rev (known_mems (rc w))) as [|x l] eqn:El; [|destruct Ht as (? & ? & _); congruence].
      split; [congruence|]. left. split; [|done]. by rewrite <-(rev_involutive (known_mems _)), El.
Qed.

(** C16: the client finds a primary that answers. Whatever the nodes answer, and
    whenever: suppose the BUSY answers and the members listed in redirections of a run
    of [invoke] are at most [K] together (a service that stays busy is asked for ever).
    Then [invoke] ends after at most [K] turns more than there are candidates. It
    returns with the reply of a node that answered OK to this very call, when it was
    the one the client took for the primary; or it aborts, and then the last known
    member has failed, or a node listed no members. A turn that does not end the run
    leaves the client as it is when the node is busy, goes on with the next candidate,
    the last of the known members, when the node fails, and goes on with the primary
    and the view of the node when it redirects the client with the answer of
    [rsm::client_members]. *)
Theorem client_finds_primary w (K : nat) :
  (forall n, (granted n w <= K)%nat) ->
  (exists w1, rtc next_turn w w1 /\
     ((exists w' rep, invoke (length (candidates (rc w)) + K) w proc req = Val (w', Some (rsmc_OK, rep)) /\
        net_client_invoke w1 (primary (rc w1)) proc req = (w', Some (rsmc_OK, rep))) \/
      (invoke (length (candidates (rc w)) + K) w proc req = Fault VerifyFailed /\
       (known_mems (rc w1) = [] /\ turn_kind w1 = Fails \/ turn_kind w1 = Moved 0)))) /\
  (forall w1 w', next_turn w1 w' ->
     match turn_kind w1 with
     | Answers => False
     | Busy => rc w' = rc w1
     | Fails => candidates (rc w1) = primary (rc w1) :: candidates (rc w')
     | Moved _ => forall S (n : Rsm.rsm S),
         (net_members (net_client_invoke w1 (primary (rc w1)) proc req).1 (primary (rc w1))).2 =
           Some ((Rsm.client_members n).2, (Rsm.client_members n).1.2) ->
         rc w' = MkClient (Rsm.primary n) (Config.get_view (Rsm.cfg n) (Rsm.vid_commit n)).2
     end).
Proof.
  intros HK. split.
  - pose proof (invoke_ends (length (candidates (rc w)) + K) w) as He.
    pose proof (invoke_cost (length (candidates (rc w)) + K) w) as Hc. specialize (HK (length (candidates (rc w)) + K)%nat).
    destruct (invoke _ _ _ _) as [[w' [r|]]|f].
    + destruct He as (w1 & rep & ? & -> & ?). exists w1. split; [done|]. left. eauto.
    + specialize (Hc w' eq_refl). unfold candidates in *. simpl in *. lia.
    + destruct He as (-> & w1 & ? & ?). exists w1. split; [done|]. by right.
  - intros w1 w' Hn. pose proof (invoke_turn_spec w1) as Ht. pose proof Hn as Hn0. unfold next_turn in *.
    destruct (turn_kind w1) as [| |k|] eqn:Ek.
    + destruct Ht as (? & ? & _ & ?). congruence.
    + destruct Ht as (w2 & ? & ?). congruence.
    + intros S n Hm. revert Hn0 Ek. unfold invoke_turn, turn_kind.
      pose proof (rc_invoke w1 (primary (rc w1)) proc req) as Hrc.
      destruct (net_client_invoke _ _ _ _) as [w2 res]. simpl in Hrc, Hm.
      destruct res as [[ret rep]|]; [|done].
      destruct (ret =? rsmc_OK); [done|]. destruct (ret =? rsmc_BUSY); [done|].
      destruct (ret =? rsmc_NOTPRIMARY); [|done]. unfold init_members. rewrite Hrc.
      destruct (net_members w2 _) as [w3 ans]. simpl in *. subst ans. unfold Rsm.client_members.
      destruct (Config.get_view (Rsm.cfg n) (Rsm.vid_commit n)) as [cf m]. simpl.
      unfold take_back. rewrite rev_app_distr. simpl. intros [= <-] _. by rewrite rc_put, rev_involutive.
    + unfold candidates. destruct (rev (known_mems (rc w1))) as [|x l]; [congruence|].
      destruct Ht as (w2 & ? & Hc). assert (w2 = w') as -> by congruence. f_equal. by symmetry.
Qed.

(** A service that stays busy is asked for ever. *)
Lemma busy_for_ever n w :
  (forall w1, rtc next_turn w w1 -> turn_kind w1 = Busy) -> exists w', invoke n w proc req = Val (w', None).
Proof.
  revert w. induction n as [|n IH]; intros w Hb; cbn [invoke]; [by eexists|].
  pose proof (invoke_turn_spec w) as Ht. rewrite (Hb w) in Ht by apply rtc_refl. destruct Ht as (w1 & E & _).
  pose proof E as E0. unfold next_turn in E0. rewrite E0. cbn [obind]. apply IH. intros w2 Hr. apply Hb. by eapply rtc_l.
Qed.

End search.

(** ** Examples *)

Section demo.
#[local] Instance demo_heap : Heap := fun _ => 0.

Definition demo_node : Rsm.rsm Z :=
  Rsm.MkRsm {[ 7 := rsm_fn demo_method ]}
    (Config.MkConfig (PaxosLog.Acceptor "n1" (Prop_t 0 "n1") (Prop_t 0 "n1") "" 1 {[ 1 := "n1 n2 " ]} "")
       1 "n1" ["n1"; "n2"])
    false 40 (Viewstamp 1 1) (Viewstamp 0 0) "n1" false false 1 1 []
    (Rsm.Testing false false false false).

Lemma rsm_call_is_method_call_witness :
  call at_node demo_node 7 demo_args (0 : sint) = Val (Rsm.set_sobj demo_node 42, 0, 42).
Proof.
  apply (rsm_call_is_method_call (R := sint) demo_method demo_node 7 42 demo_args 42 0 0).
  - reflexivity.
  - unfold args_ok. simpl. unfold INT_MAX, is_s32. split_and!; lia.
  - vm_compute. discriminate.
  - reflexivity.
  - unfold is_s32. lia.
  - unfold wire_ok. simpl. unfold is_s32. lia.
  - vm_compute. discriminate.
Defined.

(** A network that plays a list of answers to each of the two calls. *)
Record scripted := Scripted {
  sc_rc : rsm_client;
  sc_answers : list (option (Z * string));
  sc_members : list (option (Z * list string));
}.
#[local] Instance scripted_net : ClientNet scripted := {|
  rc := sc_rc;
  put_rc w c := Scripted c (sc_answers w) (sc_members w);
  net_client_invoke w _ _ _ := (Scripted (sc_rc w) (tail (sc_answers w)) (sc_members w), default None (head (sc_answers w)));
  net_members w _ := (Scripted (sc_rc w) (sc_answers w) (tail (sc_members w)), default None (head (sc_members w)));
|}.
#[local] Instance scripted_laws : ClientNetLaws scripted.
Proof. split; done. Qed.

(** "n3" is down; "n2" is busy, then no longer the primary and knows of "n4" and
    "n5"; "n5" fails; "n4" answers. *)
Definition demo_script : scripted :=
  Scripted (MkClient "n3" ["n1"; "n2"])
    [None; Some (rsmc_BUSY, ""); Some (rsmc_NOTPRIMARY, ""); Some (rsmc_ERR, ""); Some (rsmc_OK, "done")]
    [Some (rsm_OK, ["n4"; "n5"])].

Lemma demo_granted n : (granted 7 "req" n demo_script <= 3)%nat.
Proof. destruct n as [|[|[|[|[|n]]]]]; vm_compute; repeat constructor. Qed.

Lemma client_finds_primary_witness :
  kinds 7 "req" 6 demo_script = [Fails; Busy; Moved 2; Fails; Answers] /\
  exists w1, rtc (next_turn 7 "req") demo_script w1 /\
    ((exists w' rep, invoke 6 demo_script 7 "req" = Val (w', Some (rsmc_OK, rep)) /\
       net_client_invoke w1 (primary (rc w1)) 7 "req" = (w', Some (rsmc_OK, rep))) \/
     (invoke 6 demo_script 7 "req" = Fault VerifyFailed /\
      (known_mems (rc w1) = [] /\ turn_kind 7 "req" w1 = Fails \/ turn_kind 7 "req" w1 = Moved 0))).
Proof.
  split; [vm_compute; reflexivity|].
  exact (proj1 (client_finds_primary 7 "req" demo_script 3 demo_granted)).
Defined.

Example demo_failover :
  (fun r => (sc_rc r.1, r.2)) <$> match invoke 6 demo_script 7 "req" with Val r => Some r | Fault _ => None end =
  Some (MkClient "n4" [], Some (rsmc_OK, "done")).
Proof. reflexivity. Qed.

End demo.
End RsmClient.
