(* ===== verification/Handle.v ===== *)
(** * The cache of RPC connections (src/util/handle.cc, include/util/handle.h)

    [hinfo] objects live on a heap and are reached through pointers: from the
    manager's map and from every [handle] object. Following a pointer to a
    deleted object is undefined behaviour, so the operations can fault. *)

From S2P Require Import Prelude.

Local Open Scope Z_scope.

Module Handle.

(** [cl] is the bound client, [None] for a null pointer. *)
Record hinfo := Hinfo { cl : option Z; refcnt : Z; del : bool; hm : string }.

Record handle_mgr := Mgr { heap : gmap nat hinfo; hmap : gmap string nat; fresh : nat }.

Definition deref (g : handle_mgr) (p : nat) : outcome hinfo :=
  match heap g !! p with Some i => Val i | None => Fault Undefined end.
Definition store (g : handle_mgr) (p : nat) (i : hinfo) : handle_mgr :=
  Mgr (<[p := i]> (heap g)) (hmap g) (fresh g).

Definition get_handle (g : handle_mgr) (m : string) : outcome (handle_mgr * option nat) :=
  match hmap g !! m with
  | None =>
      let p := fresh g in
      Val (Mgr (<[p := Hinfo None 1 false m]> (heap g)) (<[m := p]> (hmap g)) (S p), Some p)
  | Some p =>
      let! i := deref g p in
      if negb (del i) then Val (store g p (Hinfo (cl i) (refcnt i + 1) (del i) (hm i)), Some p)
      else Val (g, None)
  end.

Definition delete_handle_wo (g : handle_mgr) (m : string) : outcome handle_mgr :=
  match hmap g !! m with
  | None => Val g
  | Some p =>
      let! i := deref g p in
      if refcnt i =? 0 then Val (Mgr (delete p (heap g)) (delete m (hmap g)) (fresh g))
      else Val (store g p (Hinfo (cl i) (refcnt i) true (hm i)))
  end.

Definition delete_handle (g : handle_mgr) (m : string) : outcome handle_mgr :=
  delete_handle_wo g m.

Definition done_handle (g : handle_mgr) (p : nat) : outcome handle_mgr :=
  let! i := deref g p in
  let i := Hinfo (cl i) (refcnt i - 1) (del i) (hm i) in
  let g := store g p i in
  if (refcnt i =? 0) && del i then delete_handle_wo g (hm i) else Val g.

(** [handle::handle], [handle::~handle] and [handle::safebind] of a handle that
    holds [h]; [bind] is the result of binding the new client [c]. *)
Definition handle_new (g : handle_mgr) (m : string) : outcome (handle_mgr * option nat) :=
  get_handle g m.
Definition handle_delete (g : handle_mgr) (h : option nat) : outcome handle_mgr :=
  match h with None => Val g | Some p => done_handle g p end.

Definition safebind (g : handle_mgr) (h : option nat) (c bind : Z) : outcome (handle_mgr * option Z) :=
  match h with
  | None => Val (g, None)
  | Some p =>
      let! i := deref g p in
      if del i then Val (g, None)
      else match cl i with
           | Some c => Val (g, Some c)
           | None =>
               if bind <? 0 then Val (store g p (Hinfo None (refcnt i) true (hm i)), None)
               else Val (store g p (Hinfo (Some c) (refcnt i) false (hm i)), Some c)
           end
  end.

(** ** Programs that use handles *)

(** The live [handle] objects, by a number. *)
Record state := State { mgr : handle_mgr; handles : gmap nat (option nat) }.

Definition start : state := State (Mgr ∅ ∅ 0) ∅.

Inductive event :=
| Open (id : nat) (m : string)        (* [handle h(m)] *)
| Close (id : nat)                    (* its destructor *)
| Bind (id : nat) (c ret : Z)         (* [h.safebind()] *)
| Delete (m : string).                (* [mgr.delete_handle(m)] *)

Definition run_event (s : state) (e : event) : outcome state :=
  match e with
  | Open id m =>
      match handles s !! id with
      | Some _ => Val s
      | None => let! '(g, h) := handle_new (mgr s) m in Val (State g (<[id := h]> (handles s)))
      end
  | Close id =>
      match handles s !! id with
      | None => Val s
      | Some h => let! g := handle_delete (mgr s) h in Val (State g (delete id (handles s)))
      end
  | Bind id c ret =>
      match handles s !! id with
      | None => Val s
      | Some h => let! '(g, _) := safebind (mgr s) h c ret in Val (State g (handles s))
      end
  | Delete m => let! g := delete_handle (mgr s) m in Val (State g (handles s))
  end.

Fixpoint run_events (s : state) (es : list event) : outcome state :=
  match es with
  | [] => Val s
  | e :: es => let! s := run_event s e in run_events s es
  end.

(** ** Pointers and counts *)

(** The handles that hold [p]. *)
Definition holders (hs : gmap nat (option nat)) (p : nat) : nat :=
  size (filter (fun kv => kv.2 = Some p) hs).

Record wf (s : state) : Prop := {
  wf_map : forall m p, hmap (mgr s) !! m = Some p -> exists i, heap (mgr s) !! p = Some i /\ hm i = m;
  wf_heap : forall p i, heap (mgr s) !! p = Some i -> hmap (mgr s) !! hm i = Some p;
  wf_handles : forall id p, handles s !! id = Some (Some p) -> is_Some (heap (mgr s) !! p);
  wf_count : forall p i, heap (mgr s) !! p = Some i -> refcnt i = Z.of_nat (holders (handles s) p);
  wf_del : forall p i, heap (mgr s) !! p = Some i -> del i = true -> 0 < refcnt i;
  wf_fresh : forall p, is_Some (heap (mgr s) !! p) -> (p < fresh (mgr s))%nat;
}.

Lemma handles_insert hs id h p :
  hs !! id = None ->
  holders (<[id := h]> hs) p = (holders hs p + if decide (h = Some p) then 1 else 0)%nat.
Proof.
  intros Hn. unfold holders. case_decide.
  - rewrite map_filter_insert_True by done. rewrite map_size_insert_None; [lia|].
    apply map_lookup_filter_None. by left.
  - rewrite map_filter_insert_False by done. rewrite delete_id by done. lia.
Qed.

Lemma handles_delete hs id h p :
  hs !! id = Some h ->
  holders hs p = (holders (delete id hs) p + if decide (h = Some p) then 1 else 0)%nat.
Proof.
  intros Hs. rewrite <-(insert_delete_id hs id h Hs) at 1.
  apply handles_insert. apply lookup_delete_eq.
Qed.

Lemma holders_zero hs p : (forall k, hs !! k <> Some (Some p)) -> holders hs p = 0%nat.
Proof.
  intros Hk. unfold holders. apply map_size_empty_iff, map_eq. intros k. rewrite lookup_empty.
  apply map_lookup_filter_None. destruct (hs !! k) as [x|] eqn:E; [right|by left].
  intros y [= <-] Hx. simpl in Hx. subst x. by apply (Hk k).
Qed.

Lemma start_wf : wf start.
Proof. split; simpl; intros *; rewrite ?lookup_empty; done. Qed.

(** The object at [p] changes, its name does not. *)
Lemma wf_store s p i i' hs' :
  wf s -> heap (mgr s) !! p = Some i -> hm i' = hm i ->
  refcnt i' = Z.of_nat (holders hs' p) ->
  (forall q, q <> p -> holders hs' q = holders (handles s) q) ->
  (forall id q, hs' !! id = Some (Some q) -> is_Some (heap (mgr s) !! q)) ->
  (del i' = true -> 0 < refcnt i') ->
  wf (State (store (mgr s) p i') hs').
Proof.
  intros [Hmap Hheap Hh Hc Hd Hf] Hp Hm Hr Hq Hp' Hdel. split; simpl.
  - intros m q Hmq. destruct (Hmap m q Hmq) as (j & Hj & Hjm). destruct (decide (q = p)) as [->|Hne].
    + exists i'. rewrite lookup_insert_eq. split; [done|]. congruence.
    + exists j. by rewrite lookup_insert_ne.
  - intros q j [[<- <-]|[_ Hj]]%lookup_insert_Some; [rewrite Hm|]; by apply Hheap.
  - intros id q Hid%Hp'. destruct (decide (q = p)) as [->|Hne].
    + rewrite lookup_insert_eq. by eexists.
    + by rewrite lookup_insert_ne.
  - intros q j [[<- <-]|[Hne Hj]]%lookup_insert_Some; [done|]. rewrite Hq by done. by apply Hc.
  - intros q j [[<- <-]|[Hne Hj]]%lookup_insert_Some; [done|]. by apply (Hd q).
  - intros q [j [[<- _]|[_ Hj]]%lookup_insert_Some]; apply Hf; by eexists.
Qed.

Lemma wf_deref s p i : heap (mgr s) !! p = Some i -> deref (mgr s) p = Val i.
Proof. unfold deref. by intros ->. Qed.

(** A new [hinfo] for a name that has none. *)
Lemma wf_alloc s id m :
  wf s -> handles s !! id = None -> hmap (mgr s) !! m = None ->
  wf (State (Mgr (<[fresh (mgr s) := Hinfo None 1 false m]> (heap (mgr s)))
                 (<[m := fresh (mgr s)]> (hmap (mgr s))) (S (fresh (mgr s))))
            (<[id := Some (fresh (mgr s))]> (handles s))).
Proof.
  intros [Hmap Hheap Hh Hc Hd Hf] Hid Hm.
  assert (heap (mgr s) !! fresh (mgr s) = None) as Hn.
  { apply eq_None_not_Some. intros Hs%Hf. lia. }
  assert (holders (handles s) (fresh (mgr s)) = 0%nat) as H0.
  { apply holders_zero. intros k [? ?]%Hh. congruence. }
  split; simpl.
  - intros m' p [[<- <-]|[Hne Hp]]%lookup_insert_Some.
    + eexists. by rewrite lookup_insert_eq.
    + destruct (Hmap m' p Hp) as (i & Hi & Him). exists i. rewrite lookup_insert_ne; [done|congruence].
  - intros p i [[<- <-]|[Hne Hi]]%lookup_insert_Some; simpl; [by rewrite lookup_insert_eq|].
    apply Hheap in Hi. rewrite lookup_insert_ne; [done|congruence].
  - intros k p [[<- [= <-]]|[_ Hk]]%lookup_insert_Some; [rewrite lookup_insert_eq; by eexists|].
    apply Hh in Hk. destruct (decide (p = fresh (mgr s))) as [->|]; [rewrite lookup_insert_eq; by eexists|].
    by rewrite lookup_insert_ne.
  - intros p i [[<- <-]|[Hne Hi]]%lookup_insert_Some; rewrite handles_insert by done.
    + rewrite decide_True by done. simpl. lia.
    + rewrite decide_False by congruence. rewrite (Hc p i Hi). lia.
  - intros p i [[<- <-]|[Hne Hi]]%lookup_insert_Some; [done|]. by apply (Hd p).
  - intros p [i [[<- _]|[_ Hi]]%lookup_insert_Some]; [lia|]. assert (p < fresh (mgr s))%nat; [|lia].
    apply Hf. by eexists.
Qed.

(** The last holder of an object goes away, and the object with it. *)
Lemma wf_free s p i hs' :
  wf s -> heap (mgr s) !! p = Some i -> holders hs' p = 0%nat ->
  (forall q, q <> p -> holders hs' q = holders (handles s) q) ->
  (forall id q, hs' !! id = Some (Some q) -> handles s !! id = Some (Some q)) ->
  wf (State (Mgr (delete p (heap (mgr s))) (delete (hm i) (hmap (mgr s))) (fresh (mgr s))) hs').
Proof.
  intros [Hmap Hheap Hh Hc Hd Hf] Hp H0 Hq Hs. split; simpl.
  - intros m q [Hne Hmq]%lookup_delete_Some. destruct (Hmap m q Hmq) as (j & Hj & Hjm).
    exists j. rewrite lookup_delete_ne; [done|]. intros ->. congruence.
  - intros q j [Hne Hj]%lookup_delete_Some. rewrite lookup_delete_ne; [by apply Hheap|].
    intros E. apply Hheap in Hj. apply Hheap in Hp. congruence.
  - intros id q Hid. pose proof (Hs _ _ Hid) as [j Hj]%Hh.
    rewrite lookup_delete_ne; [by eexists|]. intros ->.
    assert (holders hs' q <> 0%nat); [|done]. unfold holders. intros E%map_size_empty_iff.
    assert (filter (fun kv : nat * option nat => kv.2 = Some q) hs' !! id = Some (Some q)) as Hl.
    { by apply map_lookup_filter_Some. }
    by rewrite E in Hl.
  - intros q j [Hne Hj]%lookup_delete_Some. rewrite Hq by done. by apply Hc.
  - intros q j [Hne Hj]%lookup_delete_Some. by apply (Hd q).
  - intros q [j [_ Hj]%lookup_delete_Some]. apply Hf. by eexists.
Qed.

Lemma open_wf s id m : wf s -> exists s', run_event s (Open id m) = Val s' /\ wf s'.
Proof.
  intros Hw. simpl. destruct (handles s !! id) eqn:Hid; [by eexists|].
  unfold handle_new, get_handle. destruct (hmap (mgr s) !! m) as [p|] eqn:Hm.
  - destruct (wf_map _ Hw m p Hm) as (i & Hi & Him). rewrite (wf_deref _ _ _ Hi). cbn [obind].
    destruct (del i) eqn:Hd; simpl; eexists; (split; [done|]).
    + destruct Hw as [? ? Hh Hc ? ?]. split; simpl; try done.
      * intros k q [[<- ?]|[_ Hk]]%lookup_insert_Some; [done|by apply (Hh k)].
      * intros q j Hj. rewrite handles_insert, decide_False by done. rewrite (Hc q j Hj). lia.
    + apply wf_store with i; simpl; try done.
      * rewrite handles_insert, decide_True by done. rewrite (wf_count _ Hw p i Hi). lia.
      * intros q Hq. rewrite handles_insert by done. rewrite decide_False by congruence. lia.
      * intros k q [[<- [= <-]]|[_ Hk]]%lookup_insert_Some; [by eexists|by apply (wf_handles _ Hw k)].
  - eexists. split; [done|]. by apply wf_alloc.
Qed.

Lemma close_wf s id : wf s -> exists s', run_event s (Close id) = Val s' /\ wf s'.
Proof.
  intros Hw. simpl. destruct (handles s !! id) as [[p|]|] eqn:Hid; [| |by eexists].
  - destruct (wf_handles _ Hw id p Hid) as [i Hi]. simpl. unfold done_handle.
    rewrite (wf_deref _ _ _ Hi). cbn [obind]. cbv zeta. cbn [refcnt del hm].
    pose proof (wf_count _ Hw p i Hi) as Hc. rewrite (handles_delete _ _ _ p Hid) in Hc.
    rewrite decide_True in Hc by done.
    assert (forall q, q <> p -> holders (delete id (handles s)) q = holders (handles s) q) as Hq.
    { intros q Hq. rewrite (handles_delete (handles s) id _ q Hid), decide_False by congruence. lia. }
    assert (forall k q, delete id (handles s) !! k = Some (Some q) -> handles s !! k = Some (Some q)) as Hs.
    { intros k q Hk. by apply lookup_delete_Some in Hk as [_ ?]. }
    destruct ((refcnt i - 1 =? 0) && del i) eqn:E.
    + apply andb_true_iff in E as [E%Z.eqb_eq Hd]. unfold delete_handle_wo. simpl.
      rewrite (wf_heap _ Hw p i Hi). unfold deref. simpl. rewrite lookup_insert_eq. simpl.
      rewrite E. simpl. eexists. split; [done|].
      rewrite delete_insert_eq. apply wf_free; try done. lia.
    + eexists. split; [done|]. apply wf_store with i; simpl; try done; [lia| |].
      * intros k q Hk%Hs. by apply (wf_handles _ Hw k).
      * intros Hd. rewrite Hd, andb_true_r in E. apply Z.eqb_neq in E.
        pose proof (wf_del _ Hw p i Hi Hd). lia.
  - eexists. split; [done|]. destruct Hw as [? ? Hh Hc ? ?]. split; simpl; try done.
    + intros k q [_ Hk]%lookup_delete_Some. by apply (Hh k).
    + intros q j Hj. rewrite (Hc q j Hj), (handles_delete _ _ _ q Hid), decide_False by done. lia.
Qed.

Lemma bind_wf s id c ret : wf s -> exists s', run_event s (Bind id c ret) = Val s' /\ wf s'.
Proof.
  intros Hw. simpl. destruct (handles s !! id) as [[p|]|] eqn:Hid; [| |by eexists].
  2: { eexists. split; [done|]. by destruct s. }
  destruct (wf_handles _ Hw id p Hid) as [i Hi]. simpl. rewrite (wf_deref _ _ _ Hi). cbn [obind].
  destruct (del i) eqn:Hd; [eexists; split; [done|by destruct s]|].
  destruct (cl i); [eexists; split; [done|by destruct s]|].
  assert (0 < refcnt i) as Hpos.
  { rewrite (wf_count _ Hw p i Hi), (handles_delete _ _ _ p Hid), decide_True by done. lia. }
  destruct (ret <? 0); simpl; eexists; (split; [done|]);
    apply wf_store with i; simpl; try done; (apply (wf_count _ Hw p i Hi)) || apply (wf_handles _ Hw).
Qed.

Lemma delete_wf s m : wf s -> exists s', run_event s (Delete m) = Val s' /\ wf s'.
Proof.
  intros Hw. simpl. unfold delete_handle, delete_handle_wo.
  destruct (hmap (mgr s) !! m) as [p|] eqn:Hm; [|eexists; split; [done|by destruct s]].
  destruct (wf_map _ Hw m p Hm) as (i & Hi & Him). rewrite (wf_deref _ _ _ Hi). cbn [obind].
  pose proof (wf_count _ Hw p i Hi) as Hc.
  destruct (Z.eqb_spec (refcnt i) 0) as [E|E]; simpl; eexists; (split; [done|]).
  - rewrite <-Him. apply wf_free; try done. lia.
  - apply wf_store with i; simpl; try done; [apply (wf_handles _ Hw)|lia].
Qed.

Lemma run_event_wf s e : wf s -> exists s', run_event s e = Val s' /\ wf s'.
Proof. destruct e; [apply open_wf|apply close_wf|apply bind_wf|apply delete_wf]. Qed.

(** C17: handles never dangle. Whatever a program does with handles (opens and
    closes them in any order, binds, fails to bind, deletes names in between),
    no operation touches a deleted [hinfo]; every live handle points to a live
    [hinfo] or to none; the manager's map and the live objects correspond one to
    one; the count of an object is the number of handles on it; and an object
    marked for deletion is freed with its last handle, so that the name can be
    bound anew. *)
Theorem handles_never_dangle (es : list event) :
  exists s, run_events start es = Val s /\
    (forall id p, handles s !! id = Some (Some p) -> is_Some (heap (mgr s) !! p)) /\
    (forall p i, heap (mgr s) !! p = Some i ->
       hmap (mgr s) !! hm i = Some p /\ refcnt i = Z.of_nat (holders (handles s) p) /\
       (del i = true -> 0 < refcnt i)) /\
    (forall m p, hmap (mgr s) !! m = Some p -> exists i, heap (mgr s) !! p = Some i /\ hm i = m) /\
    (forall m, (forall id, handles s !! id = None) -> exists s' p,
       run_event s (Open 0 m) = Val s' /\ handles s' !! 0%nat = Some (Some p)).
Proof.
  assert (forall s, wf s -> exists s', run_events s es = Val s' /\ wf s') as Hrun.
  { induction es as [|e es IH]; intros s Hw; simpl; [by eexists|].
    destruct (run_event_wf s e Hw) as (s1 & -> & Hw1). cbn [obind]. by apply IH. }
  destruct (Hrun start start_wf) as (s & Hr & Hw). exists s. split_and!; [done|apply Hw| |apply Hw|].
  - intros p i Hi. split_and!; [by apply Hw|by apply Hw|by apply (wf_del _ Hw p)].
  - intros m Hempty. simpl. rewrite Hempty. unfold handle_new, get_handle.
    destruct (hmap (mgr s) !! m) as [p|] eqn:Hm.
    + destruct (wf_map _ Hw m p Hm) as (i & Hi & Him). rewrite (wf_deref _ _ _ Hi). cbn [obind].
      assert (holders (handles s) p = 0%nat) as H0.
      { apply holders_zero. intros k. by rewrite Hempty. }
      destruct (del i) eqn:Hd; simpl.
      * pose proof (wf_del _ Hw p i Hi Hd). pose proof (wf_count _ Hw p i Hi). lia.
      * eexists _, p. split; [done|]. apply lookup_insert_eq.
    + simpl. eexists _, _. split; [done|]. apply lookup_insert_eq.
Qed.

(** A name deleted while a handle is open makes its next [safebind] return
    null, although the first one succeeded. *)
Example deleted_name_unbinds (g : handle_mgr) p i c c' ret :
  heap g !! p = Some i -> hmap g !! hm i = Some p -> cl i = Some c -> del i = false -> refcnt i <> 0 ->
  safebind g (Some p) c' ret = Val (g, Some c) /\
  exists g', delete_handle g (hm i) = Val g' /\ safebind g' (Some p) c' ret = Val (g', None).
Proof.
  intros Hp Hm Hc Hd Hr. unfold safebind, delete_handle, delete_handle_wo, deref.
  rewrite Hm, Hp. cbn [obind]. rewrite Hd, Hc. split; [done|].
  rewrite (proj2 (Z.eqb_neq _ _) Hr). eexists. split; [done|]. simpl.
  by rewrite lookup_insert_eq.
Qed.

End Handle.
