(* ===== verification/ExtentClient.v ===== *)
(** * The extent client (src/extent_client/extent_client.cc)

    The extent server and [extent_protocol] are not part of the repository:
    the server is an interface with the behaviour its clients rely on, the
    status codes and the attribute type are parameters. *)

From S2P Require Import Prelude.

Local Open Scope string_scope.
Local Open Scope Z_scope.

(** [extent_protocol], as far as the client uses it: [mk_attr t n] has all
    three times [t] and size [n]. *)
Class ExtentProtocol := {
  ext_OK : Z;
  ext_NOENT : Z;
  ext_codes : ext_OK <> ext_NOENT;
  attr : Type;
  attr0 : attr;
  mk_attr : Z -> Z -> attr;
  set_atime : attr -> Z -> attr;
}.

(** The four calls of [extent_protocol] on a server [W]; the replies are those
    the caller sees. *)
Class ExtentServer `{ExtentProtocol} (W : Type) := {
  srv_get : W -> Z -> W * Z * string;
  srv_getattr : W -> Z -> W * Z * attr;
  srv_put : W -> Z -> string -> W * Z;
  srv_remove : W -> Z -> W * Z;
}.

(** What the clients rely on: a store of extents, and calls that reach it. A call that
    fails on the way is outside of these laws; what becomes of a flush then is the
    lemma [failed_flush_loses_write] of ExtentCache. *)
Class ExtentServerLaws `{ExtentServer W} := {
  store : W -> gmap Z string;
  srv_get_some w e b : store w !! e = Some b ->
    (srv_get w e).1.2 = ext_OK /\ (srv_get w e).2 = b /\ store (srv_get w e).1.1 = store w;
  srv_get_none w e : store w !! e = None ->
    (srv_get w e).1.2 <> ext_OK /\ store (srv_get w e).1.1 = store w;
  srv_getattr_store w e : store (srv_getattr w e).1.1 = store w;
  srv_getattr_ok w e : (srv_getattr w e).1.2 = ext_OK <-> is_Some (store w !! e);
  srv_put_store w e b :
    (srv_put w e b).2 = ext_OK /\ store (srv_put w e b).1 = <[e := b]> (store w);
  srv_remove_store w e : store (srv_remove w e).1 = delete e (store w);
}.
Arguments ExtentServerLaws {_} W {_}.

(** What the answers say about the store: the size among the attributes of an
    extent is that of its content ([size_field] is the conversion of a length to the
    type of the field), and only what exists can be removed. *)
Class ExtentServerReplies `{ExtentServer W} `{!ExtentServerLaws W} := {
  attr_size : attr -> Z;
  size_field : Z -> Z;
  attr_size_mk t n : attr_size (mk_attr t n) = size_field n;
  attr_size_atime a t : attr_size (set_atime a t) = attr_size a;
  srv_getattr_size w e b : store w !! e = Some b ->
    attr_size (srv_getattr w e).2 = size_field (Z.of_nat (String.length b));
  srv_remove_ok w e : (srv_remove w e).2 = ext_OK <-> is_Some (store w !! e);
}.
Arguments ExtentServerReplies {_} W {_ _}.

Module ExtentClient.
Section client.
Context `{ExtentServer W}.

(** The uncached client hands the calls on. *)
Definition get (w : W) (eid : Z) : W * Z * string := srv_get w eid.
Definition getattr (w : W) (eid : Z) : W * Z * attr := srv_getattr w eid.
Definition put (w : W) (eid : Z) (buf : string) : W * Z := srv_put w eid buf.
Definition remove (w : W) (eid : Z) : W * Z := srv_remove w eid.

End client.
End ExtentClient.
