(* ===== verification/ExtentCache.v ===== *)
(** * The extent cache (src/extent_client/extent_client_cache.cc)

    The operations assume that the caller holds the lock of the extent, so no
    other thread touches its entry while a call is under way. The theorem:
    a run through [extent_client_cache] answers like the same run through the client
    without a cache, [extent_client], except for what a removal that has not reached
    the server changes. *)

From S2P Require Import Prelude.
From S2P Require Import ExtentClient.

Local Open Scope string_scope.
Local Open Scope Z_scope.

Module ExtentCache.

Inductive ExtentState := DIRTY | REMOVE | NONE | CONSISTENT.

#[global] Instance ExtentState_eq_dec : EqDecision ExtentState.
Proof. solve_decision. Defined.

Section cache.
Context `{ExtentServer W}.

Record eid_content := Content { buf_ : string; attr_ : attr; state_ : ExtentState }.

Abbreviation cache := (gmap Z eid_content).

(** [extent_cache_[eid]] makes a zero-initialised entry, whose state is
    [DIRTY]. *)
Definition entry (c : cache) (eid : Z) : eid_content :=
  default (Content "" attr0 DIRTY) (c !! eid).
Definition state_is (c : cache) (eid : Z) (s : ExtentState) : bool :=
  match c !! eid with Some x => bool_decide (state_ x = s) | None => false end.

(** [now] is [time(nullptr)]. *)
Definition put (c : cache) (eid : Z) (buf : string) (now : Z) : cache * Z :=
  if state_is c eid REMOVE then (c, ext_NOENT)
  else (<[eid := Content buf (mk_attr now (Z.of_nat (String.length buf))) DIRTY]> c, ext_OK).

(** The reply keeps the caller's [buf] when nothing is found. *)
Definition get (w : W) (c : cache) (eid : Z) (buf : string) (now : Z) : W * cache * Z * string :=
  if bool_decide (c !! eid = None) || state_is c eid NONE then
    let '(w, ret, b) := srv_get w eid in
    if negb (ret =? ext_OK) then (w, c, ext_NOENT, buf)
    else (w, <[eid := Content b (mk_attr now (Z.of_nat (String.length b))) CONSISTENT]> c, ret, b)
  else if state_is c eid REMOVE then (w, c, ext_NOENT, buf)
  else
    let x := entry c eid in
    (w, <[eid := Content (buf_ x) (set_atime (attr_ x) now) (state_ x)]> c, ext_OK, buf_ x).

Definition getattr (w : W) (c : cache) (eid : Z) (a : attr) : W * cache * Z * attr :=
  match c !! eid with
  | None =>
      let '(w, ret, a') := srv_getattr w eid in
      if negb (ret =? ext_OK) then (w, c, ret, a')
      else (w, <[eid := Content (buf_ (entry c eid)) a' NONE]> c, ret, a')
  | Some x =>
      if bool_decide (state_ x = REMOVE) then (w, c, ext_NOENT, a) else (w, c, ext_OK, attr_ x)
  end.

Definition remove (c : cache) (eid : Z) : cache * Z :=
  let x := entry c eid in
  if bool_decide (state_ x = REMOVE) then (c, ext_NOENT)
  else (<[eid := Content (buf_ x) (attr_ x) REMOVE]> c, ext_OK).

Definition flush (w : W) (c : cache) (eid : Z) : W * cache * Z :=
  match c !! eid with
  | None => (w, c, ext_NOENT)
  | Some x =>
      match state_ x with
      | DIRTY => let '(w, ret) := srv_put w eid (buf_ x) in (w, delete eid c, ret)
      | REMOVE => let '(w, ret) := srv_remove w eid in (w, delete eid c, ret)
      | NONE | CONSISTENT => (w, delete eid c, ext_OK)
      end
  end.

(** ** What a reader sees *)

Context `{!ExtentServerLaws W}.

(** The content of an extent through the cache. *)
Definition seen (w : W) (c : cache) (e : Z) : option string :=
  match c !! e with
  | None => store w !! e
  | Some x => match state_ x with
              | DIRTY | CONSISTENT => Some (buf_ x)
              | REMOVE => None
              | NONE => store w !! e
              end
  end.

(** Clean entries agree with the server. *)
Definition coherent (w : W) (c : cache) : Prop :=
  forall e x, c !! e = Some x -> state_ x = CONSISTENT -> store w !! e = Some (buf_ x).

Lemma seen_ext w w' c : store w' = store w -> forall e, seen w' c e = seen w c e.
Proof. intros Hs e. unfold seen. by rewrite Hs. Qed.

Lemma seen_insert_ne w c e e' x : e <> e' -> seen w (<[e := x]> c) e' = seen w c e'.
Proof. intros He. unfold seen. by rewrite lookup_insert_ne. Qed.

Lemma seen_delete_ne w c e e' : e <> e' -> seen w (delete e c) e' = seen w c e'.
Proof. intros He. unfold seen. by rewrite lookup_delete_ne. Qed.

Lemma state_is_spec c e s : state_is c e s = true <-> exists x, c !! e = Some x /\ state_ x = s.
Proof.
  unfold state_is. destruct (c !! e) as [x|].
  - rewrite bool_decide_eq_true. split; [eauto|]. by intros (? & [= ->] & ?).
  - split; [done|]. by intros (? & ? & ?).
Qed.

(** ** The cache as a write-back store *)

(** What a cache stands for: the contents every reader sees, and the extents whose
    removal has not reached the server, which refuse to be written. *)
Record reference := Reference { content : gmap Z string; gone : gset Z }.

Inductive operation :=
| OpPut (e : Z) (b : string) (now : Z)
| OpGet (e : Z) (now : Z)
| OpGetattr (e : Z)
| OpRemove (e : Z)
| OpFlush (e : Z).

(** The status, as success or not, and the string read. *)
Definition answer : Type := option (option string).

Definition ref_step (m : reference) (o : operation) : reference * answer :=
  match o with
  | OpPut e b _ =>
      if decide (e ∈ gone m) then (m, Some None)
      else (Reference (<[e := b]> (content m)) (gone m), Some (Some ""))
  | OpGet e _ => (m, Some (content m !! e))
  | OpGetattr e => (m, Some ((fun _ => "") <$> content m !! e))
  | OpRemove e =>
      if decide (e ∈ gone m) then (m, Some None)
      else (Reference (delete e (content m)) (gone m ∪ {[ e ]}), Some (Some ""))
  | OpFlush e => (Reference (content m) (gone m ∖ {[ e ]}), None)
  end.

Definition answer_of (ret : Z) (b : string) : answer :=
  Some (if ret =? ext_OK then Some b else None).

Definition cache_step (w : W) (c : cache) (o : operation) : W * cache * answer :=
  match o with
  | OpPut e b now => let '(c, ret) := put c e b now in (w, c, answer_of ret "")
  | OpGet e now => let '(w, c, ret, b) := get w c e "" now in (w, c, answer_of ret b)
  | OpGetattr e => let '(w, c, ret, _) := getattr w c e attr0 in (w, c, answer_of ret "")
  | OpRemove e => let '(c, ret) := remove c e in (w, c, answer_of ret "")
  | OpFlush e => let '(w, c, _) := flush w c e in (w, c, None)
  end.

Record represents (w : W) (c : cache) (m : reference) : Prop := {
  rp_seen : forall e, seen w c e = content m !! e;
  rp_gone : forall e, e ∈ gone m <-> exists x, c !! e = Some x /\ state_ x = REMOVE;
  rp_coherent : coherent w c;
  rp_none : forall e x, c !! e = Some x -> state_ x = NONE -> is_Some (store w !! e);
}.

Lemma answer_OK b : answer_of ext_OK b = Some (Some b).
Proof. unfold answer_of. by rewrite Z.eqb_refl. Qed.
Lemma answer_NOENT b : answer_of ext_NOENT b = Some None.
Proof.
  unfold answer_of. destruct (Z.eqb_spec ext_NOENT ext_OK) as [E|]; [|done].
  by destruct ext_codes.
Qed.
Lemma answer_fail ret b : ret <> ext_OK -> answer_of ret b = Some None.
Proof. intros Hr. unfold answer_of. by rewrite (proj2 (Z.eqb_neq _ _) Hr). Qed.

Lemma gone_state w c m e : represents w c m -> (e ∈ gone m <-> state_is c e REMOVE = true).
Proof. intros Hr. by rewrite (rp_gone _ _ _ Hr), state_is_spec. Qed.

(** An entry for [e] is replaced, the server is not touched. *)
Lemma represents_insert w c m e x o g :
  represents w c m ->
  (state_ x = CONSISTENT -> store w !! e = Some (buf_ x)) ->
  (state_ x = NONE -> is_Some (store w !! e)) ->
  (match state_ x with DIRTY | CONSISTENT => Some (buf_ x) | REMOVE => None
   | NONE => store w !! e end) = o !! e ->
  (forall e', e' <> e -> o !! e' = content m !! e') ->
  (e ∈ g <-> state_ x = REMOVE) -> (forall e', e' <> e -> e' ∈ g <-> e' ∈ gone m) ->
  represents w (<[e := x]> c) (Reference o g).
Proof.
  intros [Hs Hg Hc Hn] Hx1 Hx2 Ho Ho' Hge Hg'. split; simpl.
  - intros e'. destruct (decide (e' = e)) as [->|Hne].
    + unfold seen. by rewrite lookup_insert_eq.
    + rewrite seen_insert_ne by done. by rewrite Hs, Ho'.
  - intros e'. destruct (decide (e' = e)) as [->|Hne].
    + rewrite lookup_insert_eq, Hge. split; [eauto|]. by intros (? & [= ->] & ?).
    + rewrite lookup_insert_ne by done. by rewrite Hg', Hg.
  - intros e' y [[<- <-]|[_ Hy]]%lookup_insert_Some; [done|by apply Hc].
  - intros e' y [[<- <-]|[_ Hy]]%lookup_insert_Some; [done|by apply (Hn e' y)].
Qed.

Lemma represents_store w w' c m : store w' = store w -> represents w c m -> represents w' c m.
Proof.
  intros Hst [Hs Hg Hc Hn]. split; [|done| |].
  - intros e. by rewrite (seen_ext w w').
  - intros e x. rewrite Hst. apply Hc.
  - intros e x. rewrite Hst. apply Hn.
Qed.

(** The entry is dropped once the server has what it held. *)
Lemma represents_delete w w' c m e :
  represents w c m -> (forall e', e' <> e -> store w' !! e' = store w !! e') ->
  store w' !! e = content m !! e ->
  represents w' (delete e c) (Reference (content m) (gone m ∖ {[ e ]})).
Proof.
  intros [Hs Hg Hc Hn] Hst He. split; simpl.
  - intros e'. destruct (decide (e' = e)) as [->|Hne].
    + unfold seen. by rewrite lookup_delete_eq.
    + rewrite seen_delete_ne, <-Hs by done. unfold seen. by rewrite Hst.
  - intros e'. rewrite elem_of_difference, elem_of_singleton, Hg.
    setoid_rewrite lookup_delete_Some. split.
    + intros [(x & Hx & Hsx) Hne]. exists x. by split_and!.
    + intros (x & [Hne Hx] & Hsx). split; [by exists x|done].
  - intros e' x [Hne Hx]%lookup_delete_Some. rewrite Hst by done. by apply Hc.
  - intros e' x [Hne Hx]%lookup_delete_Some. rewrite Hst by done. by apply (Hn e' x).
Qed.

Lemma put_step w c m e b now :
  represents w c m ->
  let '(w', c', a) := cache_step w c (OpPut e b now) in
  represents w' c' (ref_step m (OpPut e b now)).1 /\ a = (ref_step m (OpPut e b now)).2.
Proof.
  intros Hr. simpl. unfold put. pose proof (gone_state w c m e Hr) as Hg.
  destruct (state_is c e REMOVE).
  - rewrite decide_True by (by apply Hg). by rewrite answer_NOENT.
  - assert (e ∉ gone m) as Hn by (by rewrite Hg). rewrite decide_False by done.
    rewrite answer_OK. split; [|done]. simpl.
    apply represents_insert with m; simpl; try done.
    + by rewrite lookup_insert_eq.
    + intros e' He. by rewrite lookup_insert_ne.
Qed.

Lemma remove_step w c m e :
  represents w c m ->
  let '(w', c', a) := cache_step w c (OpRemove e) in
  represents w' c' (ref_step m (OpRemove e)).1 /\ a = (ref_step m (OpRemove e)).2.
Proof.
  intros Hr. simpl. unfold remove, entry. pose proof (rp_gone _ _ _ Hr e) as Hg.
  case_bool_decide as Hd.
  - destruct (c !! e) as [x|]; [|done]. simpl in Hd.
    rewrite decide_True by (apply Hg; eauto). by rewrite answer_NOENT.
  - rewrite decide_False.
    2: { intros (x & Hx & Hs)%Hg. rewrite Hx in Hd. done. }
    rewrite answer_OK. split; [|done]. simpl.
    apply represents_insert with m; simpl; try done.
    + by rewrite lookup_delete_eq.
    + intros e' He. by rewrite lookup_delete_ne.
    + split; [done|]. intros _. apply elem_of_union_r. by apply elem_of_singleton.
    + intros e' He. rewrite elem_of_union, elem_of_singleton. tauto.
Qed.

Lemma get_step w c m e now :
  represents w c m ->
  let '(w', c', a) := cache_step w c (OpGet e now) in
  represents w' c' (ref_step m (OpGet e now)).1 /\ a = (ref_step m (OpGet e now)).2.
Proof.
  intros Hr. simpl. unfold get. pose proof (rp_seen _ _ _ Hr e) as Hs.
  destruct (bool_decide (c !! e = None) || state_is c e NONE) eqn:Hmiss.
  - assert (store w !! e = content m !! e) as Hst.
    { rewrite <-Hs. unfold seen. apply orb_true_iff in Hmiss as [Hm|(x & -> & ->)%state_is_spec]; [|done].
      apply bool_decide_eq_true in Hm. by rewrite Hm. }
    assert (e ∉ gone m) as Hng.
    { intros (x & Hx & Hsx)%(rp_gone _ _ _ Hr). apply orb_true_iff in Hmiss as [Hm|(y & Hy & Hn)%state_is_spec].
      - apply bool_decide_eq_true in Hm. congruence.
      - congruence. }
    destruct (store w !! e) as [b|] eqn:Hb.
    + destruct (srv_get_some w e b Hb) as (Hok & Hval & Hsw).
      destruct (srv_get w e) as [[w' ret] b']. simpl in *. subst ret b'. rewrite Z.eqb_refl. simpl.
      rewrite answer_OK, <-Hst. split; [|done].
      destruct m as [o g]. apply represents_insert with (Reference o g); simpl in *; try done.
      * by apply (represents_store w).
      * intros _. by rewrite Hsw.
    + destruct (srv_get_none w e Hb) as (Hok & Hsw).
      destruct (srv_get w e) as [[w' ret] b']. simpl in *. rewrite (proj2 (Z.eqb_neq _ _) Hok). simpl.
      rewrite answer_NOENT, <-Hst. split; [|done]. by apply (represents_store w).
  - apply orb_false_iff in Hmiss as [Hsome%bool_decide_eq_false Hnn].
    destruct (c !! e) as [x|] eqn:Hx; [|done]. clear Hsome.
    unfold state_is in *. rewrite Hx in *. apply bool_decide_eq_false in Hnn.
    unfold seen in Hs. rewrite Hx in Hs. case_bool_decide as Hrm.
    + rewrite Hrm in Hs. by rewrite answer_NOENT, <-Hs.
    + unfold entry. rewrite Hx, answer_OK. simpl.
      assert (content m !! e = Some (buf_ x)) as Hm by (destruct (state_ x); done).
      rewrite Hm. split; [|done]. destruct m as [o g].
      apply represents_insert with (Reference o g); simpl in *; try done.
      * intros Hc. by apply (rp_coherent _ _ _ Hr).
      * rewrite (rp_gone _ _ _ Hr e). simpl. split; [|done].
        intros (y & Hy & ?). congruence.
Qed.

Lemma getattr_step w c m e :
  represents w c m ->
  let '(w', c', a) := cache_step w c (OpGetattr e) in
  represents w' c' (ref_step m (OpGetattr e)).1 /\ a = (ref_step m (OpGetattr e)).2.
Proof.
  intros Hr. simpl. unfold getattr. pose proof (rp_seen _ _ _ Hr e) as Hs. unfold seen in Hs.
  destruct (c !! e) as [x|] eqn:Hx.
  - case_bool_decide as Hrm.
    + rewrite Hrm in Hs. by rewrite answer_NOENT, <-Hs.
    + rewrite answer_OK. split; [done|]. destruct (state_ x) eqn:Hst; try done; rewrite <-Hs; [done| |done].
      destruct (rp_none _ _ _ Hr e x Hx Hst) as [b ->]. done.
  - pose proof (srv_getattr_store w e) as Hsw. pose proof (srv_getattr_ok w e) as Hok.
    destruct (srv_getattr w e) as [[w' ret] a']. simpl in *. rewrite <-Hs.
    destruct (Z.eqb_spec ret ext_OK) as [->|Hne]; simpl.
    + destruct (proj1 Hok eq_refl) as [b Hb]. rewrite answer_OK, Hb. split; [|done].
      destruct m as [o g]. apply represents_insert with (Reference o g); simpl in *; try done.
      * by apply (represents_store w).
      * intros _. by rewrite Hsw, Hb.
      * by rewrite Hsw.
      * rewrite (rp_gone _ _ _ Hr e). simpl. split; [|done]. intros (y & Hy & ?). congruence.
    + rewrite answer_fail by done. split; [by apply (represents_store w)|].
      destruct (store w !! e); [|done]. destruct Hne. by apply Hok.
Qed.

Lemma flush_step w c m e :
  represents w c m ->
  let '(w', c', a) := cache_step w c (OpFlush e) in
  represents w' c' (ref_step m (OpFlush e)).1 /\ a = (ref_step m (OpFlush e)).2.
Proof.
  intros Hr. simpl. unfold flush. pose proof (rp_seen _ _ _ Hr e) as Hs. unfold seen in Hs.
  destruct (c !! e) as [x|] eqn:Hx.
  - destruct (state_ x) eqn:Hst.
    + destruct (srv_put_store w e (buf_ x)) as [_ Hsw]. destruct (srv_put w e (buf_ x)) as [w' ret].
      simpl in *. split; [|done]. apply (represents_delete w); try done; rewrite Hsw.
      * intros e' He. by rewrite lookup_insert_ne.
      * by rewrite lookup_insert_eq.
    + pose proof (srv_remove_store w e) as Hsw. destruct (srv_remove w e) as [w' ret].
      simpl in *. split; [|done]. apply (represents_delete w); try done; rewrite Hsw.
      * intros e' He. by rewrite lookup_delete_ne.
      * by rewrite lookup_delete_eq.
    + split; [|done]. by apply (represents_delete w).
    + split; [|done]. apply (represents_delete w); try done. rewrite <-Hs.
      by apply (rp_coherent _ _ _ Hr).
  - split; [|done]. destruct m as [o g]. simpl.
    assert (g ∖ {[e]} = g) as ->; [|done].
    apply set_eq. intros e'. rewrite elem_of_difference, elem_of_singleton. split; [tauto|].
    intros He. split; [done|]. intros ->. apply (rp_gone _ _ _ Hr) in He as (y & Hy & _). congruence.
Qed.

Lemma cache_step_represents w c m o :
  represents w c m ->
  let '(w', c', a) := cache_step w c o in
  represents w' c' (ref_step m o).1 /\ a = (ref_step m o).2.
Proof.
  destruct o; [apply put_step|apply get_step|apply getattr_step|apply remove_step|apply flush_step].
Qed.

Lemma represents_empty w : represents w ∅ (Reference (store w) ∅).
Proof. split; try done. intros e. split; [set_solver|]. by intros (? & ? & _). Qed.

(** ** The cache against the client without a cache *)

(** What a successful call gives its caller: nothing, a content, or the size among
    the attributes; the times are those of the client's clock in one case and of the
    server's in the other. *)
Inductive reading := RDone | RData (b : string) | RSize (n : Z).

#[global] Instance reading_eq_dec : EqDecision reading.
Proof. solve_decision. Defined.

Context `{!ExtentServerReplies W}.

Definition reply (ret : Z) (x : reading) : option reading := if ret =? ext_OK then Some x else None.

(** One call through the cache. *)
Definition cached_op (w : W) (c : cache) (o : operation) : W * cache * option reading :=
  match o with
  | OpPut e b now => let '(c, ret) := put c e b now in (w, c, reply ret RDone)
  | OpGet e now => let '(w, c, ret, b) := get w c e "" now in (w, c, reply ret (RData b))
  | OpGetattr e => let '(w, c, ret, a) := getattr w c e attr0 in (w, c, reply ret (RSize (attr_size a)))
  | OpRemove e => let '(c, ret) := remove c e in (w, c, reply ret RDone)
  | OpFlush e => let '(w, c, _) := flush w c e in (w, c, None)
  end.

(** The same call through [extent_client]; there is nothing to flush. *)
Definition direct_op (d : W) (o : operation) : W * option reading :=
  match o with
  | OpPut e b _ => let '(d, ret) := ExtentClient.put d e b in (d, reply ret RDone)
  | OpGet e _ => let '(d, ret, b) := ExtentClient.get d e in (d, reply ret (RData b))
  | OpGetattr e => let '(d, ret, a) := ExtentClient.getattr d e in (d, reply ret (RSize (attr_size a)))
  | OpRemove e => let '(d, ret) := ExtentClient.remove d e in (d, reply ret RDone)
  | OpFlush _ => (d, None)
  end.

Fixpoint run_cached (w : W) (c : cache) (os : list operation) : W * cache * list (option reading) :=
  match os with
  | [] => (w, c, [])
  | o :: os => let '(w, c, a) := cached_op w c o in
               let '(w, c, l) := run_cached w c os in (w, c, a :: l)
  end.

Fixpoint run_direct (d : W) (os : list operation) : W * list (option reading) :=
  match os with
  | [] => (d, [])
  | o :: os => let '(d, a) := direct_op d o in let '(d, l) := run_direct d os in (d, a :: l)
  end.

(** The extents that were removed and not flushed since. *)
Definition pending (g : gset Z) (o : operation) : gset Z :=
  match o with OpRemove e => g ∪ {[ e ]} | OpFlush e => g ∖ {[ e ]} | _ => g end.

(** The calls on which the two clients differ: [put] of an extent whose removal is
    pending, and [remove] of an extent that does not exist. *)
Definition same_on (d : W) (g : gset Z) (o : operation) : bool :=
  match o with
  | OpPut e _ _ => bool_decide (e ∉ g)
  | OpRemove e => bool_decide (is_Some (store d !! e)) || bool_decide (e ∈ g)
  | _ => true
  end.

Fixpoint same_run (d : W) (g : gset Z) (os : list operation) : bool :=
  match os with
  | [] => true
  | o :: os => same_on d g o && same_run (direct_op d o).1 (pending g o) os
  end.

(** The cache on server [w] and the server [d] of the other client. *)
Record mirrors (w : W) (c : cache) (g : gset Z) (d : W) : Prop := {
  mi_rep : represents w c (Reference (store d) g);
  mi_size : forall e x b, c !! e = Some x -> seen w c e = Some b ->
    attr_size (attr_ x) = size_field (Z.of_nat (String.length b));
}.

Lemma reply_OK x : reply ext_OK x = Some x.
Proof. unfold reply. by rewrite Z.eqb_refl. Qed.
Lemma reply_fail ret x : ret <> ext_OK -> reply ret x = None.
Proof. intros Hr. unfold reply. by rewrite (proj2 (Z.eqb_neq _ _) Hr). Qed.
Lemma reply_NOENT x : reply ext_NOENT x = None.
Proof. apply reply_fail. intros E. by apply ext_codes. Qed.

(** The state after a call is that of [cache_step]. *)
Lemma cached_op_rep w c m o :
  represents w c m -> let '(w', c', _) := cached_op w c o in represents w' c' (ref_step m o).1.
Proof.
  intros Hr. pose proof (cache_step_represents w c m o Hr) as Ho. destruct o; simpl in *.
  - destruct (put c e b now). by destruct Ho.
  - destruct (get w c e "" now) as [[[? ?] ?] ?]. by destruct Ho.
  - destruct (getattr w c e attr0) as [[[? ?] ?] ?]. by destruct Ho.
  - destruct (remove c e). by destruct Ho.
  - destruct (flush w c e) as [[? ?] ?]. by destruct Ho.
Qed.

(** One entry is new, and it has the size of what is seen through it. *)
Lemma sized_insert w c e x :
  (forall e x b, c !! e = Some x -> seen w c e = Some b ->
     attr_size (attr_ x) = size_field (Z.of_nat (String.length b))) ->
  (forall b, seen w (<[e := x]> c) e = Some b -> attr_size (attr_ x) = size_field (Z.of_nat (String.length b))) ->
  forall e' x' b, <[e := x]> c !! e' = Some x' -> seen w (<[e := x]> c) e' = Some b ->
    attr_size (attr_ x') = size_field (Z.of_nat (String.length b)).
Proof.
  intros Hs Hx e' x' b [[<- <-]|[Hne He]]%lookup_insert_Some; [apply Hx|].
  rewrite seen_insert_ne by done. by apply Hs.
Qed.

Lemma sized_store w w' c :
  store w' = store w ->
  (forall e x b, c !! e = Some x -> seen w c e = Some b ->
     attr_size (attr_ x) = size_field (Z.of_nat (String.length b))) ->
  forall e x b, c !! e = Some x -> seen w' c e = Some b ->
    attr_size (attr_ x) = size_field (Z.of_nat (String.length b)).
Proof. intros Hst Hs e x b He. rewrite (seen_ext w w') by done. by apply Hs. Qed.

Lemma seen_insert_eq w c e x :
  seen w (<[e := x]> c) e =
  match state_ x with DIRTY | CONSISTENT => Some (buf_ x) | REMOVE => None | NONE => store w !! e end.
Proof. unfold seen. by rewrite lookup_insert_eq. Qed.

Lemma mirrors_put w c g d e b now :
  mirrors w c g d -> e ∉ g ->
  let '(w', c', a) := cached_op w c (OpPut e b now) in
  let '(d', a') := direct_op d (OpPut e b now) in a = a' /\ mirrors w' c' g d'.
Proof.
  intros [Hr Hs] He. pose proof (cached_op_rep w c _ (OpPut e b now) Hr) as Hr'. simpl in *.
  rewrite decide_False in Hr' by done. unfold put, ExtentClient.put in *.
  destruct (srv_put_store d e b) as [Hok Hst]. destruct (srv_put d e b) as [d' ret]. simpl in *. subst ret.
  destruct (state_is c e REMOVE) eqn:E.
  { exfalso. apply He. by apply (gone_state w c _ e Hr). }
  split; [done|]. split; [by rewrite Hst|]. apply sized_insert; [done|].
  intros b'. rewrite seen_insert_eq. simpl. intros [= <-]. apply attr_size_mk.
Qed.

Lemma mirrors_remove w c g d e :
  mirrors w c g d -> is_Some (store d !! e) \/ e ∈ g ->
  let '(w', c', a) := cached_op w c (OpRemove e) in
  let '(d', a') := direct_op d (OpRemove e) in a = a' /\ mirrors w' c' (g ∪ {[ e ]}) d'.
Proof.
  intros [Hr Hs] He. pose proof (cached_op_rep w c _ (OpRemove e) Hr) as Hr'.
  pose proof (rp_gone _ _ _ Hr e) as Hg. pose proof (rp_seen _ _ _ Hr e) as Hse. simpl in *.
  unfold remove, entry, ExtentClient.remove in *.
  pose proof (srv_remove_ok d e) as Hok. pose proof (srv_remove_store d e) as Hst.
  destruct (srv_remove d e) as [d' ret]. simpl in *. case_bool_decide as Hd.
  - destruct (c !! e) as [x|] eqn:Hx; [|done]. simpl in Hd.
    assert (e ∈ g) as Hin by (apply Hg; eauto). rewrite decide_True in Hr' by done.
    assert (store d !! e = None) as Hnone. { rewrite <-Hse. unfold seen. by rewrite Hx, Hd. }
    rewrite reply_NOENT, reply_fail.
    2: { intros [b Hb]%Hok. congruence. }
    split; [done|]. rewrite delete_id in Hst by done. replace (g ∪ {[ e ]}) with g by set_solver.
    split; [by rewrite Hst|done].
  - assert (e ∉ g) as Hn. { intros (x & Hx & ?)%Hg. by rewrite Hx in Hd. }
    rewrite decide_False in Hr' by done. destruct He as [He|]; [|done].
    rewrite (proj2 Hok He). split; [done|]. split; [by rewrite Hst|]. apply sized_insert; [done|].
    intros b. by rewrite seen_insert_eq.
Qed.

Lemma mirrors_get w c g d e now :
  mirrors w c g d ->
  let '(w', c', a) := cached_op w c (OpGet e now) in
  let '(d', a') := direct_op d (OpGet e now) in a = a' /\ mirrors w' c' g d'.
Proof.
  intros [Hr Hs]. pose proof (cached_op_rep w c _ (OpGet e now) Hr) as Hr'.
  pose proof (get_step w c _ e now Hr) as Ha. simpl in *. unfold ExtentClient.get.
  assert (let '(d', ret, b) := srv_get d e in store d' = store d /\
    reply ret (RData b) = RData <$> (store d !! e)) as Hd.
  { destruct (store d !! e) as [b|] eqn:Hb.
    - destruct (srv_get_some d e b Hb) as (H1 & H2 & H3). destruct (srv_get d e) as [[d' ret] b']. simpl in *.
      subst. by rewrite reply_OK.
    - destruct (srv_get_none d e Hb) as (H1 & H2). destruct (srv_get d e) as [[d' ret] b']. simpl in *.
      by rewrite reply_fail. }
  destruct (srv_get d e) as [[d' ret'] b']. destruct Hd as [Hst ->].
  assert (let '(w', c', _, _) := get w c e "" now in forall e x b, c' !! e = Some x -> seen w' c' e = Some b ->
    attr_size (attr_ x) = size_field (Z.of_nat (String.length b))) as Hsz.
  { clear Ha Hr'. unfold get. destruct (_ || _) eqn:Hmiss.
    - destruct (store w !! e) as [b|] eqn:Hb.
      + destruct (srv_get_some w e b Hb) as (H1 & H2 & H3). destruct (srv_get w e) as [[w' ret] b1]. simpl in *.
        subst ret b1. rewrite Z.eqb_refl. simpl. apply sized_insert; [by apply (sized_store w)|].
        intros b2. rewrite seen_insert_eq. simpl. intros [= <-]. apply attr_size_mk.
      + destruct (srv_get_none w e Hb) as (H1 & H2). destruct (srv_get w e) as [[w' ret] b1]. simpl in *.
        rewrite (proj2 (Z.eqb_neq _ _) H1). simpl. by apply (sized_store w).
    - destruct (state_is c e REMOVE); [done|]. apply sized_insert; [done|].
      intros b. rewrite seen_insert_eq. unfold entry. simpl. rewrite attr_size_atime.
      destruct (c !! e) as [x|] eqn:Hx; simpl.
      + intros Hb. apply (Hs e x b Hx). unfold seen. by rewrite Hx.
      + by rewrite bool_decide_eq_true_2 in Hmiss. }
  destruct (get w c e "" now) as [[[w' c'] ret] b]. destruct Ha as [_ Ha]. split.
  - unfold answer_of, reply in *. destruct (ret =? ext_OK), (store d !! e); simplify_eq; done.
  - split; [by rewrite Hst|done].
Qed.

Lemma mirrors_getattr w c g d e :
  mirrors w c g d ->
  let '(w', c', a) := cached_op w c (OpGetattr e) in
  let '(d', a') := direct_op d (OpGetattr e) in a = a' /\ mirrors w' c' g d'.
Proof.
  intros [Hr Hs]. pose proof (cached_op_rep w c _ (OpGetattr e) Hr) as Hr'.
  pose proof (getattr_step w c _ e Hr) as Ha. pose proof (rp_seen _ _ _ Hr e) as Hse. simpl in *.
  unfold ExtentClient.getattr.
  assert (let '(d', ret, a) := srv_getattr d e in store d' = store d /\
    reply ret (RSize (attr_size a)) = (fun b => RSize (size_field (Z.of_nat (String.length b)))) <$> (store d !! e)) as Hd.
  { pose proof (srv_getattr_store d e) as H1. pose proof (srv_getattr_ok d e) as H2.
    pose proof (srv_getattr_size d e) as H3. destruct (srv_getattr d e) as [[d' ret] a]. simpl in *.
    split; [done|]. destruct (store d !! e) as [b|].
    - rewrite (proj2 H2) by eauto. rewrite reply_OK. simpl. by rewrite (H3 b).
    - rewrite reply_fail; [done|]. by intros [? [=]]%H2. }
  destruct (srv_getattr d e) as [[d' ret'] a']. destruct Hd as [Hst ->].
  assert (let '(w', c', ret, a) := getattr w c e attr0 in
    (ret = ext_OK -> forall b, seen w c e = Some b -> attr_size a = size_field (Z.of_nat (String.length b))) /\
    forall e x b, c' !! e = Some x -> seen w' c' e = Some b ->
      attr_size (attr_ x) = size_field (Z.of_nat (String.length b))) as Hsz.
  { clear Ha Hr'. unfold getattr. destruct (c !! e) as [x|] eqn:Hx.
    - case_bool_decide; (split; [|done]); [intros E; by destruct ext_codes|]. intros _ b Hb. by apply (Hs e x).
    - pose proof (srv_getattr_store w e) as H1. pose proof (srv_getattr_size w e) as H3.
      destruct (srv_getattr w e) as [[w' ret] a]. simpl in *.
      assert (seen w c e = store w !! e) as -> by (unfold seen; by rewrite Hx).
      destruct (Z.eqb_spec ret ext_OK) as [->|Hne]; simpl.
      + split; [by intros _|]. apply sized_insert; [by apply (sized_store w)|].
        intros b. rewrite seen_insert_eq. simpl. rewrite H1. apply H3.
      + split; [done|]. by apply (sized_store w). }
  destruct (getattr w c e attr0) as [[[w' c'] ret] a]. destruct Ha as [_ Ha], Hsz as [Hz1 Hz2]. split.
  - unfold answer_of, reply in *. rewrite <-Hse in *. destruct (Z.eqb_spec ret ext_OK), (seen w c e); simplify_eq; try done.
    simpl. do 2 f_equal. by apply Hz1.
  - split; [by rewrite Hst|done].
Qed.

Lemma mirrors_flush w c g d e :
  mirrors w c g d -> let '(w', c', _) := flush w c e in mirrors w' c' (g ∖ {[ e ]}) d.
Proof.
  intros [Hr Hs]. pose proof (cached_op_rep w c _ (OpFlush e) Hr) as Hr'. simpl in Hr'.
  assert (let '(w', c', _) := flush w c e in
    (c' = c /\ w' = w) \/ c' = delete e c /\ forall e', e' <> e -> store w' !! e' = store w !! e') as Hf.
  { unfold flush. destruct (c !! e) as [x|]; [|by left]. destruct (state_ x); [| |by right|by right].
    - destruct (srv_put_store w e (buf_ x)) as [_ Hst]. destruct (srv_put _ _ _). simpl in *. right. split; [done|].
      intros e' He. by rewrite Hst, lookup_insert_ne.
    - pose proof (srv_remove_store w e) as Hst. destruct (srv_remove _ _). simpl in *. right. split; [done|].
      intros e' He. by rewrite Hst, lookup_delete_ne. }
  destruct (flush w c e) as [[w' c'] ret]. split; [done|]. destruct Hf as [[-> ->]|[-> Hst]]; [done|].
  intros e' x b [Hne Hx]%lookup_delete_Some. rewrite seen_delete_ne by done. intros Hb. apply (Hs e' x b Hx).
  rewrite <-Hb. unfold seen. by rewrite Hx, Hst.
Qed.

Lemma cached_op_mirrors w c g d o :
  mirrors w c g d -> same_on d g o = true ->
  let '(w', c', a) := cached_op w c o in
  let '(d', a') := direct_op d o in a = a' /\ mirrors w' c' (pending g o) d'.
Proof.
  intros Hm Ho. destruct o; simpl in Ho.
  - apply bool_decide_eq_true in Ho. by apply mirrors_put.
  - by apply mirrors_get.
  - by apply mirrors_getattr.
  - apply mirrors_remove; [done|]. rewrite orb_true_iff, !bool_decide_eq_true in Ho. done.
  - pose proof (mirrors_flush w c g d e Hm) as Hf. simpl. destruct (flush w c e) as [[? ?] ?]. done.
Qed.

Lemma run_mirrors os : forall w c g d,
  mirrors w c g d -> same_run d g os = true ->
  let '(w', c', l) := run_cached w c os in
  let '(d', l') := run_direct d os in l = l' /\ exists g', mirrors w' c' g' d'.
Proof.
  induction os as [|o os IH]; intros w c g d Hm Hs; simpl in *; [by eauto|].
  apply andb_true_iff in Hs as [Ho Hs]. pose proof (cached_op_mirrors w c g d o Hm Ho) as H1.
  destruct (cached_op w c o) as [[w1 c1] a], (direct_op d o) as [d1 a']. simpl in *. destruct H1 as [-> Hm1].
  specialize (IH w1 c1 _ d1 Hm1 Hs). destruct (run_cached w1 c1 os) as [[w2 c2] l], (run_direct d1 os) as [d2 l'].
  destruct IH as [-> Hm2]. done.
Qed.

Lemma mirrors_empty w : mirrors w ∅ ∅ w.
Proof. split; [apply represents_empty|done]. Qed.

(** C14: the cache is transparent. A sequence of puts, gets, attribute requests,
    removals and flushes is run through an initially empty cache, and through the
    client without a cache on a server with the same contents. As long as no extent is
    written while its removal has not been flushed, and none is removed that does not
    exist ([same_run]; [put] would fail in the first case and [remove] succeed in the
    second), every call succeeds in one if and only if it does in the other, with the
    same content for [get] and the same size for [getattr], whatever is flushed when.
    At the end, what is not in the cache is the same on both servers, and flushing an
    extent makes it the same. Calls reach the server and do not fail on the way. *)
Theorem cache_is_transparent (w w' d : W) (c' : cache) (os : list operation) (l l' : list (option reading)) :
  same_run w ∅ os = true ->
  run_cached w ∅ os = (w', c', l) -> run_direct w os = (d, l') ->
  l = l' /\
  (forall e, c' !! e = None -> store w' !! e = store d !! e) /\
  (forall e, let '(w2, c2, _) := flush w' c' e in
     c2 !! e = None /\ store w2 !! e = store d !! e /\
     forall e', c' !! e' = None -> c2 !! e' = None /\ store w2 !! e' = store d !! e').
Proof.
  intros Hs Hrun Hd. pose proof (run_mirrors os w ∅ ∅ w (mirrors_empty w) Hs) as Hr.
  rewrite Hrun, Hd in Hr. destruct Hr as [-> [g Hm]].
  assert (forall w c g e, mirrors w c g d -> c !! e = None -> store w !! e = store d !! e) as Hout.
  { intros w1 c1 g1 e Hm1 He. pose proof (rp_seen _ _ _ (mi_rep _ _ _ _ Hm1) e) as Hse.
    unfold seen in Hse. by rewrite He in Hse. }
  split_and!; [done|by eauto|]. intros e. pose proof (mirrors_flush w' c' g d e Hm) as Hf.
  assert (let '(_, c2, _) := flush w' c' e in c2 !! e = None /\ forall e', c' !! e' = None -> c2 !! e' = None) as Hc.
  { unfold flush. destruct (c' !! e) as [x|] eqn:Hx; [|done].
    assert (delete e c' !! e = None /\ forall e', c' !! e' = None -> delete e c' !! e' = None).
    { split; [apply lookup_delete_eq|]. intros e' He. apply lookup_delete_None. by right. }
    destruct (state_ x); [by destruct (srv_put _ _ _)|by destruct (srv_remove _ _)|done|done]. }
  destruct (flush w' c' e) as [[w2 c2] ret]. destruct Hc as [Hc1 Hc2]. split_and!; [done|by eauto|]. eauto.
Qed.

(** Where the two differ: while a removal is pending the cache refuses to write the
    extent, which the server would create; and the cache removes what does not exist. *)
Lemma pending_removal_refuses_put w c e b now :
  state_is c e REMOVE = true ->
  (cached_op w c (OpPut e b now)).2 = None /\ (direct_op w (OpPut e b now)).2 = Some RDone.
Proof.
  intros Hs. simpl. unfold put, ExtentClient.put. rewrite Hs, reply_NOENT. split; [done|].
  destruct (srv_put_store w e b) as [Hok _]. destruct (srv_put w e b) as [? ?]. simpl in *. by rewrite Hok, reply_OK.
Qed.

Lemma remove_of_absent_succeeds w e :
  store w !! e = None ->
  (cached_op w ∅ (OpRemove e)).2 = Some RDone /\ (direct_op w (OpRemove e)).2 = None.
Proof.
  intros He. simpl. unfold remove, ExtentClient.remove, entry. rewrite lookup_empty. simpl. rewrite reply_OK.
  split; [done|]. pose proof (srv_remove_ok w e) as Hok. destruct (srv_remove w e) as [? ?]. simpl in *.
  apply reply_fail. intros [? ?]%Hok. congruence.
Qed.
End cache.

(** [flush] does not look at the status of its call: an extent whose put did
    not reach the server is dropped from the cache all the same. *)
Lemma failed_flush_loses_write `{ExtentServer W} (w : W) c e b now ret :
  srv_put w e b = (w, ret) -> state_is c e REMOVE = false ->
  flush w (put c e b now).1 e = (w, delete e c, ret).
Proof.
  intros Hp Hr. unfold put. rewrite Hr. simpl. unfold flush. rewrite lookup_insert_eq. simpl.
  rewrite Hp. by rewrite delete_insert_eq.
Qed.

(** ** A server *)

Section demo.

#[local] Instance demo_protocol : ExtentProtocol :=
  {| ext_OK := 0; ext_NOENT := 2; ext_codes := ltac:(done); attr := Z * Z; attr0 := (0, 0);
     mk_attr t n := (t, n); set_atime a t := (t, a.2) |}.
#[local] Instance demo_server : ExtentServer (gmap Z string) := {|
  srv_get w e := match w !! e with Some b => (w, 0, b) | None => (w, 2, "") end;
  srv_getattr w e := match w !! e with
                     | Some b => (w, 0, (0, Z.of_nat (String.length b)))
                     | None => (w, 2, (0, 0))
                     end;
  srv_put w e b := (<[e := b]> w, 0);
  srv_remove w e := (delete e w, if decide (w !! e = None) then 2 else 0);
|}.
#[local] Instance demo_server_laws : ExtentServerLaws (gmap Z string).
Proof.
  unshelve refine {| store := fun w => w |}; simpl.
  - intros w e b Hb. by rewrite Hb.
  - intros w e Hb. by rewrite Hb.
  - intros w e. by destruct (w !! e).
  - intros w e. destruct (w !! e); simpl; split; intros Hx; done.
  - done.
  - done.
Defined.

Definition demo_store : gmap Z string := {[ 1 := "root"; 2 := "old" ]}.
#[local] Instance demo_server_replies : ExtentServerReplies (gmap Z string).
Proof.
  refine {| attr_size := fun a : @attr demo_protocol => snd (a : Z * Z); size_field := fun n => n |}; simpl; try done.
  - intros w e b Hb. by rewrite Hb.
  - intros w e. destruct (decide _) as [E|E].
    + rewrite E. split; [done|]. by intros [? ?].
    + split; [|done]. intros _. by apply not_eq_None_Some.
Defined.

Definition demo_ops : list operation :=
  [OpGet 1 10; OpPut 2 "new" 11; OpGetattr 1; OpGetattr 2; OpRemove 1; OpRemove 1; OpGet 1 12; OpFlush 1;
   OpPut 1 "again" 13; OpGetattr 3; OpGet 2 14].
Definition demo_run := run_cached demo_store ∅ demo_ops.

Lemma cache_is_transparent_witness :
  demo_run.2 = [Some (RData "root"); Some RDone; Some (RSize 4); Some (RSize 3); Some RDone; None; None; None;
                Some RDone; None; Some (RData "new")] /\
  demo_run.2 = (run_direct demo_store demo_ops).2 /\
  (forall e, demo_run.1.2 !! e = None -> store demo_run.1.1 !! e = store (run_direct demo_store demo_ops).1 !! e).
Proof.
  split; [vm_compute; reflexivity|].
  destruct (cache_is_transparent demo_store demo_run.1.1 (run_direct demo_store demo_ops).1 demo_run.1.2 demo_ops
              demo_run.2 (run_direct demo_store demo_ops).2) as (H1 & H2 & _); [vm_compute; reflexivity..|].
  split; [exact H1|exact H2].
Defined.

End demo.
End ExtentCache.
