(* ===== verification/LockClient.v ===== *)
(** * The lock clients (src/lock_client/, include/lock_client/)

    The plain client, and the data the two caching clients share. The lock
    servers and [lock_protocol] are not part of the repository: status codes
    are parameters. The caching clients (LockCache.v, LockCacheRsm.v) are cut
    where they release their mutex: into turns of [acquire]'s loop, and into
    the parts of [release] and the handlers before and after their calls. *)

From S2P Require Import Prelude.
From S2P Require Import Marshall.

Local Open Scope Z_scope.

(** The status codes of [lock_protocol] and [rlock_protocol] that the clients
    use. *)
Class LockProtocol := {
  lock_OK : Z;
  lock_RETRY : Z;
  lock_NOENT : Z;
  lock_RPCERR : Z;
  rlock_OK : Z;
  rlock_RPCERR : Z;
  lock_codes : lock_OK <> lock_RETRY;
  xid_wrap : Z -> Z;   (* conversion to [xid_t], whose width the header fixes *)
}.

(** ** [lock_client]: each call goes to the server, and must succeed *)

Module LockClient.
Section client.
Context `{LockProtocol} {W : Type}.
Context (call : W -> Z -> W * Z * Z).   (* a call on a lock: status and reply *)

Definition stat (w : W) (lid : Z) : outcome (W * Z) :=
  let '(w, ret, r) := call w lid in VERIFY (ret =? lock_OK) ;;; Val (w, r).
Definition acquire (w : W) (lid : Z) : outcome (W * Z) :=
  let '(w, ret, r) := call w lid in VERIFY (ret =? lock_OK) ;;; Val (w, r).
Definition release (w : W) (lid : Z) : outcome (W * Z) :=
  let '(w, ret, r) := call w lid in VERIFY (ret =? lock_OK) ;;; Val (w, r).

End client.
End LockClient.

Inductive ClientLockState := NONE | FREE | LOCKED | ACQUIRING | RELEASING.

#[global] Instance ClientLockState_eq_dec : EqDecision ClientLockState.
Proof. solve_decision. Defined.

(** The condition variables a thread can wait on. *)
Inductive cond_var := retry_cv | wait_cv | release_cv.

(** How a turn of [acquire] ends. *)
Inductive acquire_next :=
| Acquired (ret : Z)          (* returns *)
| CallAcquire                 (* calls the server without the mutex *)
| ClearRetry                  (* clears [retry_] without the mutex, then calls *)
| WaitOn (cv : cond_var)      (* waits, then goes back to the loop *)
| Loop.

(** How the first part of [release] or [revoke_handler] ends. *)
Inductive release_next :=
| Answer (ret : Z)
| FlushAndRelease.            (* [dorelease] and the call, without the mutex *)
