(* ===== verification/LockCache.v ===== *)
(** * The caching lock client (src/lock_client/lock_client_cache.cc)

    The table of locks and the parts of [acquire], [release] and the revoke and
    retry handlers between two releases of the mutex. *)

From S2P Require Import Prelude.
From S2P Require Import Marshall.
From S2P Require Import LockClient.

Local Open Scope Z_scope.

Module LockCache.

Record Lock := MkLock { revoked_ : bool; retry_ : bool; state_ : ClientLockState }.

Definition set_state (l : Lock) (s : ClientLockState) : Lock := MkLock (revoked_ l) (retry_ l) s.
Definition set_retry (l : Lock) (b : bool) : Lock := MkLock (revoked_ l) b (state_ l).
Definition set_revoked (l : Lock) (b : bool) : Lock := MkLock b (retry_ l) (state_ l).

Abbreviation table := (gmap Z Lock).

Section cache.
Context `{LockProtocol}.

(** The objects are shared through the table, from which nothing is ever
    erased: a turn looks its lock up again. *)
Definition lock_of (t : table) (lid : Z) : Lock := default (MkLock false false NONE) (t !! lid).

Definition acquire_enter (t : table) (lid : Z) : table := <[lid := lock_of t lid]> t.

Definition acquire_turn (t : table) (lid : Z) : table * acquire_next :=
  let l := lock_of t lid in
  match state_ l with
  | NONE => (<[lid := set_retry (set_state l ACQUIRING) false]> t, CallAcquire)
  | FREE => (<[lid := set_state l LOCKED]> t, Acquired lock_OK)
  | LOCKED => (t, WaitOn wait_cv)
  | ACQUIRING =>
      if negb (retry_ l) then (t, WaitOn wait_cv) else (t, ClearRetry)
  | RELEASING => (t, WaitOn release_cv)
  end.

(** [ulock.unlock()] comes before [lock->retry_ = false]: other threads may have
    run in between. *)
Definition clear_retry (t : table) (lid : Z) : table :=
  <[lid := set_retry (lock_of t lid) false]> t.

(** After either call. *)
Definition acquire_reply (t : table) (lid : Z) (ret : Z) : table * acquire_next :=
  let l := lock_of t lid in
  if ret =? lock_OK then (<[lid := set_state l LOCKED]> t, Acquired lock_OK)
  else if ret =? lock_RETRY then (t, if negb (retry_ l) then WaitOn retry_cv else Loop)
  else (t, Loop).

Definition release_begin (t : table) (lid : Z) : table * release_next :=
  match t !! lid with
  | None => (t, Answer lock_NOENT)
  | Some l =>
      if revoked_ l then (<[lid := set_state (set_revoked l false) RELEASING]> t, FlushAndRelease)
      else (<[lid := set_state l FREE]> t, Answer lock_OK)
  end.
Definition release_end (t : table) (lid : Z) (ret : Z) : table * Z :=
  (<[lid := set_state (lock_of t lid) NONE]> t, ret).

Definition revoke_begin (t : table) (lid : Z) : table * release_next :=
  match t !! lid with
  | None => (t, Answer rlock_RPCERR)
  | Some l =>
      match state_ l with
      | NONE => (t, Answer rlock_RPCERR)
      | FREE => (<[lid := set_state l RELEASING]> t, FlushAndRelease)
      | _ => (<[lid := set_revoked l true]> t, Answer rlock_OK)
      end
  end.
Definition revoke_end (t : table) (lid : Z) (ret : Z) : table * Z :=
  if negb (ret =? lock_OK) then (t, lock_RPCERR)
  else (<[lid := set_state (lock_of t lid) NONE]> t, ret).

Definition retry_handler (t : table) (lid : Z) : table * Z :=
  match t !! lid with
  | None => (t, rlock_RPCERR)
  | Some l => (<[lid := set_retry l true]> t, rlock_OK)
  end.

End cache.
End LockCache.
