(* ===== verification/LockCacheRsm.v ===== *)
(** * The caching client of the replicated lock service
    (src/lock_client/lock_client_cache_rsm.cc)

    As [lock_client_cache], with a transaction number per request, a revoke
    handler that queues the lock and a thread that releases what is queued. *)

From S2P Require Import Prelude.
From S2P Require Import Marshall.
From S2P Require Import Fifo.
From S2P Require Import LockClient.

Local Open Scope Z_scope.

Module LockCacheRsm.

Record ClientLock := MkClientLock {
  revoked_ : bool;
  retry_ : bool;
  state_ : ClientLockState;
  xid_ : Z;
}.
Record lock_entry := Entry { lid_ : Z; e_xid_ : Z }.

Record client := MkClient {
  xid : Z;
  lock_table_ : gmap Z ClientLock;
  release_queue_ : Fifo.fifo lock_entry;
}.

Definition set_state (l : ClientLock) (s : ClientLockState) : ClientLock :=
  MkClientLock (revoked_ l) (retry_ l) s (xid_ l).

Section cache.
Context `{LockProtocol}.

Definition client_new : client := MkClient 0 ∅ (Fifo.fifo_new 0).

Definition lock_of (c : client) (lid : Z) : ClientLock :=
  default (MkClientLock false false NONE 0) (lock_table_ c !! lid).
Definition set_lock (c : client) (lid : Z) (l : ClientLock) : client :=
  MkClient (xid c) (<[lid := l]> (lock_table_ c)) (release_queue_ c).

Definition acquire_enter (c : client) (lid : Z) : client := set_lock c lid (lock_of c lid).

(** [lock.xid_ = xid++]; the call that follows reads [lock.xid_] again. *)
Definition take_xid (c : client) (lid : Z) (l : ClientLock) : client :=
  MkClient (xid_wrap (xid c + 1))
    (<[lid := MkClientLock (revoked_ l) false ACQUIRING (xid c)]> (lock_table_ c)) (release_queue_ c).

Definition acquire_turn (c : client) (lid : Z) : client * acquire_next :=
  let l := lock_of c lid in
  match state_ l with
  | NONE => (take_xid c lid l, CallAcquire)
  | FREE => (set_lock c lid (set_state l LOCKED), Acquired lock_OK)
  | LOCKED => (c, WaitOn wait_cv)
  | ACQUIRING => if negb (retry_ l) then (c, WaitOn wait_cv) else (take_xid c lid l, CallAcquire)
  | RELEASING => (c, WaitOn release_cv)
  end.

Definition acquire_reply (c : client) (lid : Z) (ret : Z) : client * acquire_next :=
  let l := lock_of c lid in
  if ret =? lock_RETRY then (c, if negb (retry_ l) then WaitOn retry_cv else Loop)
  else if ret =? lock_OK then (set_lock c lid (set_state l LOCKED), Acquired lock_OK)
  else (c, Loop).

(** The wait for a retry ends after three seconds. *)
Definition retry_timeout (c : client) (lid : Z) : client :=
  let l := lock_of c lid in
  set_lock c lid (MkClientLock (revoked_ l) true (state_ l) (xid_ l)).

(** [FlushAndRelease] is followed by the call with the number read here. *)
Definition release_begin (c : client) (lid : Z) : client * release_next * Z :=
  match lock_table_ c !! lid with
  | None => (c, Answer lock_NOENT, 0)
  | Some l =>
      if revoked_ l
      then (set_lock c lid (MkClientLock false (retry_ l) RELEASING (xid_ l)), FlushAndRelease, xid_ l)
      else (set_lock c lid (set_state l FREE), Answer lock_OK, 0)
  end.
Definition release_end (c : client) (lid : Z) (ret : Z) : client * Z :=
  (set_lock c lid (set_state (lock_of c lid) NONE), ret).

(** The queue has no bound: [enq] does not wait. *)
Definition revoke_handler (c : client) (lid xid' : Z) : client * Z :=
  match lock_table_ c !! lid with
  | None => (c, rlock_RPCERR)
  | Some l =>
      if bool_decide (state_ l = NONE) then (c, rlock_RPCERR)
      else if negb (xid_ l =? xid') then (c, rlock_RPCERR)
      else if bool_decide (state_ l = FREE) then
        let c := set_lock c lid (set_state l RELEASING) in
        (MkClient (xid c) (lock_table_ c)
           (match Fifo.enq_turn (release_queue_ c) (Entry lid xid') true with
            | Fifo.Enqueued q => q
            | _ => release_queue_ c
            end), rlock_OK)
      else (set_lock c lid (MkClientLock true (retry_ l) (state_ l) (xid_ l)), rlock_OK)
  end.

Definition retry_handler (c : client) (lid : Z) : client * Z :=
  match lock_table_ c !! lid with
  | None => (c, rlock_RPCERR)
  | Some l => (set_lock c lid (MkClientLock (revoked_ l) true (state_ l) (xid_ l)), rlock_OK)
  end.

(** [releaser]: takes an entry, and after [dorelease] and the call frees the
    lock. *)
Definition releaser_take (c : client) : client * option lock_entry :=
  match Fifo.deq_turn (release_queue_ c) with
  | Fifo.Dequeued e q _ => (MkClient (xid c) (lock_table_ c) q, Some e)
  | Fifo.DeqWait => (c, None)
  end.
Definition releaser_end (c : client) (e : lock_entry) : client :=
  set_lock c (lid_ e) (set_state (lock_of c (lid_ e)) NONE).

End cache.
End LockCacheRsm.
