(* ===== verification/LockCoherence.v ===== *)
(** * Locks and cached extents together

    Many clients, each with threads, a caching lock client and an extent cache,
    one lock and the extent of the same number. [CachingLock] is what the
    system needs of a lock client; both caching clients implement it. The
    theorems: one thread at a time holds the lock, and what it reads is what
    the last holder wrote. *)

From stdpp Require Import functions.
From S2P Require Import Prelude.
From S2P Require Import Fifo.
From S2P Require Import ExtentClient.
From S2P Require Import ExtentCache.
From S2P Require Import LockClient.
From S2P Require Import LockCache.
From S2P Require Import LockCacheRsm.

Local Open Scope Z_scope.

(** ** The interface of a caching lock client

    [cl_take] and [cl_take_end] are the releaser thread: it takes the lock from
    a queue and gives it back afterwards. [held] counts the places inside the
    client's own state where the lock can be: cached and free, or queued for
    release. *)
Class CachingLock (T : Type) := {
  cl_enter : T -> T;
  cl_turn : T -> T * acquire_next;
  cl_clear : T -> T;
  cl_reply : T -> Z -> T * acquire_next;
  cl_timeout : T -> T;
  cl_release : T -> T * release_next;
  cl_release_end : T -> Z -> T;
  cl_revoke : T -> Z -> T * release_next;
  cl_revoke_end : T -> Z -> T;
  cl_retry : T -> T;
  cl_take : T -> T * bool;
  cl_take_end : T -> T;
  held : T -> nat;
}.

(** A thread gets the lock from [held] or by an OK of the server, and gives it
    to [held] or to the server; nothing else makes it appear. *)
Class CachingLockLaws `{LockProtocol} (T : Type) `{!CachingLock T} := {
  enter_held t : (held (cl_enter t) <= held t)%nat;
  turn_held t t' a : cl_turn t = (t', a) ->
    match a with
    | Acquired _ => (S (held t') <= held t)%nat
    | _ => (held t' <= held t)%nat
    end;
  clear_held t : (held (cl_clear t) <= held t)%nat;
  reply_held t ret t' a : cl_reply t ret = (t', a) ->
    (held t' <= held t)%nat /\ (forall r, a = Acquired r -> ret = lock_OK);
  timeout_held t : (held (cl_timeout t) <= held t)%nat;
  release_held t t' a : cl_release t = (t', a) ->
    match a with
    | Answer _ => (held t' <= S (held t))%nat
    | FlushAndRelease => (held t' <= held t)%nat
    end;
  release_end_held t ret : (held (cl_release_end t ret) <= held t)%nat;
  revoke_held t x t' a : cl_revoke t x = (t', a) ->
    match a with
    | Answer _ => (held t' <= held t)%nat
    | FlushAndRelease => (S (held t') <= held t)%nat
    end;
  revoke_end_held t ret : (held (cl_revoke_end t ret) <= held t)%nat;
  retry_held t : (held (cl_retry t) <= held t)%nat;
  take_held t t' b : cl_take t = (t', b) ->
    if b then (S (held t') <= held t)%nat else (held t' <= held t)%nat;
  take_end_held t : (held (cl_take_end t) <= held t)%nat;
}.

(** ** The two implementations *)

Section instances.
Context `{LockProtocol} (lid : Z).

(** [lock_client_cache] releases in the thread of the revoke handler. *)
#[local] Instance lock_cache : CachingLock (gmap Z LockCache.Lock) := {|
  cl_enter t := LockCache.acquire_enter t lid;
  cl_turn t := LockCache.acquire_turn t lid;
  cl_clear t := LockCache.clear_retry t lid;
  cl_reply t ret := LockCache.acquire_reply t lid ret;
  cl_timeout t := t;
  cl_release t := LockCache.release_begin t lid;
  cl_release_end t ret := (LockCache.release_end t lid ret).1;
  cl_revoke t _ := LockCache.revoke_begin t lid;
  cl_revoke_end t ret := (LockCache.revoke_end t lid ret).1;
  cl_retry t := (LockCache.retry_handler t lid).1;
  cl_take t := (t, false);
  cl_take_end t := t;
  held t := if decide (LockCache.state_ (LockCache.lock_of t lid) = FREE) then 1%nat else 0%nat;
|}.

(** [lock_client_cache_rsm] releases in its own thread. *)
Definition queued (c : LockCacheRsm.client) : nat :=
  length (filter (fun e => LockCacheRsm.lid_ e = lid) (Fifo.q_ (LockCacheRsm.release_queue_ c))).

#[local] Instance lock_cache_rsm : CachingLock LockCacheRsm.client := {|
  cl_enter c := LockCacheRsm.acquire_enter c lid;
  cl_turn c := LockCacheRsm.acquire_turn c lid;
  cl_clear c := c;
  cl_reply c ret := LockCacheRsm.acquire_reply c lid ret;
  cl_timeout c := LockCacheRsm.retry_timeout c lid;
  cl_release c := (LockCacheRsm.release_begin c lid).1;
  cl_release_end c ret := (LockCacheRsm.release_end c lid ret).1;
  cl_revoke c x := let '(c, ret) := LockCacheRsm.revoke_handler c lid x in (c, Answer ret);
  cl_revoke_end c _ := c;
  cl_retry c := (LockCacheRsm.retry_handler c lid).1;
  cl_take c := match LockCacheRsm.releaser_take c with
               | (c, Some e) => (c, bool_decide (LockCacheRsm.lid_ e = lid))
               | (c, None) => (c, false)
               end;
  cl_take_end c := LockCacheRsm.releaser_end c (LockCacheRsm.Entry lid 0);
  held c := (queued c +
    if decide (LockCacheRsm.state_ (LockCacheRsm.lock_of c lid) = FREE) then 1 else 0)%nat;
|}.

Lemma lock_of_insert t l : LockCache.lock_of (<[lid := l]> t) lid = l.
Proof. unfold LockCache.lock_of. by rewrite lookup_insert_eq. Qed.

Lemma lock_of_some t l : t !! lid = Some l -> LockCache.lock_of t lid = l.
Proof. unfold LockCache.lock_of. by intros ->. Qed.

Ltac solve_held :=
  repeat first [rewrite lock_of_insert | progress simpl | case_decide]; try done; try lia.

#[local] Instance lock_cache_laws : CachingLockLaws (gmap Z LockCache.Lock).
Proof.
  split; simpl.
  - intros t. unfold LockCache.acquire_enter. solve_held.
  - intros t t' a. unfold LockCache.acquire_turn.
    destruct (LockCache.state_ (LockCache.lock_of t lid)) eqn:E; [| | |destruct (negb _)|];
      intros [= <- <-]; solve_held; congruence.
  - intros t. unfold LockCache.clear_retry. solve_held.
  - intros t ret t' a. unfold LockCache.acquire_reply.
    destruct (Z.eqb_spec ret lock_OK) as [->|Hne]; [|destruct (ret =? lock_RETRY)];
      intros [= <- <-]; solve_held; (split; [lia|]); try done; intros r; by destruct (negb _).
  - done.
  - intros t t' a. unfold LockCache.release_begin.
    destruct (t !! lid) as [l|] eqn:E; [destruct (LockCache.revoked_ l)|]; intros [= <- <-]; solve_held.
  - intros t ret. unfold LockCache.release_end. solve_held.
  - intros t x t' a. unfold LockCache.revoke_begin.
    destruct (t !! lid) as [l|] eqn:E; [|intros [= <- <-]; done].
    pose proof (lock_of_some t l E) as El.
    destruct (LockCache.state_ l) eqn:Es; intros [= <- <-]; rewrite ?lock_of_insert, ?El; simpl;
      rewrite ?Es; done.
  - intros t ret. unfold LockCache.revoke_end. destruct (negb _); solve_held.
  - intros t. unfold LockCache.retry_handler. destruct (t !! lid) as [l|] eqn:E; [|done].
    rewrite (lock_of_some t l E). solve_held.
  - intros t t' b [= <- <-]. done.
  - done.
Qed.

Lemma rsm_lock_of_set c l : LockCacheRsm.lock_of (LockCacheRsm.set_lock c lid l) lid = l.
Proof. unfold LockCacheRsm.lock_of. simpl. by rewrite lookup_insert_eq. Qed.

Lemma rsm_lock_of_take c l :
  LockCacheRsm.lock_of (LockCacheRsm.take_xid c lid l) lid =
  LockCacheRsm.MkClientLock (LockCacheRsm.revoked_ l) false ACQUIRING (LockCacheRsm.xid c).
Proof. unfold LockCacheRsm.lock_of. simpl. by rewrite lookup_insert_eq. Qed.

Lemma rsm_lock_of_some c l : LockCacheRsm.lock_table_ c !! lid = Some l -> LockCacheRsm.lock_of c lid = l.
Proof. unfold LockCacheRsm.lock_of. by intros ->. Qed.

Lemma queued_set c x l : queued (LockCacheRsm.set_lock c x l) = queued c.
Proof. done. Qed.

Lemma queued_take c l : queued (LockCacheRsm.take_xid c lid l) = queued c.
Proof. done. Qed.

Ltac solve_rsm_held :=
  repeat first [rewrite rsm_lock_of_set | rewrite rsm_lock_of_take | rewrite queued_set
               | rewrite queued_take | progress simpl | case_decide]; try done; try lia.

Lemma rsm_revoke_held c x c' ret :
  LockCacheRsm.revoke_handler c lid x = (c', ret) ->
  (held (CachingLock := lock_cache_rsm) c' <= held (CachingLock := lock_cache_rsm) c)%nat.
Proof.
  unfold LockCacheRsm.revoke_handler.
  destruct (LockCacheRsm.lock_table_ c !! lid) as [l|] eqn:E; [|intros [= <- <-]; done].
  pose proof (rsm_lock_of_some c l E) as El.
  case_bool_decide as Hn; [intros [= <- <-]; done|]. destruct (negb _); [intros [= <- <-]; done|].
  case_bool_decide as Hf; intros [= <- <-]; simpl.
  - unfold Fifo.enq_turn, queued, LockCacheRsm.lock_of. simpl. rewrite lookup_insert_eq. simpl.
    assert (LockCacheRsm.state_ (LockCacheRsm.lock_of c lid) = FREE) as Hf' by (by rewrite El).
    unfold LockCacheRsm.lock_of in Hf'. rewrite Hf'.
    destruct (_ || _); simpl; [|lia]. rewrite filter_app, length_app, filter_cons_True by done.
    simpl. lia.
  - rewrite El. solve_rsm_held.
Qed.

#[local] Instance lock_cache_rsm_laws : CachingLockLaws LockCacheRsm.client.
Proof.
  split; simpl.
  - intros t. unfold LockCacheRsm.acquire_enter. solve_rsm_held.
  - intros t t' a. unfold LockCacheRsm.acquire_turn.
    destruct (LockCacheRsm.state_ (LockCacheRsm.lock_of t lid)) eqn:E; [| | |destruct (negb _)|];
      intros [= <- <-]; solve_rsm_held; congruence.
  - done.
  - intros t ret t' a. unfold LockCacheRsm.acquire_reply. pose proof lock_codes as Hc.
    destruct (Z.eqb_spec ret lock_RETRY) as [->|Hne]; [|destruct (Z.eqb_spec ret lock_OK) as [->|]];
      intros [= <- <-]; (split; [solve_rsm_held|intros r]); try done; by destruct (negb _).
  - intros t. unfold LockCacheRsm.retry_timeout. solve_rsm_held.
  - intros t t' a. unfold LockCacheRsm.release_begin.
    destruct (LockCacheRsm.lock_table_ t !! lid) as [l|] eqn:E; [destruct (LockCacheRsm.revoked_ l)|];
      intros [= <- <-]; solve_rsm_held.
  - intros t ret. unfold LockCacheRsm.release_end. solve_rsm_held.
  - intros t x t' a. destruct (LockCacheRsm.revoke_handler t lid x) as [c ret] eqn:E.
    intros [= <- <-]. by apply rsm_revoke_held in E.
  - done.
  - intros t. unfold LockCacheRsm.retry_handler.
    destruct (LockCacheRsm.lock_table_ t !! lid) as [l|] eqn:E; [|done].
    rewrite (rsm_lock_of_some t l E). solve_rsm_held.
  - intros t t' b. unfold LockCacheRsm.releaser_take, Fifo.deq_turn, queued.
    destruct (Fifo.q_ (LockCacheRsm.release_queue_ t)) as [|e q] eqn:E; intros [= <- <-].
    { rewrite E. simpl. lia. }
    simpl. rewrite filter_cons. unfold LockCacheRsm.lock_of. simpl.
    case_bool_decide as Hd; destruct (decide (LockCacheRsm.lid_ e = lid)); try done; simpl; lia.
  - intros t. unfold LockCacheRsm.releaser_end. solve_rsm_held.
Qed.

End instances.

(** ** The system *)

Section system.
Context `{LockProtocol} {T : Type} `{!CachingLock T} `{!CachingLockLaws T}.
Context `{ExtentServer W, !ExtentServerLaws W}.
Context (lid : Z).
Import ExtentCache.

(** Which code is giving the lock back. *)
Inductive giver := ByRelease | ByRevoke | ByReleaser.

(** Where a thread is. [Clearing]: about to
    clear [retry_] before a call. [Answered]: the reply of an acquire call is on its way.
    [Flushing], [Releasing], [Released]: before [dorelease], before the server
    has the release call, after it. *)
Inductive pc :=
| Idle
| AtHead
| Waiting (cv : cond_var)
| Clearing
| Calling
| Answered (ret : Z)
| Holding
| Flushing (h : giver)
| Releasing (h : giver)
| Released (h : giver) (ret : Z).

Record client := Client { lk : T; threads : nat -> pc; ccache : gmap Z eid_content }.

(** [owner] is the client to which the lock server has granted the lock, and
    [latest] the content of the extent according to the successful writes and
    removals of its holders. *)
Record world := World {
  clients : nat -> client;
  owner : option nat;
  ext : W;
  latest : option string;
}.

Definition set_client (s : world) (c : nat) (k : client) : world :=
  World (<[c := k]> (clients s)) (owner s) (ext s) (latest s).
Definition set_owner (s : world) (o : option nat) : world :=
  World (clients s) o (ext s) (latest s).
Definition set_thread (k : client) (t : T) (i : nat) (p : pc) : client :=
  Client t (<[i := p]> (threads k)) (ccache k).

Definition after_turn (a : acquire_next) : pc :=
  match a with
  | Acquired _ => Holding
  | CallAcquire => Calling
  | ClearRetry => Clearing
  | WaitOn cv => Waiting cv
  | Loop => AtHead
  end.

(** The operations of a holder on its extent. *)
Definition own_op (o : operation) : Prop :=
  match o with
  | OpPut e _ _ | OpGet e _ | OpGetattr e | OpRemove e => e = lid
  | OpFlush _ => False
  end.

Definition new_latest (v : option string) (o : operation) (a : answer) : option string :=
  match o, a with
  | OpPut _ b _, Some (Some _) => Some b
  | OpRemove _, Some (Some _) => None
  | _, _ => v
  end.

Definition end_release (h : giver) (t : T) (ret : Z) : T :=
  match h with
  | ByRelease => cl_release_end t ret
  | ByRevoke => cl_revoke_end t ret
  | ByReleaser => cl_take_end t
  end.

Inductive step (s : world) (c i : nat) : world -> Prop :=
(* [acquire] *)
| st_enter : threads (clients s c) i = Idle ->
    step s c i (set_client s c (set_thread (clients s c) (cl_enter (lk (clients s c))) i AtHead))
| st_turn t a : threads (clients s c) i = AtHead -> cl_turn (lk (clients s c)) = (t, a) ->
    step s c i (set_client s c (set_thread (clients s c) t i (after_turn a)))
| st_clear : threads (clients s c) i = Clearing ->
    step s c i (set_client s c (set_thread (clients s c) (cl_clear (lk (clients s c))) i Calling))
| st_wake cv : threads (clients s c) i = Waiting cv ->
    step s c i (set_client s c (set_thread (clients s c) (lk (clients s c)) i AtHead))
| st_timeout : threads (clients s c) i = Waiting retry_cv ->
    step s c i (set_client s c (set_thread (clients s c) (cl_timeout (lk (clients s c))) i AtHead))
| st_reply ret t a : threads (clients s c) i = Answered ret ->
    cl_reply (lk (clients s c)) ret = (t, a) ->
    step s c i (set_client s c (set_thread (clients s c) t i (after_turn a)))
(* the lock server: it grants the lock only when no client has it; a call may
   be refused, or fail before or after it was handled *)
| st_grant : threads (clients s c) i = Calling -> owner s = None ->
    step s c i (set_owner (set_client s c (set_thread (clients s c) (lk (clients s c)) i (Answered lock_OK)))
                          (Some c))
| st_grant_lost ret : threads (clients s c) i = Calling -> owner s = None -> ret <> lock_OK ->
    step s c i (set_owner (set_client s c (set_thread (clients s c) (lk (clients s c)) i (Answered ret)))
                          (Some c))
| st_refuse ret : threads (clients s c) i = Calling -> ret <> lock_OK ->
    step s c i (set_client s c (set_thread (clients s c) (lk (clients s c)) i (Answered ret)))
| st_free h ret : threads (clients s c) i = Releasing h -> owner s = Some c ->
    step s c i (set_owner (set_client s c (set_thread (clients s c) (lk (clients s c)) i (Released h ret))) None)
| st_free_lost h ret : threads (clients s c) i = Releasing h ->
    step s c i (set_client s c (set_thread (clients s c) (lk (clients s c)) i (Released h ret)))
(* the holder at work *)
| st_op o w cc a : threads (clients s c) i = Holding -> own_op o ->
    cache_step (ext s) (ccache (clients s c)) o = (w, cc, a) ->
    step s c i (World (<[c := Client (lk (clients s c)) (threads (clients s c)) cc]> (clients s))
                      (owner s) w (new_latest (latest s) o a))
(* giving the lock back *)
| st_release t a : threads (clients s c) i = Holding -> cl_release (lk (clients s c)) = (t, a) ->
    step s c i (set_client s c (set_thread (clients s c) t i
                 match a with Answer _ => Idle | FlushAndRelease => Flushing ByRelease end))
| st_revoke x t a : threads (clients s c) i = Idle -> cl_revoke (lk (clients s c)) x = (t, a) ->
    step s c i (set_client s c (set_thread (clients s c) t i
                 match a with Answer _ => Idle | FlushAndRelease => Flushing ByRevoke end))
| st_take t b : threads (clients s c) i = Idle -> cl_take (lk (clients s c)) = (t, b) ->
    step s c i (set_client s c (set_thread (clients s c) t i
                 (if b : bool then Flushing ByReleaser else Idle)))
| st_flush h w cc ret : threads (clients s c) i = Flushing h ->
    flush (ext s) (ccache (clients s c)) lid = (w, cc, ret) ->
    step s c i (World (<[c := Client (lk (clients s c)) (<[i := Releasing h]> (threads (clients s c))) cc]>
                         (clients s)) (owner s) w (latest s))
| st_done h ret : threads (clients s c) i = Released h ret ->
    step s c i (set_client s c (set_thread (clients s c) (end_release h (lk (clients s c)) ret) i Idle))
(* the server's retry *)
| st_retry :
    step s c i (set_client s c (set_thread (clients s c) (cl_retry (lk (clients s c))) i
                                           (threads (clients s c) i))).

Definition some_step (s s' : world) : Prop := exists c i, step s c i s'.

(** Nobody holds or caches anything. *)
Record initial (s : world) : Prop := {
  in_idle : forall c i, threads (clients s c) i = Idle;
  in_held : forall c, held (lk (clients s c)) = 0%nat;
  in_cache : forall c, ccache (clients s c) = ∅;
  in_owner : owner s = None;
  in_latest : latest s = store (ext s) !! lid;
}.

(** ** Where the lock is *)

Definition tok (p : pc) : Prop :=
  match p with
  | Answered ret => ret = lock_OK
  | Holding | Flushing _ | Releasing _ => True
  | Idle | AtHead | Waiting _ | Clearing | Calling | Released _ _ => False
  end.

(** At most one place of a client has the lock. *)
Record tokens (th : nat -> pc) (h : nat) : Prop := {
  tk_one : forall i j, tok (th i) -> tok (th j) -> i = j;
  tk_zero : forall i, tok (th i) -> h = 0%nat;
  tk_held : (h <= 1)%nat;
}.

Definition has_token (th : nat -> pc) (h : nat) : Prop := (exists i, tok (th i)) \/ h <> 0%nat.

Lemma fn_insert_cases {B} (f : nat -> B) i x j (P : B -> Prop) :
  (i = j -> P x) -> (i <> j -> P (f j)) -> P (<[i := x]> f j).
Proof.
  intros H1' H2'. destruct (decide (i = j)) as [->|Hne].
  - rewrite fn_lookup_insert. by apply H1'.
  - rewrite fn_lookup_insert_ne by done. by apply H2'.
Qed.

(** A thread moves and the lock does not come from anywhere else: it stays
    with the thread, or was with it, or comes out of [held]. *)
Lemma tokens_move th h i p h' :
  tokens th h ->
  (tok p -> tok (th i) \/ (S h' <= h)%nat) ->
  (tok (th i) -> (h' <= 1)%nat /\ (tok p -> h' = 0%nat)) ->
  (~ tok (th i) -> (h' <= h)%nat) ->
  tokens (<[i := p]> th) h' /\ (has_token (<[i := p]> th) h' -> has_token th h).
Proof.
  intros [Hone Hzero Hheld] Hp Hi Hni.
  assert (forall j, tok (<[i := p]> th j) -> i = j /\ tok p \/ i <> j /\ tok (th j)) as Hcase.
  { intros j. destruct (decide (i = j)) as [->|Hne].
    - rewrite fn_lookup_insert. auto.
    - rewrite fn_lookup_insert_ne by done. auto. }
  assert (forall j, i <> j -> tok (th j) -> ~ tok p /\ h' = 0%nat) as Hother.
  { intros j Hne Hj. assert (~ tok (th i)) as Hn by (intros Hti; by apply Hne, Hone).
    specialize (Hzero j Hj). specialize (Hni Hn). split; [|lia].
    intros Hp'. destruct (Hp Hp'); [done|lia]. }
  assert (tok p -> h' = 0%nat) as Hph.
  { intros Hp'. destruct (Hp Hp') as [Ht|Hs]; [by apply Hi|lia]. }
  split; [split|].
  - intros j1 j2 [[<- H1']|[Hn1 H1']]%Hcase [[<- H2']|[Hn2 H2']]%Hcase; [done| | |by apply Hone].
    + by destruct (Hother j2 Hn2 H2').
    + by destruct (Hother j1 Hn1 H1').
  - intros j [[<- Hj]|[Hne Hj]]%Hcase; [by apply Hph|by apply (Hother j)].
  - destruct (decide (h' = 0)%nat) as [->|Hh]; [lia|].
    assert (tok (th i) \/ ~ tok (th i)) as [Ht|Hn].
    { destruct (th i); simpl; auto. destruct (decide (ret = lock_OK)); auto. }
    + by apply (Hi Ht).
    + specialize (Hni Hn). lia.
  - intros [[j [[<- Hj]|[Hne Hj]]%Hcase]|Hh].
    + destruct (Hp Hj) as [Ht|Hs]; [left; eauto|right; lia].
    + left. eauto.
    + assert (tok (th i) \/ ~ tok (th i)) as [Ht|Hn].
      { destruct (th i); simpl; auto. destruct (decide (ret = lock_OK)); auto. }
      * left. eauto.
      * specialize (Hni Hn). right. lia.
Qed.

(** ** The invariant *)

Record cinv (s : world) (c : nat) : Prop := {
  ci_tok : tokens (threads (clients s c)) (held (lk (clients s c)));
  ci_own : has_token (threads (clients s c)) (held (lk (clients s c))) -> owner s = Some c;
  ci_cache : ccache (clients s c) <> ∅ -> owner s = Some c;
  ci_dom : forall e, is_Some (ccache (clients s c) !! e) -> e = lid;
  ci_rel : forall i h, threads (clients s c) i = Releasing h -> ccache (clients s c) = ∅;
  ci_data : owner s = Some c \/ owner s = None ->
    exists m, represents (ext s) (ccache (clients s c)) m /\ content m !! lid = latest s;
}.

Definition inv (s : world) : Prop := forall c, cinv s c.

Lemma initial_lock_inv s : initial s -> inv s.
Proof.
  intros [Hi Hh Hc Ho Hl] c. split.
  - split; [intros i j|intros i|]; rewrite ?Hi; simpl; try done. rewrite Hh. lia.
  - intros [[i Ht]|Hn]; [by rewrite Hi in Ht|by rewrite Hh in Hn].
  - by rewrite Hc.
  - intros e. rewrite Hc. by intros [? ?].
  - intros i h. by rewrite Hi.
  - intros _. rewrite Hc. eexists. split; [apply represents_empty|]. done.
Qed.

(** A step of one client that leaves cache, server and extent alone. *)
Lemma inv_local s c k' :
  inv s -> tokens (threads k') (held (lk k')) ->
  (has_token (threads k') (held (lk k')) ->
     has_token (threads (clients s c)) (held (lk (clients s c)))) ->
  ccache k' = ccache (clients s c) ->
  (forall i h, threads k' i = Releasing h -> threads (clients s c) i = Releasing h) ->
  inv (set_client s c k').
Proof.
  intros Hi Ht Hh Hc Hr c'. destruct (Hi c') as [T1 T2 T3 T4 T5 T6]. unfold set_client.
  destruct (decide (c = c')) as [<-|Hne].
  - split; simpl; rewrite ?fn_lookup_insert, ?Hc; auto. intros i h Hx. eapply T5. by apply Hr.
  - split; simpl; rewrite ?fn_lookup_insert_ne by done; auto.
Qed.

(** The same through [tokens_move]. *)
Lemma inv_thread s c i p t :
  inv s ->
  (tok p -> tok (threads (clients s c) i) \/ (S (held t) <= held (lk (clients s c)))%nat) ->
  (tok (threads (clients s c) i) -> (held t <= 1)%nat /\ (tok p -> held t = 0%nat)) ->
  (~ tok (threads (clients s c) i) -> (held t <= held (lk (clients s c)))%nat) ->
  (forall h, p = Releasing h -> threads (clients s c) i = Releasing h) ->
  inv (set_client s c (set_thread (clients s c) t i p)).
Proof.
  intros Hi H1' H2' H3' Hr.
  destruct (tokens_move _ _ i p (held t) (ci_tok _ _ (Hi c)) H1' H2' H3') as [Ht Hh].
  apply inv_local; try done. intros j h. simpl. apply fn_insert_cases; [|done].
  intros <- ->. by apply Hr.
Qed.

(** The thread has nothing and gets nothing. *)
Lemma inv_quiet s c i p t :
  inv s -> ~ tok (threads (clients s c) i) -> ~ tok p -> (held t <= held (lk (clients s c)))%nat ->
  inv (set_client s c (set_thread (clients s c) t i p)).
Proof. intros Hi Hn Hp Hh. apply inv_thread; try done. intros h ->. by destruct Hp. Qed.

Lemma tok_held s c i : inv s -> tok (threads (clients s c) i) -> held (lk (clients s c)) = 0%nat.
Proof. intros Hi Ht. by eapply tk_zero; [apply (Hi c)|]. Qed.

(** The thread has the lock and keeps it. *)
Lemma inv_keep s c i p t :
  inv s -> tok (threads (clients s c) i) -> (held t <= held (lk (clients s c)))%nat ->
  (forall h, p <> Releasing h) -> inv (set_client s c (set_thread (clients s c) t i p)).
Proof.
  intros Hi Ht Hh Hr. pose proof (tok_held s c i Hi Ht). apply inv_thread; try done.
  - auto.
  - intros _. split; [lia|]. intros _. lia.
  - intros h ->. by destruct (Hr h).
Qed.

(** The thread gives the lock up, to [held] or for good. *)
Lemma inv_drop s c i p t :
  inv s -> tok (threads (clients s c) i) -> ~ tok p -> (held t <= S (held (lk (clients s c))))%nat ->
  inv (set_client s c (set_thread (clients s c) t i p)).
Proof.
  intros Hi Ht Hp Hh. pose proof (tok_held s c i Hi Ht). apply inv_thread; try done.
  - intros _. split; [lia|done].
  - intros h ->. by destruct Hp.
Qed.

(** The thread takes the lock out of [held]. *)
Lemma inv_take s c i p t :
  inv s -> ~ tok (threads (clients s c) i) -> (S (held t) <= held (lk (clients s c)))%nat ->
  (forall h, p <> Releasing h) -> inv (set_client s c (set_thread (clients s c) t i p)).
Proof.
  intros Hi Hn Hh Hr. apply inv_thread; try done; [by right|lia|]. intros h ->. by destruct (Hr h).
Qed.

(** The server grants the lock: nobody had it, and no cache has the extent. *)
Lemma inv_grant s c : inv s -> owner s = None -> inv (set_owner s (Some c)).
Proof.
  intros Hi Ho c'. destruct (Hi c') as [T1 T2 T3 T4 T5 T6]. rewrite Ho in *.
  split; simpl; auto.
  - intros Ht. by specialize (T2 Ht).
  - intros Hc. by specialize (T3 Hc).
Qed.

Lemma inv_grant_thread s c i :
  inv s -> owner s = Some c ->
  (forall j, ~ tok (threads (clients s c) j)) -> held (lk (clients s c)) = 0%nat ->
  inv (set_client s c (set_thread (clients s c) (lk (clients s c)) i (Answered lock_OK))).
Proof.
  intros Hi Ho Hnt Hh c'. destruct (Hi c') as [T1 T2 T3 T4 T5 T6]. unfold set_client.
  destruct (decide (c = c')) as [<-|Hne].
  2: { split; simpl; rewrite ?fn_lookup_insert_ne by done; auto. }
  assert (forall j, tok (<[i := Answered lock_OK]> (threads (clients s c)) j) -> j = i) as Hj.
  { intros j. apply (fn_insert_cases (threads (clients s c)) i (Answered lock_OK) j
                       (fun p => tok p -> j = i)); [by intros ->|]. intros _ Ht. by destruct (Hnt j). }
  split; simpl; rewrite ?fn_lookup_insert; simpl; auto.
  - split; rewrite ?Hh; auto. intros j1 j2 H1' H2'. by rewrite (Hj j1 H1'), (Hj j2 H2').
  - intros j h. apply (fn_insert_cases _ i _ j (fun p => p = Releasing h -> _)); [done|].
    intros _. apply T5.
Qed.

(** The server takes the lock back from a client that has nothing left. *)
Lemma inv_free s c :
  inv s -> owner s = Some c ->
  ~ has_token (threads (clients s c)) (held (lk (clients s c))) -> ccache (clients s c) = ∅ ->
  inv (set_owner s None).
Proof.
  intros Hi Ho Hn Hc c'. destruct (Hi c') as [T1 T2 T3 T4 T5 T6].
  assert (~ has_token (threads (clients s c')) (held (lk (clients s c')))) as Hn'.
  { intros Ht. specialize (T2 Ht). rewrite Ho in T2. by injection T2 as <-. }
  assert (ccache (clients s c') = ∅) as Hc'.
  { destruct (decide (ccache (clients s c') = ∅)) as [|Hne]; [done|].
    specialize (T3 Hne). rewrite Ho in T3. by injection T3 as <-. }
  split; simpl; auto; [by intros ?|by rewrite Hc'|]. intros _. rewrite Hc'.
  exists (Reference (store (ext s)) ∅). split; [apply represents_empty|]. simpl.
  destruct (ci_data _ _ (Hi c)) as (m & Hr & Hl); [by left|]. rewrite Hc in Hr.
  rewrite <-Hl, <-(rp_seen _ _ _ Hr lid). done.
Qed.

Lemma drop_no_token th h i p :
  tokens th h -> tok (th i) -> ~ tok p -> ~ has_token (<[i := p]> th) h.
Proof.
  intros [Hone Hzero _] Ht Hp [[j Hj]|Hh].
  - revert Hj. apply (fn_insert_cases th i p j (fun q => tok q -> False)); [done|].
    intros Hne Hj. by apply Hne, Hone.
  - by rewrite (Hzero i Ht) in Hh.
Qed.

(** The holder works on cache and server. *)
Lemma inv_work s c (th : nat -> pc) w cc v m :
  inv s -> owner s = Some c ->
  (forall i, tok (th i) <-> tok (threads (clients s c) i)) ->
  (forall i h, th i = Releasing h -> cc = ∅) ->
  (forall e, is_Some (cc !! e) -> e = lid) ->
  represents w cc m -> content m !! lid = v ->
  inv (World (<[c := Client (lk (clients s c)) th cc]> (clients s)) (owner s) w v).
Proof.
  intros Hi Ho Ht Hr Hd Hrep Hv c'. destruct (Hi c') as [T1 T2 T3 T4 T5 T6].
  destruct (decide (c = c')) as [<-|Hne].
  - split; simpl; rewrite ?fn_lookup_insert; simpl; [|done|done|done|done|by eauto].
    destruct T1 as [Hone Hzero Hle].
    split; [intros i j; rewrite !Ht; apply Hone|intros i; rewrite Ht; apply Hzero|done].
  - split; simpl; rewrite ?fn_lookup_insert_ne by done; auto.
    rewrite Ho. intros [[= ?]|?]; done.
Qed.

Lemma own_op_dom w c o w' c' a :
  own_op o -> cache_step w c o = (w', c', a) ->
  (forall e, is_Some (c !! e) -> e = lid) -> forall e, is_Some (c' !! e) -> e = lid.
Proof.
  intros Hown Hs Hd.
  assert (c' = c \/ exists x, c' = <[lid := x]> c) as [->|[x ->]].
  { destruct o as [e b now|e now|e|e|e]; simpl in Hown; [subst e..|done]; simpl in Hs.
    - unfold put in Hs. destruct (state_is _ _ _); injection Hs as <- <- <-; eauto.
    - unfold get in Hs. destruct (_ || _).
      + destruct (srv_get w lid) as [[w1 ret] b]. destruct (negb _); injection Hs as <- <- <-; eauto.
      + destruct (state_is _ _ _); injection Hs as <- <- <-; eauto.
    - unfold getattr in Hs. destruct (c !! lid) as [x|].
      + destruct (bool_decide _); injection Hs as <- <- <-; eauto.
      + destruct (srv_getattr w lid) as [[w1 ret] b]. destruct (negb _); injection Hs as <- <- <-; eauto.
    - unfold remove in Hs. destruct (bool_decide _); injection Hs as <- <- <-; eauto. }
  - done.
  - intros e [y [[<- _]|[_ Hy]]%lookup_insert_Some]; [done|]. apply Hd. by eexists.
Qed.

Lemma ref_step_latest m o : own_op o ->
  content (ref_step m o).1 !! lid = new_latest (content m !! lid) o (ref_step m o).2.
Proof.
  destruct o as [e b now|e now|e|e|e]; simpl; intros Hown; [subst e..|done].
  - destruct (decide _); simpl; [done|apply lookup_insert_eq].
  - by destruct (content m !! lid).
  - by destruct (content m !! lid).
  - destruct (decide _); simpl; [done|apply lookup_delete_eq].
Qed.

Lemma inv_op s c i o w cc a :
  inv s -> threads (clients s c) i = Holding -> own_op o ->
  cache_step (ext s) (ccache (clients s c)) o = (w, cc, a) ->
  inv (World (<[c := Client (lk (clients s c)) (threads (clients s c)) cc]> (clients s))
             (owner s) w (new_latest (latest s) o a)).
Proof.
  intros Hi Hh Hown Hs.
  assert (owner s = Some c) as Ho by (apply (ci_own _ _ (Hi c)); left; exists i; by rewrite Hh).
  destruct (ci_data _ _ (Hi c)) as (m & Hr & Hl); [by left|].
  pose proof (cache_step_represents _ _ _ o Hr) as Hc. rewrite Hs in Hc. destruct Hc as [Hr' ->].
  eapply inv_work; [done|done|done| | |exact Hr'|].
  - intros j h Hj. assert (i = j) as <-; [|congruence].
    eapply tk_one; [apply (ci_tok _ _ (Hi c))|by rewrite Hh|by rewrite Hj].
  - eapply own_op_dom; [done|done|apply (ci_dom _ _ (Hi c))].
  - rewrite (ref_step_latest _ _ Hown), Hl. done.
Qed.

Lemma flush_empty w c w' c' ret :
  flush w c lid = (w', c', ret) -> (forall e, is_Some (c !! e) -> e = lid) -> c' = ∅.
Proof.
  intros Hf Hd. assert (c' = delete lid c) as ->.
  { unfold flush in Hf. destruct (c !! lid) as [x|] eqn:Hx.
    - destruct (state_ x).
      + destruct (srv_put _ _ _). by injection Hf.
      + destruct (srv_remove _ _). by injection Hf.
      + by injection Hf.
      + by injection Hf.
    - injection Hf as _ <- _. by rewrite delete_id. }
  apply map_eq. intros e. rewrite lookup_empty. destruct (decide (e = lid)) as [->|Hne].
  - apply lookup_delete_eq.
  - rewrite lookup_delete_ne by done. apply eq_None_not_Some. intros He. by apply Hne, Hd.
Qed.

Lemma inv_flush s c i h w cc ret :
  inv s -> threads (clients s c) i = Flushing h ->
  flush (ext s) (ccache (clients s c)) lid = (w, cc, ret) ->
  inv (World (<[c := Client (lk (clients s c)) (<[i := Releasing h]> (threads (clients s c))) cc]>
                (clients s)) (owner s) w (latest s)).
Proof.
  intros Hi Hh Hs.
  assert (owner s = Some c) as Ho by (apply (ci_own _ _ (Hi c)); left; exists i; by rewrite Hh).
  destruct (ci_data _ _ (Hi c)) as (m & Hr & Hl); [by left|].
  pose proof (flush_empty _ _ _ _ _ Hs (ci_dom _ _ (Hi c))) as ->.
  pose proof (cache_step_represents _ _ _ (OpFlush lid) Hr) as Hc. simpl in Hc. rewrite Hs in Hc.
  destruct Hc as [Hr' _].
  eapply inv_work; [done|done| |done| |exact Hr'|done].
  - intros j. destruct (decide (i = j)) as [<-|Hne].
    + by rewrite fn_lookup_insert, Hh.
    + by rewrite fn_lookup_insert_ne.
  - intros e. by intros [? ?].
Qed.

Lemma tok_after_turn a : tok (after_turn a) <-> exists r, a = Acquired r.
Proof. destruct a; simpl; split; try done; eauto; by intros [? ?]. Qed.

Lemma after_turn_not_releasing a h : after_turn a <> Releasing h.
Proof. by destruct a. Qed.

Lemma lock_step_inv s c i s' : inv s -> step s c i s' -> inv s'.
Proof.
  intros Hi Hs. destruct Hs as
    [Hp|t a Hp Ht|Hp|cv Hp|Hp|ret t a Hp Ht|Hp Ho|ret Hp Ho Hne|ret Hp Hne|h ret Hp Ho|h ret Hp
    |o w cc a Hp Hown Hst|t a Hp Ht|x t a Hp Ht|t b Hp Ht|h w cc ret Hp Hf|h ret Hp|].
  - apply inv_quiet; rewrite ?Hp; auto. apply enter_held.
  - apply turn_held in Ht. destruct a as [r| | | |]; simpl.
    + apply inv_take; rewrite ?Hp; auto.
    + apply inv_quiet; rewrite ?Hp; auto.
    + apply inv_quiet; rewrite ?Hp; auto.
    + apply inv_quiet; rewrite ?Hp; auto.
    + apply inv_quiet; rewrite ?Hp; auto.
  - apply inv_quiet; rewrite ?Hp; auto. apply clear_held.
  - apply inv_quiet; rewrite ?Hp; auto.
  - apply inv_quiet; rewrite ?Hp; auto. apply timeout_held.
  - apply reply_held in Ht as [Hh Ha]. destruct (decide (ret = lock_OK)) as [->|Hne].
    + apply inv_keep; rewrite ?Hp; [done|done|done|intros h; apply after_turn_not_releasing].
    + apply inv_quiet; rewrite ?Hp; auto. intros [r ->]%tok_after_turn. by apply Hne, (Ha r).
  - pose proof (inv_grant s c Hi Ho) as Hg. pose proof (Hi c) as [T1 T2 _ _ _ _].
    apply (inv_grant_thread (set_owner s (Some c)) c i Hg eq_refl); simpl.
    + intros j Hj. rewrite T2 in Ho; [done|]. left. eauto.
    + destruct (held (lk (clients s c))) eqn:E; [done|]. rewrite T2 in Ho; [done|]. right. lia.
  - pose proof (inv_grant s c Hi Ho) as Hg.
    apply (inv_quiet (set_owner s (Some c)) c i); simpl; rewrite ?Hp; auto.
  - apply inv_quiet; rewrite ?Hp; auto.
  - apply (inv_free (set_client s c _) c); simpl; rewrite ?fn_lookup_insert; simpl; auto.
    + apply inv_drop; rewrite ?Hp; simpl; auto.
    + apply drop_no_token; [apply (ci_tok _ _ (Hi c))|by rewrite Hp|auto].
    + by eapply (ci_rel _ _ (Hi c)).
  - apply inv_drop; rewrite ?Hp; simpl; auto.
  - by eapply inv_op.
  - apply release_held in Ht. destruct a.
    + apply inv_drop; rewrite ?Hp; simpl; auto.
    + apply inv_keep; rewrite ?Hp; simpl; auto; done.
  - apply revoke_held in Ht. destruct a.
    + apply inv_quiet; rewrite ?Hp; auto.
    + apply inv_take; rewrite ?Hp; auto; done.
  - apply take_held in Ht. destruct b.
    + apply inv_take; rewrite ?Hp; auto; done.
    + apply inv_quiet; rewrite ?Hp; auto.
  - by eapply inv_flush.
  - apply inv_quiet; rewrite ?Hp; auto.
    destruct h; [apply release_end_held|apply revoke_end_held|apply take_end_held].
  - pose proof (retry_held (lk (clients s c))) as Hh.
    apply inv_thread; auto.
    intros Ht. pose proof (tok_held s c i Hi Ht). split; [lia|intros; lia].
Qed.

Lemma reachable_lock_inv s0 s : initial s0 -> rtc some_step s0 s -> inv s.
Proof.
  intros Hini%initial_lock_inv Hr. revert Hini.
  induction Hr as [|s1 s2 s3 (c & i & Hs) Hr IH]; [done|].
  intros Hi. apply IH. by eapply lock_step_inv.
Qed.

(** One thread of one client holds the lock, and reads what was written last. *)
Lemma holders_coherent s0 s :
  initial s0 -> rtc some_step s0 s ->
  (forall c c' i j, threads (clients s c) i = Holding -> threads (clients s c') j = Holding ->
     c = c' /\ i = j) /\
  (forall c i now, threads (clients s c) i = Holding ->
     (cache_step (ext s) (ccache (clients s c)) (OpGet lid now)).2 = Some (latest s)) /\
  (owner s = None -> store (ext s) !! lid = latest s).
Proof.
  intros Hini Hr. pose proof (reachable_lock_inv _ _ Hini Hr) as Hi. split_and!.
  - intros c c' i j H1' H2'.
    assert (forall x k, threads (clients s x) k = Holding -> owner s = Some x) as Ho.
    { intros x k Hk. apply (ci_own _ _ (Hi x)). left. exists k. by rewrite Hk. }
    assert (c = c') as <-.
    { pose proof (Ho _ _ H1') as E1. pose proof (Ho _ _ H2') as E2. congruence. }
    split; [done|]. eapply tk_one; [apply (ci_tok _ _ (Hi c))|by rewrite H1'|by rewrite H2'].
  - intros c i now Hh.
    assert (owner s = Some c) as Ho by (apply (ci_own _ _ (Hi c)); left; exists i; by rewrite Hh).
    destruct (ci_data _ _ (Hi c)) as (m & Hrep & Hl); [by left|].
    pose proof (cache_step_represents _ _ _ (OpGet lid now) Hrep) as Hc.
    destruct (cache_step _ _ _) as [[w cc] a]. destruct Hc as [_ ->]. simpl. by rewrite Hl.
  - intros Ho. destruct (ci_data _ _ (Hi 0%nat)) as (m & Hrep & Hl); [by right|].
    assert (ccache (clients s 0%nat) = ∅) as Hc.
    { destruct (decide (ccache (clients s 0%nat) = ∅)) as [|Hne]; [done|].
      apply (ci_cache _ _ (Hi 0%nat)) in Hne. congruence. }
    rewrite <-Hl, <-(rp_seen _ _ _ Hrep lid), Hc. done.
Qed.

(** ** Runs that compute *)

Inductive action :=
| AEnter | ATurn | AGrant | AReply | AOp (o : operation) | ARelease | ARevoke (x : Z) | ATake
| AFlush | AFree (ret : Z) | ADone.

Definition own_opb (o : operation) : bool :=
  match o with
  | OpPut e _ _ | OpGet e _ | OpGetattr e | OpRemove e => bool_decide (e = lid)
  | OpFlush _ => false
  end.

Definition act (s : world) (c i : nat) (a : action) : option world :=
  let k := clients s c in
  let go t p := Some (set_client s c (set_thread k t i p)) in
  match a, threads k i with
  | AEnter, Idle => go (cl_enter (lk k)) AtHead
  | ATurn, AtHead => let '(t, a) := cl_turn (lk k) in go t (after_turn a)
  | AGrant, Calling =>
      match owner s with
      | None => Some (set_owner (set_client s c (set_thread k (lk k) i (Answered lock_OK))) (Some c))
      | Some _ => None
      end
  | AReply, Answered ret => let '(t, a) := cl_reply (lk k) ret in go t (after_turn a)
  | AOp o, Holding =>
      if own_opb o then
        let '(w, cc, a) := cache_step (ext s) (ccache k) o in
        Some (World (<[c := Client (lk k) (threads k) cc]> (clients s)) (owner s) w
                    (new_latest (latest s) o a))
      else None
  | ARelease, Holding =>
      let '(t, a) := cl_release (lk k) in
      go t match a with Answer _ => Idle | FlushAndRelease => Flushing ByRelease end
  | ARevoke x, Idle =>
      let '(t, a) := cl_revoke (lk k) x in
      go t match a with Answer _ => Idle | FlushAndRelease => Flushing ByRevoke end
  | ATake, Idle =>
      let '(t, b) := cl_take (lk k) in go t (if b : bool then Flushing ByReleaser else Idle)
  | AFlush, Flushing h =>
      let '(w, cc, _) := flush (ext s) (ccache k) lid in
      Some (World (<[c := Client (lk k) (<[i := Releasing h]> (threads k)) cc]> (clients s))
                  (owner s) w (latest s))
  | AFree ret, Releasing h =>
      if decide (owner s = Some c)
      then Some (set_owner (set_client s c (set_thread k (lk k) i (Released h ret))) None) else None
  | ADone, Released h ret => go (end_release h (lk k) ret) Idle
  | _, _ => None
  end.

Lemma act_step s c i a s' : act s c i a = Some s' -> step s c i s'.
Proof.
  unfold act. destruct a as [| | | |o| |x| | |r|], (threads (clients s c) i) eqn:Hp; try done.
  - intros [= <-]. by apply st_enter.
  - destruct (cl_turn _) eqn:E. intros [= <-]. by eapply st_turn.
  - destruct (owner s) eqn:E; [done|]. intros [= <-]. by apply st_grant.
  - destruct (cl_reply _ _) eqn:E. intros [= <-]. by eapply st_reply.
  - destruct (own_opb o) eqn:Ho; [|done]. destruct (cache_step _ _ _) as [[w cc] a] eqn:E.
    intros [= <-]. eapply st_op; [done| |done].
    destruct o; simpl in *; try done; by apply bool_decide_eq_true in Ho.
  - destruct (cl_release _) eqn:E. intros [= <-]. by eapply st_release.
  - destruct (cl_revoke _ _) eqn:E. intros [= <-]. by eapply st_revoke.
  - destruct (cl_take _) eqn:E. intros [= <-]. by eapply st_take.
  - destruct (flush _ _ _) as [[w cc] r] eqn:E. intros [= <-]. by eapply st_flush.
  - destruct (decide _); [|done]. intros [= <-]. by apply st_free.
  - intros [= <-]. by apply st_done.
Qed.

Fixpoint acts (s : world) (l : list (nat * nat * action)) : option world :=
  match l with
  | [] => Some s
  | (c, i, a) :: l => match act s c i a with Some s => acts s l | None => None end
  end.

Lemma acts_steps l : forall s s', acts s l = Some s' -> rtc some_step s s'.
Proof.
  induction l as [|[[c i] a] l IH]; intros s s'; simpl; [intros [= <-]; apply rtc_refl|].
  destruct (act s c i a) as [s1|] eqn:E; [|done]. intros Hr%IH.
  eapply rtc_l; [|done]. exists c, i. by apply act_step in E.
Qed.

End system.

(** ** The theorems for the two caching clients *)

Section theorems.
Context `{LockProtocol, ExtentServer W, !ExtentServerLaws W} (lid : Z).
Import ExtentCache.

(** C5: locks and caches together are coherent. Any number of clients with
    [lock_client_cache] and [extent_client_cache] and any number of threads
    compete for a lock; threads interleave at every release of a mutex, wake up
    at any time, the server revokes and retries when it likes, acquire and
    release calls fail before or after they were handled (but are not handled
    after they failed). If the lock server
    grants the lock only while no client has it, and the extent server stores
    what it is sent, then at any time at most one thread of one client is
    between [acquire] and [release]; a [get] by it returns the content that the
    last successful [put] or [remove] by any holder at any client left; and
    while no client has the lock, that content is at the server. *)
Theorem lock_cache_coherent (s0 s : world (T := gmap Z LockCache.Lock)) :
  initial (CachingLock0 := lock_cache lid) lid s0 ->
  rtc (some_step (CachingLock0 := lock_cache lid) lid) s0 s ->
  (forall c c' i j, threads (clients s c) i = Holding -> threads (clients s c') j = Holding ->
     c = c' /\ i = j) /\
  (forall c i now, threads (clients s c) i = Holding ->
     (cache_step (ext s) (ccache (clients s c)) (OpGet lid now)).2 = Some (latest s)) /\
  (owner s = None -> store (ext s) !! lid = latest s).
Proof. apply (holders_coherent (CachingLockLaws0 := lock_cache_laws lid)). Qed.

(** C13: the same holds of [lock_client_cache_rsm], whose revoke handler only
    queues the lock and whose releaser thread flushes and releases it, and whose
    threads also give up waiting for a retry after three seconds. *)
Theorem lock_cache_rsm_coherent (s0 s : world (T := LockCacheRsm.client)) :
  initial (CachingLock0 := lock_cache_rsm lid) lid s0 ->
  rtc (some_step (CachingLock0 := lock_cache_rsm lid) lid) s0 s ->
  (forall c c' i j, threads (clients s c) i = Holding -> threads (clients s c') j = Holding ->
     c = c' /\ i = j) /\
  (forall c i now, threads (clients s c) i = Holding ->
     (cache_step (ext s) (ccache (clients s c)) (OpGet lid now)).2 = Some (latest s)) /\
  (owner s = None -> store (ext s) !! lid = latest s).
Proof. apply (holders_coherent (CachingLockLaws0 := lock_cache_rsm_laws lid)). Qed.

End theorems.

(** ** Two clients hand a file over *)

Section demo.
Import ExtentCache.

#[local] Instance demo_lock_protocol : LockProtocol :=
  {| lock_OK := 0; lock_RETRY := 1; lock_NOENT := 3; lock_RPCERR := 2; rlock_OK := 0;
     rlock_RPCERR := 1; lock_codes := ltac:(done); xid_wrap := u64 |}.

#[local] Existing Instance demo_protocol.
#[local] Existing Instance demo_server.
#[local] Existing Instance demo_server_laws.

(** All clients start with [t]. *)
Definition demo_start {T : Type} (t : T) : world (T := T) (W := gmap Z string) :=
  World (fun _ => Client t (fun _ => Idle) ∅) None {[ 5 := "old"%string ]} (Some "old"%string).

(** Client 0 writes, is revoked and releases; then client 1 gets the lock. *)
Definition demo_acts : list (nat * nat * action) :=
  [(0, 0, AEnter); (0, 0, ATurn); (0, 0, AGrant); (0, 0, AReply); (0, 0, AOp (OpPut 5 "new" 1));
   (0, 1, ARevoke 0); (0, 0, ARelease); (0, 0, AFlush); (0, 0, AFree 0); (0, 0, ADone);
   (1, 0, AEnter); (1, 0, ATurn); (1, 0, AGrant); (1, 0, AReply)]%nat.

Definition demo_end : world (T := gmap Z LockCache.Lock) (W := gmap Z string) :=
  default (demo_start ∅) (acts (CachingLock0 := lock_cache 5) 5 (demo_start ∅) demo_acts).

Lemma is_Some_default {A} (d : A) (o : option A) :
  match o with Some _ => true | None => false end = true -> o = Some (default d o).
Proof. by destruct o. Qed.

Lemma demo_initial {T} (t : T) (C : CachingLock T) :
  held t = 0%nat -> initial 5 (demo_start t).
Proof. intros Ht. by split. Qed.

Lemma lock_cache_coherent_witness :
  threads (clients demo_end 1%nat) 0%nat = Holding /\ latest demo_end = Some "new"%string /\
  (forall c c' i j, threads (clients demo_end c) i = Holding ->
     threads (clients demo_end c') j = Holding -> c = c' /\ i = j) /\
  (forall c i now, threads (clients demo_end c) i = Holding ->
     (cache_step (ext demo_end) (ccache (clients demo_end c)) (OpGet 5 now)).2 = Some (latest demo_end)) /\
  (owner demo_end = None -> store (ext demo_end) !! 5 = latest demo_end).
Proof.
  split; [vm_compute; reflexivity|]. split; [vm_compute; reflexivity|].
  apply (lock_cache_coherent 5 (demo_start ∅) demo_end).
  - by apply demo_initial.
  - apply (acts_steps (CachingLock0 := lock_cache 5) 5 demo_acts). apply is_Some_default.
    vm_compute. reflexivity.
Defined.

(** With the replicated lock service: the lock is revoked while it is free, so
    the releaser thread takes it. *)
Definition demo_rsm_acts : list (nat * nat * action) :=
  [(0, 0, AEnter); (0, 0, ATurn); (0, 0, AGrant); (0, 0, AReply); (0, 0, AOp (OpPut 5 "new" 1));
   (0, 0, ARelease); (0, 1, ARevoke 0); (0, 2, ATake); (0, 2, AFlush); (0, 2, AFree 0); (0, 2, ADone);
   (1, 0, AEnter); (1, 0, ATurn); (1, 0, AGrant); (1, 0, AReply)]%nat.

Definition demo_rsm_end : world (T := LockCacheRsm.client) (W := gmap Z string) :=
  default (demo_start LockCacheRsm.client_new)
    (acts (CachingLock0 := lock_cache_rsm 5) 5 (demo_start LockCacheRsm.client_new) demo_rsm_acts).

Lemma lock_cache_rsm_coherent_witness :
  threads (clients demo_rsm_end 1%nat) 0%nat = Holding /\ latest demo_rsm_end = Some "new"%string /\
  (forall c c' i j, threads (clients demo_rsm_end c) i = Holding ->
     threads (clients demo_rsm_end c') j = Holding -> c = c' /\ i = j) /\
  (forall c i now, threads (clients demo_rsm_end c) i = Holding ->
     (cache_step (ext demo_rsm_end) (ccache (clients demo_rsm_end c)) (OpGet 5 now)).2
     = Some (latest demo_rsm_end)) /\
  (owner demo_rsm_end = None -> store (ext demo_rsm_end) !! 5 = latest demo_rsm_end).
Proof.
  split; [vm_compute; reflexivity|]. split; [vm_compute; reflexivity|].
  apply (lock_cache_rsm_coherent 5 (demo_start LockCacheRsm.client_new) demo_rsm_end).
  - by apply demo_initial.
  - apply (acts_steps (CachingLock0 := lock_cache_rsm 5) 5 demo_rsm_acts). apply is_Some_default.
    vm_compute. reflexivity.
Defined.

End demo.
