(* ===== verification/Aio.v ===== *)
(** * Waiting for descriptors: flags and interface (include/rpc/pollmgr.h)

    [poll_flag], and the class [aio_mgr] of which [SelectAIO] (SelectAIO.v) and
    [EPollAIO] (EPollAIO.v) are instances: both keep a table of descriptors of
    interest. Runs of operations are specified against a reference table. *)

From S2P Require Import Prelude.

Local Open Scope Z_scope.

Inductive poll_flag := CB_NONE | CB_RDONLY | CB_WRONLY | CB_RDWR | CB_MASK.

#[global] Instance poll_flag_eq_dec : EqDecision poll_flag.
Proof. solve_decision. Defined.

(** The values of the enumeration; the last is [~0x11]. *)
Definition flag_bits (f : poll_flag) : Z :=
  match f with CB_NONE => 0 | CB_RDONLY => 1 | CB_WRONLY => 16 | CB_RDWR => 17 | CB_MASK => -18 end.

Definition MAX_POLL_FDS : Z := 128.

(** The bits of an [int] used as a set of flags. *)
Definition has_rd (x : Z) : bool := negb (Z.land x 1 =? 0).
Definition has_wr (x : Z) : bool := negb (Z.land x 16 =? 0).

(** ** What both implement: a table of descriptors of interest *)

Definition real_flag (f : poll_flag) : bool :=
  match f with CB_RDONLY | CB_WRONLY | CB_RDWR => true | _ => false end.

Definition sel_rd (f : poll_flag) : bool := match f with CB_RDONLY | CB_RDWR => true | _ => false end.
Definition sel_wr (f : poll_flag) : bool := match f with CB_WRONLY | CB_RDWR => true | _ => false end.

Inductive aio_op := Watch (fd : Z) (f : poll_flag) | Unwatch (fd : Z) (f : poll_flag).

Definition op_fd (o : aio_op) : Z := match o with Watch fd _ | Unwatch fd _ => fd end.
Definition op_flag (o : aio_op) : poll_flag := match o with Watch _ f | Unwatch _ f => f end.

(** The interface: operations, and what is watched for reading and writing. *)
Class aio_mgr (T : Type) := {
  aio_watch : T -> Z -> poll_flag -> outcome T;
  aio_unwatch : T -> Z -> poll_flag -> outcome (T * bool);
  w_rd : T -> Z -> bool;
  w_wr : T -> Z -> bool;
  aio_ok : T -> Prop;
  aio_fd : T -> Z -> Prop;    (* descriptors it can be asked to watch *)
}.

(** [t'] watches like [t], except that [fd] is watched as [r] and [w] say. *)
Record retargeted `{aio_mgr T} (t t' : T) (fd : Z) (r w : bool) : Prop := {
  rt_ok : aio_ok t';
  rt_fd : forall x, aio_fd t x -> aio_fd t' x;
  rt_rd : forall x, w_rd t' x = if decide (x = fd) then r else w_rd t x;
  rt_wr : forall x, w_wr t' x = if decide (x = fd) then w else w_wr t x;
}.

Class AioLaws (T : Type) `{!aio_mgr T} := {
  watch_law t fd f : aio_ok t -> aio_fd t fd -> real_flag f = true ->
    exists t', aio_watch t fd f = Val t' /\
      retargeted t t' fd (w_rd t fd || sel_rd f) (w_wr t fd || sel_wr f);
  unwatch_law t fd f : aio_ok t -> aio_fd t fd -> real_flag f = true ->
    w_rd t fd || w_wr t fd = true ->
    exists t' b, aio_unwatch t fd f = Val (t', b) /\
      retargeted t t' fd (w_rd t fd && negb (sel_rd f)) (w_wr t fd && negb (sel_wr f)) /\
      b = negb (w_rd t' fd || w_wr t' fd);
}.

(** ** Runs, against a reference table *)

Section runs.
Context `{aio_mgr T}.

Fixpoint run_ops (t : T) (os : list aio_op) : outcome (T * list bool) :=
  match os with
  | [] => Val (t, [])
  | Watch fd f :: os => let! t := aio_watch t fd f in run_ops t os
  | Unwatch fd f :: os =>
      let! '(t, b) := aio_unwatch t fd f in
      let! '(t, l) := run_ops t os in Val (t, b :: l)
  end.

End runs.

(** Which descriptors are watched for reading and for writing. *)
Record table := Table { t_rd : Z -> bool; t_wr : Z -> bool }.

Definition set_fd (m : table) (fd : Z) (r w : bool) : table :=
  Table (fun x => if decide (x = fd) then r else t_rd m x) (fun x => if decide (x = fd) then w else t_wr m x).

Definition ref_op (m : table) (o : aio_op) : table :=
  match o with
  | Watch fd f => set_fd m fd (t_rd m fd || sel_rd f) (t_wr m fd || sel_wr f)
  | Unwatch fd f => set_fd m fd (t_rd m fd && negb (sel_rd f)) (t_wr m fd && negb (sel_wr f))
  end.

Definition ref_table (m : table) (os : list aio_op) : table := foldl ref_op m os.

Fixpoint ref_answers (m : table) (os : list aio_op) : list bool :=
  match os with
  | [] => []
  | o :: os =>
      let m := ref_op m o in
      let l := ref_answers m os in
      match o with Watch _ _ => l | Unwatch fd _ => negb (t_rd m fd || t_wr m fd) :: l end
  end.

(** Descriptors in range, not that of the pipe, and unwatched only when watched. *)
Fixpoint ops_ok (pfd : Z) (m : table) (os : list aio_op) : bool :=
  match os with
  | [] => true
  | o :: os =>
      let fd := op_fd o in
      (0 <=? fd) && (fd <? MAX_POLL_FDS) && negb (fd =? pfd) && real_flag (op_flag o) &&
      match o with Watch _ _ => true | Unwatch _ _ => t_rd m fd || t_wr m fd end &&
      ops_ok pfd (ref_op m o) os
  end.

Lemma run_ops_spec `{AioLaws T} pfd os : forall (t : T) m,
  aio_ok t -> (forall x, x <> pfd -> 0 <= x < MAX_POLL_FDS -> aio_fd t x) ->
  (forall x, x <> pfd -> w_rd t x = t_rd m x /\ w_wr t x = t_wr m x) ->
  ops_ok pfd m os = true ->
  exists t', run_ops t os = Val (t', ref_answers m os) /\ aio_ok t' /\
    forall x, x <> pfd -> w_rd t' x = t_rd (ref_table m os) x /\ w_wr t' x = t_wr (ref_table m os) x.
Proof.
  induction os as [|o os IH]; intros t m Hok Hfd Hm Hops; [by exists t|].
  cbn [ops_ok] in Hops. repeat (apply andb_prop in Hops as [Hops ?]).
  assert (op_fd o <> pfd /\ 0 <= op_fd o < MAX_POLL_FDS) as [Hp Hr].
  { split; [by apply Z.eqb_neq, negb_true_iff|]. split; [by apply Z.leb_le|by apply Z.ltb_lt]. }
  destruct (Hm _ Hp) as [E1 E2]. specialize (Hfd _ Hp Hr) as Hfd'.
  assert (forall t' r w, retargeted t t' (op_fd o) r w -> ref_op m o = set_fd m (op_fd o) r w ->
    exists t'', run_ops t' os = Val (t'', ref_answers (ref_op m o) os) /\ aio_ok t'' /\
      forall x, x <> pfd -> w_rd t'' x = t_rd (ref_table m (o :: os)) x /\
                            w_wr t'' x = t_wr (ref_table m (o :: os)) x) as Hgo.
  { intros t' r w [R1 R2 R3 R4] Ho. apply IH; [done|auto| |done].
    intros x Hx. rewrite R3, R4, Ho. simpl. case_decide; [done|auto]. }
  destruct o as [fd f|fd f]; cbn [op_fd op_flag] in *.
  - destruct (watch_law t fd f) as (t' & Et & Hrt); [done|done|done|].
    destruct (Hgo t' _ _ Hrt) as (t'' & E & Hx); [simpl; by rewrite E1, E2|].
    exists t''. cbn [run_ops]. rewrite Et. cbn [obind]. by rewrite E.
  - destruct (unwatch_law t fd f) as (t' & b & Et & Hrt & ->); [done|done|done|by rewrite E1, E2|].
    destruct (Hgo t' _ _ Hrt) as (t'' & E & Hx); [simpl; by rewrite E1, E2|].
    exists t''. cbn [run_ops]. rewrite Et. cbn [obind]. rewrite E. cbn [obind]. split; [|done].
    destruct Hrt as [_ _ R3 R4]. rewrite R3, R4, !decide_True by done. cbn [ref_answers ref_op].
    simpl. by rewrite !decide_True, E1, E2.
Qed.
