(* ===== verification/SelectAIO.v ===== *)
(** * [SelectAIO] (src/rpc/pollmgr.cc)

    Over what the kernel does for [select]. The mutex appears as the atomicity
    of the operations; [wait_ready] is cut where it releases the mutex. *)

From S2P Require Import Prelude.
From S2P Require Import Aio.

Local Open Scope Z_scope.

Module SelectAIO.

(** [FD_SETSIZE] is 1024; [FD_SET] and the like are undefined outside. *)
Definition FD_SETSIZE : Z := 1024.

(** [pipe_n] bytes are in the pipe that wakes the poll thread up. *)
Record select_aio := MkSelect {
  rfds_ : gset Z;
  wfds_ : gset Z;
  highfds_ : Z;
  pipefd_ : Z;
  pipe_n : nat;
}.

Definition select_new (pfd : Z) : select_aio := MkSelect {[ pfd ]} ∅ pfd pfd 0.

Definition fd_ok (fd : Z) : outcome unit :=
  if (0 <=? fd) && (fd <? FD_SETSIZE) then Val tt else Fault Undefined.

Definition watch_fd (a : select_aio) (fd : Z) (flag : poll_flag) : outcome select_aio :=
  fd_ok fd ;;;
  let high := if highfds_ a <=? fd then fd else highfds_ a in
  let r := if decide (flag = CB_WRONLY) then rfds_ a else rfds_ a ∪ {[ fd ]} in
  let w := if decide (flag = CB_RDONLY) then wfds_ a else wfds_ a ∪ {[ fd ]} in
  Val (MkSelect r w high (pipefd_ a) (S (pipe_n a))).

Definition is_watched (a : select_aio) (fd : Z) (flag : poll_flag) : bool :=
  let r := bool_decide (fd ∈ rfds_ a) in
  let w := bool_decide (fd ∈ wfds_ a) in
  match flag with CB_RDONLY => r | CB_WRONLY => w | _ => r && w end.

(** The loop that looks for the new highest descriptor, from [i] on. *)
Fixpoint scan_high (n : nat) (i : Z) (r w : gset Z) (newh : Z) : Z :=
  match n with
  | O => newh
  | S n => scan_high n (i + 1) r w
             (if bool_decide (i ∈ r) then i else if bool_decide (i ∈ w) then i else newh)
  end.

Definition unwatch_fd (a : select_aio) (fd : Z) (flag : poll_flag) : outcome (select_aio * bool) :=
  fd_ok fd ;;;
  VERIFY (bool_decide (flag = CB_RDONLY \/ flag = CB_WRONLY \/ flag = CB_RDWR)) ;;;
  let r := if decide (flag = CB_WRONLY) then rfds_ a else rfds_ a ∖ {[ fd ]} in
  let w := if decide (flag = CB_RDONLY) then wfds_ a else wfds_ a ∖ {[ fd ]} in
  let clear := negb (bool_decide (fd ∈ r)) && negb (bool_decide (fd ∈ w)) in
  let high := if clear && (fd =? highfds_ a)
              then scan_high (Z.to_nat (highfds_ a + 1)) 0 r w (pipefd_ a) else highfds_ a in
  let n := if decide (flag = CB_RDWR) then S (pipe_n a) else pipe_n a in
  Val (MkSelect r w high (pipefd_ a) n, clear).

(** [wait_ready]: the copies made under the mutex, *)
Record snapshot := Snapshot { trfds : gset Z; twfds : gset Z; high : Z }.

Definition wait_snapshot (a : select_aio) : snapshot := Snapshot (rfds_ a) (wfds_ a) (highfds_ a).

(** the answer of [select], which looks at the descriptors up to [high], *)
Inductive select_answer :=
| Ready (rd wr : Z -> bool)     (* which descriptors can be read and written *)
| Interrupted                   (* EINTR *)
| SelectError.

(** and the loop over the descriptors. The pipe can be read when it is not
    empty. *)
Fixpoint collect (n : nat) (fd : Z) (a : select_aio) (r w : Z -> bool) : outcome (select_aio * list Z * list Z) :=
  match n with
  | O => Val (a, [], [])
  | S n =>
      if (fd =? pipefd_ a) && r fd then
        match pipe_n a with
        | O => Fault VerifyFailed
        | S k => collect n (fd + 1) (MkSelect (rfds_ a) (wfds_ a) (highfds_ a) (pipefd_ a) k) r w
        end
      else
        let! '(a, rs, ws) := collect n (fd + 1) a r w in
        Val (a, (if r fd then fd :: rs else rs), (if w fd then fd :: ws else ws))
  end.

Definition wait_collect (a : select_aio) (s : snapshot) (ans : select_answer)
  : outcome (select_aio * list Z * list Z) :=
  match ans with
  | Interrupted => Val (a, [], [])
  | SelectError => Fault VerifyFailed
  | Ready rd wr =>
      collect (Z.to_nat (high s + 1)) 0 a
        (fun fd => bool_decide (fd ∈ trfds s) && rd fd) (fun fd => bool_decide (fd ∈ twfds s) && wr fd)
  end.

End SelectAIO.

(** ** It implements the table *)

Section select.
Import SelectAIO.

Record select_wf (a : select_aio) : Prop := {
  sw_pipe : pipefd_ a ∈ rfds_ a /\ pipefd_ a ∉ wfds_ a;
  sw_high : highfds_ a ∈ rfds_ a ∪ wfds_ a;
  sw_max : forall fd, fd ∈ rfds_ a ∪ wfds_ a -> 0 <= fd <= highfds_ a;
}.

#[local] Instance select_mgr : aio_mgr select_aio := {|
  aio_watch := watch_fd;
  aio_unwatch := unwatch_fd;
  w_rd a fd := bool_decide (fd ∈ rfds_ a);
  w_wr a fd := bool_decide (fd ∈ wfds_ a);
  aio_ok := select_wf;
  aio_fd a fd := 0 <= fd < FD_SETSIZE /\ fd <> pipefd_ a;
|}.

Lemma fd_ok_val fd : 0 <= fd < FD_SETSIZE -> fd_ok fd = Val tt.
Proof. intros H. unfold fd_ok. destruct (Z.leb_spec 0 fd), (Z.ltb_spec fd FD_SETSIZE); simpl; (done || lia). Qed.

Lemma scan_high_spec n : forall i r w newh,
  let h := scan_high n i r w newh in
  h = newh /\ (forall x, x ∈ r ∪ w -> ~ i <= x < i + Z.of_nat n) \/
  h ∈ r ∪ w /\ i <= h /\ (forall x, x ∈ r ∪ w -> i <= x < i + Z.of_nat n -> x <= h).
Proof.
  induction n as [|n IH]; intros i r w newh; cbn [scan_high]; [left; split; [done|lia]|].
  assert (forall (A : Type) (x y : A),
    (if bool_decide (i ∈ r) then x else if bool_decide (i ∈ w) then x else y) =
    if bool_decide (i ∈ r ∪ w) then x else y) as Hif.
  { intros A x y. repeat case_bool_decide; set_solver. }
  rewrite Hif. clear Hif. case_bool_decide as Hi; cbv zeta in *.
  - destruct (IH (i + 1) r w i) as [[-> Hn]|(Hh & Hle & Hmax)]; right.
    + split_and!; [done|lia|]. intros x Hx Hr. specialize (Hn x Hx). lia.
    + split_and!; [done|lia|]. intros x Hx Hr. destruct (decide (x = i)) as [->|]; [lia|].
      apply Hmax; [done|lia].
  - destruct (IH (i + 1) r w newh) as [[-> Hn]|(Hh & Hle & Hmax)]; [left|right].
    + split; [done|]. intros x Hx Hr. destruct (decide (x = i)) as [->|]; [done|].
      apply (Hn x Hx). lia.
    + split_and!; [done|lia|]. intros x Hx Hr. destruct (decide (x = i)) as [->|]; [done|].
      apply Hmax; [done|lia].
Qed.

(** [bool_decide (x ∈ r)] from what [r] holds. *)
Ltac solve_watched Hr s :=
  case_decide; subst; apply eq_true_iff_eq;
  rewrite ?orb_true_iff, ?andb_true_iff, ?negb_true_iff, !bool_decide_eq_true, Hr; destruct s;
  intuition congruence.

#[local] Instance select_laws : AioLaws select_aio.
Proof.
  split; simpl.
  - intros a fd f [[Hp1 Hp2] Hh Hm] [Hfd Hne] Hf. unfold watch_fd. rewrite fd_ok_val by done. simpl.
    eexists. split; [done|].
    set (r := if decide (f = CB_WRONLY) then rfds_ a else rfds_ a ∪ {[fd]}).
    set (w := if decide (f = CB_RDONLY) then wfds_ a else wfds_ a ∪ {[fd]}).
    assert (forall x, x ∈ r <-> x ∈ rfds_ a \/ x = fd /\ sel_rd f = true) as Hr.
    { intros x. subst r. destruct f; simpl in *; try done; set_solver. }
    assert (forall x, x ∈ w <-> x ∈ wfds_ a \/ x = fd /\ sel_wr f = true) as Hw.
    { intros x. subst w. destruct f; simpl in *; try done; set_solver. }
    clearbody r w.
    assert (fd ∈ r ∪ w) as Hin.
    { apply elem_of_union. rewrite Hr, Hw. destruct f; simpl in *; try done; auto. }
    assert (forall x, x ∈ r ∪ w <-> x ∈ rfds_ a ∪ wfds_ a \/ x = fd) as Hu.
    { intros x. split; [|intros [Hx| ->]; [|done]]; rewrite !elem_of_union, ?Hr, ?Hw; [tauto|].
      apply elem_of_union in Hx. tauto. }
    split; simpl; [split; simpl|auto| |].
    + rewrite Hr, Hw. split; [auto|]. intros [?|[? _]]; [done|]. congruence.
    + apply Hu. destruct (Z.leb_spec (highfds_ a) fd); auto.
    + intros x [Hx| ->]%Hu; [specialize (Hm x Hx)|]; destruct (Z.leb_spec (highfds_ a) fd); lia.
    + intros x. solve_watched Hr (sel_rd f).
    + intros x. solve_watched Hw (sel_wr f).
  - intros a fd f [[Hp1 Hp2] Hh Hm] [Hfd Hne] Hf _. unfold unwatch_fd. rewrite fd_ok_val by done. simpl.
    assert (VERIFY (bool_decide (f = CB_RDONLY \/ f = CB_WRONLY \/ f = CB_RDWR)) = Val tt) as ->.
    { rewrite bool_decide_true; [done|]. destruct f; simpl in *; auto; done. }
    simpl. eexists _, _. split; [done|].
    set (r := if decide (f = CB_WRONLY) then rfds_ a else rfds_ a ∖ {[fd]}).
    set (w := if decide (f = CB_RDONLY) then wfds_ a else wfds_ a ∖ {[fd]}).
    assert (forall x, x ∈ r <-> x ∈ rfds_ a /\ ~ (x = fd /\ sel_rd f = true)) as Hr.
    { intros x. subst r. destruct f; simpl in *; try done; set_solver. }
    assert (forall x, x ∈ w <-> x ∈ wfds_ a /\ ~ (x = fd /\ sel_wr f = true)) as Hw.
    { intros x. subst w. destruct f; simpl in *; try done; set_solver. }
    clearbody r w.
    assert (forall x, x ∈ r ∪ w -> x ∈ rfds_ a ∪ wfds_ a) as Hu.
    { intros x. rewrite !elem_of_union, Hr, Hw. tauto. }
    assert (pipefd_ a ∈ r) as Hpr by (rewrite Hr; split; [done|]; intros [? _]; congruence).
    assert (0 <= pipefd_ a <= highfds_ a) as Hpm by (apply Hm; set_solver).
    split; [|by rewrite !negb_orb].
    split; simpl; [split; simpl|auto| |].
    + rewrite Hw. tauto.
    + destruct (_ && _) eqn:Hc.
      * destruct (scan_high_spec (Z.to_nat (highfds_ a + 1)) 0 r w (pipefd_ a))
          as [[-> Hn]|(Hx & _ & _)]; [|done].
        by apply elem_of_union_l.
      * destruct (Z.eqb_spec fd (highfds_ a)) as [E|E].
        -- rewrite <-E, elem_of_union. rewrite andb_true_r in Hc.
           apply andb_false_iff in Hc as [Hc|Hc]; apply negb_false_iff, bool_decide_eq_true in Hc; auto.
        -- apply elem_of_union in Hh. rewrite elem_of_union, Hr, Hw. intuition congruence.
    + intros x Hx. pose proof (Hm x (Hu x Hx)). destruct (_ && _); [|done].
      destruct (scan_high_spec (Z.to_nat (highfds_ a + 1)) 0 r w (pipefd_ a))
        as [[-> Hn]|(_ & _ & Hmax)].
      * destruct (Hn x Hx). lia.
      * specialize (Hmax x Hx). lia.
    + intros x. solve_watched Hr (sel_rd f).
    + intros x. solve_watched Hw (sel_wr f).
Qed.

End select.

(** ** What a wait reports *)

Lemma scan_spec n : forall fd (a : SelectAIO.select_aio) (r w : Z -> bool),
  let pfd := SelectAIO.pipefd_ a in
  w pfd = false -> (fd <= pfd -> r pfd = true -> SelectAIO.pipe_n a <> 0%nat) ->
  exists a', SelectAIO.collect n fd a r w =
    Val (a', filter (fun x => r x && negb (x =? pfd)) (seqZ fd (Z.of_nat n)), filter (fun x => w x) (seqZ fd (Z.of_nat n))).
Proof.
  induction n as [|n IH]; intros fd a r w pfd Hw Hp; [by exists a|]. cbn [SelectAIO.collect].
  rewrite seqZ_cons by lia. replace (Z.pred (Z.of_nat (S n))) with (Z.of_nat n) by lia.
  rewrite !filter_cons. fold pfd. destruct (Z.eqb_spec fd pfd) as [E|E]; cbn [andb negb].
  - rewrite E, Hw, andb_false_r. cbn [Is_true]. rewrite !decide_False by auto.
    destruct (r pfd) eqn:Hr.
    + destruct (SelectAIO.pipe_n a) as [|k] eqn:Hn; [by destruct (Hp ltac:(lia) eq_refl)|].
      destruct (IH (pfd + 1) (SelectAIO.MkSelect (SelectAIO.rfds_ a) (SelectAIO.wfds_ a)
        (SelectAIO.highfds_ a) (SelectAIO.pipefd_ a) k) r w) as [a' Ha]; simpl; [done|lia|].
      exists a'. exact Ha.
    + destruct (IH (pfd + 1) a r w Hw) as [a' Ha]; [fold pfd; lia|]. exists a'. by rewrite Ha.
  - destruct (IH (fd + 1) a r w Hw) as [a' Ha]; [intros; apply Hp; [|done]; subst pfd; lia|].
    exists a'. rewrite Ha. cbn [obind]. rewrite andb_true_r. do 2 f_equal; [f_equal|].
    + by destruct (r fd); case_decide.
    + by destruct (w fd); case_decide.
Qed.

Lemma seqZ_sorted fd n : StronglySorted Z.lt (seqZ fd n).
Proof.
  destruct (decide (n <= 0)); [rewrite seqZ_nil by lia; constructor|].
  rewrite <-(Z2Nat.id n) by lia. generalize (Z.to_nat n) as k. clear. intros k. revert fd.
  induction k as [|k IH]; intros fd; [rewrite seqZ_nil by lia; constructor|].
  rewrite seqZ_cons by lia. replace (Z.pred (Z.of_nat (S k))) with (Z.of_nat k) by lia. constructor; [done|].
  apply Forall_forall. intros x Hx%elem_of_seqZ. lia.
Qed.

Lemma filter_sorted (P : Z -> Prop) `{forall x, Decision (P x)} l :
  StronglySorted Z.lt l -> StronglySorted Z.lt (filter P l).
Proof.
  induction 1 as [|x l Hs IH Hx]; [constructor|]. rewrite filter_cons. case_decide; [|done].
  constructor; [done|]. rewrite Forall_forall in *. intros y [_ Hy]%list_elem_of_filter. auto.
Qed.

(** A wait of [SelectAIO] reports, in ascending order, the watched descriptors
    that are ready. *)
Lemma select_wait_spec a rd wr :
  select_wf a -> rd (SelectAIO.pipefd_ a) = negb (bool_decide (SelectAIO.pipe_n a = 0%nat)) ->
  exists a' rs ws,
    SelectAIO.wait_collect a (SelectAIO.wait_snapshot a) (SelectAIO.Ready rd wr) = Val (a', rs, ws) /\
    StronglySorted Z.lt rs /\ StronglySorted Z.lt ws /\
    (forall fd, fd ∈ rs <-> fd <> SelectAIO.pipefd_ a /\ fd ∈ SelectAIO.rfds_ a /\ rd fd = true) /\
    (forall fd, fd ∈ ws <-> fd ∈ SelectAIO.wfds_ a /\ wr fd = true).
Proof.
  intros [[Hp1 Hp2] Hh Hm] Hrd. unfold SelectAIO.wait_collect, SelectAIO.wait_snapshot. simpl.
  destruct (scan_spec (Z.to_nat (SelectAIO.highfds_ a + 1)) 0 a
    (fun fd => bool_decide (fd ∈ SelectAIO.rfds_ a) && rd fd)
    (fun fd => bool_decide (fd ∈ SelectAIO.wfds_ a) && wr fd)) as [a' Ha].
  { by rewrite bool_decide_false. }
  { intros _. rewrite Hrd. intros [_ Hx]%andb_prop. intros Hn. by rewrite Hn in Hx. }
  eexists a', _, _. split; [exact Ha|].
  split; [apply filter_sorted, seqZ_sorted|]. split; [apply filter_sorted, seqZ_sorted|].
  split; intros fd; rewrite list_elem_of_filter, elem_of_seqZ, Is_true_true, !andb_true_iff,
    ?negb_true_iff, ?Z.eqb_neq, bool_decide_eq_true; (split; [tauto|]).
  - intros (Hne & Hin & Hr). pose proof (Hm fd ltac:(set_solver)). split_and!; (done || lia).
  - intros (Hin & Hr). pose proof (Hm fd ltac:(set_solver)). split_and!; (done || lia).
Qed.
