(* ===== verification/EPollAIO.v ===== *)
(** * [EPollAIO] (src/rpc/pollmgr.cc)

    Over what the kernel does for [epoll_ctl] and [epoll_wait]. *)

From S2P Require Import Prelude.
From S2P Require Import Aio.

Local Open Scope Z_scope.

Module EPollAIO.

Definition EPOLLIN : Z := 1.
Definition EPOLLOUT : Z := 4.
Definition EPOLLET : Z := 2 ^ 31.

(** [fdstatus_] is zero where the map has nothing; [interest] is the kernel's
    table for [pollfd_]. *)
Record epoll_aio := MkEpoll { fdstatus_ : gmap Z Z; interest : gmap Z Z }.

Definition epoll_new : epoll_aio := MkEpoll ∅ ∅.

Definition status (a : epoll_aio) (fd : Z) : Z := default 0 (fdstatus_ a !! fd).

Definition poll_flag_to_event (flag : poll_flag) : Z :=
  match flag with
  | CB_RDONLY => EPOLLIN
  | CB_WRONLY => EPOLLOUT
  | _ => Z.lor EPOLLIN EPOLLOUT
  end.

Inductive ctl_op := EPOLL_CTL_ADD | EPOLL_CTL_MOD | EPOLL_CTL_DEL.

(** [epoll_ctl]: fails on adding what is there and on changing what is not. *)
Definition epoll_ctl (k : gmap Z Z) (op : ctl_op) (fd ev : Z) : option (gmap Z Z) :=
  match op, k !! fd with
  | EPOLL_CTL_ADD, None | EPOLL_CTL_MOD, Some _ => Some (<[fd := ev]> k)
  | EPOLL_CTL_DEL, Some _ => Some (delete fd k)
  | _, _ => None
  end.

Definition events_of (st : Z) : Z :=
  let ev := EPOLLET in
  let ev := if has_rd st then Z.lor ev EPOLLIN else ev in
  if has_wr st then Z.lor ev EPOLLOUT else ev.

Definition in_array (fd : Z) : outcome unit :=
  VERIFY (fd <? MAX_POLL_FDS) ;;; if 0 <=? fd then Val tt else Fault Undefined.

Definition watch_fd (a : epoll_aio) (fd : Z) (flag : poll_flag) : outcome epoll_aio :=
  in_array fd ;;;
  let op := if status a fd =? 0 then EPOLL_CTL_ADD else EPOLL_CTL_MOD in
  let st := Z.lor (status a fd) (flag_bits flag) in
  let ev := events_of st in
  VERIFY (negb (bool_decide (flag = CB_RDWR)) ||
          (ev =? Z.lor (Z.lor EPOLLET EPOLLIN) EPOLLOUT)) ;;;
  match epoll_ctl (interest a) op fd ev with
  | Some k => Val (MkEpoll (<[fd := st]> (fdstatus_ a)) k)
  | None => Fault VerifyFailed
  end.

Definition unwatch_fd (a : epoll_aio) (fd : Z) (flag : poll_flag) : outcome (epoll_aio * bool) :=
  in_array fd ;;;
  let st := Z.land (status a fd) (Z.lnot (flag_bits flag)) in
  let op := if st =? 0 then EPOLL_CTL_DEL else EPOLL_CTL_MOD in
  let ev := events_of st in
  VERIFY (negb (bool_decide (flag = CB_RDWR)) || (st =? 0)) ;;;
  match epoll_ctl (interest a) op fd ev with
  | Some k => Val (MkEpoll (<[fd := st]> (fdstatus_ a)) k, st =? 0)
  | None => Fault VerifyFailed
  end.

Definition is_watched (a : epoll_aio) (fd : Z) (flag : poll_flag) : outcome bool :=
  in_array fd ;;; Val (Z.land (status a fd) (flag_bits CB_MASK) =? flag_bits flag).

(** [ready] is what [epoll_wait] stored. *)
Fixpoint wait_ready (ready : list (Z * Z)) : list Z * list Z :=
  match ready with
  | [] => ([], [])
  | (fd, ev) :: ready =>
      let '(rs, ws) := wait_ready ready in
      ((if negb (Z.land ev EPOLLIN =? 0) then fd :: rs else rs),
       (if negb (Z.land ev EPOLLOUT =? 0) then fd :: ws else ws))
  end.

End EPollAIO.

(** ** It implements the table *)

Section epoll.
Import EPollAIO.

(** The kernel's table mirrors [fdstatus_]. *)
Record epoll_wf (a : epoll_aio) : Prop := {
  ew_status : forall fd, status a fd ∈ [0; 1; 16; 17];
  ew_kernel : forall fd, interest a !! fd =
    if status a fd =? 0 then None else Some (events_of (status a fd));
}.

#[local] Instance epoll_mgr : aio_mgr epoll_aio := {|
  aio_watch := watch_fd;
  aio_unwatch := unwatch_fd;
  w_rd a fd := has_rd (status a fd);
  w_wr a fd := has_wr (status a fd);
  aio_ok := epoll_wf;
  aio_fd _ fd := 0 <= fd < MAX_POLL_FDS;
|}.

Lemma in_array_val fd : 0 <= fd < MAX_POLL_FDS -> in_array fd = Val tt.
Proof.
  intros H. unfold in_array.
  destruct (Z.ltb_spec fd MAX_POLL_FDS), (Z.leb_spec 0 fd); simpl; (done || lia).
Qed.

Lemma status_insert a k fd st x :
  status (MkEpoll (<[fd := st]> (fdstatus_ a)) k) x = if decide (x = fd) then st else status a x.
Proof.
  unfold status. simpl. case_decide; subst; [by rewrite lookup_insert_eq|].
  by rewrite lookup_insert_ne.
Qed.

(** Changing [fdstatus_[fd]] and telling the kernel. *)
Lemma epoll_retarget a fd st k :
  epoll_wf a -> st ∈ [0; 1; 16; 17] ->
  (forall x, k !! x = if decide (x = fd) then (if st =? 0 then None else Some (events_of st))
                      else interest a !! x) ->
  retargeted a (MkEpoll (<[fd := st]> (fdstatus_ a)) k) fd (has_rd st) (has_wr st).
Proof.
  intros [Hs Hk] Hst Hkx. split; simpl; [split; simpl|done| |].
  - intros x. rewrite status_insert. by case_decide.
  - intros x. rewrite Hkx, status_insert. by case_decide.
  - intros x. rewrite status_insert. by case_decide.
  - intros x. rewrite status_insert. by case_decide.
Qed.

Lemma epoll_ctl_set k fd ev (b : bool) :
  k !! fd = (if b then None else k !! fd) -> (b = false -> is_Some (k !! fd)) ->
  epoll_ctl k (if b then EPOLL_CTL_ADD else EPOLL_CTL_MOD) fd ev = Some (<[fd := ev]> k).
Proof.
  unfold epoll_ctl. destruct b; [by intros ->|]. intros _ Hk. destruct (Hk eq_refl) as [y ->]. done.
Qed.

Lemma status_cases a fd (P : Z -> Prop) : epoll_wf a -> P 0 -> P 1 -> P 16 -> P 17 -> P (status a fd).
Proof.
  intros [Hs _] H0 H1 H2 H3. specialize (Hs fd).
  repeat (apply elem_of_cons in Hs as [->|Hs]; [done|]). by apply not_elem_of_nil in Hs.
Qed.

#[local] Instance epoll_laws : AioLaws epoll_aio.
Proof.
  split; simpl.
  - intros a fd f Ha Hfd Hf. unfold watch_fd. rewrite in_array_val by done. simpl.
    set (st := Z.lor (status a fd) (flag_bits f)).
    assert (st ∈ [0; 1; 16; 17] /\ st <> 0 /\ has_rd st = has_rd (status a fd) || sel_rd f /\
            has_wr st = has_wr (status a fd) || sel_wr f /\
            negb (bool_decide (f = CB_RDWR)) ||
            (events_of st =? Z.lor (Z.lor EPOLLET EPOLLIN) EPOLLOUT) = true)
      as (Hst & Hnz & Hr & Hw & Hv).
    { subst st. apply (status_cases a fd (fun z => Z.lor z _ ∈ _ /\ Z.lor z _ <> 0 /\
        has_rd (Z.lor z _) = has_rd z || _ /\ has_wr (Z.lor z _) = has_wr z || _ /\
        _ || (events_of (Z.lor z _) =? _) = true)); [done|..]; destruct f; try done;
        (split_and!; [simpl; repeat constructor|..]); done. }
    clearbody st. rewrite Hv. simpl. rewrite <-Hr, <-Hw. pose proof (ew_kernel a Ha fd) as Hk.
    rewrite epoll_ctl_set.
    + eexists. split; [done|]. apply epoll_retarget; [done|done|]. intros x.
      rewrite (proj2 (Z.eqb_neq st 0)) by done.
      destruct (decide (x = fd)) as [->|Hne]; [apply lookup_insert_eq|by apply lookup_insert_ne].
    + destruct (status a fd =? 0); done.
    + intros E. rewrite E in Hk. rewrite Hk. by eexists.
  - intros a fd f Ha Hfd Hf Hon. unfold unwatch_fd. rewrite in_array_val by done. simpl.
    set (st := Z.land (status a fd) (Z.lnot (flag_bits f))).
    assert (st ∈ [0; 1; 16; 17] /\ has_rd st = has_rd (status a fd) && negb (sel_rd f) /\
            has_wr st = has_wr (status a fd) && negb (sel_wr f) /\
            negb (bool_decide (f = CB_RDWR)) || (st =? 0) = true /\
            (st =? 0) = negb (has_rd st || has_wr st))
      as (Hst & Hr & Hw & Hv & Hz).
    { subst st. apply (status_cases a fd (fun z => Z.land z _ ∈ _ /\
        has_rd (Z.land z _) = has_rd z && _ /\ has_wr (Z.land z _) = has_wr z && _ /\
        _ || (Z.land z _ =? 0) = true /\
        (Z.land z _ =? 0) = negb (has_rd (Z.land z _) || has_wr (Z.land z _))));
        [done|..]; destruct f; try done; (split_and!; [simpl; repeat constructor|..]); done. }
    clearbody st. rewrite Hv. simpl. rewrite <-Hr, <-Hw. pose proof (ew_kernel a Ha fd) as Hk.
    assert ((status a fd =? 0) = false) as Hs0.
    { revert Hon. apply (status_cases a fd (fun z => has_rd z || has_wr z = true -> (z =? 0) = false)); done. }
    rewrite Hs0 in Hk.
    assert (exists k, epoll_ctl (interest a) (if st =? 0 then EPOLL_CTL_DEL else EPOLL_CTL_MOD) fd
              (events_of st) = Some k /\
            forall x, k !! x = if decide (x = fd) then (if st =? 0 then None else Some (events_of st))
                               else interest a !! x) as (k & Hctl & Hkx).
    { unfold epoll_ctl. rewrite Hk. destruct (st =? 0); eexists; (split; [done|]); intros x;
        (destruct (decide (x = fd)) as [->|Hne];
         [apply lookup_delete_eq || apply lookup_insert_eq
         |by apply lookup_delete_ne || by apply lookup_insert_ne]). }
    rewrite Hctl. eexists _, _. split; [done|]. split; [by apply epoll_retarget|].
    rewrite status_insert, decide_True by done. done.
Qed.

End epoll.

(** What [epoll_wait] stores: the events of interest for which the descriptor is
    found ready (edge-triggered, so [rd] and [wr] are what is new). *)
Definition epoll_wait (k : gmap Z Z) (rd wr : Z -> bool) : list (Z * Z) :=
  filter (fun e => e.2 <> 0)
    (map (fun '(fd, i) =>
            (fd, Z.lor (if negb (Z.land i EPollAIO.EPOLLIN =? 0) && rd fd then EPollAIO.EPOLLIN else 0)
                       (if negb (Z.land i EPollAIO.EPOLLOUT =? 0) && wr fd then EPollAIO.EPOLLOUT else 0)))
         (map_to_list k)).

Lemma wait_ready_elem l fd :
  (fd ∈ (EPollAIO.wait_ready l).1 <-> exists ev, (fd, ev) ∈ l /\ Z.land ev EPollAIO.EPOLLIN <> 0) /\
  (fd ∈ (EPollAIO.wait_ready l).2 <-> exists ev, (fd, ev) ∈ l /\ Z.land ev EPollAIO.EPOLLOUT <> 0).
Proof.
  induction l as [|[x ev] l [IH1 IH2]]; simpl.
  { split; (split; [by intros ?%not_elem_of_nil|by intros (? & ?%not_elem_of_nil & _)]). }
  destruct (EPollAIO.wait_ready l) as [rs ws]. simpl in *.
  split.
  - destruct (Z.eqb_spec (Z.land ev EPollAIO.EPOLLIN) 0) as [E|E]; simpl; rewrite ?elem_of_cons, IH1; split.
    + intros (e & He & Hb). exists e. by rewrite elem_of_cons; auto.
    + intros (e & [[= <- <-]|He]%elem_of_cons & Hb); [done|eauto].
    + intros [->|(e & He & Hb)]; [exists ev|exists e]; by rewrite elem_of_cons; auto.
    + intros (e & [[= <- <-]|He]%elem_of_cons & Hb); eauto.
  - destruct (Z.eqb_spec (Z.land ev EPollAIO.EPOLLOUT) 0) as [E|E]; simpl; rewrite ?elem_of_cons, IH2; split.
    + intros (e & He & Hb). exists e. by rewrite elem_of_cons; auto.
    + intros (e & [[= <- <-]|He]%elem_of_cons & Hb); [done|eauto].
    + intros [->|(e & He & Hb)]; [exists ev|exists e]; by rewrite elem_of_cons; auto.
    + intros (e & [[= <- <-]|He]%elem_of_cons & Hb); eauto.
Qed.

Lemma epoll_wait_elem k rd wr fd ev :
  (fd, ev) ∈ epoll_wait k rd wr <->
  ev <> 0 /\ exists i, k !! fd = Some i /\
    ev = Z.lor (if negb (Z.land i EPollAIO.EPOLLIN =? 0) && rd fd then EPollAIO.EPOLLIN else 0)
               (if negb (Z.land i EPollAIO.EPOLLOUT =? 0) && wr fd then EPollAIO.EPOLLOUT else 0).
Proof.
  unfold epoll_wait. rewrite list_elem_of_filter, list_elem_of_fmap. simpl. split.
  - intros (Hne & [x i] & [= -> ->] & Hk%elem_of_map_to_list). eauto.
  - intros (Hne & i & Hk & ->). split; [done|]. exists (fd, i). split; [done|]. by apply elem_of_map_to_list.
Qed.

(** A wait of [EPollAIO] reports the watched descriptors that are ready. *)
Lemma epoll_wait_spec e rd wr fd :
  epoll_wf e ->
  (fd ∈ (EPollAIO.wait_ready (epoll_wait (EPollAIO.interest e) rd wr)).1 <->
   has_rd (EPollAIO.status e fd) = true /\ rd fd = true) /\
  (fd ∈ (EPollAIO.wait_ready (epoll_wait (EPollAIO.interest e) rd wr)).2 <->
   has_wr (EPollAIO.status e fd) = true /\ wr fd = true).
Proof.
  intros He. destruct (wait_ready_elem (epoll_wait (EPollAIO.interest e) rd wr) fd) as [-> ->].
  setoid_rewrite epoll_wait_elem. rewrite (ew_kernel e He fd).
  pattern (EPollAIO.status e fd). apply (status_cases e fd _ He); simpl.
  - split; (split; [by intros (? & (_ & ? & ? & _) & _)|by intros [? _]]).
  - split; (split; [intros (? & (Hne & ? & [= <-] & ->) & Hb)|intros [Hx Hy]]); simpl in *; try done.
    + by destruct (rd fd).
    + rewrite Hy. eexists. split; [split; [|eexists; split; done]|]; done.
    + by destruct (rd fd).
  - split; (split; [intros (? & (Hne & ? & [= <-] & ->) & Hb)|intros [Hx Hy]]); simpl in *; try done.
    + by destruct (wr fd).
    + by destruct (wr fd).
    + rewrite Hy. eexists. split; [split; [|eexists; split; done]|]; done.
  - split; (split; [intros (? & (Hne & ? & [= <-] & ->) & Hb)|intros [Hx Hy]]); simpl in *; try done.
    + by destruct (rd fd), (wr fd).
    + rewrite Hy. eexists. split; [split; [|eexists; split; done]|]; by destruct (wr fd).
    + by destruct (rd fd), (wr fd).
    + rewrite Hy. eexists. split; [split; [|eexists; split; done]|]; by destruct (rd fd).
Qed.
