(* ===== verification/PollMgr.v ===== *)
(** * The poll manager (src/rpc/pollmgr.cc, include/rpc/pollmgr.h)

    The agreement of the two implementations of [aio_mgr], and [PollMgr]: the
    callback table and the thread that waits and calls back. *)

From S2P Require Import Prelude.
From S2P Require Import Aio.
From S2P Require Import SelectAIO.
From S2P Require Import EPollAIO.

Local Open Scope Z_scope.

(** ** The two implementations agree *)

Module Aio.
#[local] Existing Instance select_mgr.
#[local] Existing Instance epoll_mgr.
#[local] Existing Instance select_laws.
#[local] Existing Instance epoll_laws.

Lemma select_new_wf pfd : 0 <= pfd -> select_wf (SelectAIO.select_new pfd).
Proof. intros Hp. split; simpl; [set_solver|set_solver|]. intros fd. rewrite elem_of_union. set_solver by lia. Qed.

Lemma epoll_new_wf : epoll_wf EPollAIO.epoll_new.
Proof. split; [intros fd; by left|done]. Qed.

Lemma select_run_pipe os : forall (t a : SelectAIO.select_aio) l,
  run_ops t os = Val (a, l) -> SelectAIO.pipefd_ a = SelectAIO.pipefd_ t.
Proof.
  induction os as [|[fd f|fd f] os IH]; intros t a l; simpl.
  - by intros [= <- _].
  - intros Hr. outcome_inv. apply IH in Hr as ->. unfold SelectAIO.watch_fd in E. by outcome_inv.
  - intros Hr. outcome_inv. apply IH in E0 as ->. unfold SelectAIO.unwatch_fd in E. by outcome_inv.
Qed.

Definition nothing : table := Table (fun _ => false) (fun _ => false).

(** C27: both implementations of [aio_mgr] keep the same table. For every
    sequence of [watch_fd] and [unwatch_fd] calls, with descriptors in range and
    nothing unwatched that is not watched, [SelectAIO] and [EPollAIO] succeed,
    answer alike whether the descriptor is now unwatched, and a wait for which
    the kernel finds the same descriptors ready reports, in ascending order in
    the case of [SelectAIO], exactly the watched ones among them: the highest
    descriptor that [SelectAIO] keeps for [select] is never too low, and the
    pipe that wakes it up is never reported and is read only when not empty. *)
Theorem select_and_epoll_agree (pfd : Z) (os : list aio_op) :
  0 <= pfd -> ops_ok pfd nothing os = true ->
  exists (a : SelectAIO.select_aio) (e : EPollAIO.epoll_aio),
    run_ops (SelectAIO.select_new pfd) os = Val (a, ref_answers nothing os) /\
    run_ops EPollAIO.epoll_new os = Val (e, ref_answers nothing os) /\
    forall rd wr, rd pfd = negb (bool_decide (SelectAIO.pipe_n a = 0%nat)) ->
    exists a' rs ws,
      SelectAIO.wait_collect a (SelectAIO.wait_snapshot a) (SelectAIO.Ready rd wr) = Val (a', rs, ws) /\
      StronglySorted Z.lt rs /\ StronglySorted Z.lt ws /\
      (forall fd, fd <> pfd ->
         (fd ∈ rs <-> t_rd (ref_table nothing os) fd = true /\ rd fd = true) /\
         (fd ∈ ws <-> t_wr (ref_table nothing os) fd = true /\ wr fd = true) /\
         (fd ∈ (EPollAIO.wait_ready (epoll_wait (EPollAIO.interest e) rd wr)).1 <-> fd ∈ rs) /\
         (fd ∈ (EPollAIO.wait_ready (epoll_wait (EPollAIO.interest e) rd wr)).2 <-> fd ∈ ws)) /\
      (pfd ∉ rs) /\ (pfd ∉ ws).
Proof.
  intros Hpfd Hok.
  destruct (run_ops_spec pfd os (SelectAIO.select_new pfd) nothing) as (a & Ea & Wa & Ha).
  { by apply select_new_wf. }
  { intros x Hne Hx. split; [|done]. unfold SelectAIO.FD_SETSIZE, MAX_POLL_FDS in *. lia. }
  { intros x Hne. simpl. split; apply bool_decide_false; set_solver. }
  { done. }
  destruct (run_ops_spec pfd os EPollAIO.epoll_new nothing) as (e & Ee & We & He);
    [apply epoll_new_wf|done|done|done|].
  exists a, e. split; [done|]. split; [done|]. intros rd wr Hrd.
  assert (SelectAIO.pipefd_ a = pfd) as Hp by apply (select_run_pipe _ _ _ _ Ea).
  destruct (select_wait_spec a rd wr Wa) as (a' & rs & ws & Hw & S1 & S2 & H1 & H2); [by rewrite Hp|].
  rewrite Hp in *. exists a', rs, ws. split_and!; try done.
  2: { intros Hx%H1. naive_solver. }
  2: { intros [Hx _]%H2. destruct Wa as [[_ Hx'] _ _]. by rewrite Hp in Hx'. }
  intros fd Hne. destruct (Ha fd Hne) as [R1 R2], (He fd Hne) as [R3 R4].
  destruct (epoll_wait_spec e rd wr fd We) as [-> ->]. rewrite H1, H2. simpl in *.
  rewrite R3, R4, <-R1, <-R2, !bool_decide_eq_true. tauto.
Qed.

(** A read and a write interest, the second dropped again. *)
Definition demo_ops : list aio_op :=
  [Watch 7 CB_RDONLY; Watch 9 CB_RDWR; Watch 7 CB_WRONLY; Unwatch 9 CB_RDWR; Unwatch 7 CB_WRONLY].

Lemma select_and_epoll_agree_witness :
  ref_answers nothing demo_ops = [true; false] /\
  exists (a : SelectAIO.select_aio) (e : EPollAIO.epoll_aio),
    run_ops (SelectAIO.select_new 3) demo_ops = Val (a, ref_answers nothing demo_ops) /\
    run_ops EPollAIO.epoll_new demo_ops = Val (e, ref_answers nothing demo_ops) /\
    forall rd wr, rd 3 = negb (bool_decide (SelectAIO.pipe_n a = 0%nat)) ->
    exists a' rs ws,
      SelectAIO.wait_collect a (SelectAIO.wait_snapshot a) (SelectAIO.Ready rd wr) = Val (a', rs, ws) /\
      StronglySorted Z.lt rs /\ StronglySorted Z.lt ws /\
      (forall fd, fd <> 3 ->
         (fd ∈ rs <-> t_rd (ref_table nothing demo_ops) fd = true /\ rd fd = true) /\
         (fd ∈ ws <-> t_wr (ref_table nothing demo_ops) fd = true /\ wr fd = true) /\
         (fd ∈ (EPollAIO.wait_ready (epoll_wait (EPollAIO.interest e) rd wr)).1 <-> fd ∈ rs) /\
         (fd ∈ (EPollAIO.wait_ready (epoll_wait (EPollAIO.interest e) rd wr)).2 <-> fd ∈ ws)) /\
      (3 ∉ rs) /\ (3 ∉ ws).
Proof.
  split; [vm_compute; reflexivity|].
  apply (select_and_epoll_agree 3 demo_ops); [lia|vm_compute; reflexivity].
Defined.

(** [EPollAIO::is_watched] masks with [CB_MASK], that is with all bits but the
    two in use, and so denies every descriptor that is watched. *)
Lemma epoll_is_watched_denies e fd f :
  epoll_wf e -> 0 <= fd < MAX_POLL_FDS -> real_flag f = true -> EPollAIO.is_watched e fd f = Val false.
Proof.
  intros He Hfd Hf. unfold EPollAIO.is_watched. rewrite in_array_val by done. cbn [obind]. f_equal.
  pattern (EPollAIO.status e fd). apply (status_cases e fd _ He); by destruct f.
Qed.

End Aio.

(** ** [PollMgr] *)

Module PollMgr.
Import SelectAIO.

(** A callback object is a number; a null pointer is a missing entry. *)
Record pollmgr := MkPoll {
  callbacks_ : gmap Z Z;
  aio_ : select_aio;
  pending_change_ : bool;
}.

Definition pollmgr_new (pfd : Z) : pollmgr := MkPoll ∅ (select_new pfd) false.

Definition add_callback (p : pollmgr) (fd : Z) (flag : poll_flag) (ch : Z) : outcome pollmgr :=
  VERIFY (fd <? MAX_POLL_FDS) ;;;
  let! a := watch_fd (aio_ p) fd flag in
  VERIFY (match callbacks_ p !! fd with None => true | Some c => c =? ch end) ;;;
  Val (MkPoll (<[fd := ch]> (callbacks_ p)) a (pending_change_ p)).

(** [block_remove_fd], before and after its wait. *)
Definition block_remove_begin (p : pollmgr) (fd : Z) : outcome pollmgr :=
  let! '(a, _) := unwatch_fd (aio_ p) fd CB_RDWR in Val (MkPoll (callbacks_ p) a true).
Definition block_remove_end (p : pollmgr) (fd : Z) : pollmgr :=
  MkPoll (delete fd (callbacks_ p)) (aio_ p) (pending_change_ p).

Definition del_callback (p : pollmgr) (fd : Z) (flag : poll_flag) : outcome pollmgr :=
  let! '(a, gone) := unwatch_fd (aio_ p) fd flag in
  Val (MkPoll (if gone : bool then delete fd (callbacks_ p) else callbacks_ p) a (pending_change_ p)).

Definition has_callback (p : pollmgr) (fd : Z) (flag : poll_flag) (c : Z) : bool :=
  match callbacks_ p !! fd with
  | None => false
  | Some c' => if negb (c' =? c) then false else is_watched (aio_ p) fd flag
  end.

(** The parts of a round of [wait_loop]: the head, with whether it broadcasts, *)
Definition wait_top (p : pollmgr) : pollmgr * bool :=
  if pending_change_ p then (MkPoll (callbacks_ p) (aio_ p) false, true) else (p, false).

(** the wait, *)
Definition wait_end (p : pollmgr) (s : snapshot) (ans : select_answer)
  : outcome (pollmgr * list Z * list Z) :=
  let! '(a, rs, ws) := wait_collect (aio_ p) s ans in
  Val (MkPoll (callbacks_ p) a (pending_change_ p), rs, ws).

(** and a call: which object is called for [fd], if any. The code reads
    [callbacks_[fd]] twice without the lock, to test it and to call; here the test
    and the call are one step. *)
Definition callee (p : pollmgr) (fd : Z) : option Z := callbacks_ p !! fd.
Definition called (p : pollmgr) (fd : Z) : option Z :=
  match callee p fd with Some _ => Some fd | None => None end.

(** *** The thread and those who remove descriptors *)

(** About to lock, about to copy the sets, in [select], calling back. *)
Inductive place :=
| AtTop
| BeforeCopy
| InSelect (s : snapshot)
| Calling (rs ws : list Z).

(** [removers]: threads in the wait of [block_remove_fd], with the descriptor
    and whether they were signalled. [removed]: descriptors that
    [block_remove_fd] returned for and nobody added since. *)
Record world := World {
  pm : pollmgr;
  at_ : place;
  removers : gmap nat (Z * bool);
  removed : gset Z;
}.

Definition signal_all (b : bool) (m : gmap nat (Z * bool)) : gmap nat (Z * bool) :=
  if b then (fun x => (x.1, true)) <$> m else m.

(** A label is a callback made for a descriptor. *)
Inductive step : world -> option Z -> world -> Prop :=
(* the thread *)
| st_top p p' b m d :
    wait_top p = (p', b) ->
    step (World p AtTop m d) None (World p' BeforeCopy (signal_all b m) d)
| st_copy p m d :
    step (World p BeforeCopy m d) None (World p (InSelect (wait_snapshot (aio_ p))) m d)
| st_select p s ans p' rs ws m d :
    wait_end p s ans = Val (p', rs, ws) ->
    step (World p (InSelect s) m d) None
         (World p' (if bool_decide (rs = [] /\ ws = []) then AtTop else Calling rs ws) m d)
| st_read p fd rs ws m d :
    step (World p (Calling (fd :: rs) ws) m d) (called p fd)
         (World p (Calling rs ws) m d)
| st_write p fd ws m d :
    step (World p (Calling [] (fd :: ws)) m d) (called p fd)
         (World p (Calling [] ws) m d)
| st_round p m d : step (World p (Calling [] []) m d) None (World p AtTop m d)
(* the users: nobody adds a callback for a descriptor that is being removed,
   and the pipe's descriptor is nobody's *)
| st_add p p' pl m d fd flag ch :
    add_callback p fd flag ch = Val p' -> (forall i b, m !! i <> Some (fd, b)) ->
    step (World p pl m d) None (World p' pl m (d ∖ {[ fd ]}))
| st_del p p' pl m d fd flag :
    del_callback p fd flag = Val p' -> fd <> pipefd_ (aio_ p) ->
    step (World p pl m d) None (World p' pl m d)
| st_remove p p' pl m d i fd :
    m !! i = None -> block_remove_begin p fd = Val p' -> fd <> pipefd_ (aio_ p) ->
    step (World p pl m d) None (World p' pl (<[i := (fd, false)]> m) d)
| st_removed p pl m d i fd :
    m !! i = Some (fd, true) ->
    step (World p pl m d) None (World (block_remove_end p fd) pl (delete i m) (d ∪ {[ fd ]})).

Definition some_step (s s' : world) : Prop := exists l, step s l s'.

Definition start (pfd : Z) : world := World (pollmgr_new pfd) AtTop ∅ ∅.

(** *** The invariant *)

Definition unwatched (p : pollmgr) (fd : Z) : Prop := (fd ∉ rfds_ (aio_ p)) /\ (fd ∉ wfds_ (aio_ p)).

(** The thread has nothing to do with [fd] in its current round. *)
Definition out_of_round (pl : place) (fd : Z) : Prop :=
  match pl with
  | AtTop | BeforeCopy => True
  | InSelect s => (fd ∉ trfds s) /\ (fd ∉ twfds s)
  | Calling rs ws => (fd ∉ rs) /\ (fd ∉ ws)
  end.

(** In or before [select], nothing will have to wait for ever. *)
Definition will_wake (pl : place) (p : pollmgr) : Prop :=
  match pl with
  | AtTop | Calling _ _ => True
  | BeforeCopy => pipe_n (aio_ p) <> 0%nat
  | InSelect s => pipe_n (aio_ p) <> 0%nat /\ pipefd_ (aio_ p) ∈ trfds s
  end.

Record pinv (s : world) : Prop := {
  pi_pipe : pipefd_ (aio_ (pm s)) ∈ rfds_ (aio_ (pm s));
  pi_snap : forall sn, at_ s = InSelect sn -> pipefd_ (aio_ (pm s)) ∈ trfds sn;
  pi_wait : forall i fd, removers s !! i = Some (fd, false) ->
    unwatched (pm s) fd /\ pending_change_ (pm s) = true /\ will_wake (at_ s) (pm s);
  pi_signal : forall i fd, removers s !! i = Some (fd, true) ->
    unwatched (pm s) fd /\ out_of_round (at_ s) fd;
  pi_removed : forall fd, fd ∈ removed s ->
    unwatched (pm s) fd /\ out_of_round (at_ s) fd /\ callbacks_ (pm s) !! fd = None;
}.

Lemma watch_fd_spec a fd f a' :
  watch_fd a fd f = Val a' ->
  pipefd_ a' = pipefd_ a /\ pipe_n a' = S (pipe_n a) /\
  (forall x, x ∈ rfds_ a -> x ∈ rfds_ a') /\
  (forall x, x <> fd -> (x ∈ rfds_ a' <-> x ∈ rfds_ a) /\ (x ∈ wfds_ a' <-> x ∈ wfds_ a)).
Proof.
  unfold watch_fd. intros Hw. outcome_inv. simpl. split_and!; [done|done| |].
  - intros x Hx. case_decide; set_solver.
  - intros x Hx. split; case_decide; set_solver.
Qed.

Lemma unwatch_fd_spec a fd f a' b :
  unwatch_fd a fd f = Val (a', b) ->
  pipefd_ a' = pipefd_ a /\ (pipe_n a <= pipe_n a')%nat /\ (f = CB_RDWR -> pipe_n a' = S (pipe_n a)) /\
  (forall x, x ∈ rfds_ a' -> x ∈ rfds_ a) /\ (forall x, x ∈ wfds_ a' -> x ∈ wfds_ a) /\
  (forall x, x <> fd -> x ∈ rfds_ a -> x ∈ rfds_ a') /\
  (f = CB_RDWR -> (fd ∉ rfds_ a') /\ (fd ∉ wfds_ a')).
Proof.
  unfold unwatch_fd. intros Hw. outcome_inv. clear E0. simpl. split_and!; try done.
  - case_decide; lia.
  - intros ->. done.
  - intros x. case_decide; set_solver.
  - intros x. case_decide; set_solver.
  - intros x Hx. case_decide; set_solver.
  - intros ->. simpl. set_solver.
Qed.

Lemma collect_sub n : forall fd a r w a' rs ws,
  collect n fd a r w = Val (a', rs, ws) ->
  (forall x, x ∈ rs -> r x = true) /\ (forall x, x ∈ ws -> w x = true) /\
  rfds_ a' = rfds_ a /\ wfds_ a' = wfds_ a /\ pipefd_ a' = pipefd_ a.
Proof.
  induction n as [|n IH]; intros fd a r w a' rs ws; cbn [collect].
  { intros [= <- <- <-]. split_and!; try done; by intros x ?%not_elem_of_nil. }
  destruct (_ && _).
  { destruct (pipe_n a); [done|]. intros Hc. apply IH in Hc. exact Hc. }
  intros Hc. apply obind_val in Hc as ([[a1 rs1] ws1] & Hc & [= <- <- <-]).
  apply IH in Hc as (H1 & H2 & H3). split_and!; [| |apply H3..].
  - destruct (r fd) eqn:E; [|done]. by intros x [->|Hx]%elem_of_cons; [|apply H1].
  - destruct (w fd) eqn:E; [|done]. by intros x [->|Hx]%elem_of_cons; [|apply H2].
Qed.

Lemma wait_end_spec p s ans p' rs ws :
  wait_end p s ans = Val (p', rs, ws) ->
  (forall x, x ∈ rs -> x ∈ trfds s) /\ (forall x, x ∈ ws -> x ∈ twfds s) /\
  rfds_ (aio_ p') = rfds_ (aio_ p) /\ wfds_ (aio_ p') = wfds_ (aio_ p) /\
  pipefd_ (aio_ p') = pipefd_ (aio_ p) /\ callbacks_ p' = callbacks_ p /\
  pending_change_ p' = pending_change_ p.
Proof.
  unfold wait_end, wait_collect. intros Hw. apply obind_val in Hw as ([[a rs1] ws1] & Hc & [= <- <- <-]).
  destruct ans as [rd wr| |]; [|injection Hc as <- <- <-; split_and!; try done; by intros x ?%not_elem_of_nil
                               |done].
  apply collect_sub in Hc as (H1 & H2 & H3 & H4 & H5). simpl in *.
  split_and!; try done; intros x Hx; [apply H1 in Hx|apply H2 in Hx];
    by apply andb_prop in Hx as [Hx%bool_decide_eq_true _].
Qed.

Lemma start_pinv pfd : pinv (start pfd).
Proof. split; simpl; try done. set_solver. Qed.

(** Steps of users that add nothing for the descriptors that matter. *)
Lemma pinv_users p p' pl m d d' :
  pinv (World p pl m d) ->
  pipefd_ (aio_ p') = pipefd_ (aio_ p) -> pipefd_ (aio_ p) ∈ rfds_ (aio_ p') ->
  (pipe_n (aio_ p) <= pipe_n (aio_ p'))%nat ->
  (pending_change_ p = true -> pending_change_ p' = true) ->
  (forall fd, fd ∈ d' -> fd ∈ d) ->
  (forall fd, fd ∈ d' \/ (exists i b, m !! i = Some (fd, b)) -> unwatched p fd -> unwatched p' fd) ->
  (forall fd, fd ∈ d' -> callbacks_ p !! fd = None -> callbacks_ p' !! fd = None) ->
  pinv (World p' pl m d').
Proof.
  intros [H1 H2 H3 H4 H5] Hpf Hpr Hn Hpc Hd Hu Hc. split; simpl in *; rewrite ?Hpf; auto.
  - intros i fd Hi. destruct (H3 i fd Hi) as (Hun & Hp & Hw). split_and!; [by apply Hu; eauto|auto|].
    destruct pl; simpl in *; rewrite ?Hpf; try lia; auto. split; [lia|apply Hw].
  - intros i fd Hi. destruct (H4 i fd Hi) as [Hun Ho]. split; [by apply Hu; eauto|done].
  - intros fd Hf. destruct (H5 fd (Hd fd Hf)) as (Hun & Ho & Hk). split_and!; auto.
Qed.

Lemma signal_all_lookup b m i fd c :
  signal_all b m !! i = Some (fd, c) ->
  if b then c = true /\ exists c', m !! i = Some (fd, c') else m !! i = Some (fd, c).
Proof.
  unfold signal_all. destruct b; [|done]. rewrite lookup_fmap. intros ([x c'] & Hi & [= -> ->])%fmap_Some.
  eauto.
Qed.

Lemma pinv_step s l s' : pinv s -> step s l s' -> pinv s'.
Proof.
  intros Hi Hs. destruct Hs as [p p' b m d Ht|p m d|p sn ans p' rs ws m d Ht|p fd rs ws m d|p fd ws m d
    |p m d|p p' pl m d fd f ch Ht Hm|p p' pl m d fd f Ht Hp|p p' pl m d i fd Hn Ht Hp|p pl m d i fd Hn].
  - unfold wait_top in Ht. destruct Hi as [H1 H2 H3 H4 H5]. destruct (pending_change_ p) eqn:E;
      injection Ht as <- <-; split; simpl in *; try done.
    + by intros i fd [? _]%(signal_all_lookup true).
    + intros i fd (_ & [] & Hi)%(signal_all_lookup true); [by destruct (H4 _ _ Hi)|by destruct (H3 _ _ Hi)].
    + intros i fd Hi. apply H3 in Hi. destruct Hi as (_ & ? & _). congruence.
  - destruct Hi as [H1 H2 H3 H4 H5]. split; simpl in *; auto.
    + by intros sn [= <-].
    + intros i fd Hi. destruct (H3 i fd Hi) as (Hu & Hp & Hw). done.
    + intros i fd Hi. destruct (H4 i fd Hi) as (Hu & Hp). done.
    + intros fd Hi. destruct (H5 fd Hi) as (Hu & _ & Hp). done.
  - apply wait_end_spec in Ht as (R1 & R2 & R3 & R4 & R5 & R6 & R7).
    assert (forall x, unwatched p x -> unwatched p' x) as Hun.
    { intros x. unfold unwatched. by rewrite R3, R4. }
    destruct Hi as [H1 H2 H3 H4 H5]. split; simpl in *; rewrite ?R3, ?R5, ?R6, ?R7; auto.
    + intros sn'. by case_bool_decide.
    + intros i fd Hi. destruct (H3 i fd Hi) as (Hu & Hp & Hw). split_and!; [auto|done|by case_bool_decide].
    + intros i fd Hi. destruct (H4 i fd Hi) as (Hu & [Ho1 Ho2]). split; [auto|]. case_bool_decide; simpl; auto.
    + intros fd Hf. destruct (H5 fd Hf) as (Hu & [Ho1 Ho2] & Hk). split_and!; [auto| |done].
      case_bool_decide; simpl; auto.
  - destruct Hi as [H1 H2 H3 H4 H5]. split; simpl in *; try done.
    + intros i x Hi. destruct (H4 i x Hi) as (Hu & Ho & ?). split_and!; [apply Hu..| |done]. set_solver.
    + intros x Hx. destruct (H5 x Hx) as (Hu & [Ho ?] & ?). split_and!; [apply Hu..| |done|done]. set_solver.
  - destruct Hi as [H1 H2 H3 H4 H5]. split; simpl in *; try done.
    + intros i x Hi. destruct (H4 i x Hi) as (Hu & ? & Ho). split_and!; [apply Hu..|done|]. set_solver.
    + intros x Hx. destruct (H5 x Hx) as (Hu & [? Ho] & ?). split_and!; [apply Hu..|done| |done]. set_solver.
  - destruct Hi as [H1 H2 H3 H4 H5]. split; simpl in *; try done.
    + intros i x Hi. by destruct (H4 i x Hi).
    + intros x Hx. by destruct (H5 x Hx) as (? & _ & ?).
  - unfold add_callback in Ht. apply obind_val in Ht as (_ & _ & Ht). apply obind_val in Ht as (a & Hw & Ht).
    apply obind_val in Ht as (_ & _ & [= <-]). apply watch_fd_spec in Hw as (W1 & W2 & W3 & W4).
    apply (pinv_users p _ pl m d); simpl; [done|done|apply W3, (pi_pipe _ Hi)|lia|done|set_solver| |].
    + intros x Hx [Hu1 Hu2]. assert (x <> fd) as Hne.
      { destruct Hx as [Hx|(i & b & Hx)]; [set_solver|]. intros ->. by destruct (Hm i b). }
      destruct (W4 x Hne) as [W5 W6]. split; simpl; by rewrite ?W5, ?W6.
    + intros x Hx Hk. rewrite lookup_insert_ne; [done|set_solver].
  - unfold del_callback in Ht. apply obind_val in Ht as ([a b] & Hw & [= <-]).
    apply unwatch_fd_spec in Hw as (W1 & W2 & _ & W3 & W4 & W5 & _).
    apply (pinv_users p _ pl m d); simpl; [done|done| |lia|done|done| |].
    + apply W5; [done|apply (pi_pipe _ Hi)].
    + intros x _ [Hu1 Hu2]. split; simpl; auto.
    + intros x _ Hk. destruct b; [|done]. destruct (decide (x = fd)) as [->|Hne];
        [apply lookup_delete_eq|by rewrite lookup_delete_ne].
  - unfold block_remove_begin in Ht. apply obind_val in Ht as ([a b] & Hw & [= <-]).
    apply unwatch_fd_spec in Hw as (W1 & W2 & W2' & W3 & W4 & W5 & W6).
    assert (pinv (World (MkPoll (callbacks_ p) a true) pl m d)) as Hi'.
    { apply (pinv_users p _ pl m d); simpl; [done|done| |lia|done|done| |done].
      - apply W5; [done|apply (pi_pipe _ Hi)].
      - intros x _ [Hu1 Hu2]. split; simpl; auto. }
    destruct Hi' as [H1 H2 H3 H4 H5]. split; simpl in *; auto.
    + intros j x [[<- [= <-]]|[_ Hj]]%lookup_insert_Some; [|by apply (H3 j)].
      split_and!; [exact (W6 eq_refl)|done|]. specialize (W2' eq_refl).
      destruct pl; simpl in *; auto; [lia|]. split; [lia|auto].
    + intros j x [[_ [=]]|[_ Hj]]%lookup_insert_Some. by apply (H4 j).
  - destruct Hi as [H1 H2 H3 H4 H5]. split; simpl in *; auto.
    + intros j x [_ Hj]%lookup_delete_Some. by apply (H3 j).
    + intros j x [_ Hj]%lookup_delete_Some. by apply (H4 j).
    + intros x [Hx|Hx]%elem_of_union.
      * destruct (H5 x Hx) as (Hu & Ho & Hk). split_and!; [apply Hu..|done|].
        rewrite lookup_delete_None. by right.
      * apply elem_of_singleton in Hx as ->. destruct (H4 i fd Hn) as [Hu Ho].
        split_and!; [apply Hu..|done|]. apply lookup_delete_eq.
Qed.

(** C25: what the comment above [block_remove_fd] promises. In every
    interleaving of the poll thread with threads that add, delete and remove
    callbacks, once [block_remove_fd] has returned for a descriptor the poll
    thread makes no callback for it, not even for a result of [select] it had
    before, until a callback for it is added anew; and the wait inside
    [block_remove_fd] is not for ever: its signal is pending and the poll
    thread, if it is in [select] or about to be, has a byte in its pipe. (A wait
    is assumed to end only by a signal: there is no test around it.) *)
Theorem removed_fd_never_called (pfd : Z) (s : world) :
  rtc some_step (start pfd) s ->
  (forall fd, fd ∈ removed s ->
     callee (pm s) fd = None /\ forall l s', step s l s' -> l <> Some fd) /\
  (forall i fd, removers s !! i = Some (fd, false) ->
     pending_change_ (pm s) = true /\ will_wake (at_ s) (pm s)).
Proof.
  intros Hr. assert (pinv s) as Hi.
  { pose proof (start_pinv pfd) as H0. revert H0. generalize (start pfd) as s0, Hr. clear.
    induction 1 as [|s1 s2 s3 [l Hs] Hr IH]; [done|]. intros Hi. apply IH. by eapply pinv_step. }
  split.
  - intros fd Hf. destruct (pi_removed _ Hi fd Hf) as (_ & _ & Hk). split; [done|].
    intros l s' Hs ->. assert (forall p x, callbacks_ p !! fd = None -> called p x <> Some fd) as Hno.
    { intros p x Hp. unfold called, callee. destruct (callbacks_ p !! x) eqn:E; [|done]. congruence. }
    inversion Hs; subst; simpl in *; by eapply Hno.
  - intros i fd Hf. by apply (pi_wait _ Hi) in Hf as (_ & ? & ?).
Qed.

(** A descriptor is removed while the thread is in [select]: it is called once
    more, and never again after the removal has returned. *)
Definition demo_added : pollmgr := val_or (pollmgr_new 3) (add_callback (pollmgr_new 3) 7 CB_RDONLY 1).
Definition demo_removing : pollmgr := val_or demo_added (block_remove_begin demo_added 7).
Definition demo_selected : pollmgr * list Z * list Z :=
  val_or (demo_removing, [], [])
    (wait_end demo_removing (wait_snapshot (aio_ demo_added)) (Ready (fun _ => true) (fun _ => false))).
Definition demo_end : world :=
  World (block_remove_end (wait_top demo_selected.1.1).1 7) BeforeCopy
        (delete 0%nat (signal_all true {[ 0%nat := (7, false) ]})) (∅ ∖ {[ 7 ]} ∪ {[ 7 ]}).

Lemma demo_removed : rtc some_step (start 3) demo_end.
Proof.
  eapply rtc_l; [eexists; apply (st_add (pollmgr_new 3) demo_added _ _ _ 7 CB_RDONLY 1);
                 [vm_compute; reflexivity|done]|].
  eapply rtc_l; [eexists; apply (st_top demo_added demo_added false); vm_compute; reflexivity|].
  eapply rtc_l; [eexists; apply st_copy|].
  eapply rtc_l; [eexists; apply (st_remove demo_added demo_removing _ _ _ 0 7);
                 [done|vm_compute; reflexivity|vm_compute; lia]|].
  eapply rtc_l; [eexists; apply (st_select demo_removing _ (Ready (fun _ => true) (fun _ => false))
                   demo_selected.1.1 [7] []); vm_compute; reflexivity|].
  eapply rtc_l; [eexists; apply st_read|].
  eapply rtc_l; [eexists; apply st_round|].
  eapply rtc_l; [eexists; apply (st_top _ (wait_top demo_selected.1.1).1 true); vm_compute; reflexivity|].
  eapply rtc_l; [eexists; apply (st_removed _ _ _ _ 0 7); vm_compute; reflexivity|].
  apply rtc_refl.
Qed.

Lemma removed_fd_never_called_witness :
  7 ∈ removed demo_end /\
  (forall fd, fd ∈ removed demo_end ->
     callee (pm demo_end) fd = None /\ forall l s', step demo_end l s' -> l <> Some fd) /\
  (forall i fd, removers demo_end !! i = Some (fd, false) ->
     pending_change_ (pm demo_end) = true /\ will_wake (at_ demo_end) (pm demo_end)).
Proof.
  split; [simpl; set_solver|]. apply (removed_fd_never_called 3 demo_end). exact demo_removed.
Defined.

End PollMgr.
