(* ===== verification/Connection.v ===== *)
(** * Connections (src/rpc/connection.cc, include/rpc/connection.h)

    A connection's buffers, [send], the callbacks and the PDU reader and writer,
    cut where [m_] is released. The table of accepted connections is in
    Tcpsconn.v, the theorems about PDUs in Framing.v.

    What [read] and [write] return is a parameter of each operation. What is
    asked of the poll manager is returned as a list of requests. The lossy test
    of [send] only shuts the socket down: what follows is an error of [write].
    Reference counts and comparison as the RPC server uses them are in
    RpcServer.v. *)

From S2P Require Import Prelude.
From S2P Require Import Marshall.
From S2P Require Import Aio.

Local Open Scope Z_scope.

Definition MAX_PDU : Z := Z.shiftl 10 20.

(** The 32-bit value of four bytes in network order. *)
Definition ntohl (l : list Z) : Z :=
  match l with
  | [b3; b2; b1; b0] =>
      Z.lor (Z.lor (Z.lor (Z.shiftl b3 24) (Z.shiftl b2 16)) (Z.shiftl b1 8)) b0
  | _ => 0
  end.

Lemma ntohl_be32 x : ntohl (be32 x) = u32 x.
Proof. apply join_bytes32. Qed.

Module Connection.

(** [buf] holds the bytes to write, or those read so far. *)
Record charbuf := Charbuf { buf : option (list Z); sz : Z; solong : Z }.

Definition charbuf_new : charbuf := Charbuf None 0 0.

Record connection := MkConn {
  fd_ : Z;
  dead_ : bool;
  wpdu_ : charbuf;
  rpdu_ : charbuf;
  waiters_ : Z;
  refno_ : Z;
}.

Definition set_dead (c : connection) : connection :=
  MkConn (fd_ c) true (wpdu_ c) (rpdu_ c) (waiters_ c) (refno_ c).
Definition set_wpdu (c : connection) (w : charbuf) : connection :=
  MkConn (fd_ c) (dead_ c) w (rpdu_ c) (waiters_ c) (refno_ c).
Definition set_rpdu (c : connection) (r : charbuf) : connection :=
  MkConn (fd_ c) (dead_ c) (wpdu_ c) r (waiters_ c) (refno_ c).
Definition set_waiters (c : connection) (n : Z) : connection :=
  MkConn (fd_ c) (dead_ c) (wpdu_ c) (rpdu_ c) n (refno_ c).
Definition set_refno (c : connection) (n : Z) : connection :=
  MkConn (fd_ c) (dead_ c) (wpdu_ c) (rpdu_ c) (waiters_ c) n.

(** Requests to the poll manager. *)
Inductive poll_req := AddCallback (f : poll_flag) | DelCallback (f : poll_flag) | BlockRemove.

Definition connection_new (fd : Z) : connection * list poll_req :=
  (MkConn fd false charbuf_new charbuf_new 0 1, [AddCallback CB_RDONLY]).

(** ** Writing *)

(** The result of [write]: the number of bytes taken, EAGAIN, another error. *)
Inductive write_result := Wrote (n : Z) | WriteAgain | WriteError.

(** [writepdu], with the bytes that went to the socket. *)
Definition writepdu (c : connection) (r : write_result) : outcome (connection * list Z * bool) :=
  let w := wpdu_ c in
  VERIFY (0 <=? solong w) ;;;
  if solong w =? sz w then Val (c, [], true)
  else
    let! b := match buf w with Some b => Val b | None => Fault Undefined end in
    let! b := if solong w =? 0
              then if (4 <=? length b)%nat then Val (be32 (sz w) ++ drop 4 b) else Fault Undefined
              else Val b in
    if Z.of_nat (length b) <? sz w then Fault Undefined
    else match r with
         | WriteError => Val (set_wpdu c (Charbuf (Some b) 0 (-1)), [], false)
         | WriteAgain => Val (set_wpdu c (Charbuf (Some b) (sz w) (solong w)), [], true)
         | Wrote n => Val (set_wpdu c (Charbuf (Some b) (sz w) (solong w + n)),
                           take (Z.to_nat n) (drop (Z.to_nat (solong w)) b), true)
         end.

(** How a part of [send] ends. *)
Inductive send_next :=
| WaitTurn                (* waits on [send_wait_] *)
| Removing                (* in [block_remove_fd], without [m_] *)
| WaitComplete            (* waits on [send_complete_] *)
| Returns (ret : bool).

Definition send_enter (c : connection) : connection := set_waiters c (waiters_ c + 1).

(** The end of [send], with whether it broadcasts [send_wait_]. *)
Definition send_end (c : connection) : connection * bool * bool :=
  let w := wpdu_ c in
  let ret := negb (dead_ c) && (solong w =? sz w) in
  (set_wpdu c (Charbuf None 0 0), ret, waiters_ c >? 0).

(** From a test of the first loop on: what was written, whether it broadcasts
    and what it asks of the poll manager. *)
Definition send_turn (c : connection) (b : list Z) (size : Z) (r : write_result)
  : outcome (connection * list Z * bool * list poll_req * send_next) :=
  if negb (dead_ c) && bool_decide (is_Some (buf (wpdu_ c))) then Val (c, [], false, [], WaitTurn)
  else
    let c := set_waiters c (waiters_ c - 1) in
    if dead_ c then Val (c, [], false, [], Returns false)
    else
      let c := set_wpdu c (Charbuf (Some b) size 0) in
      let! '(c, out, ok) := writepdu c r in
      if negb ok then Val (set_dead c, out, false, [BlockRemove], Removing)
      else if solong (wpdu_ c) =? sz (wpdu_ c) then
        let '(c, ret, all) := send_end c in Val (c, out, all, [], Returns ret)
      else Val (c, out, false, [AddCallback CB_WRONLY], WaitComplete).

(** The test of the second loop: whether it goes on waiting. *)
Definition send_waits (c : connection) : bool :=
  negb (dead_ c) && (solong (wpdu_ c) >=? 0) && (solong (wpdu_ c) <? sz (wpdu_ c)).

(** [write_cb], with what was written and whether it signals [send_complete_]. *)
Definition write_cb (c : connection) (s : Z) (r : write_result)
  : outcome (connection * list Z * bool * list poll_req) :=
  VERIFY (negb (dead_ c)) ;;;
  VERIFY (fd_ c =? s) ;;;
  if sz (wpdu_ c) =? 0 then Val (c, [], false, [DelCallback CB_WRONLY])
  else
    let! '(c, out, ok) := writepdu c r in
    if negb ok then Val (set_dead c, out, true, [DelCallback CB_RDWR])
    else
      VERIFY (0 <=? solong (wpdu_ c)) ;;;
      if solong (wpdu_ c) <? sz (wpdu_ c) then Val (c, out, false, []) else Val (c, out, true, []).

(** ** Reading *)

(** The result of [read]. [again] is whether [errno] is EAGAIN afterwards: at
    the end of the stream [read] leaves it as an earlier call set it. *)
Inductive read_result := GotBytes (l : list Z) | Eof (again : bool) | ReadError (again : bool).

(** The second part of [readpdu]: a read into the rest of the buffer. *)
Definition readpdu_body (c : connection) (l : list Z) (r : read_result)
  : outcome (connection * list Z * bool) :=
  let p := rpdu_ c in
  if sz p - solong p <? 0 then Fault Undefined
  else match r with
       | GotBytes g =>
           Val (set_rpdu c (Charbuf (Some (l ++ g)) (sz p) (solong p + Z.of_nat (length g))), g, true)
       | Eof again | ReadError again =>
           if again : bool then Val (c, [], true) else Val (set_rpdu c charbuf_new, [], false)
       end.

(** [readpdu]: [r1] is the result of reading the size, when it does; the bytes
    taken from the socket are returned. [malloc] of a size that wraps around
    to something enormous fails. *)
Definition readpdu (c : connection) (r1 r2 : read_result) : outcome (connection * list Z * bool) :=
  let p := rpdu_ c in
  if sz p =? 0 then
    match r1 with
    | Eof _ => Val (c, [], false)
    | ReadError again => VERIFY (negb again) ;;; Val (c, [], false)
    | GotBytes l =>
        if negb (length l =? 4)%nat then Val (c, l, false)
        else
          let n := s32 (ntohl l) in
          if n >? MAX_PDU then Val (c, l, false)
          else
            VERIFY (bool_decide (buf p = None)) ;;;
            VERIFY (-4 <=? n) ;;;
            if n <? 0 then Fault Undefined
            else
              let! '(c, got, ok) := readpdu_body (set_rpdu c (Charbuf (Some l) n 4)) l r2 in
              Val (c, l ++ got, ok)
    end
  else
    let! l := match buf p with Some l => Val l | None => Fault Undefined end in
    readpdu_body c l r2.

(** [read_cb], with the bytes taken, the PDU offered to [got_pdu] and whether it
    was consumed, whether it signals [send_complete_], and the requests.
    [consumes] is what [got_pdu] answers. *)
Definition read_cb (c : connection) (s : Z) (r1 r2 : read_result) (consumes : bool)
  : outcome (connection * list Z * option (list Z * bool) * bool * list poll_req) :=
  VERIFY (fd_ c =? s) ;;;
  if dead_ c then Val (c, [], None, false, [])
  else
    let p := rpdu_ c in
    let! '(c, got, succ) :=
      if bool_decide (buf p = None) || (solong p <? sz p) then readpdu c r1 r2 else Val (c, [], true) in
    let c := if negb succ then set_dead c else c in
    let reqs := if negb succ then [DelCallback CB_RDWR] else [] in
    match buf (rpdu_ c) with
    | Some l =>
        if sz (rpdu_ c) =? solong (rpdu_ c) then
          Val (if consumes then set_rpdu c charbuf_new else c, got, Some (l, consumes), negb succ, reqs)
        else Val (c, got, None, negb succ, reqs)
    | None => Val (c, got, None, negb succ, reqs)
    end.

(** ** Closing *)

Definition closeconn (c : connection) : connection * list poll_req :=
  if negb (dead_ c) then (set_dead c, [BlockRemove]) else (c, []).

End Connection.
