(* ===== verification/Framing.v ===== *)
(** * PDUs over a byte stream

    A connection that sends and its peer that receives. Many threads call
    [send], callbacks run when they like, [write] and [read] take and return
    any number of bytes. The theorems: the peer is handed the PDUs sent,
    unchanged and in order; and a sender that waits is going to be woken. *)

From S2P Require Import Prelude.
From S2P Require Import Marshall.
From S2P Require Import Aio.
From S2P Require Import SelectAIO.
From S2P Require Import Connection.

Local Open Scope Z_scope.

Module Framing.
Import Connection.

(** What goes over the wire for a buffer: the size replaces its first four
    bytes. *)
Definition frame (b : list Z) : list Z := be32 (Z.of_nat (length b)) ++ drop 4 b.

Definition good_pdu (b : list Z) : Prop := (4 < length b)%nat /\ Z.of_nat (length b) <= MAX_PDU.

Definition wf_frame (f : list Z) : Prop :=
  good_pdu f /\ take 4 f = be32 (Z.of_nat (length f)).

Lemma length_frame b : good_pdu b -> length (frame b) = length b.
Proof. intros [H _]. unfold frame. rewrite length_app, length_drop. simpl. lia. Qed.

Lemma frame_wf b : good_pdu b -> wf_frame (frame b).
Proof.
  intros Hb. pose proof (length_frame b Hb) as Hl. split.
  - unfold good_pdu in *. by rewrite Hl.
  - rewrite Hl. done.
Qed.

Lemma frame_again b : good_pdu b -> be32 (Z.of_nat (length b)) ++ drop 4 (frame b) = frame b.
Proof. done. Qed.

(** ** The receiver *)

Record receiver := Receiver { cb : connection; taken : list Z; delivered : list (list Z) }.

(** How many bytes the read into the buffer asks for. *)
Definition room (c : connection) (r1 : read_result) : Z :=
  if sz (rpdu_ c) =? 0 then match r1 with GotBytes l => s32 (ntohl l) - 4 | _ => 0 end
  else sz (rpdu_ c) - solong (rpdu_ c).

(** [read] returns at least one byte or none, and no more than asked for. *)
Definition reads_fit (c : connection) (r1 r2 : read_result) : Prop :=
  match r1 with GotBytes l => (0 < length l <= 4)%nat | _ => True end /\
  match r2 with GotBytes g => 0 < Z.of_nat (length g) <= room c r1 | _ => True end.

Definition accepted (o : option (list Z * bool)) : list (list Z) :=
  match o with Some (l, true) => [l] | _ => [] end.

Inductive rstep (inp : list Z) : receiver -> receiver -> Prop :=
| r_read r r1 r2 k c got offer sg q :
    reads_fit (cb r) r1 r2 -> read_cb (cb r) (fd_ (cb r)) r1 r2 k = Val (c, got, offer, sg, q) ->
    taken r ++ got `prefix_of` inp ->
    rstep inp r (Receiver c (taken r ++ got) (delivered r ++ accepted offer))
| r_close r : rstep inp r (Receiver (closeconn (cb r)).1 (taken r) (delivered r)).

(** What is in the read buffer. *)
Definition in_buffer (c : connection) : list Z := default [] (buf (rpdu_ c)).

Record rinv (sent : list (list Z)) (r : receiver) : Prop := {
  rv_taken : taken r `prefix_of` concat sent;
  rv_delivered : delivered r `prefix_of` sent;
  rv_bytes : dead_ (cb r) = false -> taken r = concat (delivered r) ++ in_buffer (cb r);
  rv_none : dead_ (cb r) = false -> buf (rpdu_ (cb r)) = None -> rpdu_ (cb r) = charbuf_new;
  rv_some : forall l, dead_ (cb r) = false -> buf (rpdu_ (cb r)) = Some l ->
    solong (rpdu_ (cb r)) = Z.of_nat (length l) /\ (4 <= length l)%nat /\
    exists f rest, sent = delivered r ++ f :: rest /\ sz (rpdu_ (cb r)) = Z.of_nat (length f) /\
      l `prefix_of` f;
}.

(** The next bytes of the stream are those of the next frame. *)
Lemma next_frame (sent : list (list Z)) (d : list (list Z)) (l : list Z) :
  Forall wf_frame sent -> d `prefix_of` sent -> concat d ++ l `prefix_of` concat sent ->
  l <> [] -> (length l <= 4)%nat ->
  exists f rest, sent = d ++ f :: rest /\ l `prefix_of` f /\ wf_frame f.
Proof.
  intros Hw [rest ->] Hp Hne Hl. rewrite concat_app in Hp. apply prefix_app_inv in Hp.
  destruct rest as [|f rest]; [by apply prefix_nil_inv in Hp|].
  apply Forall_app in Hw as [_ Hw]. apply Forall_cons in Hw as [Hf _]. exists f, rest.
  split; [done|]. split; [|done]. simpl in Hp. destruct Hf as [[Hlen _] _].
  destruct (prefix_weak_total l f (f ++ concat rest)) as [?|Hx]; [done|by exists (concat rest)|done|].
  apply prefix_length in Hx. lia.
Qed.

Lemma read_header f l : wf_frame f -> l `prefix_of` f -> length l = 4%nat ->
  s32 (ntohl l) = Z.of_nat (length f).
Proof.
  intros [[H1 H2] H3] [k ->] Hl. rewrite <-Hl, take_app_length in H3.
  transitivity (s32 (ntohl (be32 (Z.of_nat (length (l ++ k)))))); [by rewrite <-H3|].
  rewrite ntohl_be32. apply s32_u32. change MAX_PDU with 10485760 in H2. unfold is_s32. lia.
Qed.

Lemma rinv_grows sent more r : rinv sent r -> rinv (sent ++ more) r.
Proof.
  intros [H1 H2 H3 H4 H5]. split; auto.
  - rewrite concat_app. by apply prefix_app_r.
  - by apply prefix_app_r.
  - intros l Hd Hb. destruct (H5 l Hd Hb) as (Hs & Hl & f & rest & -> & Hz & Hp).
    split_and!; [done|done|]. exists f, (rest ++ more). split_and!; try done. by rewrite <-app_assoc.
Qed.

(** A read into the buffer, that of the header included. *)
Definition body_ok (sent d : list (list Z)) (c : connection) : Prop :=
  exists l f rest, buf (rpdu_ c) = Some l /\ solong (rpdu_ c) = Z.of_nat (length l) /\
    (4 <= length l)%nat /\ sent = d ++ f :: rest /\ sz (rpdu_ c) = Z.of_nat (length f) /\
    l `prefix_of` f.

Lemma prefix_extend (d rest : list (list Z)) f l g :
  concat d ++ l ++ g `prefix_of` concat (d ++ f :: rest) -> l `prefix_of` f ->
  (length l + length g <= length f)%nat -> l ++ g `prefix_of` f.
Proof.
  intros Hp Hl Hlen. rewrite concat_app in Hp. apply prefix_app_inv in Hp. simpl in Hp.
  destruct (prefix_weak_total (l ++ g) f (f ++ concat rest)) as [?|Hx];
    [done|by exists (concat rest)|done|].
  assert (f = l ++ g) as ->; [|done]. apply prefix_length_eq; [done|]. rewrite length_app. lia.
Qed.

Lemma readpdu_body_spec sent d c l r c' got ok :
  body_ok sent d c -> buf (rpdu_ c) = Some l ->
  readpdu_body c l r = Val (c', got, ok) ->
  match r with GotBytes g => 0 < Z.of_nat (length g) <= sz (rpdu_ c) - solong (rpdu_ c) | _ => True end ->
  concat d ++ l ++ got `prefix_of` concat sent ->
  dead_ c' = dead_ c /\
  if ok then body_ok sent d c' /\ buf (rpdu_ c') = Some (l ++ got)
  else rpdu_ c' = charbuf_new.
Proof.
  intros (l' & f & rest & Hb & Hs & H4 & -> & Hz & Hp) Hl Hr Hfit Hpre.
  rewrite Hl in Hb. injection Hb as <-. unfold readpdu_body in Hr. destruct (_ <? 0); [done|].
  assert (forall b : bool, (if b then Val (c, [], true) else Val (set_rpdu c charbuf_new, [], false))
            = Val (c', got, ok) -> dead_ c' = dead_ c /\
    if ok then body_ok (d ++ f :: rest) d c' /\ buf (rpdu_ c') = Some (l ++ got)
    else rpdu_ c' = charbuf_new) as Hnone.
  { intros [] [= <- <- <-]; (split; [done|]); [|done]. rewrite app_nil_r. split; [|done].
    by exists l, f, rest. }
  destruct r as [g|a|a]; [|by apply (Hnone a)..]. injection Hr as <- <- <-. split; [done|]. split; [|done].
  exists (l ++ g), f, rest. simpl. rewrite length_app. split_and!; try done; [lia|lia|].
  apply (prefix_extend d rest); [done|done|]. lia.
Qed.

(** What a callback's read leaves behind. *)
Definition after_read (sent d : list (list Z)) (c : connection) (t : list Z) : Prop :=
  t = concat d ++ in_buffer c /\ (rpdu_ c = charbuf_new \/ body_ok sent d c).

Lemma readpdu_spec sent r r1 r2 c got ok :
  Forall wf_frame sent -> rinv sent r -> dead_ (cb r) = false ->
  reads_fit (cb r) r1 r2 -> readpdu (cb r) r1 r2 = Val (c, got, ok) ->
  taken r ++ got `prefix_of` concat sent ->
  dead_ c = false /\ (ok = true -> after_read sent (delivered r) c (taken r ++ got)) /\
  (ok = false -> rpdu_ c = charbuf_new).
Proof.
  intros Hw [H1 H2 H3 H4 H5] Hd [F1 F2] Hr Hp. specialize (H3 Hd). unfold readpdu, room in *.
  destruct (Z.eqb_spec (sz (rpdu_ (cb r))) 0) as [Hz|Hz].
  - assert (buf (rpdu_ (cb r)) = None) as Hb.
    { destruct (buf (rpdu_ (cb r))) as [l|] eqn:E; [|done].
      destruct (H5 l Hd eq_refl) as (_ & ? & f & rest & _ & ? & Hl%prefix_length). lia. }
    specialize (H4 Hd Hb). unfold in_buffer in H3. rewrite Hb, app_nil_r in H3.
    destruct r1 as [l|a|a]; [|injection Hr as <- <- <-; by rewrite H4
                             |apply obind_val in Hr as (_ & _ & [= <- <- <-]); by rewrite H4].
    destruct (Nat.eqb_spec (length l) 4) as [Hl|Hl]; [|injection Hr as <- <- <-; by rewrite H4].
    destruct (_ >? MAX_PDU); [injection Hr as <- <- <-; by rewrite H4|]. cbn [negb] in Hr.
    apply obind_val in Hr as (_ & _ & Hr). apply obind_val in Hr as (_ & _ & Hr).
    destruct (_ <? 0); [done|]. apply obind_val in Hr as ([[c1 g] ok1] & Hr & [= <- <- <-]).
    rewrite H3 in Hp. rewrite H3.
    assert (concat (delivered r) ++ l `prefix_of` concat sent) as Hpl.
    { etrans; [|exact Hp]. rewrite app_assoc. by apply prefix_app_r. }
    destruct (next_frame sent (delivered r) l Hw H2 Hpl) as (f & rest & Hs & Hlf & Hf);
      [by destruct l|lia|].
    pose proof (read_header f l Hf Hlf Hl) as Hh. rewrite Hh in *.
    eapply (readpdu_body_spec sent (delivered r)) in Hr; [| |done| |done].
    + destruct Hr as [Hdead Hok]. simpl in Hdead. rewrite Hdead. split; [done|].
      split; intros ->; [|exact Hok].
      destruct Hok as [Hbody Hbuf]. split; [unfold in_buffer; by rewrite Hbuf|by right].
    + exists l, f, rest. simpl. split_and!; try done; lia.
    + simpl. destruct r2; lia.
  - apply obind_val in Hr as (l & Hl & Hr).
    destruct (buf (rpdu_ (cb r))) as [l'|] eqn:Hb; [|done]. injection Hl as ->.
    destruct (H5 l Hd eq_refl) as (Hs & Hlen & f & rest & Hsent & Hsz & Hlf).
    unfold in_buffer in H3. rewrite Hb in H3. simpl in H3. rewrite H3, <-app_assoc in Hp.
    rewrite H3, <-app_assoc.
    eapply (readpdu_body_spec sent (delivered r)) in Hr; [|by exists l, f, rest|done|done|done].
    destruct Hr as [Hdead Hok]. rewrite Hdead. split; [done|].
    split; intros ->; [|exact Hok].
    destruct Hok as [Hbody Hbuf]. split; [unfold in_buffer; by rewrite Hbuf|by right].
Qed.

Lemma rstep_inv sent inp r r' :
  Forall wf_frame sent -> inp `prefix_of` concat sent -> rinv sent r -> rstep inp r r' -> rinv sent r'.
Proof.
  intros Hw Hinp Hi Hs. destruct Hs as [r r1 r2 k c got offer sg q Hfit Hr Ht|r].
  2: { destruct Hi as [H1 H2 H3 H4 H5]. unfold closeconn. destruct (dead_ (cb r)) eqn:E; split; simpl; auto;
         congruence. }
  unfold read_cb in Hr. rewrite Z.eqb_refl in Hr. cbn [VERIFY obind] in Hr.
  assert (taken r ++ got `prefix_of` concat sent) as Hp by (by etrans).
  destruct (dead_ (cb r)) eqn:Hd.
  { injection Hr as <- <- <- _ _. destruct Hi as [H1 H2 H3 H4 H5].
    split; simpl; rewrite ?app_nil_r; auto; congruence. }
  apply obind_val in Hr as ([[c1 g] ok] & Hread & Hr).
  assert (got = g) as ->.
  { cbv zeta in Hr. destruct (buf (rpdu_ (if negb ok then _ else _))); [destruct (_ =? _)|]; congruence. }
  assert (dead_ c1 = false /\ (ok = true -> after_read sent (delivered r) c1 (taken r ++ g)) /\
          (ok = false -> rpdu_ c1 = charbuf_new)) as (Hd1 & Hok & Hfail).
  { destruct (_ || _) eqn:Hcond; [by eapply readpdu_spec|]. injection Hread as <- <- <-.
    split; [done|]. split; [|done]. intros _. rewrite app_nil_r.
    apply orb_false_iff in Hcond as [Hb _]. apply bool_decide_eq_false in Hb.
    destruct (buf (rpdu_ (cb r))) as [l|] eqn:E; [|done].
    split; [by apply (rv_bytes _ _ Hi)|]. right.
    destruct (rv_some _ _ Hi l Hd E) as (Hs & Hlen & f & rest & Hsent & Hsz & Hlf).
    by exists l, f, rest. }
  pose proof (rv_delivered _ _ Hi) as Hdel.
  destruct ok; cbn [negb] in Hr.
  2: { simpl in Hr. rewrite (Hfail eq_refl) in Hr. simpl in Hr. injection Hr as <- <- _ _.
       split; simpl; rewrite ?app_nil_r; done. }
  destruct (Hok eq_refl) as [Htk [Hnew|(l & f & rest & Hb & Hs & H4 & Hsent & Hsz & Hlf)]].
  - rewrite Hnew in Hr. simpl in Hr. injection Hr as <- <- _ _.
    split; simpl; rewrite ?app_nil_r; try done. rewrite Hnew. done.
  - rewrite Hb in Hr. unfold in_buffer in Htk. rewrite Hb in Htk. simpl in Htk.
    assert (rinv sent (Receiver c1 (taken r ++ g) (delivered r))) as Hkeep.
    { split; simpl; try done.
      - intros _. unfold in_buffer. by rewrite Hb.
      - intros _. by rewrite Hb.
      - intros l' _ Hb'. rewrite Hb in Hb'. injection Hb' as <-. split_and!; try done. by exists f, rest. }
    destruct (Z.eqb_spec (sz (rpdu_ c1)) (solong (rpdu_ c1))) as [Hfull|Hpart];
      injection Hr as <- <- _ _; simpl; [|by rewrite app_nil_r].
    destruct k; simpl; [|by rewrite app_nil_r].
    assert (l = f) as ->. { apply prefix_length_eq; [done|lia]. }
    split; simpl; try done.
    + rewrite Hsent. exists rest. by rewrite <-app_assoc.
    + intros _. rewrite Htk, concat_app. simpl. unfold in_buffer. simpl. by rewrite !app_nil_r.
Qed.

(** ** The sender *)

(** Where a thread is in [send]: at the first loop, waiting on [send_wait_], in
    [block_remove_fd], waiting on [send_complete_]; the flag says whether it
    was signalled. Threads that are not in [send] are not in the map. *)
Inductive place :=
| Entered (b : list Z)
| WaitingTurn (b : list Z) (sig : bool)
| InRemove (b : list Z)
| WaitingComplete (b : list Z) (sig : bool).

Definition waits (p : place) : bool :=
  match p with Entered _ | WaitingTurn _ _ => true | InRemove _ | WaitingComplete _ _ => false end.

Definition pdu_of (p : place) : list Z :=
  match p with Entered b | WaitingTurn b _ | InRemove b | WaitingComplete b _ => b end.

Definition wake_turn (p : place) : place :=
  match p with WaitingTurn b _ => WaitingTurn b true | p => p end.
Definition wake_complete (p : place) : place :=
  match p with WaitingComplete b _ => WaitingComplete b true | p => p end.

Definition broadcast (all : bool) (m : gmap nat place) : gmap nat place :=
  if all then wake_turn <$> m else m.
Definition signal (sg : bool) (m : gmap nat place) : gmap nat place :=
  if sg then wake_complete <$> m else m.

(** How many threads [waiters_] counts. *)
Definition waiting (m : gmap nat place) : nat := size (filter (fun kp => waits kp.2 = true) m).

Section sender.
Context `{AioLaws T}.

(** [out]: the bytes written. [sent]: the frames whose writing began. [acked]:
    those for which [send] returned true. [closed]: [closeconn] was called. *)
Record sender := Sender {
  ca : connection;
  aio : T;
  threads : gmap nat place;
  out : list Z;
  sent : list (list Z);
  acked : list (list Z);
  closed : bool;
}.

(** What the poll manager does for a request. *)
Definition apply_req (t : T) (fd : Z) (q : poll_req) : outcome T :=
  match q with
  | AddCallback f => aio_watch t fd f
  | DelCallback f => let! '(t, _) := aio_unwatch t fd f in Val t
  | BlockRemove => let! '(t, _) := aio_unwatch t fd CB_RDWR in Val t
  end.
Fixpoint apply_reqs (t : T) (fd : Z) (qs : list poll_req) : outcome T :=
  match qs with [] => Val t | q :: qs => let! t := apply_req t fd q in apply_reqs t fd qs end.

(** [write] takes no more than it is given. *)
Definition write_fits (n : Z) (r : write_result) : Prop :=
  match r with Wrote k => 0 <= k <= n | _ => True end.

(** The thread leaves [send] with [ret]. *)
Definition leave (m : gmap nat place) (i : nat) (all : bool) : gmap nat place := broadcast all (delete i m).
Definition ack (l : list (list Z)) (b : list Z) (ret : bool) : list (list Z) :=
  if ret then l ++ [frame b] else l.

Definition after_turn (m : gmap nat place) (i : nat) (b : list Z) (all : bool) (nx : send_next)
  : gmap nat place :=
  match nx with
  | WaitTurn => <[i := WaitingTurn b false]> m
  | Removing => <[i := InRemove b]> m
  | WaitComplete => <[i := WaitingComplete b false]> m
  | Returns _ => leave m i all
  end.
Definition turn_ret (nx : send_next) : bool := match nx with Returns ret => ret | _ => false end.

(** A turn begins to write unless it waits or finds the connection dead. *)
Definition begins (c : connection) (nx : send_next) : bool :=
  match nx with WaitTurn => false | _ => negb (dead_ c) end.

Inductive sstep : sender -> sender -> Prop :=
(* [send] *)
| s_enter c t m o sn ak cl i b :
    m !! i = None -> good_pdu b ->
    sstep (Sender c t m o sn ak cl) (Sender (send_enter c) t (<[i := Entered b]> m) o sn ak cl)
| s_turn c t m o sn ak cl i p r c' o' all q nx t' :
    m !! i = Some p -> waits p = true -> write_fits (Z.of_nat (length (pdu_of p))) r ->
    send_turn c (pdu_of p) (Z.of_nat (length (pdu_of p))) r = Val (c', o', all, q, nx) ->
    apply_reqs t (fd_ c) q = Val t' ->
    sstep (Sender c t m o sn ak cl)
          (Sender c' t' (after_turn m i (pdu_of p) all nx) (o ++ o')
                  (if begins c nx then sn ++ [frame (pdu_of p)] else sn)
                  (ack ak (pdu_of p) (turn_ret nx)) cl)
| s_removed c t m o sn ak cl i b c' ret all :
    m !! i = Some (InRemove b) -> send_end c = (c', ret, all) ->
    sstep (Sender c t m o sn ak cl) (Sender c' t (leave m i all) o sn (ack ak b ret) cl)
| s_again c t m o sn ak cl i b sg :
    m !! i = Some (WaitingComplete b sg) -> send_waits c = true ->
    sstep (Sender c t m o sn ak cl) (Sender c t (<[i := WaitingComplete b false]> m) o sn ak cl)
| s_complete c t m o sn ak cl i b sg c' ret all :
    m !! i = Some (WaitingComplete b sg) -> send_waits c = false -> send_end c = (c', ret, all) ->
    sstep (Sender c t m o sn ak cl) (Sender c' t (leave m i all) o sn (ack ak b ret) cl)
(* the callbacks *)
| s_write c t m o sn ak cl r c' o' sg q t' :
    write_fits (sz (wpdu_ c) - solong (wpdu_ c)) r ->
    write_cb c (fd_ c) r = Val (c', o', sg, q) -> apply_reqs t (fd_ c) q = Val t' ->
    sstep (Sender c t m o sn ak cl) (Sender c' t' (signal sg m) (o ++ o') sn ak cl)
| s_read c t m o sn ak cl r1 r2 k c' got offer sg q t' :
    read_cb c (fd_ c) r1 r2 k = Val (c', got, offer, sg, q) -> apply_reqs t (fd_ c) q = Val t' ->
    sstep (Sender c t m o sn ak cl) (Sender c' t' (signal sg m) o sn ak cl)
(* closing, and what others do with the poll manager *)
| s_close c t m o sn ak cl c' q t' :
    closeconn c = (c', q) -> apply_reqs t (fd_ c) q = Val t' ->
    sstep (Sender c t m o sn ak cl) (Sender c' t' m o sn ak true)
| s_other c t m o sn ak cl t' :
    aio_ok t' -> aio_fd t' (fd_ c) -> w_rd t' (fd_ c) = w_rd t (fd_ c) -> w_wr t' (fd_ c) = w_wr t (fd_ c) ->
    sstep (Sender c t m o sn ak cl) (Sender c t' m o sn ak cl).

(** A new connection, its read callback added. *)
Record starts (s : sender) : Prop := {
  st_conn : ca s = (connection_new (fd_ (ca s))).1;
  st_threads : threads s = ∅;
  st_out : out s = [] /\ sent s = [] /\ acked s = [] /\ closed s = false;
  st_aio : aio_ok (aio s) /\ aio_fd (aio s) (fd_ (ca s)) /\ w_rd (aio s) (fd_ (ca s)) = true;
}.

(** *** Counting the threads that wait *)

Lemma waiting_insert_new m i p :
  m !! i = None -> waiting (<[i := p]> m) = (waiting m + if waits p then 1 else 0)%nat.
Proof.
  intros Hn. unfold waiting. destruct (waits p) eqn:E.
  - rewrite map_filter_insert_True by done. rewrite map_size_insert_None; [lia|].
    apply map_lookup_filter_None. by left.
  - rewrite map_filter_insert_False by (simpl; congruence). rewrite delete_id by done. lia.
Qed.

Lemma waiting_delete m i p :
  m !! i = Some p -> waiting m = (waiting (delete i m) + if waits p then 1 else 0)%nat.
Proof.
  intros Hs. rewrite <-(insert_delete_id m i p Hs) at 1. apply waiting_insert_new, lookup_delete_eq.
Qed.

Lemma waiting_insert m i p p' :
  m !! i = Some p' ->
  (waiting (<[i := p]> m) + (if waits p' then 1 else 0) = waiting m + (if waits p then 1 else 0))%nat.
Proof.
  intros Hs. rewrite <-insert_delete_eq, waiting_insert_new by apply lookup_delete_eq.
  rewrite (waiting_delete m i p' Hs). lia.
Qed.

Lemma waiting_fmap (f : place -> place) m :
  (forall p, waits (f p) = waits p) -> waiting (f <$> m) = waiting m.
Proof.
  intros Hf. unfold waiting. induction m as [|i p m Hi IH] using map_ind; [by rewrite fmap_empty|].
  rewrite fmap_insert. pose proof (waiting_insert_new m i p Hi) as E1.
  pose proof (waiting_insert_new (f <$> m) i (f p)) as E2. unfold waiting in *.
  rewrite E1, E2, IH, Hf; [done|]. by rewrite lookup_fmap, Hi.
Qed.

Lemma waiting_pos m i p : m !! i = Some p -> waits p = true -> (0 < waiting m)%nat.
Proof. intros Hs Hw. rewrite (waiting_delete m i p Hs), Hw. lia. Qed.

(** *** The invariant *)

(** The thread whose PDU is in [wpdu_]. *)
Definition current (m : gmap nat place) (i : nat) (b : list Z) : Prop :=
  m !! i = Some (InRemove b) \/ exists sg, m !! i = Some (WaitingComplete b sg).

(** The PDU being written, [k] bytes of it out. *)
Definition writing (w : charbuf) (b : list Z) (k : Z) : Prop :=
  w = Charbuf (Some (frame b)) (Z.of_nat (length b)) k /\ 0 <= k <= Z.of_nat (length b).

Record sinv (s : sender) : Prop := {
  v_good : forall i p, threads s !! i = Some p -> good_pdu (pdu_of p);
  v_frames : Forall wf_frame (sent s);
  v_count : waiters_ (ca s) = Z.of_nat (waiting (threads s));
  v_one : forall i j b b', current (threads s) i b -> current (threads s) j b' -> i = j;
  v_buf : is_Some (buf (wpdu_ (ca s))) -> exists i b, current (threads s) i b;
  v_idle : buf (wpdu_ (ca s)) = None -> wpdu_ (ca s) = charbuf_new /\
    (dead_ (ca s) = false -> out s = concat (sent s) /\ acked s = sent s);
  v_cur : forall i b, current (threads s) i b -> is_Some (buf (wpdu_ (ca s))) /\
    sent s = acked s ++ [frame b] /\
    (dead_ (ca s) = false -> exists k, writing (wpdu_ (ca s)) b k /\
       out s = concat (acked s) ++ take (Z.to_nat k) (frame b));
  v_rem : forall i b, threads s !! i = Some (InRemove b) -> dead_ (ca s) = true;
  v_pre : out s `prefix_of` concat (sent s);
  v_ack : acked s `prefix_of` sent s /\ concat (acked s) `prefix_of` out s;
  v_alive : dead_ (ca s) = false ->
    aio_ok (aio s) /\ aio_fd (aio s) (fd_ (ca s)) /\ w_rd (aio s) (fd_ (ca s)) = true;
  v_turn : forall i b, threads s !! i = Some (WaitingTurn b false) -> exists j b', current (threads s) j b';
  v_comp : forall i b sg, threads s !! i = Some (WaitingComplete b sg) ->
    (closed s = false -> sg = false -> send_waits (ca s) = true) /\
    (send_waits (ca s) = true -> w_wr (aio s) (fd_ (ca s)) = true);
}.

Lemma starts_inv s : starts s -> sinv s.
Proof.
  intros [Hc Ht (Ho & Hs & Ha & Hcl) (A1 & A2 & A3)].
  assert (forall i b, ~ current (threads s) i b) as Hn.
  { intros i b. rewrite Ht. by intros [Hx|[? Hx]]; rewrite lookup_empty in Hx. }
  split; rewrite ?Hs, ?Ha, ?Ho; try done.
  - intros i p. by rewrite Ht.
  - rewrite Ht, Hc. done.
  - intros i j b b' Hx. by destruct (Hn i b).
  - rewrite Hc. by intros [? ?].
  - rewrite Hc. done.
  - intros i b Hx. by destruct (Hn i b).
  - intros i b. by rewrite Ht.
  - intros i b. by rewrite Ht.
  - intros i b sg. by rewrite Ht.
Qed.

Lemma fmap_place (f : place -> place) (m : gmap nat place) i p :
  (f <$> m) !! i = Some p <-> exists p', m !! i = Some p' /\ p = f p'.
Proof. rewrite lookup_fmap. destruct (m !! i); simpl; naive_solver. Qed.

Lemma broadcast_lookup all m i p :
  broadcast all m !! i = Some p <->
  exists p', m !! i = Some p' /\ p = if all then wake_turn p' else p'.
Proof. unfold broadcast. destruct all; [apply fmap_place|]. naive_solver. Qed.

Lemma signal_lookup sg m i p :
  signal sg m !! i = Some p <->
  exists p', m !! i = Some p' /\ p = if sg then wake_complete p' else p'.
Proof. unfold signal. destruct sg; [apply fmap_place|]. naive_solver. Qed.

Lemma current_broadcast all m i b : current (broadcast all m) i b <-> current m i b.
Proof.
  unfold current. setoid_rewrite broadcast_lookup. destruct all; [|naive_solver]. split.
  - intros [([] & ? & ?)|(? & [] & ? & ?)]; simplify_eq/=; eauto.
  - intros [?|[sg ?]]; [left|right; exists sg]; by eexists.
Qed.

Lemma current_signal sg m i b : current (signal sg m) i b <-> current m i b.
Proof.
  unfold current. setoid_rewrite signal_lookup. destruct sg; [|naive_solver]. split.
  - intros [([] & ? & ?)|(? & [] & ? & ?)]; simplify_eq/=; eauto.
  - intros [?|[sg ?]]; [left|right; exists true]; by eexists.
Qed.

Lemma waiting_broadcast all m : waiting (broadcast all m) = waiting m.
Proof. unfold broadcast. destruct all; [|done]. apply waiting_fmap. by intros []. Qed.

Lemma waiting_signal sg m : waiting (signal sg m) = waiting m.
Proof. unfold signal. destruct sg; [|done]. apply waiting_fmap. by intros []. Qed.

Lemma current_delete (m : gmap nat place) i j b : current (delete i m) j b <-> i <> j /\ current m j b.
Proof.
  unfold current. setoid_rewrite lookup_delete_Some. naive_solver.
Qed.

Lemma current_insert_waits (m : gmap nat place) i p j b :
  waits p = true -> (forall b, ~ current m i b) ->
  current (<[i := p]> m) j b <-> current m j b.
Proof.
  intros Hp Hn. unfold current. destruct (decide (i = j)) as [->|Hne].
  - rewrite lookup_insert_eq. split; [intros [[= ->]|[? [= ->]]]; done|]. intros Hc. by destruct (Hn b).
  - by rewrite lookup_insert_ne.
Qed.

Lemma current_not_waits (m : gmap nat place) i p b : m !! i = Some p -> waits p = true -> ~ current m i b.
Proof. unfold current. intros -> Hp [[= ->]|[? [= ->]]]; done. Qed.

(** *** Writing *)

Lemma take_more {A} (l : list A) k n :
  0 <= k -> 0 <= n ->
  take (Z.to_nat k) l ++ take (Z.to_nat n) (drop (Z.to_nat k) l) = take (Z.to_nat (k + n)) l.
Proof. intros Hk Hn. rewrite Z2Nat.inj_add by done. apply take_take_drop. Qed.

Lemma writepdu_spec c b0 b k r c' o ok :
  good_pdu b -> wpdu_ c = Charbuf (Some b0) (Z.of_nat (length b)) k -> 0 <= k <= Z.of_nat (length b) ->
  length b0 = length b -> drop 4 b0 = drop 4 b -> (k <> 0 -> b0 = frame b) ->
  write_fits (Z.of_nat (length b) - k) r -> writepdu c r = Val (c', o, ok) ->
  exists w', c' = set_wpdu c w' /\
    if ok then exists k', writing w' b k' /\ take (Z.to_nat k) (frame b) ++ o = take (Z.to_nat k') (frame b)
    else o = [] /\ is_Some (buf w').
Proof.
  intros Hb Hw Hk Hl Hd Hk0 Hfit Hr. pose proof (length_frame b Hb) as Hlf. destruct Hb as [Hb4 _].
  unfold writepdu in Hr. rewrite Hw in Hr. cbn [solong sz buf] in Hr. rewrite (proj2 (Z.leb_le 0 k)) in Hr by lia.
  cbn [VERIFY obind] in Hr. destruct (Z.eqb_spec k (Z.of_nat (length b))) as [E|E].
  { injection Hr as <- <- <-. exists (wpdu_ c). split; [by destruct c|].
    exists k. rewrite app_nil_r. split; [|done]. split; [|lia]. rewrite Hw, Hk0 by lia. done. }
  assert ((if k =? 0 then if (4 <=? length b0)%nat then Val (be32 (Z.of_nat (length b)) ++ drop 4 b0)
           else Fault Undefined else Val b0) = Val (frame b)) as Hfr.
  { destruct (Z.eqb_spec k 0) as [->|]; [|by rewrite Hk0].
    rewrite (proj2 (Nat.leb_le 4 (length b0))) by lia. unfold frame. by rewrite Hd. }
  rewrite Hfr in Hr. cbn [obind] in Hr. rewrite Hlf, Z.ltb_irrefl in Hr.
  destruct r as [n| |]; injection Hr as <- <- <-; eexists; (split; [done|]); simpl in Hfit.
  - exists (k + n). split; [split; [done|lia]|]. apply take_more; lia.
  - exists k. rewrite app_nil_r. split; [split; [done|lia]|done].
  - by split.
Qed.

Lemma writepdu_first c b r c' o ok :
  good_pdu b -> wpdu_ c = Charbuf (Some b) (Z.of_nat (length b)) 0 ->
  write_fits (Z.of_nat (length b)) r -> writepdu c r = Val (c', o, ok) ->
  exists w', c' = set_wpdu c w' /\
    if ok then exists k', writing w' b k' /\ o = take (Z.to_nat k') (frame b)
    else o = [] /\ is_Some (buf w').
Proof. intros Hb Hw Hfit Hr. eapply (writepdu_spec c b b 0) in Hr; try done; [lia|]. by rewrite Z.sub_0_r. Qed.

Lemma writepdu_more c b k r c' o ok :
  good_pdu b -> writing (wpdu_ c) b k -> write_fits (sz (wpdu_ c) - solong (wpdu_ c)) r ->
  writepdu c r = Val (c', o, ok) ->
  exists w', c' = set_wpdu c w' /\
    if ok then exists k', writing w' b k' /\ take (Z.to_nat k) (frame b) ++ o = take (Z.to_nat k') (frame b)
    else o = [] /\ is_Some (buf w').
Proof.
  intros Hb [Hw Hk] Hfit Hr. rewrite Hw in Hfit.
  eapply (writepdu_spec c (frame b) b k) in Hr; try done. by apply length_frame.
Qed.

Lemma take_frame_all b k : good_pdu b -> Z.of_nat (length b) <= k -> take (Z.to_nat k) (frame b) = frame b.
Proof. intros Hb Hk. apply take_ge. rewrite length_frame by done. lia. Qed.

Lemma concat_snoc (l : list (list Z)) f : concat (l ++ [f]) = concat l ++ f.
Proof. rewrite concat_app. simpl. by rewrite app_nil_r. Qed.

(** Writing goes forward. *)
Lemma writing_mono b k k' o :
  good_pdu b -> 0 <= k <= Z.of_nat (length b) -> 0 <= k' <= Z.of_nat (length b) ->
  take (Z.to_nat k) (frame b) ++ o = take (Z.to_nat k') (frame b) -> k <= k'.
Proof.
  intros Hb Hk Hk' E. apply (f_equal length) in E. rewrite length_app, !length_take, length_frame in E by done.
  lia.
Qed.

(** *** Leaving [send] *)

(** The current thread ends: the buffer is free, and everyone is woken. *)
Lemma framing_end c t m o sn ak cl i b c' ret all :
  sinv (Sender c t m o sn ak cl) -> current m i b -> (dead_ c = false -> send_waits c = false) ->
  send_end c = (c', ret, all) ->
  sinv (Sender c' t (leave m i all) o sn (ack ak b ret) cl).
Proof.
  intros [V1 V2 V3 V4 V5 V6 V7 V8 V9 V10 V11 V12 V13] Hc Hw He. simpl in *.
  assert (exists p, m !! i = Some p /\ pdu_of p = b /\ waits p = false) as (p & Hp & Hpb & Hwp).
  { destruct Hc as [?|[sg ?]]; eauto. }
  destruct (V7 i b Hc) as (_ & Hsn & Hal). unfold send_end in He. injection He as <- <- <-.
  assert (forall j b', ~ current (leave m i (waiters_ c >? 0)) j b') as Hno.
  { intros j b'. unfold leave. rewrite current_broadcast, current_delete. intros [Hne Hj]. by apply Hne, (V4 i j b b'). }
  assert (forall j p', leave m i (waiters_ c >? 0) !! j = Some p' ->
            exists q, m !! j = Some q /\ (p' = q \/ p' = wake_turn q) /\ (waiters_ c > 0 -> p' = wake_turn q))
    as Hlook.
  { intros j p'. unfold leave. rewrite broadcast_lookup. intros (q & [_ Hq]%lookup_delete_Some & ->).
    exists q. split; [done|]. destruct (Z.gtb_spec (waiters_ c) 0); split; auto; lia. }
  assert (dead_ c = false -> exists k, wpdu_ c = Charbuf (Some (frame b)) (Z.of_nat (length b)) k /\
            k = Z.of_nat (length b) /\ o = concat sn) as Hdone.
  { intros Hd. destruct (Hal Hd) as (k & [Hwp' Hk] & Ho). exists k. specialize (Hw Hd).
    unfold send_waits in Hw. rewrite Hd, Hwp' in Hw. simpl in Hw.
    assert (k = Z.of_nat (length b)) as E.
    { destruct (Z.geb_spec k 0); [|lia]. destruct (Z.ltb_spec k (Z.of_nat (length b))); [done|lia]. }
    split_and!; [done|done|]. rewrite Ho, Hsn, concat_snoc, take_frame_all; [done| |lia].
    rewrite <-Hpb. by apply (V1 i). }
  split; simpl.
  - intros j p' (q & Hq & [->| ->] & _)%Hlook; [by apply (V1 j)|]. specialize (V1 j q Hq). by destruct q.
  - done.
  - unfold leave. rewrite waiting_broadcast, V3, (waiting_delete m i p Hp), Hwp. lia.
  - intros j1 j2 b1 b2 Hj. by destruct (Hno j1 b1).
  - by intros [? ?].
  - intros _. split; [done|]. intros Hd. destruct (Hdone Hd) as (k & Hk & E & ->). split; [done|].
    rewrite Hd, Hk. simpl. by rewrite E, Z.eqb_refl, Hsn.
  - intros j b' Hj. by destruct (Hno j b').
  - intros j b' Hj. destruct (Hno j b'). by left.
  - done.
  - unfold ack. destruct (negb (dead_ c) && _) eqn:Hr; [|done]. rewrite Hsn, concat_snoc. split; [done|].
    apply andb_prop in Hr as [Hd _]. apply negb_true_iff in Hd.
    destruct (Hdone Hd) as (k & _ & _ & ->). by rewrite Hsn, concat_snoc.
  - done.
  - intros j b' (q & Hq & Hp' & Hall)%Hlook. exfalso. assert (waits q = true) as Hwq.
    { by destruct Hp' as [<-|E]; [|destruct q]. }
    pose proof (waiting_pos m j q Hq Hwq). rewrite V3 in Hall. rewrite Hall in Hp' by lia.
    specialize (Hall ltac:(lia)). by destruct q.
  - intros j b' sg Hj. destruct (Hno j b'). right. eauto.
Qed.

(** *** Reading leaves the writer's side alone *)

Lemma readpdu_body_frame c l r c' got ok :
  readpdu_body c l r = Val (c', got, ok) -> exists p, c' = set_rpdu c p.
Proof.
  unfold readpdu_body. destruct (_ <? 0); [done|]. destruct r as [g|[]|[]]; intros [= <- _ _]; eauto;
    exists (rpdu_ c); by destruct c.
Qed.

Lemma readpdu_frame c r1 r2 c' got ok : readpdu c r1 r2 = Val (c', got, ok) -> exists p, c' = set_rpdu c p.
Proof.
  assert (exists p, c = set_rpdu c p) as Hid by (exists (rpdu_ c); by destruct c).
  unfold readpdu. destruct (_ =? 0).
  - destruct r1 as [l|a|a]; [|by intros [= <- _ _]|intros Hr; by apply obind_val in Hr as (_ & _ & [= <- _ _])].
    destruct (negb _); [by intros [= <- _ _]|]. destruct (_ >? _); [by intros [= <- _ _]|].
    intros Hr. apply obind_val in Hr as (_ & _ & Hr). apply obind_val in Hr as (_ & _ & Hr).
    destruct (_ <? 0); [done|]. apply obind_val in Hr as ([[c1 g] ok1] & Hr & [= <- _ _]).
    apply readpdu_body_frame in Hr as [p ->]. by exists p.
  - intros Hr. apply obind_val in Hr as (l & _ & Hr). by apply readpdu_body_frame in Hr.
Qed.

Lemma read_cb_frame c r1 r2 k c' got offer sg q :
  read_cb c (fd_ c) r1 r2 k = Val (c', got, offer, sg, q) ->
  wpdu_ c' = wpdu_ c /\ waiters_ c' = waiters_ c /\ fd_ c' = fd_ c /\
  (dead_ c' = dead_ c /\ sg = false /\ q = [] \/ dead_ c' = true /\ sg = true).
Proof.
  unfold read_cb. intros Hr. apply obind_val in Hr as (_ & _ & Hr).
  destruct (dead_ c) eqn:Hd; [injection Hr as <- _ _ <- <-; split_and!; auto|].
  apply obind_val in Hr as ([[c1 g] ok] & Hread & Hr).
  assert (exists p, c1 = set_rpdu c p) as [p ->].
  { destruct (_ || _); [by eapply readpdu_frame|]. injection Hread as <- _ _. exists (rpdu_ c). by destruct c. }
  destruct ok; simpl in Hr; (destruct (buf p); [destruct (_ =? _); [destruct k|]|]);
    injection Hr as <- _ _ <- <-; simpl; split_and!; auto.
Qed.

(** *** A turn of [send] *)

Lemma inv_enter c t m o sn ak cl i b :
  sinv (Sender c t m o sn ak cl) -> m !! i = None -> good_pdu b ->
  sinv (Sender (send_enter c) t (<[i := Entered b]> m) o sn ak cl).
Proof.
  intros [V1 V2 V3 V4 V5 V6 V7 V8 V9 V10 V11 V12 V13] Hn Hb. simpl in *.
  assert (forall j b', current (<[i := Entered b]> m) j b' <-> current m j b') as Hcur.
  { intros j b'. apply current_insert_waits; [done|]. intros b1. unfold current. rewrite Hn. naive_solver. }
  assert (forall j p, <[i := Entered b]> m !! j = Some p -> p = Entered b \/ m !! j = Some p) as Hl.
  { intros j p [[_ <-]|[_ Hj]]%lookup_insert_Some; auto. }
  split; simpl; auto.
  - intros j p [->|Hj]%Hl; [done|by apply (V1 j)].
  - rewrite waiting_insert_new by done. simpl. lia.
  - intros j1 j2 b1 b2. rewrite !Hcur. apply V4.
  - intros Hx. destruct (V5 Hx) as (j & b' & Hj). exists j, b'. by apply Hcur.
  - intros j b'. rewrite Hcur. apply V7.
  - intros j b' [?|Hj]%Hl; [done|by apply (V8 j b')].
  - intros j b' [?|Hj]%Hl; [done|]. destruct (V12 j b' Hj) as (k & b2 & Hk). exists k, b2. by apply Hcur.
  - intros j b' sg [?|Hj]%Hl; [done|by apply (V13 j b')].
Qed.

(** It waits for its turn: another thread is writing. *)
Lemma inv_wait c t m o sn ak cl i p :
  sinv (Sender c t m o sn ak cl) -> m !! i = Some p -> waits p = true -> is_Some (buf (wpdu_ c)) ->
  sinv (Sender c t (<[i := WaitingTurn (pdu_of p) false]> m) o sn ak cl).
Proof.
  intros [V1 V2 V3 V4 V5 V6 V7 V8 V9 V10 V11 V12 V13] Hp Hw Hb. simpl in *.
  assert (forall j b', current (<[i := WaitingTurn (pdu_of p) false]> m) j b' <-> current m j b') as Hcur.
  { intros j b'. apply current_insert_waits; [done|]. intros b1. by eapply current_not_waits. }
  assert (forall j q, <[i := WaitingTurn (pdu_of p) false]> m !! j = Some q ->
            q = WaitingTurn (pdu_of p) false \/ m !! j = Some q) as Hl.
  { intros j q [[_ <-]|[_ Hj]]%lookup_insert_Some; auto. }
  destruct (V5 Hb) as (k & bk & Hk).
  split; simpl; auto.
  - intros j q [->|Hj]%Hl; [exact (V1 i p Hp)|by apply (V1 j)].
  - pose proof (waiting_insert m i (WaitingTurn (pdu_of p) false) p Hp) as E. rewrite Hw in E. simpl in E. lia.
  - intros j1 j2 b1 b2. rewrite !Hcur. apply V4.
  - intros _. exists k, bk. by apply Hcur.
  - intros j b'. rewrite Hcur. apply V7.
  - intros j b' [?|Hj]%Hl; [done|by apply (V8 j b')].
  - intros j b' _. exists k, bk. by apply Hcur.
  - intros j b' sg [?|Hj]%Hl; [done|by apply (V13 j b')].
Qed.

(** It finds the connection dead. *)
Lemma inv_refused c t m o sn ak cl i p :
  sinv (Sender c t m o sn ak cl) -> m !! i = Some p -> waits p = true -> dead_ c = true ->
  sinv (Sender (set_waiters c (waiters_ c - 1)) t (delete i m) o sn ak cl).
Proof.
  intros [V1 V2 V3 V4 V5 V6 V7 V8 V9 V10 V11 V12 V13] Hp Hw Hd. simpl in *.
  assert (forall j b', current (delete i m) j b' <-> current m j b') as Hcur.
  { intros j b'. rewrite current_delete. split; [naive_solver|]. intros Hj. split; [|done].
    intros ->. by eapply current_not_waits. }
  split; simpl; auto.
  - intros j q [_ Hj]%lookup_delete_Some. by apply (V1 j).
  - rewrite V3, (waiting_delete m i p Hp), Hw. lia.
  - intros j1 j2 b1 b2. rewrite !Hcur. apply V4.
  - intros Hx. destruct (V5 Hx) as (k & bk & Hk). exists k, bk. by apply Hcur.
  - intros j b'. rewrite Hcur. apply V7.
  - intros j b' [_ Hj]%lookup_delete_Some. destruct (V12 j b' Hj) as (k & bk & Hk). exists k, bk. by apply Hcur.
  - intros j b' sg [_ Hj]%lookup_delete_Some. by apply (V13 j b').
Qed.

(** It begins to write, with [place] and connection as they are afterwards. *)
Lemma framing_begin c t m o sn ak cl i p w' dead' t' o' np :
  sinv (Sender c t m o sn ak cl) -> m !! i = Some p -> waits p = true ->
  dead_ c = false -> buf (wpdu_ c) = None -> is_Some (buf w') ->
  (dead' = false -> exists k sg, writing w' (pdu_of p) k /\ o' = take (Z.to_nat k) (frame (pdu_of p)) /\
     np = WaitingComplete (pdu_of p) sg /\
     aio_ok t' /\ aio_fd t' (fd_ c) /\ w_rd t' (fd_ c) = true /\
     (sg = false -> k <> Z.of_nat (length (pdu_of p))) /\
     (k <> Z.of_nat (length (pdu_of p)) -> w_wr t' (fd_ c) = true)) ->
  (dead' = true -> o' = [] /\ np = InRemove (pdu_of p)) ->
  sinv (Sender (MkConn (fd_ c) dead' w' (rpdu_ c) (waiters_ c - 1) (refno_ c)) t' (<[i := np]> m)
               (o ++ o') (sn ++ [frame (pdu_of p)]) ak cl).
Proof.
  intros [V1 V2 V3 V4 V5 V6 V7 V8 V9 V10 V11 V12 V13] Hp Hw Hd Hb Hb' Hlive Hdead. simpl in *.
  destruct (V6 Hb) as [Hwp Hsn]. destruct (Hsn Hd) as [-> ->]. pose proof (V1 i p Hp) as Hg.
  assert (forall j b, ~ current m j b) as Hno.
  { intros j b Hj. destruct (V7 j b Hj) as ([x Hx] & _). congruence. }
  assert (pdu_of np = pdu_of p /\ waits np = false /\ forall b sg, np <> WaitingTurn b sg) as (Hpn & Hwn & Hnt).
  { destruct dead'; [destruct (Hdead eq_refl) as [_ ->]|destruct (Hlive eq_refl) as (? & ? & _ & _ & -> & _)]; done. }
  assert (forall j b, current (<[i := np]> m) j b -> j = i /\ b = pdu_of p) as Hcur.
  { intros j b. destruct (decide (i = j)) as [->|Hne].
    - unfold current. rewrite lookup_insert_eq. intros [[= ->]|[sg [= ->]]]; by rewrite <-Hpn.
    - intros Hj. destruct (Hno j b). unfold current in *. by rewrite lookup_insert_ne in Hj. }
  assert (current (<[i := np]> m) i (pdu_of p)) as Hci.
  { unfold current. rewrite lookup_insert_eq. destruct dead'; [destruct (Hdead eq_refl) as [_ ->]; by left|].
    destruct (Hlive eq_refl) as (? & ? & _ & _ & -> & _). right. by eexists. }
  assert (forall j q, <[i := np]> m !! j = Some q -> q = np \/ m !! j = Some q) as Hl.
  { intros j q [[_ <-]|[_ Hj]]%lookup_insert_Some; auto. }
  assert (o' `prefix_of` frame (pdu_of p)) as Hpre.
  { destruct dead'; [destruct (Hdead eq_refl) as [-> _]; apply prefix_nil|].
    destruct (Hlive eq_refl) as (k & ? & _ & -> & _). apply prefix_take. }
  split; simpl.
  - intros j q [->|Hj]%Hl; [by rewrite Hpn|by apply (V1 j)].
  - apply Forall_app. split; [done|]. apply Forall_singleton. by apply frame_wf.
  - pose proof (waiting_insert m i np p Hp) as E. rewrite Hw, Hwn in E. lia.
  - intros j1 j2 b1 b2 [-> _]%Hcur [-> _]%Hcur. done.
  - intros _. by exists i, (pdu_of p).
  - intros Hx. rewrite Hx in Hb'. by destruct Hb'.
  - intros j b [-> ->]%Hcur. split_and!; [done|done|]. intros Hd'.
    destruct (Hlive Hd') as (k & ? & Hk & -> & _). by exists k.
  - intros j b [Hj|Hj]%Hl; [|destruct (Hno j b); by left].
    destruct dead'; [done|]. destruct (Hlive eq_refl) as (? & ? & _ & _ & -> & _). done.
  - rewrite concat_snoc. by apply prefix_app.
  - split; [by apply prefix_app_r|by apply prefix_app_r].
  - intros Hd'. by destruct (Hlive Hd') as (k & ? & _ & _ & _ & ? & ? & ? & _).
  - intros j b [Hj|Hj]%Hl; [by destruct (Hnt b false)|]. by exists i, (pdu_of p).
  - intros j b sg [Hj|Hj]%Hl; [|destruct (Hno j b); right; by eexists].
    destruct dead'; [destruct (Hdead eq_refl) as [_ ->]; done|].
    destruct (Hlive eq_refl) as (k & sg' & [-> Hk] & _ & -> & _ & _ & _ & Hsg1 & Hsg2).
    injection Hj as _ <-. unfold send_waits. simpl. split.
    + intros _ Hf. specialize (Hsg1 Hf).
      destruct (Z.geb_spec k 0), (Z.ltb_spec k (Z.of_nat (length (pdu_of p)))); (done || lia).
    + intros [_ Hx%Z.ltb_lt]%andb_prop. apply Hsg2. lia.
Qed.

Lemma set_begin c b n w' :
  set_wpdu (set_wpdu (set_waiters c n) b) w' =
  MkConn (fd_ c) (dead_ c) w' (rpdu_ c) n (refno_ c).
Proof. done. Qed.

Lemma watch_for_writing t fd t' :
  aio_ok t -> aio_fd t fd -> w_rd t fd = true -> aio_watch t fd CB_WRONLY = Val t' ->
  aio_ok t' /\ aio_fd t' fd /\ w_rd t' fd = true /\ w_wr t' fd = true.
Proof.
  intros Hok Hfd Hr Hw. destruct (watch_law t fd CB_WRONLY Hok Hfd eq_refl) as (t1 & E & [R1 R2 R3 R4]).
  rewrite E in Hw. injection Hw as <-. split_and!; [done|auto| |].
  - by rewrite R3, decide_True, Hr.
  - rewrite R4, decide_True by done. by rewrite orb_true_r.
Qed.

Lemma inv_turn c t m o sn ak cl i p r c' o' all q nx t' :
  sinv (Sender c t m o sn ak cl) -> m !! i = Some p -> waits p = true ->
  write_fits (Z.of_nat (length (pdu_of p))) r ->
  send_turn c (pdu_of p) (Z.of_nat (length (pdu_of p))) r = Val (c', o', all, q, nx) ->
  apply_reqs t (fd_ c) q = Val t' ->
  sinv (Sender c' t' (after_turn m i (pdu_of p) all nx) (o ++ o')
               (if begins c nx then sn ++ [frame (pdu_of p)] else sn)
               (ack ak (pdu_of p) (turn_ret nx)) cl).
Proof.
  intros Hi Hp Hw Hfit Hs Hq. unfold send_turn in Hs. destruct (dead_ c) eqn:Hd.
  { simpl in Hs. rewrite Hd in Hs. injection Hs as <- <- <- <- <-. simpl in *. injection Hq as <-.
    rewrite Hd, app_nil_r. by apply (inv_refused c t m o sn ak cl i p). }
  cbn [negb andb] in Hs. case_bool_decide as Hb.
  { injection Hs as <- <- <- <- <-. simpl in *. injection Hq as <-. rewrite app_nil_r.
    by apply (inv_wait c t m o sn ak cl i p). }
  assert (buf (wpdu_ c) = None) as Hn by (by apply eq_None_not_Some).
  cbn [dead_ set_waiters] in Hs. rewrite Hd in Hs.
  apply obind_val in Hs as ([[c1 o1] ok] & Hwr & Hs).
  pose proof (v_good _ Hi i p Hp) as Hg.
  eapply writepdu_first in Hwr as (w' & -> & Hok); [|exact Hg|done|done].
  rewrite set_begin in Hs. destruct (v_alive _ Hi Hd) as (A1 & A2 & A3). simpl in A1, A2, A3.
  assert (begins c nx = true) as Hbeg.
  { unfold begins. rewrite Hd. destruct nx; [|done..]. destruct ok; [|done]. cbn [negb] in Hs.
    destruct (_ =? _); [|done]. destruct (send_end _) as [[? ?] ?]. done. }
  rewrite Hbeg. destruct ok; cbn [negb] in Hs.
  - destruct Hok as (k & Hk & ->). pose proof Hk as [Hk1 Hk2]. cbn [wpdu_] in Hs.
    replace (solong w') with k in Hs by (by rewrite Hk1).
    replace (sz w') with (Z.of_nat (length (pdu_of p))) in Hs by (by rewrite Hk1).
    destruct (Z.eqb_spec k (Z.of_nat (length (pdu_of p)))) as [E|E].
    + destruct (send_end _) as [[c2 ret] all'] eqn:He. injection Hs as <- <- <- <- <-.
      simpl in Hq. injection Hq as <-. simpl.
      eapply (framing_end _ _ (<[i := WaitingComplete (pdu_of p) true]> m) _ _ _ _ i) in He.
      * unfold leave in *. rewrite delete_insert_eq in He. exact He.
      * apply (framing_begin c t m o sn ak cl i p); try done; [by rewrite Hk1| |by rewrite Hd].
        intros _. exists k, true. split_and!; done.
      * right. exists true. apply lookup_insert_eq.
      * intros _. unfold send_waits. simpl. rewrite Hk1. simpl. rewrite E, Z.ltb_irrefl. apply andb_false_r.
    + injection Hs as <- <- <- <- <-. simpl in Hq |- *. rewrite Hd. apply obind_val in Hq as (t1 & Hq & [= <-]).
      destruct (watch_for_writing t (fd_ c) t1) as (B1 & B2 & B3 & B4); [done..|].
      apply (framing_begin c t m o sn ak cl i p); try done; [by rewrite Hk1|].
      intros _. exists k, false. split_and!; done.
  - destruct Hok as [-> Hsome]. injection Hs as <- <- <- <- <-. simpl in Hq |- *.
    apply (framing_begin c t m o sn ak cl i p); try done.
Qed.

(** *** The callbacks *)

(** The connection dies, and the current sender is signalled. *)
Lemma inv_dies c t m o sn ak cl c' t' sg :
  sinv (Sender c t m o sn ak cl) -> dead_ c' = true -> waiters_ c' = waiters_ c ->
  (is_Some (buf (wpdu_ c')) <-> is_Some (buf (wpdu_ c))) ->
  (buf (wpdu_ c') = None -> wpdu_ c' = wpdu_ c) ->
  (sg = true \/ cl = true) -> sinv (Sender c' t' (signal sg m) o sn ak cl).
Proof.
  intros [V1 V2 V3 V4 V5 V6 V7 V8 V9 V10 V11 V12 V13] Hd Hwt Hb Hbn Hsg. simpl in *.
  split; simpl; auto; try congruence.
  - intros i p (q & Hq & ->)%signal_lookup. specialize (V1 i q Hq). destruct sg; [by destruct q|done].
  - rewrite waiting_signal. congruence.
  - intros i j b b'. rewrite !current_signal. apply V4.
  - intros Hx. destruct (V5 (proj1 Hb Hx)) as (i & b & Hi). exists i, b. by apply current_signal.
  - intros Hx. split; [|congruence]. rewrite (Hbn Hx). apply V6. rewrite <-(Hbn Hx). done.
  - intros i b Hi%current_signal. destruct (V7 i b Hi) as (Hx & Hs & _). split_and!; [by apply Hb|done|congruence].
  - intros i b (q & Hq & Hqq)%signal_lookup. destruct (V12 i b) as (j & b' & Hj).
    { rewrite Hq. destruct sg, q; simpl in Hqq; congruence. }
    exists j, b'. by apply current_signal.
  - intros i b sg' (q & Hq & Hqq)%signal_lookup. unfold send_waits. rewrite Hd. split; [|done].
    intros Hcl ->. destruct Hsg as [->|]; [by destruct q|congruence].
Qed.

Lemma no_write_interest t fd t' b :
  aio_ok t -> aio_fd t fd -> w_rd t fd = true -> aio_unwatch t fd CB_WRONLY = Val (t', b) ->
  aio_ok t' /\ aio_fd t' fd /\ w_rd t' fd = true.
Proof.
  intros Hok Hfd Hr Hw.
  destruct (unwatch_law t fd CB_WRONLY Hok Hfd eq_refl) as (t1 & b1 & E & [R1 R2 R3 R4] & _); [by rewrite Hr|].
  rewrite E in Hw. injection Hw as <- <-. split_and!; [done|auto|]. by rewrite R3, decide_True, Hr.
Qed.

Lemma inv_write c t m o sn ak cl r c' o' sg q t' :
  sinv (Sender c t m o sn ak cl) -> write_fits (sz (wpdu_ c) - solong (wpdu_ c)) r ->
  write_cb c (fd_ c) r = Val (c', o', sg, q) -> apply_reqs t (fd_ c) q = Val t' ->
  sinv (Sender c' t' (signal sg m) (o ++ o') sn ak cl).
Proof.
  intros Hi Hfit Hw Hq. pose proof Hi as [V1 V2 V3 V4 V5 V6 V7 V8 V9 V10 V11 V12 V13].
  unfold write_cb in Hw. apply obind_val in Hw as ([] & Hd & Hw). apply VERIFY_val, negb_true_iff in Hd.
  apply obind_val in Hw as (_ & _ & Hw). destruct (V11 Hd) as (A1 & A2 & A3). simpl in *.
  destruct (Z.eqb_spec (sz (wpdu_ c)) 0) as [Hz|Hz].
  - injection Hw as <- <- <- <-. rewrite app_nil_r. simpl in Hq.
    apply obind_val in Hq as (t1 & Hq & [= <-]). apply obind_val in Hq as ([t2 b] & Hq & [= <-]).
    destruct (no_write_interest t (fd_ c) t2 b) as (B1 & B2 & B3); [done..|].
    split; simpl; auto. intros i b' sg' Hx. exfalso.
    destruct (V7 i b') as (_ & _ & Hk); [right; by eexists|]. destruct (Hk Hd) as (k & [Hwk _] & _).
    pose proof (V1 i _ Hx) as [Hb _]. rewrite Hwk in Hz. simpl in *. lia.
  - assert (exists i b, current m i b) as (i & b & Hcur).
    { apply V5. destruct (buf (wpdu_ c)) eqn:E; [by eexists|]. destruct (V6 eq_refl) as [Hx _]. by rewrite Hx in Hz. }
    destruct (V7 i b Hcur) as (Hsome & Hsn & Hk). destruct (Hk Hd) as (k & Hwk & ->).
    assert (good_pdu b) as Hg. { destruct Hcur as [Hx|[? Hx]]; exact (V1 i _ Hx). }
    apply obind_val in Hw as ([[c1 o1] ok] & Hwr & Hw).
    eapply writepdu_more in Hwr as (w' & -> & Hok); [|exact Hg|exact Hwk|done].
    destruct ok; cbn [negb] in Hw.
    + destruct Hok as (k' & Hwk' & Hout). pose proof Hwk' as [Hw1 Hw2].
      apply obind_val in Hw as (_ & _ & Hw). simpl in Hw. rewrite Hw1 in Hw. simpl in Hw.
      assert (c' = set_wpdu c w' /\ o' = o1 /\ q = [] /\ sg = negb (k' <? Z.of_nat (length b)))
        as (-> & -> & -> & ->).
      { rewrite Hw1. destruct (_ <? _); by injection Hw as <- <- <- <-. }
      simpl in Hq. injection Hq as <-.
      split; simpl; rewrite <-?app_assoc, ?Hout; auto.
      * intros j p (q & Hq & ->)%signal_lookup. specialize (V1 j q Hq). destruct (negb _); [by destruct q|done].
      * by rewrite waiting_signal.
      * intros j1 j2 b1 b2. rewrite !current_signal. apply V4.
      * intros _. exists i, b. by apply current_signal.
      * intros Hx. rewrite Hw1 in Hx. done.
      * intros j b' Hj%current_signal. assert (i = j) as <- by (by eapply V4).
        assert (b = b') as <-.
        { destruct Hcur as [E1|[? E1]], Hj as [E2|[? E2]]; rewrite E1 in E2; by simplify_eq. }
        split_and!; [rewrite Hw1; by eexists|done|]. intros _. by exists k'.
      * intros j b' (q & Hq & Hqq)%signal_lookup. apply (V8 j b'). rewrite Hq. destruct (negb _), q; simpl in Hqq; congruence.
      * rewrite Hsn, concat_snoc. apply prefix_app, prefix_take.
      * split; [apply V10|]. by apply prefix_app_r.
      * intros j b' (q & Hq & Hqq)%signal_lookup. exists i, b. by apply current_signal.
      * intros j b' sg' (q & Hq & Hqq)%signal_lookup. unfold send_waits. simpl. rewrite Hd, Hw1. simpl.
        destruct (Z.ltb_spec k' (Z.of_nat (length b))) as [Hlt|Hge]; simpl in Hqq.
        -- subst q. rewrite andb_true_r. split; [intros _ _; destruct (Z.geb_spec k' 0); (done || lia)|].
           intros _. apply (V13 j b' sg' Hq). unfold send_waits. rewrite Hd. destruct Hwk as [-> Hk0]. simpl.
           pose proof (writing_mono b k k' o1 Hg Hk0 Hw2 Hout).
           destruct (Z.geb_spec k 0), (Z.ltb_spec k (Z.of_nat (length b))); (done || lia).
        -- rewrite andb_false_r. split; [|done]. intros _ ->. by destruct q.
    + destruct Hok as [-> Hs']. injection Hw as <- <- <- <-. rewrite app_nil_r.
      eapply inv_dies; [exact Hi|done|done|done| |by left]. simpl. intros Hx. rewrite Hx in Hs'. by destruct Hs'.
Qed.

Lemma inv_read c t m o sn ak cl r1 r2 k c' got offer sg q t' :
  sinv (Sender c t m o sn ak cl) ->
  read_cb c (fd_ c) r1 r2 k = Val (c', got, offer, sg, q) -> apply_reqs t (fd_ c) q = Val t' ->
  sinv (Sender c' t' (signal sg m) o sn ak cl).
Proof.
  intros Hi Hr Hq.
  assert (wpdu_ c' = wpdu_ c /\ waiters_ c' = waiters_ c /\ fd_ c' = fd_ c /\
          (dead_ c' = dead_ c /\ sg = false /\ q = [] \/ dead_ c' = true /\ sg = true))
    as (E1 & E2 & E3 & E4) by (by eapply read_cb_frame).
  destruct E4 as [(E4 & -> & ->)|[E4 ->]].
  - simpl in Hq. injection Hq as <-. destruct Hi as [V1 V2 V3 V4 V5 V6 V7 V8 V9 V10 V11 V12 V13].
    split; simpl in *; unfold send_waits in *; rewrite ?E1, ?E2, ?E3, ?E4; auto.
  - apply (inv_dies c t m o sn ak cl); auto; by rewrite E1.
Qed.

Lemma signal_none m : signal false m = m.
Proof. done. Qed.

Lemma sstep_inv s s' : sinv s -> sstep s s' -> sinv s'.
Proof.
  intros Hi Hs. destruct Hs as
    [c t m o sn ak cl i b Hn Hb|c t m o sn ak cl i p r c' o' all q nx t' Hp Hw Hfit Ht Hq
    |c t m o sn ak cl i b c' ret all Hp He|c t m o sn ak cl i b sg Hp Hw
    |c t m o sn ak cl i b sg c' ret all Hp Hw He|c t m o sn ak cl r c' o' sg q t' Hfit Hw Hq
    |c t m o sn ak cl r1 r2 k c' got offer sg q t' Hr Hq|c t m o sn ak cl c' q t' Hc Hq
    |c t m o sn ak cl t' A1 A2 A3 A4].
  - by apply inv_enter.
  - by eapply inv_turn.
  - eapply framing_end; [done|by left| |done]. intros Hd. pose proof (v_rem _ Hi i b Hp) as Hx. simpl in Hx. congruence.
  - destruct Hi as [V1 V2 V3 V4 V5 V6 V7 V8 V9 V10 V11 V12 V13]. simpl in *.
    assert (forall j b', current (<[i := WaitingComplete b false]> m) j b' <-> current m j b') as Hcur.
    { intros j b'. unfold current. destruct (decide (i = j)) as [->|Hne]; [|by rewrite lookup_insert_ne].
      rewrite lookup_insert_eq, Hp. naive_solver. }
    assert (forall j q, <[i := WaitingComplete b false]> m !! j = Some q ->
              i = j /\ q = WaitingComplete b false \/ m !! j = Some q) as Hl.
    { intros j q [[-> <-]|[_ Hj]]%lookup_insert_Some; auto. }
    destruct (V13 i b sg Hp) as [_ Hwr]. specialize (Hwr Hw).
    split; simpl; auto.
    + intros j q [[_ ->]|Hj]%Hl; [exact (V1 i _ Hp)|by apply (V1 j)].
    + pose proof (waiting_insert m i (WaitingComplete b false) _ Hp) as E. simpl in E. lia.
    + intros j1 j2 b1 b2. rewrite !Hcur. apply V4.
    + intros Hx. destruct (V5 Hx) as (j & b' & Hj). exists j, b'. by apply Hcur.
    + intros j b'. rewrite Hcur. apply V7.
    + intros j b' [[_ ?]|Hj]%Hl; [done|by apply (V8 j b')].
    + intros j b' _. exists i, b. apply Hcur. right. by eexists.
  - eapply framing_end; [done|right; by eexists| |done]. done.
  - by eapply inv_write.
  - by eapply inv_read.
  - unfold closeconn in Hc. destruct (dead_ c) eqn:Hd; simpl in Hc; injection Hc as <- <-.
    + simpl in Hq. injection Hq as <-. destruct Hi as [V1 V2 V3 V4 V5 V6 V7 V8 V9 V10 V11 V12 V13].
      split; simpl in *; auto. intros i b sg Hx. split; [done|]. by apply (V13 i b sg).
    + rewrite <-(signal_none m). apply (inv_dies c t m o sn ak true); auto.
      destruct Hi as [V1 V2 V3 V4 V5 V6 V7 V8 V9 V10 V11 V12 V13].
      split; simpl in *; auto. intros i b sg Hx. split; [done|]. by apply (V13 i b sg).
  - destruct Hi as [V1 V2 V3 V4 V5 V6 V7 V8 V9 V10 V11 V12 V13].
    split; simpl in *; rewrite ?A3, ?A4; auto. intros Hd. by destruct (V11 Hd) as (_ & _ & ?).
Qed.

Lemma reachable_sinv s0 s : starts s0 -> rtc sstep s0 s -> sinv s.
Proof.
  intros H0%starts_inv Hr. revert H0. induction Hr as [|s1 s2 s3 Hs Hr IH]; [done|].
  intros Hi. apply IH. by eapply sstep_inv.
Qed.

(** ** Both ends *)

Inductive wstep : sender * receiver -> sender * receiver -> Prop :=
| w_sender s s' r : sstep s s' -> wstep (s, r) (s', r)
| w_receiver s r r' : rstep (out s) r r' -> wstep (s, r) (s, r').

Definition fresh_receiver (r : receiver) : Prop :=
  cb r = (connection_new (fd_ (cb r))).1 /\ taken r = [] /\ delivered r = [].

Lemma fresh_rinv r sn : fresh_receiver r -> rinv sn r.
Proof.
  intros (Hc & Ht & Hd). split; rewrite ?Ht, ?Hd.
  - apply prefix_nil.
  - apply prefix_nil.
  - intros _. unfold in_buffer. by rewrite Hc.
  - by rewrite Hc.
  - intros l _. by rewrite Hc.
Qed.

Lemma sstep_sent s s' : sstep s s' -> exists more, sent s' = sent s ++ more.
Proof.
  intros Hs. destruct Hs; simpl; try (exists []; by rewrite app_nil_r).
  destruct (begins c nx); [by eexists|exists []; by rewrite app_nil_r].
Qed.

Lemma reachable_winv s0 r0 s r :
  starts s0 -> fresh_receiver r0 -> rtc wstep (s0, r0) (s, r) -> sinv s /\ rinv (sent s) r.
Proof.
  intros H0%starts_inv Hr0 Hr. pose proof (fresh_rinv r0 (sent s0) Hr0) as H1. clear Hr0.
  remember (s0, r0) as w0 eqn:E0. remember (s, r) as w eqn:E1. revert s0 r0 E0 H0 H1.
  induction Hr as [w|w1 w2 w3 Hs Hr IH]; intros s0 r0 -> H0 H1; [by injection E1 as -> ->|].
  inversion Hs as [x s1 y Hst|x y r1 Hst]; subst.
  - apply (IH eq_refl s1 r0 eq_refl); [by eapply sstep_inv|].
    destruct (sstep_sent _ _ Hst) as [more ->]. by apply rinv_grows.
  - apply (IH eq_refl s0 r1 eq_refl); [done|]. eapply rstep_inv; [apply (v_frames _ H0)|apply (v_pre _ H0)|done|done].
Qed.

(** What is in the receiver's buffer and not yet consumed. *)
Definition pending (c : connection) : list (list Z) :=
  match buf (rpdu_ c) with Some l => [l] | None => [] end.

Lemma concat_nil_frames (l : list (list Z)) : Forall wf_frame l -> concat l = [] -> l = [].
Proof.
  intros Hf Hc. destruct Hf as [|f l [[Hlen _] _] _]; [done|]. simpl in Hc. apply app_nil in Hc as [-> _].
  simpl in Hlen. lia.
Qed.

(** C11: the PDUs arrive, whole, unchanged and in order. Whatever the
    interleaving of sending threads, write and read callbacks, failures and
    closings, and however many bytes each [write] takes and each [read] returns,
    the PDUs handed to the peer's [got_pdu] and consumed are an initial segment
    of the PDUs whose writing began, each with its size in its first four bytes;
    those for which [send] returned true come first among them and have been
    written completely; and when the peer has taken all that was written and
    nothing is being written, on live connections, then every PDU sent has been
    consumed, or is the one [got_pdu] has refused so far. *)
Theorem pdus_arrive_in_order (s0 s : sender) (r0 r : receiver) :
  starts s0 -> fresh_receiver r0 -> rtc wstep (s0, r0) (s, r) ->
  delivered r `prefix_of` sent s /\
  acked s `prefix_of` sent s /\ concat (acked s) `prefix_of` out s /\
  Forall wf_frame (sent s) /\
  (dead_ (cb r) = false -> dead_ (ca s) = false -> taken r = out s -> buf (wpdu_ (ca s)) = None ->
   delivered r ++ pending (cb r) = sent s).
Proof.
  intros H0 Hr0 Hr. destruct (reachable_winv s0 r0 s r H0 Hr0 Hr) as [Hs Hv].
  split_and!; [apply (rv_delivered _ _ Hv)|apply (v_ack _ Hs)|apply (v_ack _ Hs)|apply (v_frames _ Hs)|].
  intros Hd Hda Ht Hb. pose proof (rv_bytes _ _ Hv Hd) as Hbytes. rewrite Ht in Hbytes.
  destruct (v_idle _ Hs Hb) as [_ Ho]. rewrite (proj1 (Ho Hda)) in Hbytes.
  destruct (rv_delivered _ _ Hv) as [rest Hrest]. pose proof (v_frames _ Hs) as Hf.
  unfold pending, in_buffer in *. rewrite Hrest, concat_app in Hbytes. apply app_inv_head in Hbytes.
  rewrite Hrest in Hf. apply Forall_app in Hf as [_ Hf].
  destruct (buf (rpdu_ (cb r))) as [l|] eqn:El; simpl in Hbytes.
  - destruct (rv_some _ _ Hv l Hd El) as (_ & _ & f & rest' & Hsent & _ & Hl).
    rewrite Hrest in Hsent. apply app_inv_head in Hsent as ->. simpl in Hbytes.
    apply Forall_cons in Hf as [_ Hf]. destruct Hl as [k ->]. rewrite <-app_assoc in Hbytes.
    rewrite <-(app_nil_r l) in Hbytes at 2. apply app_inv_head in Hbytes. apply app_nil in Hbytes as [-> Hc].
    by rewrite Hrest, app_nil_r, (concat_nil_frames rest' Hf Hc).
  - by rewrite Hrest, (concat_nil_frames rest Hf Hbytes).
Qed.

(** C23: no sender sleeps through what it waits for. While [closeconn] has not
    been called, a thread that waits on [send_complete_] and has not been
    signalled has a PDU that is really unfinished, on a live connection whose
    write callback is registered; a thread that waits on [send_wait_] and has
    not been signalled waits for another thread that is writing, and
    [waiters_] makes that thread broadcast when it is done. This holds for
    every poll manager that keeps a table of interest. *)
Theorem waiting_senders_are_woken (s0 s : sender) :
  starts s0 -> rtc sstep s0 s ->
  (forall i b, closed s = false -> threads s !! i = Some (WaitingComplete b false) ->
     dead_ (ca s) = false /\ 0 <= solong (wpdu_ (ca s)) < sz (wpdu_ (ca s)) /\
     w_wr (aio s) (fd_ (ca s)) = true) /\
  (forall i b, threads s !! i = Some (WaitingTurn b false) ->
     (exists j b', j <> i /\ current (threads s) j b') /\ (send_end (ca s)).2 = true).
Proof.
  intros H0 Hr. pose proof (reachable_sinv s0 s H0 Hr) as Hi. split.
  - intros i b Hcl Hx. destruct (v_comp _ Hi i b false Hx) as [Hw Hwr]. specialize (Hw Hcl eq_refl).
    specialize (Hwr Hw). unfold send_waits in Hw. apply andb_prop in Hw as [[Hd Hs]%andb_prop Hlt].
    apply negb_true_iff in Hd. apply Z.geb_le in Hs. apply Z.ltb_lt in Hlt. done.
  - intros i b Hx. destruct (v_turn _ Hi i b Hx) as (j & b' & Hj). split.
    + exists j, b'. split; [|done]. intros ->. by eapply current_not_waits.
    + unfold send_end. simpl. rewrite (v_count _ Hi). pose proof (waiting_pos _ i _ Hx eq_refl).
      apply Z.gtb_lt. lia.
Qed.

(** [closeconn] signals nobody: a thread that waits on [send_complete_] is left
    unsignalled on a dead connection, where no callback will signal it. *)
Lemma closeconn_strands_sender c t m o sn ak cl i b c' q t' :
  dead_ c = false -> m !! i = Some (WaitingComplete b false) ->
  closeconn c = (c', q) -> apply_reqs t (fd_ c) q = Val t' ->
  sstep (Sender c t m o sn ak cl) (Sender c' t' m o sn ak true) /\ dead_ c' = true /\
  (forall r, write_cb c' (fd_ c') r = Fault VerifyFailed) /\
  (forall r1 r2 k, read_cb c' (fd_ c') r1 r2 k = Val (c', [], None, false, [])).
Proof.
  intros Hd Hm Hc Hq. split; [by eapply s_close|]. unfold closeconn in Hc. rewrite Hd in Hc.
  injection Hc as <- <-. split_and!; [done|done|]. intros r1 r2 k. unfold read_cb. simpl. by rewrite Z.eqb_refl.
Qed.
End sender.

(** ** A PDU in two pieces *)

Section demo.
#[local] Existing Instance select_mgr.
#[local] Existing Instance select_laws.

Definition demo_aio : SelectAIO.select_aio :=
  SelectAIO.MkSelect {[ 3; 7 ]} ∅ 7 3 1.
Definition demo_aio_writing : SelectAIO.select_aio :=
  val_or demo_aio (SelectAIO.watch_fd demo_aio 7 CB_WRONLY).

Definition demo_start : sender (T := SelectAIO.select_aio) :=
  Sender (connection_new 7).1 demo_aio ∅ [] [] [] false.
Definition demo_peer : receiver := Receiver (connection_new 9).1 [] [].

Definition demo_pdu : list Z := [0; 0; 0; 0; 65; 66].

(** Two bytes go out at once, and another sender comes. *)
Definition demo_begun : connection :=
  MkConn 7 false (Charbuf (Some (frame demo_pdu)) 6 2) charbuf_new 0 1.
Definition demo_half : sender (T := SelectAIO.select_aio) :=
  Sender (send_enter demo_begun) demo_aio_writing
    (<[1%nat := WaitingTurn demo_pdu false]> (<[1%nat := Entered demo_pdu]>
       (<[0%nat := WaitingComplete demo_pdu false]> (<[0%nat := Entered demo_pdu]> ∅))))
    (app (app [] [0; 0]) []) (app [] [frame demo_pdu]) [] false.

Lemma demo_starts : starts demo_start.
Proof.
  split; try done. split; [|split; [split; [|done]; simpl; unfold SelectAIO.FD_SETSIZE; lia|done]].
  split; simpl; [set_solver|set_solver|]. intros fd. set_solver by lia.
Qed.

Lemma demo_good : good_pdu demo_pdu.
Proof. split; [simpl; lia|]. vm_compute. discriminate. Qed.

Lemma demo_sends : rtc sstep demo_start demo_half.
Proof.
  eapply rtc_l; [by apply (s_enter _ _ _ _ _ _ _ 0 demo_pdu); [|apply demo_good]|].
  eapply rtc_l; [apply (s_turn _ _ _ _ _ _ _ 0 (Entered demo_pdu) (Wrote 2) demo_begun [0; 0] false
                   [AddCallback CB_WRONLY] WaitComplete demo_aio_writing);
                 [done|done|simpl; lia|vm_compute; reflexivity|vm_compute; reflexivity]|].
  eapply rtc_l; [by apply (s_enter _ _ _ _ _ _ _ 1 demo_pdu); [|apply demo_good]|].
  eapply rtc_l; [apply (s_turn _ _ _ _ _ _ _ 1 (Entered demo_pdu) (Wrote 2) (send_enter demo_begun) [] false
                   [] WaitTurn demo_aio_writing);
                 [done|done|simpl; lia|vm_compute; reflexivity|done]|].
  apply rtc_refl.
Qed.

Lemma waiting_senders_are_woken_witness :
  threads demo_half !! 0%nat = Some (WaitingComplete demo_pdu false) /\
  threads demo_half !! 1%nat = Some (WaitingTurn demo_pdu false) /\
  (forall i b, closed demo_half = false -> threads demo_half !! i = Some (WaitingComplete b false) ->
     dead_ (ca demo_half) = false /\
     0 <= solong (wpdu_ (ca demo_half)) < sz (wpdu_ (ca demo_half)) /\
     w_wr (aio demo_half) (fd_ (ca demo_half)) = true) /\
  (forall i b, threads demo_half !! i = Some (WaitingTurn b false) ->
     (exists j b', j <> i /\ current (threads demo_half) j b') /\ (send_end (ca demo_half)).2 = true).
Proof.
  split; [done|]. split; [done|].
  apply (waiting_senders_are_woken demo_start demo_half demo_starts demo_sends).
Defined.

(** One sender; the rest goes out in a callback, and the peer reads the size
    and then the contents. *)
Definition demo_written : connection :=
  MkConn 7 false (Charbuf (Some (frame demo_pdu)) 6 6) charbuf_new 0 1.
Definition demo_done : sender (T := SelectAIO.select_aio) :=
  Sender (send_end demo_written).1.1 demo_aio_writing
    (leave (signal true (<[0%nat := WaitingComplete demo_pdu false]> (<[0%nat := Entered demo_pdu]> ∅))) 0 false)
    (app (app [] [0; 0]) [0; 6; 65; 66]) (app [] [frame demo_pdu])
    (ack [] demo_pdu (send_end demo_written).1.2) false.
Definition demo_reading : receiver :=
  Receiver (MkConn 9 false charbuf_new (Charbuf (Some [0; 0; 0; 6]) 6 4) 0 1) (app [] [0; 0; 0; 6]) (app [] []).
Definition demo_received : receiver :=
  Receiver (connection_new 9).1 (app (taken demo_reading) [65; 66]) (app (delivered demo_reading) [frame demo_pdu]).

Lemma demo_arrives : rtc wstep (demo_start, demo_peer) (demo_done, demo_received).
Proof.
  eapply rtc_l; [apply w_sender; by apply (s_enter _ _ _ _ _ _ _ 0 demo_pdu); [|apply demo_good]|].
  eapply rtc_l; [apply w_sender;
                 apply (s_turn _ _ _ _ _ _ _ 0 (Entered demo_pdu) (Wrote 2) demo_begun [0; 0] false
                   [AddCallback CB_WRONLY] WaitComplete demo_aio_writing);
                 [done|done|simpl; lia|vm_compute; reflexivity|vm_compute; reflexivity]|].
  eapply rtc_l; [apply w_sender;
                 apply (s_write _ _ _ _ _ _ _ (Wrote 4) demo_written [0; 6; 65; 66] true [] demo_aio_writing);
                 [simpl; lia|vm_compute; reflexivity|done]|].
  eapply rtc_l; [apply w_sender;
                 eapply (s_complete _ _ _ _ _ _ _ 0 demo_pdu true _ _ false);
                 [done|vm_compute; reflexivity|reflexivity]|].
  eapply rtc_l; [apply w_receiver;
                 apply (r_read _ demo_peer (GotBytes [0; 0; 0; 6]) (ReadError true) true (cb demo_reading)
                   [0; 0; 0; 6] None false []);
                 [split; simpl; (lia || done)|vm_compute; reflexivity|by exists [65; 66]]|].
  eapply rtc_l; [apply w_receiver;
                 apply (r_read _ demo_reading (ReadError true) (GotBytes [65; 66]) true (connection_new 9).1
                   [65; 66] (Some (frame demo_pdu, true)) false []);
                 [split; simpl; (lia || done)|vm_compute; reflexivity|by exists []]|].
  apply rtc_refl.
Qed.

Lemma pdus_arrive_in_order_witness :
  delivered demo_received = [frame demo_pdu] /\ acked demo_done = [frame demo_pdu] /\
  delivered demo_received `prefix_of` sent demo_done /\
  acked demo_done `prefix_of` sent demo_done /\ concat (acked demo_done) `prefix_of` out demo_done /\
  Forall wf_frame (sent demo_done) /\
  (dead_ (cb demo_received) = false -> dead_ (ca demo_done) = false ->
   taken demo_received = out demo_done -> buf (wpdu_ (ca demo_done)) = None ->
   app (delivered demo_received) (pending (cb demo_received)) = sent demo_done).
Proof.
  split; [done|]. split; [done|].
  apply (pdus_arrive_in_order demo_start demo_done demo_peer demo_received demo_starts);
    [by split|exact demo_arrives].
Defined.

End demo.
End Framing.
