(* ===== verification/Tcpsconn.v ===== *)
(** * Accepted connections ([tcpsconn] of src/rpc/connection.cc)

    Connection objects live on a heap and are reached through pointers, from
    the table and from whoever holds a reference. The listening socket and the
    thread that waits on it are in Listener.v. *)

From S2P Require Import Prelude.
From S2P Require Import Connection.

Local Open Scope Z_scope.

Module Tcpsconn.
Import Connection.

Record tcpsconn := MkTcps {
  conns_ : gmap Z nat;
  heap : gmap nat connection;
  fresh : nat;
}.

Definition deref (t : tcpsconn) (p : nat) : outcome connection :=
  match heap t !! p with Some c => Val c | None => Fault Undefined end.
Definition store (t : tcpsconn) (p : nat) (c : connection) : tcpsconn :=
  MkTcps (conns_ t) (<[p := c]> (heap t)) (fresh t).
Definition erase (t : tcpsconn) (fd : Z) : tcpsconn :=
  MkTcps (delete fd (conns_ t)) (heap t) (fresh t).

Definition isdead (t : tcpsconn) (p : nat) : outcome bool := let! c := deref t p in Val (dead_ c).
Definition ref (t : tcpsconn) (p : nat) : outcome Z := let! c := deref t p in Val (refno_ c).

(** The tests of the destructor. *)
Definition connection_delete (c : connection) : outcome unit :=
  VERIFY (dead_ c) ;;;
  VERIFY (bool_decide (buf (wpdu_ c) = None)).

Definition decref (t : tcpsconn) (p : nat) : outcome tcpsconn :=
  let! c := deref t p in
  let c := set_refno c (refno_ c - 1) in
  VERIFY (0 <=? refno_ c) ;;;
  if (refno_ c =? 0) && dead_ c then
    connection_delete c ;;;
    Val (MkTcps (conns_ t) (delete p (heap t)) (fresh t))
  else Val (store t p c).

(** The loop over the table in [process_accept]; [l] is what is left of it. *)
Fixpoint collect_dead (l : list (Z * nat)) (t : tcpsconn) : outcome tcpsconn :=
  match l with
  | [] => Val t
  | (fd, p) :: l =>
      let! d := isdead t p in
      let! n := ref t p in
      if d && (n =? 1) then let! t := decref t p in collect_dead l (erase t fd)
      else collect_dead l t
  end.

(** [process_accept] after [accept] returned [s1]. *)
Definition process_accept (t : tcpsconn) (s1 : Z) : outcome tcpsconn :=
  let ch := fresh t in
  let t := MkTcps (conns_ t) (<[ch := (connection_new s1).1]> (heap t)) (S ch) in
  let! t := collect_dead (map_to_list (conns_ t)) t in
  Val (MkTcps (<[s1 := ch]> (conns_ t)) (heap t) (fresh t)).

(** The destructor's loop. *)
Fixpoint close_all (l : list (Z * nat)) (t : tcpsconn) : outcome tcpsconn :=
  match l with
  | [] => Val t
  | (_, p) :: l =>
      let! c := deref t p in
      let! t := decref (store t p (closeconn c).1) p in
      close_all l t
  end.
Definition tcpsconn_delete (t : tcpsconn) : outcome tcpsconn := close_all (map_to_list (conns_ t)) t.

(** The table holds a reference on each of its connections; one that nobody
    else refers to has no sender at work. *)
Record twf (t : tcpsconn) : Prop := {
  tw_conns : forall fd p, conns_ t !! fd = Some p ->
    exists c, heap t !! p = Some c /\ fd_ c = fd /\ 1 <= refno_ c /\
      (refno_ c = 1 -> buf (wpdu_ c) = None);
  tw_fresh : forall p, is_Some (heap t !! p) -> (p < fresh t)%nat;
}.

(** The table has every connection once. *)
Lemma twf_nodup t : twf t -> NoDup (map_to_list (conns_ t)).*2.
Proof.
  intros [Hw _]. apply NoDup_fmap_2_strong; [|apply NoDup_map_to_list].
  intros [fd1 p1] [fd2 p2] H1%elem_of_map_to_list H2%elem_of_map_to_list. simpl. intros <-.
  destruct (Hw _ _ H1) as (c1 & E1 & <- & _), (Hw _ _ H2) as (c2 & E2 & <- & _). congruence.
Qed.

(** Nobody but the table refers to the connection, and it is dead. *)
Definition garbage (c : connection) : bool := dead_ c && (refno_ c =? 1).

Lemma decref_garbage t p c :
  heap t !! p = Some c -> garbage c = true -> buf (wpdu_ c) = None ->
  decref t p = Val (MkTcps (conns_ t) (delete p (heap t)) (fresh t)).
Proof.
  intros Hp [Hd Hr%Z.eqb_eq]%andb_prop Hb. unfold decref, deref. rewrite Hp. cbn [obind].
  unfold connection_delete, set_refno. cbn [refno_ dead_ wpdu_]. rewrite Hr, Hd, Hb. done.
Qed.

(** What a sweep leaves of the object at [p]. *)
Definition sweep (h : gmap nat connection) (p : nat) : option connection :=
  match h !! p with Some c => if garbage c then None else Some c | None => None end.

Lemma sweep_delete_ne h p q : q <> p -> sweep (delete p h) q = sweep h q.
Proof. intros Hne. unfold sweep. by rewrite lookup_delete_ne. Qed.

Lemma collect_dead_spec l : forall t,
  NoDup l.*1 -> NoDup l.*2 ->
  (forall fd p, (fd, p) ∈ l -> conns_ t !! fd = Some p /\
     exists c, heap t !! p = Some c /\ (garbage c = true -> buf (wpdu_ c) = None)) ->
  exists t', collect_dead l t = Val t' /\ fresh t' = fresh t /\
    (forall p, heap t' !! p = if decide (p ∈ l.*2) then sweep (heap t) p else heap t !! p) /\
    (forall fd p, conns_ t' !! fd = Some p <->
       conns_ t !! fd = Some p /\ (fd ∈ l.*1 -> is_Some (sweep (heap t) p))).
Proof.
  induction l as [|[fd p] l IH]; intros t Hn1 Hn2 Hl.
  { exists t. split_and!; try done.
    intros fd p. split; [|by intros [? _]]. intros Hc. split; [done|]. by intros ?%not_elem_of_nil. }
  apply NoDup_cons in Hn1 as [Hf1 Hn1], Hn2 as [Hf2 Hn2]. simpl in Hf1, Hf2.
  destruct (Hl fd p) as (Hc & c & Hp & Hb); [by left|]. simpl. unfold isdead, ref, deref. rewrite Hp. cbn [obind].
  assert (forall fd' p', (fd', p') ∈ l -> fd' <> fd /\ p' <> p) as Hne.
  { intros fd' p' Hin. split; intros ->; [apply Hf1|apply Hf2]; apply list_elem_of_fmap;
      [exists (fd, p')|exists (fd', p)]; done. }
  change (dead_ c && (refno_ c =? 1)) with (garbage c). destruct (garbage c) eqn:Hg.
  - rewrite (decref_garbage t p c) by auto. cbn [obind].
    destruct (IH (erase (MkTcps (conns_ t) (delete p (heap t)) (fresh t)) fd)) as (t' & Ht & Hfr & Hh & Hcn);
      [done|done| |].
    { intros fd' p' Hin. simpl. destruct (Hne fd' p' Hin) as [Hne1 Hne2].
      rewrite !lookup_delete_ne by done. apply Hl. by right. }
    assert (sweep (heap t) p = None) as Hsw by (unfold sweep; by rewrite Hp, Hg).
    exists t'. split_and!; [done|done| |].
    + intros x. rewrite Hh. simpl. destruct (decide (x = p)) as [->|Hx].
      * assert (sweep (delete p (heap t)) p = None) as -> by (unfold sweep; by rewrite lookup_delete_eq).
        rewrite Hsw, lookup_delete_eq. repeat case_decide; set_solver.
      * rewrite lookup_delete_ne, sweep_delete_ne by done. repeat case_decide; set_solver.
    + intros x q. rewrite Hcn. simpl. rewrite lookup_delete_Some, elem_of_cons. split.
      * intros [[Hx Hq] Hin]. split; [done|]. intros [->|Hxl]; [done|]. destruct (decide (q = p)) as [->|Hqp].
        -- apply list_elem_of_fmap in Hxl as ([x' q'] & -> & Hin'). simpl in *.
           destruct (Hl x' q') as [Hq' _]; [by right|]. destruct (Hne x' q' Hin') as [_ ?]. congruence.
        -- rewrite <-(sweep_delete_ne (heap t) p q) by done. by apply Hin.
      * intros [Hq Hin]. split; [split; [|done]|].
        -- intros <-. destruct (Hin (or_introl eq_refl)) as [y Hy]. congruence.
        -- intros Hxl. destruct (Hin (or_intror Hxl)) as [y Hy]. rewrite sweep_delete_ne; [by eexists|].
           intros ->. congruence.
  - destruct (IH t) as (t' & Ht & Hfr & Hh & Hcn); [done|done| |].
    { intros fd' p' Hin. apply Hl. by right. }
    assert (sweep (heap t) p = Some c) as Hsw by (unfold sweep; by rewrite Hp, Hg).
    exists t'. split_and!; [done|done| |].
    + intros x. rewrite Hh. destruct (decide (x = p)) as [->|Hx].
      * rewrite Hsw, Hp. repeat case_decide; set_solver.
      * repeat case_decide; set_solver.
    + intros x q. rewrite Hcn, elem_of_cons. split; intros [Hq Hin]; (split; [done|]).
      * intros [->|Hxl]; [|auto]. rewrite Hc in Hq. injection Hq as <-. by eexists.
      * auto.
Qed.

Lemma process_accept_spec (t : tcpsconn) (s1 : Z) :
  twf t -> (forall p c, heap t !! p = Some c -> fd_ c <> s1) ->
  exists t', process_accept t s1 = Val t' /\ twf t' /\
    conns_ t' !! s1 = Some (fresh t) /\ heap t' !! fresh t = Some (connection_new s1).1 /\
    (forall fd p, fd <> s1 ->
       (conns_ t' !! fd = Some p <-> conns_ t !! fd = Some p /\ is_Some (sweep (heap t) p))) /\
    (forall p c, heap t !! p = Some c -> heap t' !! p = None <->
       garbage c = true /\ conns_ t !! fd_ c = Some p).
Proof.
  intros Ht0 Hs1. pose proof Ht0 as [Hw Hf]. unfold process_accept. remember (connection_new s1).1 as ch eqn:Hch.
  assert (heap t !! fresh t = None) as Hnew.
  { destruct (heap t !! fresh t) eqn:E; [|done]. assert (fresh t < fresh t)%nat; [|lia]. apply Hf. by eexists. }
  assert (forall p, p <> fresh t -> (<[fresh t := ch]> (heap t)) !! p = heap t !! p) as Hold.
  { intros p Hp. by rewrite lookup_insert_ne. }
  assert (forall fd p, conns_ t !! fd = Some p -> p <> fresh t) as Hpf.
  { intros fd p Hc ->. destruct (Hw fd _ Hc) as (c & Hx & _). congruence. }
  destruct (collect_dead_spec (map_to_list (conns_ t))
    (MkTcps (conns_ t) (<[fresh t := ch]> (heap t)) (S (fresh t))))
    as (t' & Ht & Hfr & Hh & Hc).
  { apply NoDup_fst_map_to_list. }
  { by apply twf_nodup. }
  { intros fd p Hin%elem_of_map_to_list. split; [done|]. destruct (Hw _ _ Hin) as (c & E & _ & _ & Hb).
    exists c. simpl. rewrite Hold by eauto. split; [done|]. intros [_ Hr%Z.eqb_eq]%andb_prop. auto. }
  simpl in *. rewrite Ht. cbn [obind]. eexists. split; [done|].
  assert (forall fd p, conns_ t !! fd = Some p ->
            sweep (<[fresh t := ch]> (heap t)) p = sweep (heap t) p) as Hsw.
  { intros fd p Hp. unfold sweep. rewrite Hold by eauto. done. }
  assert (forall fd p, conns_ t' !! fd = Some p <-> conns_ t !! fd = Some p /\ is_Some (sweep (heap t) p)) as Hc'.
  { intros fd p. rewrite Hc. split; intros [Hp Hx]; (split; [done|]).
    - rewrite <-(Hsw fd p Hp). apply Hx. apply list_elem_of_fmap. exists (fd, p). split; [done|].
      by apply elem_of_map_to_list.
    - intros _. by rewrite (Hsw fd p Hp). }
  assert (forall p c, heap t' !! p = Some c -> p = fresh t /\ c = ch \/ heap t !! p = Some c) as Hback.
  { intros p c. rewrite Hh. destruct (decide (p = fresh t)) as [->|Hne].
    - unfold sweep. rewrite lookup_insert_eq. repeat case_match; intros; simplify_eq; auto.
    - unfold sweep. rewrite Hold by done. repeat case_match; intros; simplify_eq; auto. }
  assert (heap t' !! fresh t = Some ch) as Hch'.
  { rewrite Hh, lookup_insert_eq. case_decide as Hin; [|done].
    apply list_elem_of_fmap in Hin as ([fd p] & E & Hin%elem_of_map_to_list). by destruct (Hpf fd p Hin). }
  split; [split; simpl|].
  - intros fd p [[<- <-]|[Hne [Hp [c Hsome]]%Hc']]%lookup_insert_Some.
    + exists ch. split; [done|]. rewrite Hch. done.
    + destruct (Hw fd p Hp) as (c' & E & Hrest). exists c'. split; [|done]. rewrite Hh.
      rewrite (Hsw fd p Hp), Hold, E by eauto. unfold sweep in *. rewrite E in *.
      case_decide; [|done]. by destruct (garbage c').
  - rewrite Hfr. intros p [c [[-> _]|Hp]%Hback]; [lia|]. assert (p < fresh t)%nat; [|lia]. apply Hf. by eexists.
  - cbn [conns_ heap]. split_and!; [apply lookup_insert_eq|done| |].
    + intros fd p Hne. rewrite lookup_insert_ne by done. apply Hc'.
    + intros p c Hp. assert (p <> fresh t) as Hne by congruence. rewrite Hh. unfold sweep. rewrite Hold, Hp by done.
      case_decide as Hin.
      * apply list_elem_of_fmap in Hin as ([fd p'] & E & Hin%elem_of_map_to_list). simpl in E. subst p'.
        destruct (Hw fd p Hin) as (c' & E & <- & _). assert (c' = c) as -> by congruence.
        destruct (garbage c); naive_solver.
      * split; [done|]. intros [_ Hc0]. destruct Hin. apply list_elem_of_fmap. exists (fd_ c, p).
        split; [done|]. by apply elem_of_map_to_list.
Qed.

(** Accepting a connection collects the garbage. If every connection of the
    table is there with the table's reference, and the new descriptor is not in
    use, [process_accept] succeeds: the dead connections that only the table
    referred to are deleted, all other objects are as before, and the table has
    the others and the new one, so it never has a deleted connection. *)
Theorem accept_collects_dead (t : tcpsconn) (s1 : Z) :
  twf t -> (forall p c, heap t !! p = Some c -> fd_ c <> s1) ->
  exists t', process_accept t s1 = Val t' /\ twf t' /\
    conns_ t' !! s1 = Some (fresh t) /\ heap t' !! fresh t = Some (connection_new s1).1 /\
    (forall fd p, fd <> s1 ->
       (conns_ t' !! fd = Some p <-> conns_ t !! fd = Some p /\ is_Some (sweep (heap t) p))) /\
    (forall p c, heap t !! p = Some c -> heap t' !! p = None <->
       garbage c = true /\ conns_ t !! fd_ c = Some p).
Proof. apply process_accept_spec. Qed.

(** ** The destructor *)

(** What closing and giving up the table's reference leave of a connection. *)
Definition released (c : connection) : option connection :=
  if refno_ c =? 1 then None else Some (set_refno (set_dead c) (refno_ c - 1)).

Lemma closeconn_dead c : (closeconn c).1 = set_dead c.
Proof. unfold closeconn. destruct (dead_ c) eqn:E; [|done]. destruct c. simpl in *. by rewrite E. Qed.

(** The end of the loop's body, for a connection that the table refers to. *)
Lemma close_one t p c :
  heap t !! p = Some c -> 1 <= refno_ c -> (refno_ c = 1 -> buf (wpdu_ c) = None) ->
  decref (store t p (closeconn c).1) p
  = Val (MkTcps (conns_ t) (partial_alter (fun _ => released c) p (heap t)) (fresh t)).
Proof.
  intros Hp Hr Hb. rewrite closeconn_dead. unfold decref, deref, released. simpl. rewrite lookup_insert_eq. simpl.
  destruct (Z.leb_spec 0 (refno_ c - 1)); [|lia]. simpl.
  destruct (Z.eqb_spec (refno_ c) 1) as [E|E]; destruct (Z.eqb_spec (refno_ c - 1) 0); try lia; simpl.
  - unfold connection_delete. simpl. rewrite bool_decide_eq_true_2 by auto. simpl. do 2 f_equal. apply map_eq. intros q.
    destruct (decide (q = p)) as [->|]; [by rewrite lookup_delete_eq, lookup_partial_alter_eq|].
    by rewrite lookup_delete_ne, lookup_insert_ne, lookup_partial_alter_ne.
  - unfold store. simpl. do 2 f_equal. apply map_eq. intros q.
    destruct (decide (q = p)) as [->|]; [by rewrite lookup_insert_eq, lookup_partial_alter_eq|].
    by rewrite !lookup_insert_ne, lookup_partial_alter_ne.
Qed.

Lemma close_all_spec l : forall t,
  NoDup l.*2 ->
  (forall p, p ∈ l.*2 -> exists c, heap t !! p = Some c /\ 1 <= refno_ c /\ (refno_ c = 1 -> buf (wpdu_ c) = None)) ->
  exists t', close_all l t = Val t' /\ conns_ t' = conns_ t /\
    (forall p, heap t' !! p = if decide (p ∈ l.*2) then heap t !! p ≫= released else heap t !! p).
Proof.
  induction l as [|[fd p] l IH]; intros t Hn Hl; [by exists t|].
  apply NoDup_cons in Hn as [Hp Hn]. simpl in Hp. destruct (Hl p) as (c & Hc & Hr & Hb); [by left|].
  simpl. unfold deref at 1. rewrite Hc. simpl. rewrite (close_one t p c) by done. simpl.
  destruct (IH (MkTcps (conns_ t) (partial_alter (fun _ => released c) p (heap t)) (fresh t))) as (t' & Ht & Hcn & Hh).
  - done.
  - intros q Hq. simpl. rewrite lookup_partial_alter_ne by (intros <-; done). apply Hl. by right.
  - exists t'. split_and!; [done|done|]. intros q. rewrite Hh. simpl. destruct (decide (q = p)) as [->|Hne].
    + rewrite lookup_partial_alter_eq, decide_False, decide_True, Hc by (done || by left). done.
    + rewrite lookup_partial_alter_ne by done. repeat case_decide; set_solver.
Qed.

Lemma tcpsconn_delete_spec t :
  twf t ->
  exists t', tcpsconn_delete t = Val t' /\
    (forall fd p, conns_ t !! fd = Some p -> heap t' !! p = heap t !! p ≫= released) /\
    (forall p, (forall fd, conns_ t !! fd <> Some p) -> heap t' !! p = heap t !! p).
Proof.
  intros Ht. assert (forall p, p ∈ (map_to_list (conns_ t)).*2 <-> exists fd, conns_ t !! fd = Some p) as Hin.
  { intros p. rewrite list_elem_of_fmap. split.
    - intros ([fd q] & -> & Hq%elem_of_map_to_list). by exists fd.
    - intros [fd Hq%elem_of_map_to_list]. by exists (fd, p). }
  destruct (close_all_spec (map_to_list (conns_ t)) t) as (t' & Ht' & _ & Hh).
  - by apply twf_nodup.
  - intros p [fd Hp]%Hin. destruct (tw_conns _ Ht _ _ Hp) as (c & ? & _ & ? & ?). by exists c.
  - exists t'. split_and!; [done| |].
    + intros fd p Hp. rewrite Hh, decide_True; [done|]. apply Hin. by exists fd.
    + intros p Hp. rewrite Hh, decide_False; [done|]. intros [fd Hf]%Hin. by apply (Hp fd).
Qed.

(** A dead connection that nobody else refers to, one that is in use, and a new
    one. *)
Definition demo_table : tcpsconn :=
  MkTcps {[ 5 := 0%nat; 6 := 1%nat ]}
    {[ 0%nat := set_dead (connection_new 5).1; 1%nat := set_refno (connection_new 6).1 2 ]} 2.

Lemma demo_table_wf : twf demo_table.
Proof.
  split; simpl.
  - intros fd p [[<- <-]|[_ [<- <-]%lookup_singleton_Some]]%lookup_insert_Some.
    + by exists (set_dead (connection_new 5).1).
    + by exists (set_refno (connection_new 6).1 2).
  - intros p [c [[<- _]|[_ [<- _]%lookup_singleton_Some]]%lookup_insert_Some]; lia.
Qed.

Lemma accept_collects_dead_witness :
  exists t', process_accept demo_table 8 = Val t' /\ twf t' /\
    conns_ t' !! 8 = Some (fresh demo_table) /\ heap t' !! fresh demo_table = Some (connection_new 8).1 /\
    (forall fd p, fd <> 8 ->
       (conns_ t' !! fd = Some p <-> conns_ demo_table !! fd = Some p /\ is_Some (sweep (heap demo_table) p))) /\
    (forall p c, heap demo_table !! p = Some c -> heap t' !! p = None <->
       garbage c = true /\ conns_ demo_table !! fd_ c = Some p).
Proof.
  apply (accept_collects_dead demo_table 8 demo_table_wf).
  unfold demo_table. cbn [heap]. intros p c [[_ <-]|[_ [_ <-]%lookup_singleton_Some]]%lookup_insert_Some; simpl; lia.
Defined.

Example demo_collected :
  (fun t => (heap t !! 0%nat, conns_ t !! 5, conns_ t !! 6, conns_ t !! 8)) <$>
  match process_accept demo_table 8 with Val t => Some t | Fault _ => None end
  = Some (None, None, Some 1%nat, Some 2%nat).
Proof. vm_compute. reflexivity. Qed.

End Tcpsconn.
