(* ===== verification/Fuse.v ===== *)
(** * The FUSE front end (src/util/fuse.cc)

    The handlers of [fuseserver_oper], as functions from the state of
    [yfs_client] to the new state and the replies sent, in order. [yfs_client]
    and the FUSE library are not part of the repository: the client is an
    interface, the encoding of directory entries a parameter. *)

From Stdlib Require Import String Ascii.
From S2P Require Import Prelude.

Local Open Scope string_scope.
Local Open Scope Z_scope.

(** The statuses of [yfs_client]. *)
Class YfsProtocol := {
  yfs_OK : Z;
  yfs_NOENT : Z;
  yfs_EXIST : Z;
  yfs_codes : yfs_OK <> yfs_NOENT /\ yfs_OK <> yfs_EXIST /\ yfs_NOENT <> yfs_EXIST;
}.

Record fileinfo := Fileinfo { f_atime : Z; f_mtime : Z; f_ctime : Z; f_size : Z }.
Record dirinfo := Dirinfo { d_atime : Z; d_mtime : Z; d_ctime : Z }.
Record dirent := Dirent { de_name : string; de_inum : Z }.

(** The operations of [yfs_client] that the handlers call. An output parameter
    that the call may leave unset is an option. *)
Class YfsClient `{YfsProtocol} (W : Type) := {
  yfs_isfile : Z -> bool;
  yfs_isdir : Z -> bool;
  yfs_getfile : W -> Z -> W * Z * fileinfo;
  yfs_getdir : W -> Z -> W * Z * dirinfo;
  yfs_setattr : W -> Z -> Z -> W * Z;
  yfs_read : W -> Z -> Z -> Z -> W * Z * list Z;
  yfs_write : W -> Z -> Z -> Z -> list Z -> W * Z;
  yfs_create : W -> Z -> string -> W * Z * option Z;
  yfs_lookup : W -> Z -> string -> W * Z * option Z;
  yfs_readdir : W -> Z -> W * Z * list dirent;
  yfs_mkdir : W -> Z -> string -> W * Z * option Z;
  yfs_unlink : W -> Z -> string -> W * Z;
}.

(** [fuse_add_dirent]: the bytes of an entry, of which there are
    [fuse_dirent_size] for the length of the name. [next_dirent] is how the
    kernel reads the first entry of a buffer: name, inode, offset of the next
    entry, and the rest of the buffer. *)
Class FuseLib := {
  fuse_dirent_size : Z -> Z;
  fuse_add_dirent : string -> Z -> Z -> list Z;
  next_dirent : list Z -> option (string * Z * Z * list Z);
}.

(** Entries have the size announced, and are read as they were added; a buffer
    that ends inside an entry has no entry there. *)
Class FuseLibLaws (L : FuseLib) := {
  dirent_size_pos n : 0 < fuse_dirent_size n;
  add_dirent_length name ino off :
    Z.of_nat (length (fuse_add_dirent name ino off)) = fuse_dirent_size (Z.of_nat (String.length name));
  next_dirent_entry name ino off rest :
    next_dirent (app (fuse_add_dirent name ino off) rest) = Some (name, ino, off, rest);
  next_dirent_short name ino off l :
    l `prefix_of` fuse_add_dirent name ino off -> l <> fuse_add_dirent name ino off ->
    next_dirent l = None;
}.

Module Fuse.

(** What [getattr] fills in of a [struct stat]; the rest is zero. *)
Record stat := Stat {
  st_ino : Z;
  st_mode : Z;
  st_nlink : Z;
  st_atime : Z;
  st_mtime : Z;
  st_ctime : Z;
  st_size : Z;
}.

(** Time-outs and generation are always zero. *)
Record fuse_entry_param := Entry { e_ino : Z; e_attr : stat }.

Inductive errno := E0 | ENOENT | EEXIST | ENOTDIR | ENOSYS.

Inductive reply :=
| reply_err (e : errno)
| reply_attr (st : stat)
| reply_buf (b : list Z)
| reply_write (n : Z)
| reply_create (e : fuse_entry_param)
| reply_entry (e : fuse_entry_param)
| reply_open
| reply_statfs (namemax bsize : Z).

Definition S_IFREG : Z := 32768.
Definition S_IFDIR : Z := 16384.
Definition FUSE_SET_ATTR_SIZE : Z := 8.

Section fuse.
Context `{YfsClient W, FuseLib}.
Context (junk : Z).   (* what an uninitialised [inum] holds *)

Definition getattr (w : W) (inum : Z) : W * Z * stat :=
  if yfs_isfile inum then
    let '(w, ret, i) := yfs_getfile w inum in
    if negb (ret =? yfs_OK) then (w, ret, Stat inum 0 0 0 0 0 0)
    else (w, yfs_OK, Stat inum (Z.lor S_IFREG 438) 1 (f_atime i) (f_mtime i) (f_ctime i) (f_size i))
  else
    let '(w, ret, i) := yfs_getdir w inum in
    if negb (ret =? yfs_OK) then (w, ret, Stat inum 0 0 0 0 0 0)
    else (w, yfs_OK, Stat inum (Z.lor S_IFDIR 511) 2 (d_atime i) (d_mtime i) (d_ctime i) 0).

Definition fuseserver_getattr (w : W) (ino : Z) : W * list reply :=
  let '(w, ret, st) := getattr w ino in
  if negb (ret =? yfs_OK) then (w, [reply_err ENOENT]) else (w, [reply_attr st]).

(** There is no return after the first error reply. *)
Definition fuseserver_setattr (w : W) (ino size to_set : Z) : W * list reply :=
  if negb (Z.land FUSE_SET_ATTR_SIZE to_set =? 0) then
    let '(w, ret) := yfs_setattr w ino size in
    let first := if negb (ret =? yfs_OK) then [reply_err ENOSYS] else [] in
    let '(w, ret, st) := getattr w ino in
    if negb (ret =? yfs_OK) then (w, app first [reply_err ENOSYS]) else (w, app first [reply_attr st])
  else (w, [reply_err ENOSYS]).

Definition fuseserver_read (w : W) (ino size off : Z) : W * list reply :=
  let '(w, ret, buf) := yfs_read w ino size off in
  if negb (ret =? yfs_OK) then (w, [reply_err ENOSYS]) else (w, [reply_buf buf]).

Definition fuseserver_write (w : W) (ino : Z) (buf : list Z) (size off : Z) : W * list reply :=
  let '(w, ret) := yfs_write w ino size off buf in
  if negb (ret =? yfs_OK) then (w, [reply_err ENOSYS]) else (w, [reply_write size]).

Definition fuseserver_createhelper (w : W) (parent : Z) (name : string)
  : W * Z * option fuse_entry_param :=
  let '(w, ret, child) := yfs_create w parent name in
  if ret =? yfs_EXIST then (w, yfs_EXIST, None)
  else
    let child := default junk child in
    let '(w, ret, st) := getattr w child in
    if negb (ret =? yfs_OK) then (w, yfs_NOENT, None) else (w, yfs_OK, Some (Entry child st)).

(** [create] and [mknod] differ in the reply to a success. *)
Definition create_reply (ok : fuse_entry_param -> reply) (r : W * Z * option fuse_entry_param)
  : W * list reply :=
  let '(w, ret, e) := r in
  match e with
  | Some e => (w, [ok e])
  | None => (w, [reply_err (if ret =? yfs_EXIST then EEXIST else ENOENT)])
  end.
Definition fuseserver_create (w : W) (parent : Z) (name : string) : W * list reply :=
  create_reply reply_create (fuseserver_createhelper w parent name).
Definition fuseserver_mknod (w : W) (parent : Z) (name : string) : W * list reply :=
  create_reply reply_entry (fuseserver_createhelper w parent name).

(** The status of [getattr] is not looked at. *)
Definition fuseserver_lookup (w : W) (parent : Z) (name : string) : W * list reply :=
  let '(w, ret, inum) := yfs_lookup w parent name in
  if ret =? yfs_OK then
    let inum := default junk inum in
    let '(w, _, st) := getattr w inum in (w, [reply_entry (Entry inum st)])
  else (w, [reply_err ENOENT]).

(** ** Directories *)

(** The part of a string before a null character. *)
Fixpoint c_str (s : string) : string :=
  match s with
  | EmptyString => EmptyString
  | String c s => if Ascii.eqb c Ascii.zero then EmptyString else String c (c_str s)
  end.

(** A [dirbuf] is its bytes. *)
Definition dirbuf_add (b : list Z) (name : string) (ino : Z) : list Z :=
  let name := c_str name in
  app b (fuse_add_dirent name ino
           (Z.of_nat (length b) + fuse_dirent_size (Z.of_nat (String.length name)))).

Definition dirbuf_of (ds : list dirent) : list Z :=
  foldl (fun b d => dirbuf_add b (de_name d) (de_inum d)) [] ds.

(** [off] is converted to [size_t]. *)
Definition reply_buf_limited (buf : list Z) (off maxsize : Z) : reply :=
  let bufsize := Z.of_nat (length buf) in
  if u64 off <? bufsize
  then reply_buf (take (Z.to_nat (Z.min (u64 (bufsize - off)) maxsize)) (drop (Z.to_nat (u64 off)) buf))
  else reply_buf [].

Definition fuseserver_readdir (w : W) (ino size off : Z) : W * list reply :=
  if negb (yfs_isdir ino) then (w, [reply_err ENOTDIR])
  else
    let '(w, ret, dirs) := yfs_readdir w ino in
    if negb (ret =? yfs_OK) then (w, [reply_err ENOSYS])
    else (w, [reply_buf_limited (dirbuf_of dirs) off size]).

Definition fuseserver_open (w : W) : W * list reply := (w, [reply_open]).

(** There is no return after the first error reply. *)
Definition fuseserver_mkdir (w : W) (parent : Z) (name : string) : W * list reply :=
  let '(w, ret, child) := yfs_mkdir w parent name in
  let first := if negb (ret =? yfs_OK) then [reply_err ENOSYS] else [] in
  let child := default junk child in
  let '(w, ret, st) := getattr w child in
  if negb (ret =? yfs_OK) then (w, app first [reply_err ENOSYS])
  else (w, app first [reply_entry (Entry child st)]).

Definition fuseserver_unlink (w : W) (parent : Z) (name : string) : W * list reply :=
  let '(w, ret) := yfs_unlink w parent name in
  if ret =? yfs_NOENT then (w, [reply_err ENOENT])
  else if ret =? yfs_OK then (w, [reply_err E0])
  else (w, [reply_err ENOSYS]).

Definition fuseserver_statfs (w : W) : W * list reply := (w, [reply_statfs 255 512]).

(** ** The table of handlers *)

Inductive request :=
| Getattr (ino : Z)
| Setattr (ino size to_set : Z)
| Read (ino size off : Z)
| Write (ino : Z) (buf : list Z) (size off : Z)
| Create (parent : Z) (name : string)
| Mknod (parent : Z) (name : string)
| Lookup (parent : Z) (name : string)
| Readdir (ino size off : Z)
| Open (ino : Z)
| Mkdir (parent : Z) (name : string)
| Unlink (parent : Z) (name : string)
| Statfs.

Definition fuseserver_oper (w : W) (r : request) : W * list reply :=
  match r with
  | Getattr ino => fuseserver_getattr w ino
  | Setattr ino size to_set => fuseserver_setattr w ino size to_set
  | Read ino size off => fuseserver_read w ino size off
  | Write ino buf size off => fuseserver_write w ino buf size off
  | Create parent name => fuseserver_create w parent name
  | Mknod parent name => fuseserver_mknod w parent name
  | Lookup parent name => fuseserver_lookup w parent name
  | Readdir ino size off => fuseserver_readdir w ino size off
  | Open _ => fuseserver_open w
  | Mkdir parent name => fuseserver_mkdir w parent name
  | Unlink parent name => fuseserver_unlink w parent name
  | Statfs => fuseserver_statfs w
  end.

(** The first call of a [setattr] or [mkdir] fails. *)
Definition first_fails (w : W) (r : request) : bool :=
  match r with
  | Setattr ino size to_set =>
      negb (Z.land FUSE_SET_ATTR_SIZE to_set =? 0) && negb ((yfs_setattr w ino size).2 =? yfs_OK)
  | Mkdir parent name => negb ((yfs_mkdir w parent name).1.2 =? yfs_OK)
  | _ => false
  end.

(** Every request is answered, and once, except that [setattr] and [mkdir] go on
    after an error reply and reply a second time. *)
Lemma replies_once (w : W) (r : request) :
  length (fuseserver_oper w r).2 = if first_fails w r then 2%nat else 1%nat.
Proof.
  destruct r; simpl; unfold fuseserver_getattr, fuseserver_setattr, fuseserver_read, fuseserver_write,
    fuseserver_create, fuseserver_mknod, fuseserver_createhelper, create_reply, fuseserver_lookup,
    fuseserver_readdir, fuseserver_mkdir, fuseserver_unlink;
    repeat match goal with
           | |- context [let '(_, _) := ?x in _] => destruct x as [? ?]
           | |- context [if ?b then _ else _] => destruct b; simpl
           | |- context [match ?o with Some _ => _ | None => _ end] => destruct o
           end; done.
Qed.

(** ** Listing a directory *)

(** The bytes of the entries that begin at offset [o]. *)
Fixpoint chunks (o : Z) (ds : list dirent) : list (list Z) :=
  match ds with
  | [] => []
  | d :: ds =>
      let name := c_str (de_name d) in
      let e := o + fuse_dirent_size (Z.of_nat (String.length name)) in
      fuse_add_dirent name (de_inum d) e :: chunks e ds
  end.

Definition size_of (d : dirent) : Z := fuse_dirent_size (Z.of_nat (String.length (c_str (de_name d)))).
Definition sizes (ds : list dirent) : Z := foldr (fun d n => size_of d + n) 0 ds.

(** The entries of a page, with the offset each one gives. *)
Fixpoint parse (n : nat) (page : list Z) : list (string * Z * Z) :=
  match n with
  | O => []
  | S n => match next_dirent page with
           | None => []
           | Some (name, ino, off, rest) => (name, ino, off) :: parse n rest
           end
  end.

(** The kernel asks for pages of [size] bytes, each from the offset that the
    last complete entry gave, until a page has no entry. *)
Fixpoint list_dir (n : nat) (w : W) (ino size off : Z) : list (string * Z) :=
  match n with
  | O => []
  | S n =>
      match fuseserver_readdir w ino size off with
      | (w, [reply_buf page]) =>
          let es := parse (length page) page in
          match last es with
          | None => []
          | Some (_, off) => app (map fst es) (list_dir n w ino size off)
          end
      | _ => []
      end
  end.

Context `{!FuseLibLaws _}.

Lemma dirbuf_chunks ds : forall b,
  foldl (fun b d => dirbuf_add b (de_name d) (de_inum d)) b ds =
  app b (concat (chunks (Z.of_nat (length b)) ds)).
Proof.
  induction ds as [|d ds IH]; intros b; simpl; [by rewrite app_nil_r|].
  rewrite IH. unfold dirbuf_add. rewrite length_app, Nat2Z.inj_add, add_dirent_length, <-app_assoc. done.
Qed.

Lemma size_of_pos d : 0 < size_of d.
Proof. apply dirent_size_pos. Qed.

Lemma sizes_app ds ds' : sizes (app ds ds') = sizes ds + sizes ds'.
Proof. unfold sizes. induction ds as [|d ds IH]; simpl; [lia|]. rewrite IH. lia. Qed.

Lemma sizes_nonneg ds : 0 <= sizes ds.
Proof. induction ds as [|d ds IH]; simpl; [lia|]. pose proof (size_of_pos d). lia. Qed.

Lemma length_chunks ds : forall o, Z.of_nat (length (concat (chunks o ds))) = sizes ds.
Proof.
  induction ds as [|d ds IH]; intros o; simpl; [done|].
  rewrite length_app, Nat2Z.inj_add, add_dirent_length, IH. done.
Qed.

Lemma chunks_app ds ds' : forall o,
  chunks o (app ds ds') = app (chunks o ds) (chunks (o + sizes ds) ds').
Proof.
  induction ds as [|d ds IH]; intros o; simpl; [by rewrite Z.add_0_r|].
  f_equal. rewrite IH. unfold size_of. by rewrite Z.add_assoc.
Qed.

(** What a listing shows of an entry that ends at [e]. *)
Definition shown (d : dirent) : string * Z := (c_str (de_name d), de_inum d).

Lemma next_dirent_nil : next_dirent [] = None.
Proof.
  apply (next_dirent_short "" 0 0); [apply prefix_nil|]. intros E.
  pose proof (add_dirent_length "" 0 0) as Hl. rewrite <-E in Hl.
  pose proof (dirent_size_pos (Z.of_nat (String.length EmptyString))) as Hp. cbn [length] in Hl. lia.
Qed.

Lemma parse_nil n : parse n [] = [].
Proof. destruct n; simpl; [done|]. by rewrite next_dirent_nil. Qed.

(** The complete entries of a page are read, and give the offset behind them. *)
Lemma parse_page ds : forall o n m, (length (take m (concat (chunks o ds))) <= n)%nat ->
  exists j : nat, (j <= length ds)%nat /\
    match ds with d :: _ => size_of d <= Z.of_nat m -> (0 < j)%nat | [] => True end /\
    map fst (parse n (take m (concat (chunks o ds)))) = map shown (take j ds) /\
    match last (parse n (take m (concat (chunks o ds)))) with
    | Some (_, e) => e = o + sizes (take j ds) /\ (0 < j)%nat
    | None => j = 0%nat
    end.
Proof.
  induction ds as [|d ds IH]; intros o n m Hn.
  { exists 0%nat. simpl. rewrite take_nil, parse_nil. done. }
  simpl in *. set (e := o + fuse_dirent_size (Z.of_nat (String.length (c_str (de_name d))))) in *.
  set (c := fuse_add_dirent (c_str (de_name d)) (de_inum d) e) in *.
  assert (Z.of_nat (length c) = size_of d) as Hc by apply add_dirent_length.
  pose proof (size_of_pos d) as Hpos. destruct (decide (length c <= m)%nat) as [Hfit|Hno].
  - rewrite take_app_ge in * by done. rewrite length_app in Hn.
    destruct n as [|n]; [lia|]. simpl. subst c. rewrite next_dirent_entry.
    destruct (IH e n (m - length (fuse_add_dirent (c_str (de_name d)) (de_inum d) e))%nat)
      as (j & Hj & _ & Hmap & Hlast); [lia|].
    exists (S j). split_and!; [lia|lia| |].
    + simpl. by rewrite Hmap.
    + rewrite last_cons. destruct (last (parse n _)) as [[x e']|].
      * destruct Hlast as [-> _]. split; [|lia]. simpl. unfold size_of, e. lia.
      * rewrite Hlast. split; [|lia]. simpl. unfold size_of, e. lia.
  - rewrite take_app_le in * by lia. exists 0%nat. split_and!; [lia|lia| |].
    + destruct n; simpl; [done|]. rewrite (next_dirent_short (c_str (de_name d)) (de_inum d) e); [done| |].
      * apply prefix_take.
      * intros E. apply (f_equal length) in E. rewrite length_take in E. fold c in E. lia.
    + destruct n; simpl; [done|]. rewrite (next_dirent_short (c_str (de_name d)) (de_inum d) e); [done| |].
      * apply prefix_take.
      * intros E. apply (f_equal length) in E. rewrite length_take in E. fold c in E. lia.
Qed.

(** The page at the offset behind the first entries. *)
Lemma readdir_page (w : W) ino size (ds1 ds2 : list dirent) :
  yfs_isdir ino = true -> yfs_readdir w ino = (w, yfs_OK, app ds1 ds2) ->
  sizes (app ds1 ds2) < 2 ^ 64 -> 0 <= size ->
  fuseserver_readdir w ino size (sizes ds1) =
  (w, [reply_buf (take (Z.to_nat size) (concat (chunks (sizes ds1) ds2)))]).
Proof.
  intros Hd Hr Hmax Hsize. unfold fuseserver_readdir. rewrite Hd, Hr. simpl. rewrite Z.eqb_refl. simpl.
  do 2 f_equal. unfold reply_buf_limited, dirbuf_of. rewrite dirbuf_chunks. simpl.
  rewrite length_chunks. pose proof (sizes_nonneg ds1) as H1'. pose proof (sizes_nonneg ds2) as H2'.
  rewrite sizes_app in *. unfold u64. rewrite !Z.mod_small by lia. rewrite chunks_app, concat_app, Z.add_0_l.
  assert (length (concat (chunks 0 ds1)) = Z.to_nat (sizes ds1)) as Hl1.
  { rewrite <-(length_chunks ds1 0). lia. }
  pose proof (length_chunks ds2 (sizes ds1)) as Hl2.
  rewrite drop_app_length' by done. destruct (Z.ltb_spec (sizes ds1) (sizes ds1 + sizes ds2)) as [Hlt|Hge].
  - f_equal. destruct (Z.min_spec (sizes ds1 + sizes ds2 - sizes ds1) size) as [[Hm ->]|[Hm ->]]; [|done].
    rewrite !take_ge by lia. done.
  - rewrite (nil_length_inv (concat (chunks (sizes ds1) ds2))) by lia. by rewrite take_nil.
Qed.

(** C28: a directory is listed completely. When the kernel reads a directory
    that stays as it is, page by page, each page from the offset that the last
    complete entry of the page before gave, it gets every entry exactly once and
    in order, and an empty page at the end, however the pages cut the entries:
    it is enough that a page has room for each single entry. *)
Theorem readdir_lists_all (w : W) (ino size : Z) (ds : list dirent) :
  yfs_isdir ino = true -> yfs_readdir w ino = (w, yfs_OK, ds) -> sizes ds < 2 ^ 64 -> 0 <= size ->
  Forall (fun d => size_of d <= size) ds ->
  list_dir (S (length ds)) w ino size 0 = map shown ds.
Proof.
  intros Hd Hr Hmax Hsize Hfit.
  assert (forall n ds1 ds2, ds = app ds1 ds2 -> (length ds2 < n)%nat ->
            list_dir n w ino size (sizes ds1) = map shown ds2) as Hgen.
  { induction n as [|n IH]; intros ds1 ds2 -> Hn; [lia|]. cbn [list_dir].
    rewrite (readdir_page w ino size ds1 ds2 Hd Hr Hmax Hsize).
    destruct (parse_page ds2 (sizes ds1) _ (Z.to_nat size) (le_n _)) as (j & Hj & Hfirst & Hmap & Hlast).
    destruct (last (parse _ _)) as [[x e]|].
    - destruct Hlast as [-> Hj0]. rewrite Hmap, <-sizes_app, (IH (app ds1 (take j ds2)) (drop j ds2)).
      + by rewrite <-map_app, take_drop.
      + by rewrite <-app_assoc, take_drop.
      + rewrite length_drop. lia.
    - destruct ds2 as [|d ds2]; [done|]. apply Forall_app in Hfit as [_ Hfit].
      apply Forall_cons in Hfit as [Hfit _]. specialize (Hfirst ltac:(lia)). lia. }
  apply (Hgen (S (length ds)) [] ds); [done|lia].
Qed.
End fuse.

(** ** A directory read in three pages *)

(** An encoding with the length, the inode and the offset in front of the name. *)
Definition codes (s : string) : list Z := map (fun c => Z.of_nat (nat_of_ascii c)) (list_ascii_of_string s).
Definition uncodes (l : list Z) : string :=
  string_of_list_ascii (map (fun z => ascii_of_nat (Z.to_nat z)) l).

#[local] Instance demo_lib : FuseLib := {
  fuse_dirent_size n := 3 + Z.max 0 n;
  fuse_add_dirent name ino off := Z.of_nat (String.length name) :: ino :: off :: codes name;
  next_dirent l :=
    match l with
    | len :: ino :: off :: rest =>
        let n := Z.to_nat len in
        if (n <=? length rest)%nat then Some (uncodes (take n rest), ino, off, drop n rest) else None
    | _ => None
    end;
}.

Lemma length_codes s : length (codes s) = String.length s.
Proof. unfold codes. rewrite length_map. induction s; simpl; congruence. Qed.

Lemma uncodes_codes s : uncodes (codes s) = s.
Proof.
  unfold uncodes, codes. rewrite map_map. rewrite (map_ext _ id), map_id.
  - apply string_of_list_ascii_of_string.
  - intros c. rewrite Nat2Z.id. apply ascii_nat_embedding.
Qed.

#[local] Instance demo_lib_laws : FuseLibLaws demo_lib.
Proof.
  split; simpl.
  - lia.
  - intros name ino off. rewrite length_codes. lia.
  - intros name ino off rest. rewrite Nat2Z.id, <-length_codes, length_app.
    rewrite (proj2 (Nat.leb_le _ _)) by lia. by rewrite take_app_length, drop_app_length, uncodes_codes.
  - intros name ino off l [k Hk] Hne. destruct l as [|a [|b [|c rest]]]; [done..|].
    simpl in Hk. injection Hk as <- <- <- Hk. rewrite Nat2Z.id, <-length_codes. destruct (Nat.leb_spec (length (codes name)) (length rest)) as [Hle|]; [|done].
    exfalso. apply Hne. rewrite Hk, length_app in Hle.
    rewrite Hk, (nil_length_inv k) by lia. by rewrite app_nil_r.
Qed.

#[local] Instance demo_codes : YfsProtocol.
Proof. refine {| yfs_OK := 0; yfs_NOENT := 2; yfs_EXIST := 3 |}. lia. Defined.

(** One directory, 1, of three files. *)
#[local] Instance demo_client : YfsClient unit := {
  yfs_isfile ino := 1 <? ino;
  yfs_isdir ino := ino =? 1;
  yfs_getfile w _ := (w, 0, Fileinfo 0 0 0 0);
  yfs_getdir w _ := (w, 0, Dirinfo 0 0 0);
  yfs_setattr w _ _ := (w, 0);
  yfs_read w _ _ _ := (w, 0, []);
  yfs_write w _ _ _ _ := (w, 0);
  yfs_create w _ _ := (w, 3, None);
  yfs_lookup w _ _ := (w, 2, None);
  yfs_readdir w _ := (w, 0, [Dirent "a" 5; Dirent "notes" 6; Dirent "b" 7]);
  yfs_mkdir w _ _ := (w, 3, None);
  yfs_unlink w _ _ := (w, 2);
}.

(** Pages of 9 bytes cut the second entry. *)
Lemma readdir_lists_all_witness :
  fuseserver_readdir tt 1 9 0 = (tt, [reply_buf [1; 5; 4; 97; 5; 6; 12; 110; 111]]) /\
  list_dir 4 tt 1 9 0 = [("a", 5); ("notes", 6); ("b", 7)].
Proof.
  split; [vm_compute; reflexivity|].
  apply (readdir_lists_all tt 1 9 [Dirent "a" 5; Dirent "notes" 6; Dirent "b" 7]);
    [reflexivity..|vm_compute; reflexivity|lia|repeat constructor; vm_compute; discriminate].
Defined.
End Fuse.
