(* ===== verification/MethodThread.v ===== *)
(** * Threads and jobs that run a method (include/rpc/method_thread.h, include/rpc/thr_pool.h)

    [method_thread] and [ThrPool::addObjJob] pack an object, a method and its
    arguments into a heap object, pass its address through a [void *] and unpack
    it in another thread. Objects, methods and arguments are values of unspecified
    types; running a method is an event of a log. *)

From S2P Require Import Prelude.
From S2P Require Import Fifo.

Local Open Scope Z_scope.

(** ** The heap objects *)

Section closures.
Context {O M A : Type}.

(** The class [XXX] of each overload of [method_thread]. *)
Inductive closure :=
| XXX0 (o : O) (m : M)
| XXX1 (o : O) (m : M) (a : A)
| XXX2 (o : O) (m : M) (a1 a2 : A)
| XXX3 (o : O) (m : M) (a1 a2 a3 : A).

(** [(o->*m)(args)] *)
Record invocation := Invoke { inv_obj : O; inv_meth : M; inv_args : list A }.

(** What the overloads of [yyy] run after they have copied the fields. *)
Definition yyy_call (x : closure) : invocation :=
  match x with
  | XXX0 o m => Invoke o m []
  | XXX1 o m a => Invoke o m [a]
  | XXX2 o m a1 a2 => Invoke o m [a1; a2]
  | XXX3 o m a1 a2 a3 => Invoke o m [a1; a2; a3]
  end.

(** [new], reading through a pointer, and [delete]. *)
Record store (X : Type) := Store { cells : gmap nat X; fresh : nat }.
Arguments Store {X} cells fresh.
Arguments cells {X} s.
Arguments fresh {X} s.

Definition new {X} (h : store X) (x : X) : store X * nat :=
  (Store (<[fresh h := x]> (cells h)) (S (fresh h)), fresh h).
Definition load {X} (h : store X) (p : nat) : outcome X :=
  match cells h !! p with Some x => Val x | None => Fault Undefined end.
Definition delete {X} (h : store X) (p : nat) : outcome (store X) :=
  match cells h !! p with
  | Some _ => Val (Store (base.delete p (cells h)) (fresh h))
  | None => Fault Undefined
  end.

(** A cell is allocated below [fresh]. *)
Definition store_wf {X} (h : store X) : Prop := forall p x, cells h !! p = Some x -> (p < fresh h)%nat.

Lemma new_wf {X} (h : store X) x : store_wf h -> store_wf (new h x).1.
Proof. intros Hw p y. simpl. intros [[<- ->]|[? Hp%Hw]]%lookup_insert_Some; lia. Qed.

Lemma delete_val {X} (h : store X) p x :
  cells h !! p = Some x -> delete h p = Val (Store (base.delete p (cells h)) (fresh h)).
Proof. unfold delete. by intros ->. Qed.

Lemma fresh_none {X} (h : store X) : store_wf h -> cells h !! fresh h = None.
Proof. intros Hw. destruct (cells h !! fresh h) eqn:E; [apply Hw in E; lia|done]. Qed.

End closures.
Arguments closure : clear implicits.
Arguments invocation : clear implicits.
Arguments store : clear implicits.
Arguments Store {X} cells fresh.
Arguments cells {X} s.
Arguments fresh {X} s.

(** ** [method_thread] *)

Module MethodThread.
Section threads.
Context {O M A : Type}.

(** A created thread that has not run yet keeps the [void *] it was given. *)
Inductive thread := Created (arg : nat) (detached : bool) | Started (detached : bool).

Record process := Process {
  heap : store (closure O M A);
  threads : gmap nat thread;
  next_th : nat;
  (* ghost: what was asked of each thread, and what it has called *)
  asked : gmap nat (invocation O M A);
  called : gmap nat (list (invocation O M A));
}.

(** [err] and [derr] are what [pthread_create] and [pthread_detach] return. *)
Definition method_thread_parent (pr : process) (arg : nat) (detach : bool) (err derr : Z) : outcome (process * nat) :=
  let th := next_th pr in
  if negb (err =? 0) then Fault Exited
  else
    if detach then
      VERIFY (derr =? 0) ;;;
      Val (Process (heap pr) (<[th := Created arg true]> (threads pr)) (S th) (asked pr) (called pr), th)
    else Val (Process (heap pr) (<[th := Created arg false]> (threads pr)) (S th) (asked pr) (called pr), th).

(** [s] and [t] are what [pthread_setcancelstate] and [pthread_setcanceltype]
    return. *)
Definition method_thread_child (s t : Z) : outcome unit :=
  VERIFY (s =? 0) ;;; VERIFY (t =? 0) ;;; Val tt.

(** The four overloads: allocate, fill in, start. *)
Definition with_heap (pr : process) (h : store (closure O M A)) : process :=
  Process h (threads pr) (next_th pr) (asked pr) (called pr).

Definition spawn (pr : process) (x : closure O M A) (detach : bool) (err derr : Z) : outcome (process * nat) :=
  let '(h, p) := new (heap pr) x in
  method_thread_parent (with_heap pr h) p detach err derr.

Definition method_thread_0 pr o detach m := spawn pr (XXX0 o m) detach.
Definition method_thread_1 pr o detach m a := spawn pr (XXX1 o m a) detach.
Definition method_thread_2 pr o detach m a1 a2 := spawn pr (XXX2 o m a1 a2) detach.
Definition method_thread_3 pr o detach m a1 a2 a3 := spawn pr (XXX3 o m a1 a2 a3) detach.

(** [yyy] in the new thread [th], up to and including the call. *)
Definition yyy (pr : process) (th : nat) (s t : Z) : outcome process :=
  match threads pr !! th with
  | Some (Created p d) =>
      let! x := load (heap pr) p in
      let! h := delete (heap pr) p in
      method_thread_child s t ;;;
      Val (Process h (<[th := Started d]> (threads pr)) (next_th pr) (asked pr)
             (<[th := default [] (called pr !! th) ++ [yyy_call x]]> (called pr)))
  | _ => Val pr
  end.

(** The ghost record of a request. *)
Definition ask (pr : process) (th : nat) (i : invocation O M A) : process :=
  Process (heap pr) (threads pr) (next_th pr) (<[th := i]> (asked pr)) (called pr).

(** Any thread asks for a new one, or a created thread gets to run. [pr] may
    stop with a fault. *)
Inductive step : process -> outcome process -> Prop :=
| step_spawn pr x detach err derr pr' th :
    spawn pr x detach err derr = Val (pr', th) -> step pr (Val (ask pr' th (yyy_call x)))
| step_spawn_fault pr x detach err derr f :
    spawn pr x detach err derr = Fault f -> step pr (Fault f)
| step_run pr th p d s t :
    threads pr !! th = Some (Created p d) -> step pr (yyy pr th s t).

Definition steps (pr pr' : process) : Prop := rtc (fun a b => step a (Val b)) pr pr'.

Definition start : process := Process (Store ∅ 0) ∅ 0 ∅ ∅.

(** Every created thread owns a cell that holds what was asked of it, no two own
    the same one, and every cell has an owner; a started thread has made the one
    call that was asked of it. *)
Record tinv (pr : process) : Prop := {
  ti_heap : store_wf (heap pr);
  ti_fresh : forall th x, threads pr !! th = Some x -> (th < next_th pr)%nat;
  ti_none : forall th, threads pr !! th = None -> called pr !! th = None;
  ti_created : forall th p d, threads pr !! th = Some (Created p d) ->
    called pr !! th = None /\
    exists x, cells (heap pr) !! p = Some x /\ asked pr !! th = Some (yyy_call x);
  ti_started : forall th d, threads pr !! th = Some (Started d) ->
    exists i, asked pr !! th = Some i /\ called pr !! th = Some [i];
  ti_inj : forall th th' p d d', threads pr !! th = Some (Created p d) ->
    threads pr !! th' = Some (Created p d') -> th = th';
  ti_owned : forall p x, cells (heap pr) !! p = Some x ->
    exists th d, threads pr !! th = Some (Created p d);
}.

Lemma start_inv : tinv start.
Proof. split; try done. Qed.

(** What a successful [spawn] does. *)
Lemma spawn_val pr x detach err derr pr' th :
  spawn pr x detach err derr = Val (pr', th) ->
  th = next_th pr /\
  pr' = Process (new (heap pr) x).1 (<[th := Created (fresh (heap pr)) detach]> (threads pr)) (S th)
          (asked pr) (called pr).
Proof.
  unfold spawn, method_thread_parent. simpl. destruct (err =? 0); simpl; [|done].
  destruct detach; [destruct (derr =? 0); simpl; [|done]|]; by intros [= <- <-].
Qed.

Lemma spawn_inv pr x detach err derr pr' th :
  tinv pr -> spawn pr x detach err derr = Val (pr', th) -> tinv (ask pr' th (yyy_call x)).
Proof.
  intros [Hh Hf Hn Hc Hs Hi Ho] (-> & ->)%spawn_val.
  assert (threads pr !! next_th pr = None) as Hnew.
  { destruct (threads pr !! next_th pr) eqn:E; [apply Hf in E; lia|done]. }
  assert (forall p d th, threads pr !! th = Some (Created p d) -> (p < fresh (heap pr))%nat) as Hold.
  { intros p d th (_ & y & Hy & _)%Hc. by apply Hh in Hy. }
  split; simpl.
  - by apply new_wf.
  - intros th y [[<- _]|[_ Hy%Hf]]%lookup_insert_Some; lia.
  - intros th [Hy _]%lookup_insert_None. auto.
  - intros th p d [[<- [= <- <-]]|[Hne Hy]]%lookup_insert_Some.
    + split; [by apply Hn|]. exists x. by rewrite !lookup_insert_eq.
    + pose proof (Hold _ _ _ Hy). destruct (Hc _ _ _ Hy) as (? & y & ? & ?). split; [done|].
      exists y. rewrite !lookup_insert_ne by (done || lia). done.
  - intros th d [[_ [=]]|[Hne Hy]]%lookup_insert_Some. rewrite lookup_insert_ne by done. by eapply Hs.
  - intros th th' p d d' [[<- [= <- <-]]|[Hne Hy]]%lookup_insert_Some
      [[<- [= <-]]|[Hne' Hy']]%lookup_insert_Some; [done| | |by eapply Hi].
    + apply Hold in Hy'. lia.
    + apply Hold in Hy. lia.
  - intros p y [[<- _]|[Hne Hy]]%lookup_insert_Some.
    + exists (next_th pr), detach. by rewrite lookup_insert_eq.
    + destruct (Ho _ _ Hy) as (th & d & Hth). exists th, d. rewrite lookup_insert_ne; [done|congruence].
Qed.

(** What [yyy] does in a created thread. *)
Lemma yyy_val pr th p d s t :
  tinv pr -> threads pr !! th = Some (Created p d) ->
  exists i, asked pr !! th = Some i /\
    yyy pr th s t =
      (method_thread_child s t ;;;
       Val (Process (Store (base.delete p (cells (heap pr))) (fresh (heap pr)))
              (<[th := Started d]> (threads pr)) (next_th pr) (asked pr) (<[th := [i]]> (called pr)))).
Proof.
  intros Hinv Hth. destruct (ti_created _ Hinv _ _ _ Hth) as (Hn & x & Hx & Ha).
  exists (yyy_call x). split; [done|]. unfold yyy, load. rewrite Hth, Hx. simpl.
  rewrite (delete_val _ _ _ Hx), Hn. done.
Qed.

Lemma yyy_inv pr th p d s t pr' :
  tinv pr -> threads pr !! th = Some (Created p d) -> yyy pr th s t = Val pr' -> tinv pr'.
Proof.
  intros Hinv Hth. destruct (yyy_val pr th p d s t Hinv Hth) as (i & Ha & ->).
  destruct (method_thread_child s t); simpl; [|done]. intros [= <-].
  destruct Hinv as [Hh Hf Hn Hc Hs Hi Ho]. split; simpl.
  - intros q y. simpl. intros [_ Hy]%lookup_delete_Some. by eapply Hh.
  - intros th' y [[<- _]|[_ Hy]]%lookup_insert_Some; by eapply Hf.
  - intros th' [Hy Hne]%lookup_insert_None. rewrite lookup_insert_ne by done. auto.
  - intros th' q d' [[_ [=]]|[Hne Hy]]%lookup_insert_Some. rewrite lookup_insert_ne by done.
    destruct (Hc _ _ _ Hy) as (? & y & ? & ?). split; [done|]. exists y. split; [|done].
    rewrite lookup_delete_ne; [done|]. intros ->. apply Hne. by eapply Hi.
  - intros th' d' [[<- _]|[Hne Hy]]%lookup_insert_Some; [exists i; by rewrite lookup_insert_eq|].
    rewrite lookup_insert_ne by done. by eapply Hs.
  - intros th1 th2 q d1 d2 [[_ [=]]|[_ H1]]%lookup_insert_Some [[_ [=]]|[_ H2]]%lookup_insert_Some. by eapply Hi.
  - intros q y [Hne Hy]%lookup_delete_Some. destruct (Ho _ _ Hy) as (th' & d' & Hth').
    exists th', d'. rewrite lookup_insert_ne; [done|]. congruence.
Qed.

Lemma step_run_val pr th p d s t pr' :
  threads pr !! th = Some (Created p d) -> yyy pr th s t = Val pr' -> step pr (Val pr').
Proof. intros Hth <-. by eapply step_run. Qed.

Lemma step_inv pr pr' : tinv pr -> step pr (Val pr') -> tinv pr'.
Proof.
  intros Hi Hs. inversion Hs; subst; [by eapply spawn_inv|]. by eapply yyy_inv.
Qed.

Lemma steps_inv pr : steps start pr -> tinv pr.
Proof.
  intros Hr. pose proof start_inv as Hi. revert Hi.
  induction Hr as [|p1 p2 p3 Hs Hr IH]; [done|]. intros Hi. by eapply IH, step_inv.
Qed.

(** A thread runs the method it was created for, once. Whatever the order in which
    [method_thread] is called and the new threads get to run, a thread that has run has
    made exactly the call it was asked for, with its own arguments; one that has not has
    made none. The closures of the threads that have yet to run, and no others, are on the
    heap: none is read after its [delete], freed twice or leaked. *)
Theorem method_thread_runs_once (pr : process) :
  steps start pr ->
  (forall th d, threads pr !! th = Some (Started d) ->
     exists i, asked pr !! th = Some i /\ called pr !! th = Some [i]) /\
  (forall th p d, threads pr !! th = Some (Created p d) -> called pr !! th = None) /\
  (forall p, is_Some (cells (heap pr) !! p) <-> exists th d, threads pr !! th = Some (Created p d)) /\
  (forall o, step pr o -> o <> Fault Undefined).
Proof.
  intros Hr%steps_inv. split_and!.
  - intros th d. apply (ti_started _ Hr).
  - intros th p d Hth. by apply (ti_created _ Hr) in Hth as [? _].
  - intros p. split.
    + intros [x Hx]. by eapply (ti_owned _ Hr).
    + intros (th & d & Hth). apply (ti_created _ Hr) in Hth as (_ & x & Hx & _). by exists x.
  - intros o Hs. destruct Hs as [?|pr x detach err derr f Hs|pr th p d s t Hth]; [done| |].
    + revert Hs. unfold spawn, method_thread_parent. simpl.
      destruct (err =? 0), detach, (derr =? 0); simpl; congruence.
    + destruct (yyy_val pr th p d s t Hr Hth) as (i & _ & ->). unfold method_thread_child.
      by destruct (s =? 0), (t =? 0).
Qed.

End threads.

(** Two threads, the second one runs first. *)
Definition demo_threads : @process Z Z Z :=
  Process (Store ∅ 2) {[0%nat := Started false; 1%nat := Started true]} 2
    {[0%nat := Invoke 1 10 []; 1%nat := Invoke 1 11 [5; 6]]}
    {[0%nat := [Invoke 1 10 []]; 1%nat := [Invoke 1 11 [5; 6]]]}.

Lemma method_thread_runs_once_witness :
  steps start demo_threads /\ threads demo_threads !! 1%nat = Some (Started true) /\
  exists i, asked demo_threads !! 1%nat = Some i /\ called demo_threads !! 1%nat = Some [i].
Proof.
  assert (steps start demo_threads) as Hr.
  { eapply rtc_l; [by eapply (step_spawn _ (XXX0 1 10) false 0 0)|].
    eapply rtc_l; [by eapply (step_spawn _ (XXX2 1 11 5 6) true 0 0)|].
    eapply rtc_l; [by eapply (step_run_val _ 1 1 true 0 0)|].
    eapply rtc_l; [by eapply (step_run_val _ 0 0 false 0 0)|].
    match goal with |- rtc _ ?x _ => replace x with demo_threads by (vm_compute; reflexivity) end. apply rtc_refl. }
  split; [exact Hr|]. split; [reflexivity|].
  destruct (method_thread_runs_once demo_threads Hr) as (Hs & _). by apply (Hs 1%nat true).
Defined.
End MethodThread.

(** ** [ThrPool::addObjJob] *)

Module ObjJob.
Import Fifo ThrPool.

Section jobs.
Context {O M A : Type}.

(** The class [objfunc_wrapper]; [func] calls the method and then deletes it. *)
Record objfunc_wrapper := Wrapper { w_o : O; w_m : M; w_a : A }.

Definition func_call (x : objfunc_wrapper) : invocation O M A := Invoke (w_o x) (w_m x) [w_a x].

Record server := Server {
  heap : store objfunc_wrapper;
  tp : @pool nat;
  (* a worker in [func] has its argument *)
  busy : list nat;
  (* ghost: the accepted and the refused requests, in order, and the calls *)
  accepted : list (nat * invocation O M A);
  refused : list nat;
  calls : list (nat * invocation O M A);
}.

Inductive add_result := AddTrue (s : server) | AddFalse (s : server) | AddWait.

Definition with_queue (p : @pool nat) (q : fifo job_t) : pool := Pool (nthreads_ p) (blockadd_ p) q (alive p) (ran p).

(** A caller that has to wait allocates its wrapper before it does; here it does
    when it is let in, which is when others can reach it. *)
Definition addObjJob (s : server) (o : O) (m : M) (a : A) : add_result :=
  let x := Wrapper o m a in
  let '(h, p) := new (heap s) x in
  match addJob (tp s) p with
  | Enqueued q => AddTrue (Server h (with_queue (tp s) q) (busy s) (accepted s ++ [(p, func_call x)]) (refused s) (calls s))
  | EnqFull => AddFalse (Server h (tp s) (busy s) (accepted s) (refused s ++ [p]) (calls s))
  | EnqWait => AddWait
  end.

(** A worker enters [func] with the argument of the job it took: it copies the
    fields and calls the method. *)
Definition func_enter (s : server) : option (outcome server) :=
  match takeJob (tp s) with
  | TakeJob p pl =>
      Some (let! x := load (heap s) p in
            Val (Server (heap s) pl (busy s ++ [p]) (accepted s) (refused s) (calls s ++ [(p, func_call x)])))
  | _ => None
  end.

(** The method has returned. *)
Definition func_leave (s : server) (i : nat) : option (outcome server) :=
  match busy s !! i with
  | Some p =>
      Some (let! h := delete (heap s) p in
            Val (Server h (tp s) (base.delete i (busy s)) (accepted s) (refused s) (calls s)))
  | None => None
  end.

Inductive step : server -> outcome server -> Prop :=
| step_add s o m a s' : addObjJob s o m a = AddTrue s' -> step s (Val s')
| step_refuse s o m a s' : addObjJob s o m a = AddFalse s' -> step s (Val s')
| step_enter s r : alive (tp s) <> 0%nat -> func_enter s = Some r -> step s r
| step_leave s i r : func_leave s i = Some r -> step s r.

Definition steps (s s' : server) : Prop := rtc (fun a b => step a (Val b)) s s'.
Definition start (n : nat) (blocking : bool) : server := Server (Store ∅ 0) (pool_new n blocking) [] [] [] [].

(** [todo] is what the queue holds. Each wrapper on the heap has one of three
    owners: a queued job, a worker in [func], or nobody, when the queue refused
    the job. *)
Record jinv (todo : list (nat * invocation O M A)) (s : server) : Prop := {
  ji_heap : store_wf (heap s);
  ji_queue : q_ (jobq_ (tp s)) = Some <$> todo.*1;
  ji_calls : accepted s = calls s ++ todo;
  ji_todo : forall p i, (p, i) ∈ todo -> exists x, cells (heap s) !! p = Some x /\ i = func_call x;
  ji_cells : forall p, is_Some (cells (heap s) !! p) <-> p ∈ todo.*1 ++ busy s ++ refused s;
  ji_nodup : NoDup (todo.*1 ++ busy s ++ refused s);
}.

Lemma start_jinv n b : jinv [] (start n b).
Proof.
  split; try done; [by intros ? ? ?%elem_of_nil| |constructor]. intros p. simpl.
  split; [by intros [? [=]]|by intros ?%elem_of_nil].
Qed.

(** Both ends of [addObjJob] leave the new wrapper with an owner. *)
Lemma new_cells {X} (h : store X) x (l : list nat) :
  store_wf h -> (forall p, is_Some (cells h !! p) <-> p ∈ l) ->
  (fresh h ∉ l) /\ (forall p, is_Some (cells (new h x).1 !! p) <-> p = fresh h \/ p ∈ l).
Proof.
  intros Hw Hl. split.
  - rewrite <-Hl. rewrite (fresh_none _ Hw). by intros [? [=]].
  - intros p. simpl. rewrite lookup_insert_is_Some', Hl. naive_solver.
Qed.

Lemma add_jinv todo s o m a s' :
  jinv todo s -> addObjJob s o m a = AddTrue s' -> jinv (todo ++ [(fresh (heap s), Invoke o m [a])]) s'.
Proof.
  intros [Hh Hq Hc Ht Hd Hn]. unfold addObjJob, addJob. simpl.
  destruct (enq_turn _ _ _) as [q| |] eqn:E; try done. intros [= <-]. apply enq_turn_spec in E as (E & _).
  destruct (new_cells (heap s) (Wrapper o m a) _ Hh Hd) as [Hf Hd']. split; simpl.
  - by apply (new_wf (heap s)).
  - by rewrite E, Hq, !fmap_app.
  - by rewrite Hc, <-app_assoc.
  - intros p i [Hp|[= -> ->]%list_elem_of_singleton]%elem_of_app; [|exists (Wrapper o m a); by rewrite lookup_insert_eq].
    destruct (Ht _ _ Hp) as (x & Hx & ->). exists x. rewrite lookup_insert_ne; [done|].
    apply Hh in Hx. lia.
  - intros p. rewrite Hd'. rewrite fmap_app, !elem_of_app. simpl. rewrite list_elem_of_singleton. tauto.
  - rewrite fmap_app. simpl. rewrite <-app_assoc. simpl. rewrite <-Permutation_middle. by constructor.
Qed.

Lemma refuse_jinv todo s o m a s' :
  jinv todo s -> addObjJob s o m a = AddFalse s' -> jinv todo s'.
Proof.
  intros [Hh Hq Hc Ht Hd Hn]. unfold addObjJob, addJob. simpl.
  destruct (enq_turn _ _ _) as [q| |] eqn:E; try done. intros [= <-].
  destruct (new_cells (heap s) (Wrapper o m a) _ Hh Hd) as [Hf Hd']. split; simpl.
  - by apply (new_wf (heap s)).
  - done.
  - done.
  - intros p i Hp. destruct (Ht _ _ Hp) as (x & Hx & ->). exists x. rewrite lookup_insert_ne; [done|].
    apply Hh in Hx. lia.
  - intros p. rewrite Hd', !elem_of_app, list_elem_of_singleton. tauto.
  - rewrite !app_assoc, (Permutation_app_comm _ [fresh (heap s)]). simpl. constructor; [by rewrite <-app_assoc|].
    by rewrite <-app_assoc.
Qed.

Lemma enter_jinv todo s r :
  jinv todo s -> func_enter s = Some r -> exists todo' s', r = Val s' /\ jinv todo' s'.
Proof.
  intros [Hh Hq Hc Ht Hd Hn]. unfold func_enter, takeJob.
  destruct (deq_turn _) as [[p|] q b|] eqn:E; try done. intros [= <-]. apply deq_turn_spec in E as (E & _).
  rewrite E in Hq. destruct todo as [|[p' i] todo]; [done|]. simpl in Hq. injection Hq as <- Hq.
  destruct (Ht p i) as (x & Hx & ->); [by left|]. unfold load. rewrite Hx. simpl.
  exists todo. eexists. split; [done|]. split; simpl.
  - done.
  - done.
  - by rewrite Hc, <-app_assoc.
  - intros q' i Hi. apply Ht. by right.
  - intros q'. rewrite Hd. simpl. rewrite elem_of_cons, !elem_of_app, list_elem_of_singleton. tauto.
  - simpl in Hn. eapply NoDup_Permutation_proper; [|exact Hn]. rewrite <-app_assoc. simpl.
    by rewrite <-(Permutation_middle (busy s)), <-Permutation_middle.
Qed.

Lemma leave_jinv todo s i r :
  jinv todo s -> func_leave s i = Some r -> exists s', r = Val s' /\ jinv todo s'.
Proof.
  intros [Hh Hq Hc Ht Hd Hn]. unfold func_leave. destruct (busy s !! i) as [p|] eqn:E; [|done]. intros [= <-].
  assert (busy s ≡ₚ p :: base.delete i (busy s)) as Hp by by apply delete_Permutation.
  remember (base.delete i (busy s)) as rest eqn:Er.
  destruct (proj2 (Hd p)) as [x Hx]; [rewrite !elem_of_app; right; left; by eapply list_elem_of_lookup_2|].
  rewrite (delete_val _ _ _ Hx). simpl. eexists. split; [done|].
  assert (NoDup (p :: todo.*1 ++ rest ++ refused s)) as [Hout Hn']%NoDup_cons.
  { eapply NoDup_Permutation_proper; [|exact Hn]. rewrite Hp. simpl. by rewrite <-Permutation_middle. }
  split; simpl; try done.
  - intros q y. simpl. intros [_ Hy]%lookup_delete_Some. by eapply Hh.
  - intros q j Hj. destruct (Ht _ _ Hj) as (y & Hy & ->). exists y. rewrite lookup_delete_ne; [done|].
    intros <-. apply Hout, elem_of_app. left. by apply (list_elem_of_fmap_2 fst _ _ Hj).
  - intros q. rewrite lookup_delete_is_Some, Hd. split.
    + intros [Hne Hq']. rewrite Hp in Hq'. rewrite !elem_of_app in *. rewrite elem_of_cons in Hq'.
      destruct Hq' as [?|[[?|?]|?]]; auto. congruence.
    + intros Hq'. split; [by intros <-|]. rewrite Hp. rewrite !elem_of_app in *. rewrite elem_of_cons. tauto.
Qed.

Lemma steps_jinv n b s : steps (start n b) s -> exists todo, jinv todo s.
Proof.
  intros Hr. assert (exists todo, jinv todo (start n b)) as Hi by (exists []; apply start_jinv). revert Hi.
  induction Hr as [|s1 s2 s3 Hs Hr IH]; [done|]. intros [todo Hi]. apply IH.
  inversion Hs as [? ? ? ? ? Ha|? ? ? ? ? Ha|? ? Ha He|? ? ? Hl]; subst.
  - eexists. by eapply add_jinv.
  - eexists. by eapply refuse_jinv.
  - destruct (enter_jinv _ _ _ Hi He) as (todo' & s' & [= ->] & Hi'). by exists todo'.
  - destruct (leave_jinv _ _ _ _ Hi Hl) as (s' & [= ->] & Hi'). by exists todo.
Qed.

(** C32: a job runs the method it was added for, once. In every reachable state of a pool whose
    clients add object jobs, the calls that the workers have made are the accepted jobs, in the order
    of their acceptance and with their own arguments, but for those still in the queue; nothing is read
    or freed through a dangling pointer, and the wrappers on the heap are those of the queued jobs, of
    the running ones, and of the jobs that the full queue refused, which nobody will free. *)
Theorem object_jobs_run_once (n : nat) (b : bool) (s : server) :
  steps (start n b) s ->
  exists todo,
    accepted s = calls s ++ todo /\ q_ (jobq_ (tp s)) = Some <$> todo.*1 /\
    (forall p, is_Some (cells (heap s) !! p) <-> p ∈ todo.*1 ++ busy s ++ refused s) /\
    NoDup (todo.*1 ++ busy s ++ refused s) /\
    (forall o, step s o -> exists s', o = Val s').
Proof.
  intros [todo Hi]%steps_jinv. exists todo. split_and!; [apply Hi..|].
  intros o Hs. destruct Hs as [s o m a s' Ha|s o m a s' Ha|s r Ha He|s i r Hl]; [eauto..| |].
  - destruct (enter_jinv _ _ _ Hi He) as (_ & s' & -> & _). by exists s'.
  - destruct (leave_jinv _ _ _ _ Hi Hl) as (s' & -> & _). by exists s'.
Qed.

End jobs.

(** One worker and two jobs, the second still queued. *)
Definition demo_server : @server Z Z Z :=
  Server (Store {[0%nat := Wrapper 1 10 5; 1%nat := Wrapper 1 10 6]} 2)
    (Pool 1 false (MkFifo [Some 1%nat] 100) 1 [0%nat]) [0%nat]
    [(0%nat, Invoke 1 10 [5]); (1%nat, Invoke 1 10 [6])] [] [(0%nat, Invoke 1 10 [5])].

Lemma object_jobs_run_once_witness :
  exists todo,
    accepted demo_server = calls demo_server ++ todo /\ q_ (jobq_ (tp demo_server)) = Some <$> todo.*1 /\
    (forall p, is_Some (cells (heap demo_server) !! p) <-> p ∈ todo.*1 ++ busy demo_server ++ refused demo_server) /\
    NoDup (todo.*1 ++ busy demo_server ++ refused demo_server) /\
    (forall o, step demo_server o -> exists s', o = Val s').
Proof.
  apply (object_jobs_run_once 1 false).
  eapply rtc_l; [by eapply (step_add _ 1 10 5)|].
  eapply rtc_l; [by eapply (step_add _ 1 10 6)|].
  eapply rtc_l; [by eapply step_enter|]. apply rtc_refl.
Defined.
End ObjJob.
