(* ===== verification/Sockaddr.v ===== *)
(** * Addresses (the end of src/rpc/rpc.cc, the constructors of the lock clients)

    A node is named by a string, [host:port] or a port of this machine;
    [make_sockaddr] turns it into the address that [connect] takes. The lock
    clients name themselves so that the lock server can call them back.
    [inet_addr] and [gethostbyname] are parameters. *)

From S2P Require Import Prelude.
From S2P Require Import Streams.

Local Open Scope Z_scope.

Module Sockaddr.

Definition AF_INET : Z := 2.
Definition INADDR_NONE : Z := 2 ^ 32 - 1.

(** [sin_port] and [sin_addr.s_addr] are in network byte order. *)
Record sockaddr_in := MkSockaddr { sin_family : Z; sin_port : Z; s_addr : Z }.

(** [operator<] *)
Definition sockaddr_ltb (a b : sockaddr_in) : bool :=
  (s_addr a <? s_addr b) || ((s_addr a =? s_addr b) && (sin_port a <? sin_port b)).

(** [htons] of an [int], on a machine that stores the low byte first. *)
Definition htons (n : Z) : Z := Z.lor (Z.shiftl (Z.land (u16 n) 255) 8) (Z.shiftr (u16 n) 8).
Definition ntohs (n : Z) : Z := htons n.

(** [atoi]: what does not fit into an [int] is undefined. *)
Definition atoi (s : string) : outcome Z :=
  let s := skipws s in
  let '(neg, s) := match s with
                   | String c s' => if Ascii.eqb c minus then (true, s')
                                    else if Ascii.eqb c plus then (false, s') else (false, s)
                   | EmptyString => (false, s)
                   end in
  let v := (span_digits 0 s).1 in
  let v := if (neg : bool) then - v else v in
  if bool_decide (- 2 ^ 31 <= v <= INT_MAX) then Val v else Fault Undefined.

Definition colon : Ascii.ascii := Ascii.Ascii false true false true true true false false.

(** [index(s, ':')]: what is before the first colon, and what is behind it. *)
Fixpoint index (s : string) : option (string * string) :=
  match s with
  | EmptyString => None
  | String c s =>
      if Ascii.eqb c colon then Some (EmptyString, s)
      else match index s with Some (h, p) => Some (String c h, p) | None => None end
  end.

Section resolver.
(** [gethostbyname] gives [h_length] and the first address, or nothing. *)
Context (inet_addr : string -> Z) (gethostbyname : string -> option (Z * Z)).

Definition make_sockaddr_host (host port : string) : outcome sockaddr_in :=
  let a := inet_addr host in
  let! a := (if negb (a =? INADDR_NONE) then Val a
             else match gethostbyname host with
                  | Some (h_length, a) => if negb (h_length =? 4) then Fault Exited else Val a
                  | None => Fault Exited
                  end) in
  let! p := atoi port in
  Val (MkSockaddr AF_INET (htons p) a).

Definition localhost : string := "127.0.0.1".

(** [char host[200]]: the name is copied without looking at its length. *)
Definition make_sockaddr (hostandport : string) : outcome sockaddr_in :=
  match index hostandport with
  | None => make_sockaddr_host localhost hostandport
  | Some (host, port) =>
      if bool_decide (Z.of_nat (String.length host) < 200) then make_sockaddr_host host port
      else Fault Undefined
  end.

(** ** How a lock client names itself *)

(** [host << hname << ":" << port] *)
Definition callback_id (port : Z) : string := localhost +:+ String colon (put_unsigned port).

(** [lock_client_cache::lock_client_cache]: the system chooses the port of the
    callback server. *)
Definition lock_client_cache_id (rpcs_port : Z) : string := callback_id rpcs_port.

(** [lock_client_cache_rsm::lock_client_cache_rsm]: [r] is what [rand] returns
    after [srand(time(NULL) ^ last_port)]. *)
Record rlock := Rlock { rlock_port : Z; id : string; last_port : Z }.
Definition lock_client_cache_rsm_new (r : Z) : rlock :=
  let rlock_port := Z.lor (Z.rem r 32000) (Z.shiftl 1 10) in
  Rlock rlock_port (callback_id rlock_port) rlock_port.

(** ** Ports *)

Lemma u16_id p : 0 <= p < 2 ^ 16 -> u16 p = p.
Proof. intros Hp. by apply Z.mod_small. Qed.

Lemma htons_eq p : 0 <= p < 2 ^ 16 -> htons p = p mod 2 ^ 8 * 2 ^ 8 + p / 2 ^ 8.
Proof.
  intros Hp. unfold htons. rewrite u16_id by done.
  rewrite land_255, Z.shiftl_mul_pow2, Z.shiftr_div_pow2 by lia. apply Z_lor_disjoint; [lia|].
  split; [apply Z.div_pos; lia|apply Z.div_lt_upper_bound; lia].
Qed.

Lemma htons_involutive p : 0 <= p < 2 ^ 16 -> 0 <= htons p < 2 ^ 16 /\ ntohs (htons p) = p.
Proof.
  intros Hp. unfold ntohs. rewrite (htons_eq p) by done.
  assert (0 <= p mod 2 ^ 8 * 2 ^ 8 + p / 2 ^ 8 < 2 ^ 16) as Hr by (Z.div_mod_to_equations; lia).
  split; [done|]. rewrite htons_eq by done. Z.div_mod_to_equations. lia.
Qed.

Lemma rlock_port_range r : 0 <= r <= INT_MAX -> 1024 <= rlock_port (lock_client_cache_rsm_new r) < 2 ^ 15.
Proof.
  intros Hr. simpl. rewrite Z.rem_mod_nonneg by lia. pose proof (Z.mod_pos_bound r 32000) as Hm.
  change (Z.shiftl 1 10) with 1024. split; [|apply lor_range; lia].
  assert (0 <= Z.lor (r mod 32000) 1024) by (apply Z.lor_nonneg; lia).
  assert (Z.lor (r mod 32000) 1024 <> 0) by (rewrite Z.lor_eq_0_iff; lia).
  change 1024 with (2 ^ 10) at 1. apply Z.log2_le_pow2; [lia|]. rewrite Z.log2_lor by lia.
  change (Z.log2 1024) with 10. lia.
Qed.

(** ** Parsing what was printed *)

Lemma atoi_put p : 0 <= p <= INT_MAX -> atoi (put_unsigned p) = Val p.
Proof.
  intros Hp. unfold atoi, put_unsigned.
  pose proof (put_digits_starts 19 p EmptyString) as Hst.
  destruct (span_put_digits 20 p 0 EmptyString) as (k & _ & Hspan).
  { unfold INT_MAX in Hp. change (10 ^ Z.of_nat 20) with 100000000000000000000. lia. }
  destruct (digit_no_sign _ Hst) as (c0 & s0 & He & Hsp & Hm & Hpl).
  rewrite He in *. simpl skipws. rewrite Hsp, Hm, Hpl. cbv zeta iota beta.
  rewrite Hspan. simpl. rewrite bool_decide_eq_true_2; [done|lia].
Qed.

Lemma index_digits fuel : forall n tail, index tail = None -> index (put_digits fuel n tail) = None.
Proof.
  induction fuel as [|fuel IH]; intros n tail Ht; [done|]. cbn [put_digits].
  assert (index (String (digit (n mod 10)) tail) = None) as Hd.
  { cbn [index]. rewrite Ht. destruct (Ascii.eqb_spec (digit (n mod 10)) colon) as [E|]; [|done].
    pose proof (digit_value_digit (n mod 10)) as Hv. rewrite E in Hv.
    discriminate Hv. apply Z.mod_pos_bound. lia. }
  destruct (n / 10 =? 0); [done|]. by apply IH.
Qed.

(** The address a port of this machine has. *)
Definition local (loopback port : Z) : sockaddr_in := MkSockaddr AF_INET (htons port) loopback.

(** C37: the names that the nodes use are addresses. For every port, the name a lock client gives
    itself, [127.0.0.1:port], and a bare port number both make the address of that port on this machine,
    and the port is read back from its network byte order; so the address of two clients is the
    same only if their ports are. The name [lock_client_cache_rsm] gives itself has a port outside the
    privileged range. *)
Theorem names_are_addresses (loopback : Z) :
  inet_addr localhost = loopback -> loopback <> INADDR_NONE ->
  (forall port, 0 <= port < 2 ^ 16 ->
     make_sockaddr (callback_id port) = Val (local loopback port) /\
     make_sockaddr (put_unsigned port) = Val (local loopback port) /\
     ntohs (sin_port (local loopback port)) = port) /\
  (forall r, 0 <= r <= INT_MAX ->
     let l := lock_client_cache_rsm_new r in
     1024 <= rlock_port l < 2 ^ 15 /\ make_sockaddr (id l) = Val (local loopback (rlock_port l))).
Proof.
  intros Hl Hne.
  assert (forall port, 0 <= port < 2 ^ 16 -> make_sockaddr_host localhost (put_unsigned port) = Val (local loopback port))
    as Hm.
  { intros port Hp. unfold make_sockaddr_host. rewrite Hl. destruct (Z.eqb_spec loopback INADDR_NONE); [done|].
    simpl. rewrite atoi_put; [done|]. unfold INT_MAX. lia. }
  assert (forall port, make_sockaddr (callback_id port) = make_sockaddr_host localhost (put_unsigned port)) as Hc.
  { intros port. unfold make_sockaddr, callback_id, localhost. by simpl. }
  split.
  - intros port Hp. rewrite Hc, Hm by done. split_and!; [done| |by apply htons_involutive].
    unfold make_sockaddr. unfold put_unsigned at 1. rewrite index_digits by done. by apply Hm.
  - intros r Hr l. pose proof (rlock_port_range r Hr) as Hp. split; [done|].
    change (id l) with (callback_id (rlock_port l)). rewrite Hc. apply Hm. fold l in Hp. lia.
Qed.

(** A host name of two hundred characters runs over the end of the buffer. *)
Lemma long_host_overflows (host port : string) :
  index host = None -> 200 <= Z.of_nat (String.length host) ->
  make_sockaddr (host +:+ String colon port) = Fault Undefined.
Proof.
  intros Hi Hl. unfold make_sockaddr.
  assert (index (host +:+ String colon port) = Some (host, port)) as ->.
  { clear Hl. induction host as [|c host IH]; [done|]. rewrite app_string_cons. cbn [index] in *.
    destruct (Ascii.eqb c colon); [done|]. destruct (index host) as [[]|]; [done|]. by rewrite IH. }
  by rewrite bool_decide_eq_false_2 by lia.
Qed.

End resolver.

(** [operator<] is a strict total order on addresses and ports, so a map may have them as keys. *)
Lemma sockaddr_ltb_spec a b :
  sockaddr_ltb a b = true <-> s_addr a < s_addr b \/ (s_addr a = s_addr b /\ sin_port a < sin_port b).
Proof. unfold sockaddr_ltb. rewrite orb_true_iff, andb_true_iff, !Z.ltb_lt, Z.eqb_eq. done. Qed.

Lemma sockaddr_order :
  (forall a, sockaddr_ltb a a = false) /\
  (forall a b c, sockaddr_ltb a b = true -> sockaddr_ltb b c = true -> sockaddr_ltb a c = true) /\
  (forall a b, sockaddr_ltb a b = true \/ sockaddr_ltb b a = true \/
     (s_addr a = s_addr b /\ sin_port a = sin_port b)).
Proof.
  split_and!.
  - intros a. apply not_true_is_false. rewrite sockaddr_ltb_spec. lia.
  - intros a b c. rewrite !sockaddr_ltb_spec. lia.
  - intros a b. rewrite !sockaddr_ltb_spec. lia.
Qed.

(** [127.0.0.1] is [0x0100007f] in network byte order; no other name is known. *)
Definition demo_inet_addr (s : string) : Z := if bool_decide (s = localhost) then 0x100007f else INADDR_NONE.

Lemma names_are_addresses_witness :
  id (lock_client_cache_rsm_new 40000) = "127.0.0.1:8000" /\
  make_sockaddr demo_inet_addr (fun _ => None) (id (lock_client_cache_rsm_new 40000))
    = Val (MkSockaddr 2 16415 0x100007f) /\
  make_sockaddr demo_inet_addr (fun _ => None) "elsewhere:8000" = Fault Exited.
Proof.
  split; [reflexivity|]. split; [|reflexivity].
  destruct (names_are_addresses demo_inet_addr (fun _ => None) 0x100007f) as (_ & Hr); [reflexivity|done|].
  destruct (Hr 40000) as [_ ->]; [unfold INT_MAX; lia|]. reflexivity.
Defined.
End Sockaddr.
