(* ===== verification/Listener.v ===== *)
(** * The listening thread (the rest of [tcpsconn] and [connect_to_dst] in src/rpc/connection.cc)

    Construction with its error paths, the loop of the thread that waits for
    connections, and its end: the destructor closes the write end of a pipe whose
    read end the thread waits on. What the system calls return are parameters. *)

From S2P Require Import Prelude.
From S2P Require Import Connection.
From S2P Require Import Tcpsconn.
From S2P Require Import Streams.
From S2P Require Import Sockaddr.

Local Open Scope Z_scope.

Module Listener.
Import Connection Tcpsconn.

(** Where the thread in [accept_conn] is. *)
Inductive thread := Waiting | Returned | Killed.

Record listener := MkListener {
  port_ : Z;
  tcp_ : Z;
  pipe_0 : Z;
  pipe_1 : Z;
  table : tcpsconn;
  th_ : thread;
  (* whether the destructor has closed [pipe_1] *)
  stopping : bool;
}.

Definition with_table (l : listener) (t : tcpsconn) : listener :=
  MkListener (port_ l) (tcp_ l) (pipe_0 l) (pipe_1 l) t (th_ l) (stopping l).
Definition with_th (l : listener) (th : thread) : listener :=
  MkListener (port_ l) (tcp_ l) (pipe_0 l) (pipe_1 l) (table l) th (stopping l).

(** What the calls of the constructor return. *)
Record syscalls := Syscalls {
  sc_socket : Z;
  sc_bind : Z;
  sc_listen : Z;
  sc_getsockname : Z;
  sc_sin_port : Z;           (* as [getsockname] stores it *)
  sc_pipe : Z;
  sc_pipe_0 : Z;
  sc_pipe_1 : Z;
  sc_thread : Z;             (* as [method_thread] returns it *)
}.

Definition tcpsconn_new (k : syscalls) : outcome listener :=
  VERIFY (0 <=? sc_socket k) ;;;
  VERIFY (0 <=? sc_bind k) ;;;
  VERIFY (0 <=? sc_listen k) ;;;
  VERIFY (sc_getsockname k =? 0) ;;;
  VERIFY (0 <=? sc_pipe k) ;;;
  VERIFY (negb (sc_thread k =? 0)) ;;;
  Val (MkListener (Sockaddr.ntohs (sc_sin_port k)) (sc_socket k) (sc_pipe_0 k) (sc_pipe_1 k)
         (MkTcps ∅ ∅ 0) Waiting false).

(** What [select] reports: an error, or which of the two descriptors is set;
    [s1] is what [accept] would return. *)
Inductive select_result :=
| SelectError (eintr : bool)
| SelectReady (pipe tcp : bool) (s1 : Z).

(** A turn of the loop of [accept_conn], with [process_accept] from its start. *)
Definition accept_conn (l : listener) (r : select_result) : outcome listener :=
  match r with
  | SelectError true => Val l
  | SelectError false => Fault VerifyFailed
  | SelectReady true _ _ => Val (with_th l Returned)
  | SelectReady false true s1 =>
      if s1 <? 0 then Val (with_th l Killed)
      else let! t := process_accept (table l) s1 in Val (with_table l t)
  | SelectReady false false _ => Fault VerifyFailed
  end.

(** [~tcpsconn] up to [pthread_join]; [r] is what [close] returns. *)
Definition tcpsconn_stop (l : listener) (r : Z) : outcome listener :=
  VERIFY (r =? 0) ;;;
  Val (MkListener (port_ l) (tcp_ l) (pipe_0 l) (pipe_1 l) (table l) (th_ l) true).

(** [connect_to_dst]: [s] is the new socket and [r] what [connect] returns. *)
Definition connect_to_dst (s r : Z) : option connection * list poll_req :=
  if r <? 0 then (None, []) else let '(c, rs) := connection_new s in (Some c, rs).

(** The descriptors that are open: those the thread has not closed, and one per
    connection object. *)
Definition fds (l : listener) : gset Z :=
  (match th_ l with Returned => ∅ | _ => {[ tcp_ l; pipe_0 l ]} end) ∪
  (if stopping l then ∅ else {[ pipe_1 l ]}) ∪
  map_to_set (fun _ c => fd_ c) (heap (table l)).

(** What the kernel can report: end of file on the pipe once its other end is
    closed, and not before; a new descriptor is not one of the open ones. *)
Definition possible (l : listener) (r : select_result) : Prop :=
  match r with
  | SelectError _ => True
  | SelectReady pipe tcp s1 =>
      pipe = stopping l /\ (pipe = false -> tcp = true) /\ (0 <= s1 -> s1 ∉ fds l)
  end.

(** Other threads use the connections: they may fail, gain and lose references,
    and one that is not in the table may be deleted. *)
Definition used (t t' : tcpsconn) : Prop :=
  twf t' /\ conns_ t' = conns_ t /\ fresh t' = fresh t /\
  (forall p c', heap t' !! p = Some c' -> exists c, heap t !! p = Some c /\ fd_ c = fd_ c').

Inductive step : listener -> listener -> Prop :=
| step_turn l r l' : th_ l = Waiting -> possible l r -> accept_conn l r = Val l' -> step l l'
| step_used l t' : used (table l) t' -> step l (with_table l t')
| step_stop l r l' : stopping l = false -> tcpsconn_stop l r = Val l' -> step l l'.

(** The table stays in order. *)
Record linv (l : listener) : Prop := {
  li_twf : twf (table l);
  li_return : th_ l = Returned -> stopping l = true;
}.

Lemma new_linv k l : tcpsconn_new k = Val l -> linv l.
Proof.
  unfold tcpsconn_new.
  destruct (0 <=? sc_socket k), (0 <=? sc_bind k), (0 <=? sc_listen k), (sc_getsockname k =? 0),
    (0 <=? sc_pipe k), (sc_thread k =? 0); simpl; try done. intros [= <-].
  split; [|done]. split; simpl; [by intros ? ? ?|by intros ? [? ?]].
Qed.

(** No object has a descriptor that [accept] can return. *)
Lemma new_fd l pipe tcp s1 :
  possible l (SelectReady pipe tcp s1) -> 0 <= s1 -> forall p c, heap (table l) !! p = Some c -> fd_ c <> s1.
Proof.
  intros (_ & _ & Hf) Hs p c Hc <-. apply (Hf Hs). apply elem_of_union_r, elem_of_map_to_set. by exists p, c.
Qed.

(** A turn: with no error of [select] other than an interruption it has no fault. *)
Lemma turn_spec l r :
  linv l -> possible l r -> r <> SelectError false ->
  exists l', accept_conn l r = Val l' /\ linv l' /\ stopping l' = stopping l /\
    (th_ l' = th_ l \/ (th_ l' = Returned /\ stopping l = true) \/ th_ l' = Killed).
Proof.
  intros [Ht Hr] Hp Hne. destruct r as [[]|[] [] s1]; simpl; try done.
  - exists l. split_and!; try done. by left.
  - destruct Hp as (Hp & _). exists (with_th l Returned). split_and!; [done|by split|done|]. by right; left.
  - destruct Hp as (Hp & _). exists (with_th l Returned). split_and!; [done|by split|done|]. by right; left.
  - destruct (Z.ltb_spec s1 0) as [Hlt|Hge].
    { exists (with_th l Killed). split_and!; [done|by split|done|]. by right; right. }
    destruct (process_accept_spec (table l) s1) as (t' & Ha & Ht' & _); [done|by eapply new_fd|].
    rewrite Ha. simpl. exists (with_table l t'). split_and!; [done|by split|done|by left].
  - by destruct Hp as (_ & Hp & _); discriminate Hp.
Qed.

Lemma step_linv l l' : linv l -> step l l' -> linv l'.
Proof.
  intros Hi Hs. destruct Hs as [l r l' Hw Hp Ha|l t' Hu|l r l' Hst Hs].
  - destruct (turn_spec l r) as (l2 & Ha' & Hi' & _); [done|done|by intros ->|]. congruence.
  - destruct Hi as [_ Hr]. split; [apply Hu|done].
  - revert Hs. unfold tcpsconn_stop. destruct (r =? 0); simpl; [|done]. intros [= <-].
    destruct Hi as [Ht _]. by split.
Qed.

Lemma steps_linv k l0 l : tcpsconn_new k = Val l0 -> rtc step l0 l -> linv l.
Proof.
  intros Hi%new_linv Hr. induction Hr as [|l1 l2 l3 Hs Hr IH]; [done|]. by eapply IH, step_linv.
Qed.

(** C24: the listener works until it is stopped, and stops. From its construction on, whatever
    connections arrive and whatever other threads do with them, a turn of the listening thread has no
    fault unless [select] fails, and the thread returns only after the destructor has closed the pipe.
    Once it has, the next turn that is not interrupted ends the thread, so [pthread_join] returns;
    and then the destructor's loop has no fault: of the connections in the table those that
    only the table referred to are deleted, the others are dead and have one reference less. *)
Theorem listener_stops (k : syscalls) (l0 l : listener) :
  tcpsconn_new k = Val l0 -> rtc step l0 l ->
  (forall r, possible l r -> r <> SelectError false -> exists l', accept_conn l r = Val l') /\
  (th_ l = Returned -> stopping l = true) /\
  (stopping l = true -> forall r, possible l r -> r <> SelectError false -> r <> SelectError true ->
     accept_conn l r = Val (with_th l Returned)) /\
  (exists t', tcpsconn_delete (table l) = Val t' /\
     (forall fd p c, conns_ (table l) !! fd = Some p -> heap (table l) !! p = Some c ->
        (refno_ c = 1 -> heap t' !! p = None) /\
        (refno_ c <> 1 -> heap t' !! p = Some (set_refno (set_dead c) (refno_ c - 1))))).
Proof.
  intros Hk Hr. pose proof (steps_linv k l0 l Hk Hr) as Hi. split_and!.
  - intros r Hp Hne. destruct (turn_spec l r) as (l' & Ha & _); [done..|]. by exists l'.
  - apply Hi.
  - intros Hst r Hp H1 H2. destruct r as [[]|pipe tcp s1]; [done|done|]. destruct Hp as (-> & _). by rewrite Hst.
  - destruct (tcpsconn_delete_spec (table l) (li_twf _ Hi)) as (t' & Ht & Hh & _). exists t'. split; [done|].
    intros fd p c Hp Hc. rewrite (Hh fd p Hp), Hc. simpl. unfold released.
    by destruct (Z.eqb_spec (refno_ c) 1).
Qed.

(** One error of [accept], such as a lack of descriptors, is the end of the thread: the listener
    takes no connection any more, and nobody is told. *)
Lemma accept_error_ends_listener l s1 :
  s1 < 0 -> accept_conn l (SelectReady false true s1) = Val (with_th l Killed) /\
  forall l', rtc step (with_th l Killed) l' -> th_ l' = Killed /\ conns_ (table l') = conns_ (table l).
Proof.
  intros Hs. split; [simpl; by destruct (Z.ltb_spec s1 0); [|lia]|].
  assert (forall a b, rtc step a b -> th_ a = Killed -> th_ b = Killed /\ conns_ (table b) = conns_ (table a)) as Hall.
  { intros a b Hr. induction Hr as [|a b c Hab Hr IH]; [done|]. intros Ha.
    assert (th_ b = Killed /\ conns_ (table b) = conns_ (table a)) as [Hb Hc].
    { destruct Hab as [? ? ? Hw|? ? (_ & E & _)|? r ? _ Hst]; [congruence|done|].
      revert Hst. unfold tcpsconn_stop. destruct (r =? 0); simpl; [|done]. by intros [= <-]. }
    destruct (IH Hb) as [? ?]. split; [done|congruence]. }
  intros l' Hr. by apply (Hall _ _ Hr).
Qed.

(** A listener on port 8000 that has accepted descriptor 9 and is being deleted. *)
Definition demo_syscalls : syscalls := Syscalls 3 0 0 0 (Sockaddr.htons 8000) 0 4 5 1.
Definition demo_listener : listener :=
  MkListener 8000 3 4 5 (MkTcps {[9 := 0%nat]} {[0%nat := (connection_new 9).1]} 1) Waiting true.

Lemma listener_stops_witness :
  (exists l0, tcpsconn_new demo_syscalls = Val l0 /\ rtc step l0 demo_listener) /\
  accept_conn demo_listener (SelectReady true false 0) = Val (with_th demo_listener Returned) /\
  exists t', tcpsconn_delete (table demo_listener) = Val t' /\ heap t' !! 0%nat = None.
Proof.
  assert (tcpsconn_new demo_syscalls = Val (MkListener 8000 3 4 5 (MkTcps ∅ ∅ 0) Waiting false)) as Hk by reflexivity.
  assert (rtc step (MkListener 8000 3 4 5 (MkTcps ∅ ∅ 0) Waiting false) demo_listener) as Hr.
  { eapply rtc_l; [eapply (step_turn _ (SelectReady false true 9)); [reflexivity| |reflexivity]|].
    { split_and!; [reflexivity|reflexivity|]. intros _. vm_compute. by intros ?. }
    eapply rtc_l; [by eapply (step_stop _ 0)|]. apply rtc_refl. }
  split; [by eexists|].
  destruct (listener_stops demo_syscalls _ demo_listener Hk Hr) as (_ & _ & Hstop & t' & Ht & Hh).
  split; [reflexivity|]. exists t'. split; [done|].
  by destruct (Hh 9 0%nat (connection_new 9).1) as [Hd _]; [reflexivity|reflexivity|apply Hd].
Defined.

End Listener.
