(* ===== verification/FuseMain.v ===== *)
(** * The program [yfs_client] ([main] of src/util/fuse.cc)

    [main] builds the client, mounts the file system, serves requests until the
    session ends and unmounts. What the FUSE library returns is a parameter; the
    calls that have an effect outside of the program are recorded. *)

From S2P Require Import Prelude.

Local Open Scope Z_scope.

Module FuseMain.

(** What the library calls return. *)
Record fuse_results := Results {
  r_parse : Z;          (* fuse_parse_cmdline *)
  r_mount : Z;          (* fuse_mount *)
  r_session : bool;     (* fuse_lowlevel_new gives a session *)
  r_chan : bool;        (* fuse_kern_chan_new gives a channel *)
  r_loop : Z;           (* fuse_session_loop *)
}.

Inductive event :=
| NewClient (extent_dst lock_dst : string)
| Mounted (mountpoint : string) (fd : Z)
| SessionNew
| ChanNew
| AddChan
| Served
| SessionDestroyed
| Closed (fd : Z)
| Unmounted (mountpoint : string).

#[global] Instance event_eq_dec : EqDecision event.
Proof. solve_decision. Defined.

(** The arguments passed to the library, on a system other than Mac OS. *)
Definition fuse_argv (argv0 mountpoint : string) : list string := [argv0; mountpoint; "-d"%string].

(** The exit status, by [return] or [exit], and the calls made. [parsed] is the
    mount point that [fuse_parse_cmdline] finds in [fuse_argv]. *)
Definition main (argv : list string) (k : fuse_results) (parsed : string) : Z * list event :=
  match argv with
  | [_; mountpoint; extent_dst; lock_dst] =>
      let es := [NewClient extent_dst lock_dst] in
      if r_parse k =? -1 then (0, es)
      else
        let mountpoint := parsed in
        let fd := r_mount k in
        if fd =? -1 then (1, es)
        else
          let es := es ++ [Mounted mountpoint fd] in
          if negb (r_session k) then (1, es)
          else
            let es := es ++ [SessionNew] in
            if negb (r_chan k) then (1, es)
            else
              let es := es ++ [ChanNew; AddChan; Served; SessionDestroyed; Closed fd; Unmounted mountpoint] in
              (if negb (r_loop k =? 0) then 1 else 0, es)
  | _ => (1, [])
  end.

(** The requests were served. *)
Definition served (k : fuse_results) : Prop :=
  r_parse k <> -1 /\ r_mount k <> -1 /\ r_session k = true /\ r_chan k = true.

(** One way through [main]: the calls are a list of constants. *)
Ltac solve_outcomes :=
  cbn -[elem_of]; repeat case_bool_decide;
  repeat setoid_rewrite elem_of_cons; repeat setoid_rewrite elem_of_nil; naive_solver lia.

(** How [yfs_client] ends. It asks for three arguments and fails without them. With them, it serves
    requests exactly when every call of the FUSE library succeeds, and then it has unmounted what it
    mounted and reports the status of the session loop. The status is otherwise a failure, but
    for an error of [fuse_parse_cmdline], which is reported as success; and the file system is still
    mounted when the process ends exactly when the session or its channel cannot be made. *)
Theorem main_outcomes (argv : list string) (k : fuse_results) (parsed : string) :
  let '(status, es) := main argv k parsed in
  (length argv <> 4%nat -> status = 1 /\ es = []) /\
  (Served ∈ es <-> length argv = 4%nat /\ served k) /\
  (Served ∈ es -> Unmounted parsed ∈ es /\ (status = 0 <-> r_loop k = 0)) /\
  ((Served ∉ es) -> status = if bool_decide (length argv = 4%nat /\ r_parse k = -1) then 0 else 1) /\
  (forall m fd, Mounted m fd ∈ es /\ (Unmounted m ∉ es) <->
     length argv = 4%nat /\ r_parse k <> -1 /\ fd = r_mount k /\ fd <> -1 /\ m = parsed /\
     ~ (r_session k = true /\ r_chan k = true)).
Proof.
  unfold main, served.
  destruct argv as [|a0 [|a1 [|a2 [|a3 [|a4 argv]]]]]; try solve_outcomes.
  destruct (Z.eqb_spec (r_parse k) (-1)); [solve_outcomes|].
  destruct (Z.eqb_spec (r_mount k) (-1)); [solve_outcomes|].
  destruct (r_session k); [|solve_outcomes]. destruct (r_chan k); [|solve_outcomes].
  destruct (Z.eqb_spec (r_loop k) 0); solve_outcomes.
Qed.

End FuseMain.
