(* ===== verification/EndToEnd.v ===== *)
(** * A client and a server over a network

    [rpcc] and [rpcs] composed: the requests that [call1] sends and the replies
    that [dispatch] sends travel as framed bytes over a network that loses,
    delays, repeats and reorders them, while other clients use the server and
    connections come and go. The theorem about the system is in AtMostOnce.v. *)

From S2P Require Import Prelude.
From S2P Require Import Marshall.
From S2P Require Import Stubs.
From S2P Require Import RpcClient.
From S2P Require Import RpcServer.
From S2P Require Import Framing.

Local Open Scope Z_scope.

Module EndToEnd.
Import ReplyWindow.

(** ** Headers in frames *)

Section headers.
Context `{Heap}.

Lemma length_words ws : length (List.flat_map be32 ws) = (4 * length ws)%nat.
Proof. induction ws as [|x ws IH]; simpl; [done|]. rewrite IH. lia. Qed.

(** What is in a buffer after the header words have been packed. *)
Lemma pack_words_bytes m ws m' :
  m_wf m -> RPC_HEADER_SZ <= m_ind m -> (length ws <= 5)%nat ->
  (let! m' := put_elems pack (set_m_ind m 4) ws in Val (set_m_ind m' (m_ind m))) = Val m' ->
  m_wf m' /\ m_ind m' = m_ind m /\
  m_bytes m' = take 4 (m_bytes m) ++ List.flat_map be32 ws ++ drop (4 + 4 * length ws) (m_bytes m).
Proof.
  intros Hm Hi Hws Hp. destruct (pack_words m ws Hm Hi Hws) as (m1 & b & b' & Hp' & Hb & Hb' & Hm1 & Hi1 & Heq).
  rewrite Hp in Hp'. injection Hp' as <-. split_and!; [done|done|].
  destruct (mwf_buf _ Hm) as (b0 & Hb0 & Hlen). assert (b0 = b) as -> by congruence.
  pose proof (mwf_ind _ Hm) as Hind. change RPC_HEADER_SZ with 24 in Hi.
  unfold m_bytes. rewrite Hb, Hb', Hi1, Heq. cbn [default from_option id].
  rewrite take_take, Nat.min_l by lia. rewrite app_assoc, take_app, length_app, length_take, length_words.
  rewrite take_ge by (rewrite length_app, length_take, length_words; lia).
  rewrite <-app_assoc. do 2 f_equal. rewrite skipn_firstn_comm. f_equal. lia.
Qed.

Lemma frame_bytes pre rest : length pre = 4%nat ->
  exists pre', length pre' = 4%nat /\ Framing.frame (pre ++ rest) = pre' ++ rest.
Proof.
  intros Hp. exists (be32 (Z.of_nat (length (pre ++ rest)))). split; [done|].
  unfold Framing.frame. by rewrite <-Hp, drop_app_length.
Qed.

Lemma unmarshall_from pre rest :
  length pre = 4%nat -> Z.of_nat (length (pre ++ rest)) <= INT_MAX ->
  u_wf (set_u_ind (unmarshall_buf (pre ++ rest) (Z.of_nat (length (pre ++ rest)))) 4) /\
  u_rest (set_u_ind (unmarshall_buf (pre ++ rest) (Z.of_nat (length (pre ++ rest)))) 4) = rest.
Proof.
  intros Hp Hl. split.
  - constructor; simpl; [by eexists|rewrite length_app; lia|done|done].
  - unfold u_rest, set_u_ind. cbn [u_ind u_sz u_buf unmarshall_buf default from_option id].
    rewrite Nat2Z.id, take_ge by done. by apply drop_app_length'.
Qed.

(** The read head after a header, on the byte after the header area. *)
Lemma after_header b n u :
  u_wf u -> u_buf u = Some b -> u_sz u = Z.of_nat (length b) -> (24 <= length b)%nat ->
  n = drop 24 b ->
  u_wf (set_u_ind u RPC_HEADER_SZ) /\ u_rest (set_u_ind u RPC_HEADER_SZ) = n.
Proof.
  intros Hu Hb Hs Hl ->. destruct (rewind_spec u RPC_HEADER_SZ b (u_sz u)) as [Hw Hr];
    [done..|rewrite Hs; change RPC_HEADER_SZ with 24; lia|].
  split; [done|]. rewrite Hr, Hs, Nat2Z.id, take_ge by done. done.
Qed.

Lemma unpack_req_frame pre h args :
  length pre = 4%nat -> req_header_ok h ->
  let b := pre ++ List.flat_map be32 (req_words h) ++ args in
  Z.of_nat (length b) <= INT_MAX ->
  exists u, unpack_req_header (unmarshall_buf (Framing.frame b) (Z.of_nat (length b))) = Val (u, h) /\
    u_wf u /\ u_ind u = RPC_HEADER_SZ /\ u_rest u = args.
Proof.
  intros Hp Hh b Hb. destruct (frame_bytes pre (List.flat_map be32 (req_words h) ++ args) Hp) as (pre' & Hp' & Hf).
  unfold b in *. rewrite Hf. clear Hf.
  replace (length (pre ++ _)) with (length (pre' ++ List.flat_map be32 (req_words h) ++ args)) in *
    by (rewrite !length_app; lia).
  destruct (unmarshall_from pre' (List.flat_map be32 (req_words h) ++ args) Hp' Hb) as [Hu Hr].
  destruct (unpack_req_words _ h args Hu Hh Hr eq_refl) as (u & Heu & Hwu & Hsz & Hbuf).
  exists (set_u_ind u RPC_HEADER_SZ). split; [exact Heu|].
  destruct (after_header (pre' ++ List.flat_map be32 (req_words h) ++ args) args u) as [Hw Hrest];
    [done|done|done| | |done].
  - rewrite !length_app, length_words. simpl. lia.
  - rewrite app_assoc, drop_app_length'; [done|]. rewrite length_app, length_words. simpl. lia.
Qed.

Lemma unpack_reply_frame pre h rest :
  length pre = 4%nat -> reply_header_ok h -> (12 <= length rest)%nat ->
  let b := pre ++ List.flat_map be32 (reply_words h) ++ rest in
  Z.of_nat (length b) <= INT_MAX ->
  exists u, unpack_reply_header (unmarshall_buf (Framing.frame b) (Z.of_nat (length b))) = Val (u, h) /\
    u_wf u /\ u_ind u = RPC_HEADER_SZ /\ u_rest u = drop 12 rest.
Proof.
  intros Hp Hh Hrl b Hb. destruct (frame_bytes pre (List.flat_map be32 (reply_words h) ++ rest) Hp) as (pre' & Hp' & Hf).
  unfold b in *. rewrite Hf. clear Hf.
  replace (length (pre ++ _)) with (length (pre' ++ List.flat_map be32 (reply_words h) ++ rest)) in *
    by (rewrite !length_app; lia).
  destruct (unmarshall_from pre' (List.flat_map be32 (reply_words h) ++ rest) Hp' Hb) as [Hu Hr].
  destruct (unpack_reply_words _ h rest Hu Hh Hr eq_refl) as (u & Heu & Hwu & Hsz & Hbuf).
  exists (set_u_ind u RPC_HEADER_SZ). split; [exact Heu|].
  destruct (after_header (pre' ++ List.flat_map be32 (reply_words h) ++ rest) (drop 12 rest) u) as [Hw Hrest];
    [done|done|done| | |done].
  - rewrite !length_app, length_words. simpl. lia.
  - rewrite app_assoc, drop_app_ge by (rewrite length_app, length_words; simpl; lia).
    f_equal. rewrite length_app, length_words, Hp'. done.
Qed.

End headers.

(** ** The system *)

(** A handler whose reply, when it makes one, is a marshalled reply; its status
    is an [int]. The handlers of [rpcs::reg] are such. *)
Definition good_handler `{Heap} {S} (f : handler_fn S) : Prop :=
  forall s u s' rep ret, f s u marshall_new = Val (s', rep, ret) ->
    m_wf rep /\ RPC_HEADER_SZ <= m_ind rep /\ is_s32 ret.

(** One execution of a handler for the client: the call it was for, the
    arguments it was given, and what it returned. *)
Record run := Run {
  run_xid : Z;
  run_proc : Z;
  run_args : list Z;
  run_ret : Z;
  run_reply : list Z;
}.

(** A [dispatch] between its verdict NEW and the execution of its handler. *)
Record pending S := Pending {
  p_conn : Z;
  p_header : req_header;
  p_req : unmarshall;
  p_fn : handler_fn S;
}.
Arguments Pending {S} _ _ _ _.
Arguments p_conn {S} _.
Arguments p_header {S} _.
Arguments p_req {S} _.
Arguments p_fn {S} _.

(** [cw] is the client with the threads inside it, [asked] the calls it began,
    with procedure and arguments, [requests] what it handed to its
    connections; [runs] are the executions of its calls, latest first. *)
Record world S := World {
  cw : Rpcc.world;
  asked : gmap Z (Z * list Z);
  requests : list (list Z);
  srv : Rpcs.rpcs S;
  jobs : list (pending S);
  runs : list run;
}.
Arguments World {S} _ _ _ _ _ _.
Arguments cw {S} _.
Arguments asked {S} _.
Arguments requests {S} _.
Arguments srv {S} _.
Arguments jobs {S} _.
Arguments runs {S} _.

Definition sends (ops : list Rpcc.conn_op) : list (list Z) :=
  omap (fun o => match o with Rpcc.OpSend _ b => Some b | _ => None end) ops.

Section system.
Context `{Heap} `{EndNode} {S : Type}.

(** Each connection of the server belongs to one client. *)
Context (owner : Z -> Z) (clt : Z).

Implicit Types w : world S.

Definition client_of (w : Rpcc.world) (r : Rpcc.rpcc) : Rpcc.world :=
  Rpcc.World r (Rpcc.frames w) (Rpcc.refs w) (Rpcc.pdus w) (Rpcc.results w).

Definition with_client w (c : Rpcc.world) : world S :=
  World c (asked w) (requests w) (srv w) (jobs w) (runs w).
Definition with_server w (s : Rpcs.rpcs S) (j : list (pending S)) : world S :=
  World (cw w) (asked w) (requests w) s j (runs w).

Definition enqueue (c : Z) (j : Rpcs.job) : list (pending S) :=
  match j with
  | Rpcs.Finished => []
  | Rpcs.Execute h req f => [Pending c h req f]
  end.

(** The client has one call at a time, and makes another one only after
    successful ones. *)
Definition may_call (c : Rpcc.world) : Prop :=
  Rpcc.frames c = ∅ /\ Forall (fun p => 0 <= p.1.2) (Rpcc.results c).

Inductive step : world S -> world S -> Prop :=
(* the client *)
| st_begin w proc req rep to now r f :
    may_call (cw w) -> m_wf req -> RPC_HEADER_SZ <= m_ind req ->
    Rpcc.xid_ (Rpcc.cl (cw w)) + 1 < 2 ^ 32 ->
    Rpcc.call1_begin (Rpcc.cl (cw w)) proc req rep to now = Val (inr (r, f)) ->
    step w (World (Rpcc.World r (<[Rpcc.f_xid f := f]> (Rpcc.frames (cw w))) (Rpcc.refs (cw w))
                              (Rpcc.pdus (cw w)) (Rpcc.results (cw w)))
                  (<[Rpcc.f_xid f := (s32 proc, drop 24 (m_bytes req))]> (asked w))
                  (requests w) (srv w) (jobs w) (runs w))
| st_top w x f dead fresh now r f' ops :
    Rpcc.frames (cw w) !! x = Some f -> Rpcc.f_phase f = Rpcc.AtTop ->
    Rpcc.call1_top (Rpcc.cl (cw w)) f dead fresh now = Val (r, f', ops) ->
    step w (World (Rpcc.World r (<[x := f']> (Rpcc.frames (cw w)))
                              (Rpcc.apply_ops (Rpcc.refs (cw w)) ops)
                              (Rpcc.pdus (cw w)) (Rpcc.results (cw w)))
                  (asked w) (sends ops ++ requests w) (srv w) (jobs w) (runs w))
| st_woken w x f next ca :
    Rpcc.frames (cw w) !! x = Some f -> Rpcc.f_phase f = Rpcc.Waiting next ->
    Rpcc.calls_ (Rpcc.cl (cw w)) !! s32 x = Some ca -> Rpcc.ca_done ca = true ->
    step w (with_client w
      (Rpcc.World (Rpcc.cl (cw w))
         (<[x := Rpcc.set_phase f (Rpcc.f_final f) Rpcc.Leaving]> (Rpcc.frames (cw w)))
         (Rpcc.refs (cw w)) (Rpcc.pdus (cw w)) (Rpcc.results (cw w))))
| st_timeout w x f next ca dead f' :
    Rpcc.frames (cw w) !! x = Some f -> Rpcc.f_phase f = Rpcc.Waiting next ->
    Rpcc.calls_ (Rpcc.cl (cw w)) !! s32 x = Some ca -> Rpcc.ca_done ca = false ->
    Rpcc.call1_timeout (Rpcc.cl (cw w)) f dead = Val f' ->
    step w (with_client w
      (Rpcc.World (Rpcc.cl (cw w)) (<[x := f']> (Rpcc.frames (cw w)))
         (Rpcc.refs (cw w)) (Rpcc.pdus (cw w)) (Rpcc.results (cw w))))
| st_end w x f r ret u ops :
    Rpcc.frames (cw w) !! x = Some f -> Rpcc.f_phase f = Rpcc.Leaving ->
    Rpcc.call1_end (Rpcc.cl (cw w)) f = Val (r, ret, u, ops) ->
    step w (with_client w
      (Rpcc.World r (delete x (Rpcc.frames (cw w))) (Rpcc.apply_ops (Rpcc.refs (cw w)) ops)
         (Rpcc.pdus (cw w)) ((x, ret, u) :: Rpcc.results (cw w))))
| st_cancel w :
    step w (with_client w (client_of (cw w) (Rpcc.cancel (Rpcc.cl (cw w)))))
| st_reachable w b :
    step w (with_client w (client_of (cw w) (Rpcc.set_reachable (Rpcc.cl (cw w)) b)))
(* [bind] learns the nonce of this server *)
| st_bound w n :
    u32 n = Rpcs.nonce_ (srv w) ->
    step w (with_client w (client_of (cw w) (Rpcc.bind_result (Rpcc.cl (cw w)) 0 n)))
(* a reply arrives, from whatever was ever sent on the client's connections *)
| st_pdu w c b r ok :
    (c, b) ∈ Rpcs.sent (srv w) -> owner c = clt ->
    Rpcc.client_got_pdu (Rpcc.cl (cw w)) (Framing.frame b) (Z.of_nat (length b)) = Val (r, ok) ->
    step w (with_client w
      (Rpcc.World r (Rpcc.frames (cw w)) (Rpcc.refs (cw w))
         (option_list (Rpcc.pdu_reply (Framing.frame b) (Z.of_nat (length b))) ++ Rpcc.pdus (cw w))
         (Rpcc.results (cw w))))
(* the server: a request of the client, one of another client, the execution of
   a handler, and anything that happens to connections *)
| st_enter w c b s j :
    b ∈ requests w -> owner c = clt ->
    Rpcs.dispatch_enter (srv w) c (Framing.frame b) (Z.of_nat (length b)) = Val (s, j) ->
    step w (with_server w s (enqueue c j ++ jobs w))
| st_foreign w c b n s j :
    owner c <> clt ->
    (forall u h, unpack_req_header (unmarshall_buf b n) = Val (u, h) -> rq_clt_nonce h = owner c) ->
    Rpcs.dispatch_enter (srv w) c b n = Val (s, j) ->
    step w (with_server w s (enqueue c j ++ jobs w))
| st_exec w before p after a rep ret s :
    jobs w = before ++ p :: after ->
    p_fn p (Rpcs.app (srv w)) (p_req p) marshall_new = Val (a, rep, ret) ->
    Rpcs.dispatch_new (srv w) (p_conn p) (p_header p) (p_req p) (p_fn p) = Val s ->
    step w (World (cw w) (asked w) (requests w) s (before ++ after)
                  (if rq_clt_nonce (p_header p) =? clt
                   then Run (u32 (rq_xid (p_header p))) (rq_proc (p_header p)) (u_rest (p_req p)) ret
                            (drop 24 (m_bytes rep)) :: runs w
                   else runs w))
| st_conns w o : step w (with_server w (Rpcs.set_objs (srv w) o) (jobs w)).

(** A client that has done nothing yet and a server that has not heard of it. *)
Definition starts (w : world S) : Prop :=
  (exists rnd loss retrans, cw w = Rpcc.start rnd loss retrans /\
     Rpcc.clt_nonce_ (Rpcc.cl (cw w)) = clt) /\
  asked w = ∅ /\ requests w = [] /\ jobs w = [] /\ runs w = [] /\
  is_u32 (Rpcs.nonce_ (srv w)) /\ Rpcs.sent (srv w) = [] /\ Rpcs.conns_ (srv w) = ∅ /\
  Rpcs.reply_window_ (srv w) !! clt = None /\
  (forall p f, Rpcs.procs_ (srv w) !! p = Some f -> good_handler f).

(** ** What [dispatch] does *)

Implicit Types s t : Rpcs.rpcs S.

Definition same_but_conns (s s' : Rpcs.rpcs S) : Prop :=
  Rpcs.nonce_ s' = Rpcs.nonce_ s /\ Rpcs.procs_ s' = Rpcs.procs_ s /\
  Rpcs.reply_window_ s' = Rpcs.reply_window_ s /\ Rpcs.app s' = Rpcs.app s /\
  Rpcs.sent s' = Rpcs.sent s.

Definition conns_ok (s : Rpcs.rpcs S) : Prop :=
  forall k c, Rpcs.conns_ s !! k = Some (Some c) -> owner c = k.

Lemma same_refl s : same_but_conns s s.
Proof. done. Qed.

Lemma same_trans s1 s2 s3 : same_but_conns s1 s2 -> same_but_conns s2 s3 -> same_but_conns s1 s3.
Proof. intros (?&?&?&?&?) (?&?&?&?&?). split_and!; congruence. Qed.

Lemma incref_same s c s' :
  Rpcs.incref s c = Val s' -> same_but_conns s s' /\ Rpcs.conns_ s' = Rpcs.conns_ s.
Proof. unfold Rpcs.incref. intros Hi. by outcome_inv. Qed.

Lemma decref_same s c s' :
  Rpcs.decref s c = Val s' -> same_but_conns s s' /\ Rpcs.conns_ s' = Rpcs.conns_ s.
Proof.
  unfold Rpcs.decref. intros Hi. outcome_inv. destruct (_ && _); by injection Hi as <-.
Qed.

Lemma send_same s c b s' :
  Rpcs.send s c b = Val s' ->
  Rpcs.nonce_ s' = Rpcs.nonce_ s /\ Rpcs.procs_ s' = Rpcs.procs_ s /\
  Rpcs.reply_window_ s' = Rpcs.reply_window_ s /\ Rpcs.app s' = Rpcs.app s /\
  Rpcs.conns_ s' = Rpcs.conns_ s /\
  (Rpcs.sent s' = Rpcs.sent s \/ Rpcs.sent s' = Rpcs.sent s ++ [(c, b)]).
Proof.
  unfold Rpcs.send. intros Hs. outcome_inv. destruct (Rpcs.dead_ r); split_and!; auto.
Qed.

Lemma save_conn_same s k c s' :
  Rpcs.save_conn s k c = Val s' -> conns_ok s -> owner c = k -> same_but_conns s s' /\ conns_ok s'.
Proof.
  unfold Rpcs.save_conn. intros Hs Hok Hc.
  assert (forall t, Rpcs.conns_ t = Rpcs.conns_ s ->
            conns_ok (Rpcs.set_conns t (<[k := Some c]> (Rpcs.conns_ t)))) as Hset.
  { intros t Ht k' c'. simpl. rewrite Ht.
    intros [[<- [= <-]]|[_ Hl]]%lookup_insert_Some; [done|by apply Hok]. }
  destruct (Rpcs.conns_ s !! k) as [p|] eqn:E.
  - outcome_inv. destruct (Rpcs.compare _ _ <? 0); [|by outcome_inv].
    outcome_inv. apply decref_same in E3 as [Hd1 Hd2].
    apply incref_same in E4 as [Hi1 Hi2]. split; [exact (same_trans _ _ _ Hd1 Hi1)|].
    apply Hset. congruence.
  - outcome_inv. apply incref_same in E0 as [Hi1 Hi2]. split; [exact Hi1|]. by apply Hset.
Qed.

(** The windows once [dispatch] has made sure that the client has one. *)
Definition opened s (k : Z) : window_map :=
  match Rpcs.reply_window_ s !! k with
  | None => <[k := []]> (Rpcs.reply_window_ s)
  | Some _ => Rpcs.reply_window_ s
  end.

(** What has been sent in addition. *)
Definition sent_more s s' (l : list (Z * list Z)) : Prop :=
  Rpcs.sent s' = Rpcs.sent s \/ Rpcs.sent s' = Rpcs.sent s ++ l.

(** A well-formed request of a client with a nonce: the verdict and its
    consequences. *)
Lemma dispatch_enter_spec s c b n s' j u h (p k : Z) :
  Rpcs.dispatch_enter s c b n = Val (s', j) ->
  unpack_req_header (unmarshall_buf b n) = Val (u, h) -> u_ok u = true ->
  rq_srv_nonce h = 0 \/ rq_srv_nonce h = Rpcs.nonce_ s ->
  rq_proc h = p -> rq_clt_nonce h = k -> k <> 0 -> owner c = k -> conns_ok s ->
  exists f wm st b1 sz1,
    Rpcs.procs_ s !! p = Some f /\
    checkduplicate_and_update (opened s k) k (u32 (rq_xid h)) (u32 (rq_xid_rep h)) = Val (wm, st, b1, sz1) /\
    Rpcs.reply_window_ s' = wm /\ conns_ok s' /\
    Rpcs.nonce_ s' = Rpcs.nonce_ s /\ Rpcs.procs_ s' = Rpcs.procs_ s /\ Rpcs.app s' = Rpcs.app s /\
    j = match st with NEW => Rpcs.Execute h u f | _ => Rpcs.Finished end /\
    match st with
    | NEW | INPROGRESS => Rpcs.sent s' = Rpcs.sent s
    | DONE => sent_more s s' [(c, take (Z.to_nat sz1) (default [] b1))]
    | FORGOTTEN =>
        exists rep, pack_reply_header marshall_new (mk_reply_header (rq_xid h) atmostonce_failure) = Val rep /\
          sent_more s s' [(c, m_bytes rep)]
    end.
Proof.
  intros Hd Hu Hok Hsrv Hp Hk Hnz Hown Hconns. unfold Rpcs.dispatch_enter in Hd. rewrite Hu in Hd.
  cbn [obind] in Hd. rewrite Hok, Hp, Hk in Hd. cbn [negb] in Hd.
  assert (negb (rq_srv_nonce h =? 0) && negb (rq_srv_nonce h =? Rpcs.nonce_ s) = false) as E.
  { destruct Hsrv as [->| ->]; rewrite Z.eqb_refl; [done|]. apply andb_false_r. }
  rewrite E in Hd. clear E. cbv zeta in Hd. destruct (Rpcs.procs_ s !! p) as [f|] eqn:Hf; [|done].
  destruct (Z.eqb_spec k 0) as [|_]; [done|].
  set (s1 := match Rpcs.reply_window_ s !! k with None => _ | Some _ => _ end) in Hd.
  assert (Rpcs.reply_window_ s1 = opened s k /\ Rpcs.conns_ s1 = Rpcs.conns_ s /\
          Rpcs.nonce_ s1 = Rpcs.nonce_ s /\ Rpcs.procs_ s1 = Rpcs.procs_ s /\ Rpcs.app s1 = Rpcs.app s /\
          Rpcs.sent s1 = Rpcs.sent s) as (W1 & W2 & W3 & W4 & W5 & W6).
  { unfold s1, opened. destruct (Rpcs.reply_window_ s !! k); done. }
  clearbody s1. apply obind_val in Hd as (s2 & Hsave & Hd).
  apply save_conn_same in Hsave as [(V1 & V2 & V3 & V4 & V5) Hconns2];
    [|intros k' c'; rewrite W2; apply Hconns|done].
  rewrite V3, W1 in Hd. apply obind_val in Hd as ([[[wm st] b1] sz1] & Hc & Hd).
  exists f, wm, st, b1, sz1. split; [done|]. split; [exact Hc|]. clear Hc.
  assert (conns_ok (Rpcs.set_windows s2 wm)) as Hconns3 by exact Hconns2.
  assert (Rpcs.nonce_ (Rpcs.set_windows s2 wm) = Rpcs.nonce_ s /\
          Rpcs.procs_ (Rpcs.set_windows s2 wm) = Rpcs.procs_ s /\
          Rpcs.app (Rpcs.set_windows s2 wm) = Rpcs.app s /\ Rpcs.sent (Rpcs.set_windows s2 wm) = Rpcs.sent s /\
          Rpcs.reply_window_ (Rpcs.set_windows s2 wm) = wm) as (X1 & X2 & X3 & X4 & X5)
    by (simpl; split_and!; congruence).
  generalize dependent (Rpcs.set_windows s2 wm). clear. intros s2 Hd Hc X1 X2 X3 X4 X5.
  destruct st.
  - injection Hd as <- <-. by split_and!.
  - apply obind_val in Hd as (s3 & [(D1 & D2 & D3 & D4 & D5) D6]%decref_same & [= <- <-]).
    unfold conns_ok. rewrite D6. split_and!; congruence || done.
  - apply obind_val in Hd as (s3 & (E1 & E2 & E3 & E4 & E5 & E6)%send_same & Hd).
    apply obind_val in Hd as (s4 & [(D1 & D2 & D3 & D4 & D5) D6]%decref_same & [= <- <-]).
    unfold conns_ok, sent_more. rewrite D6, E5, D5, <-X4. split_and!; congruence || done.
  - apply obind_val in Hd as (rep & Hrep & Hd).
    apply obind_val in Hd as (s3 & (E1 & E2 & E3 & E4 & E5 & E6)%send_same & Hd).
    apply obind_val in Hd as (s4 & [(D1 & D2 & D3 & D4 & D5) D6]%decref_same & [= <- <-]).
    unfold conns_ok, sent_more. rewrite D6, E5, D5, <-X4.
    split_and!; try (congruence || done). by exists rep.
Qed.

(** The window of one client is not touched for another. *)
Lemma check_other wm k x xr wm' st b1 sz1 :
  checkduplicate_and_update wm k x xr = Val (wm', st, b1, sz1) -> k <> clt -> wm' !! clt = wm !! clt.
Proof.
  unfold checkduplicate_and_update. intros Hc Hne. destruct (wm !! k) as [w|].
  - apply obind_val in Hc as (e & _ & Hc). destruct (rt_xid e >? x); [by injection Hc as <- <- <- <-|].
    apply obind_val in Hc as ([st' b' sz' w'|w'|] & _ & Hc); [..|done]; injection Hc as <- <- <- <-;
      by rewrite lookup_insert_ne.
  - injection Hc as <- <- <- <-. by rewrite lookup_insert_ne.
Qed.

Lemma opened_other s k : k <> clt -> opened s k !! clt = Rpcs.reply_window_ s !! clt.
Proof. intros Hne. unfold opened. destruct (Rpcs.reply_window_ s !! k); [done|]. by rewrite lookup_insert_ne. Qed.

Lemma sent_more_owner s s' c b :
  sent_more s s' [(c, b)] -> owner c <> clt ->
  exists l, Rpcs.sent s' = Rpcs.sent s ++ l /\ Forall (fun p => owner p.1 <> clt) l.
Proof.
  intros [E|E] Ho; [exists []|exists [(c, b)]]; rewrite E; [by rewrite app_nil_r|]. by repeat constructor.
Qed.

(** A delivery of another client's request. *)
Lemma dispatch_enter_foreign s c b n s' j :
  Rpcs.dispatch_enter s c b n = Val (s', j) -> owner c <> clt ->
  (forall u h, unpack_req_header (unmarshall_buf b n) = Val (u, h) -> rq_clt_nonce h = owner c) ->
  conns_ok s -> (forall p f, Rpcs.procs_ s !! p = Some f -> good_handler f) ->
  conns_ok s' /\ Rpcs.nonce_ s' = Rpcs.nonce_ s /\ Rpcs.procs_ s' = Rpcs.procs_ s /\
  Rpcs.reply_window_ s' !! clt = Rpcs.reply_window_ s !! clt /\
  (exists l, Rpcs.sent s' = Rpcs.sent s ++ l /\ Forall (fun p => owner p.1 <> clt) l) /\
  Forall (fun p => rq_clt_nonce (p_header p) = owner (p_conn p) /\ good_handler (p_fn p)) (enqueue c j).
Proof.
  intros Hd Ho Hh Hconns Hgood. pose proof Hd as Hd0. unfold Rpcs.dispatch_enter in Hd.
  apply obind_val in Hd as ([u h] & Hu & Hd). specialize (Hh u h Hu).
  destruct (u_ok u) eqn:Hok; cbn [negb] in Hd.
  2: { apply obind_val in Hd as (s3 & [(D1 & D2 & D3 & D4 & D5) D6]%decref_same & [= <- <-]).
       unfold conns_ok. rewrite D6, D3. split_and!; try done. exists []. by rewrite app_nil_r. }
  destruct (negb (rq_srv_nonce h =? 0) && negb (rq_srv_nonce h =? Rpcs.nonce_ s)) eqn:Hsrv.
  { apply obind_val in Hd as (rep & _ & Hd).
    apply obind_val in Hd as (s3 & (E1 & E2 & E3 & E4 & E5 & E6)%send_same & [= <- <-]).
    unfold conns_ok. rewrite E3, E5. split_and!; try done.
    by apply (sent_more_owner s s3 c (m_bytes rep)). }
  assert (rq_srv_nonce h = 0 \/ rq_srv_nonce h = Rpcs.nonce_ s) as Hsrv'.
  { apply andb_false_iff in Hsrv as [E%negb_false_iff%Z.eqb_eq|E%negb_false_iff%Z.eqb_eq]; auto. }
  destruct (decide (owner c = 0)) as [E0|Hnz].
  - rewrite Hh, E0, Z.eqb_refl in Hd. cbv zeta in Hd.
    assert (exists p : Z, rq_proc h = p) as [p Hp] by eauto. rewrite Hp in Hd.
    destruct (Rpcs.procs_ s !! p) as [f|] eqn:Hf; [|done]. injection Hd as <- <-. split_and!; try done; [exists []; by rewrite app_nil_r|].
    constructor; [|constructor]. split; [done|]. by eapply Hgood.
  - destruct (dispatch_enter_spec s c b n s' j u h (rq_proc h) (owner c)) as
      (f & wm & st & b1 & sz1 & Hf & Hc & Hwm & Hc' & H1 & H2 & H3 & Hj & Hsent); try done.
    split_and!; [done..| | |].
    + rewrite Hwm, (check_other _ _ _ _ _ _ _ _ Hc) by done. by apply opened_other.
    + destruct st; [exists []; by rewrite app_nil_r, Hsent|exists []; by rewrite app_nil_r, Hsent| |].
      * by eapply sent_more_owner.
      * destruct Hsent as (rep & _ & Hsent). by eapply sent_more_owner.
    + subst j. destruct st; try by constructor. constructor; [|constructor]. split; [done|]. by eapply Hgood.
Qed.

(** Replying. *)
Lemma reply_conn_same s k c s' c' :
  Rpcs.reply_conn s k c = Val (s', c') -> conns_ok s -> owner c = k ->
  same_but_conns s s' /\ conns_ok s' /\ owner c' = k.
Proof.
  unfold Rpcs.reply_conn. intros Hr Hok Hc. apply obind_val in Hr as (dead & _ & Hr).
  destruct dead; [|by injection Hr as <- <-].
  set (s1 := match Rpcs.conns_ s !! k with None => _ | Some _ => _ end) in Hr.
  assert (same_but_conns s s1 /\ conns_ok s1) as [Hs1 Hok1].
  { unfold s1. destruct (Rpcs.conns_ s !! k) eqn:E; [done|]. split; [done|].
    intros k' d. simpl. intros [[_ [=]]|[_ Hl]]%lookup_insert_Some. by apply Hok. }
  clearbody s1. destruct (decide _); [by injection Hr as <- <-|].
  apply obind_val in Hr as (s2 & [Hs2 E2]%decref_same & Hr).
  apply obind_val in Hr as (d & Hd & Hr). apply obind_val in Hr as (s3 & [Hs3 E3]%incref_same & [= <- <-]).
  split_and!; [by eapply same_trans, same_trans| |].
  - intros k' d'. rewrite E3, E2. apply Hok1.
  - apply Hok1. destruct (Rpcs.conns_ s1 !! k) as [q|]; simpl in Hd; [|done].
    destruct q; simpl in Hd; [|done]. by injection Hd as ->.
Qed.

Lemma dispatch_new_spec s c h req f s' a rep ret (k : Z) :
  Rpcs.dispatch_new s c h req f = Val s' -> f (Rpcs.app s) req marshall_new = Val (a, rep, ret) ->
  rq_clt_nonce h = k -> owner c = k -> conns_ok s ->
  exists rep' c', 0 <= ret /\ pack_reply_header rep (mk_reply_header (rq_xid h) ret) = Val rep' /\
    Rpcs.nonce_ s' = Rpcs.nonce_ s /\ Rpcs.procs_ s' = Rpcs.procs_ s /\ conns_ok s' /\
    Rpcs.reply_window_ s' =
      (if k >? 0 then add_reply (Rpcs.reply_window_ s) k (u32 (rq_xid h)) (m_buf rep') (m_ind rep')
       else Rpcs.reply_window_ s) /\
    owner c' = k /\ sent_more s s' [(c', m_bytes rep')].
Proof.
  intros Hd Hf Hk Ho Hconns. unfold Rpcs.dispatch_new in Hd. rewrite Hk in Hd.
  set (s1 := if Rpcs.counting_ s =? 0 then s else Rpcs.updatestat s (rq_proc h)) in Hd.
  assert (same_but_conns s s1 /\ conns_ok s1) as [(V1 & V2 & V3 & V4 & V5) Hok1].
  { unfold s1. by destruct (Rpcs.counting_ s =? 0). }
  clearbody s1. rewrite V4, Hf in Hd. cbn [obind] in Hd.
  apply obind_val in Hd as (_ & _ & Hd). apply obind_val in Hd as (_ & Hret%VERIFY_val & Hd).
  apply obind_val in Hd as (rep' & Hrep & Hd). cbn [m_take_buf] in Hd. cbv zeta in Hd.
  set (s2 := if k >? 0 then _ else _) in Hd.
  assert (conns_ok s2 /\ Rpcs.nonce_ s2 = Rpcs.nonce_ s /\ Rpcs.procs_ s2 = Rpcs.procs_ s /\
          Rpcs.sent s2 = Rpcs.sent s /\
          Rpcs.reply_window_ s2 =
            (if k >? 0 then add_reply (Rpcs.reply_window_ s) k (u32 (rq_xid h)) (m_buf rep') (m_ind rep')
             else Rpcs.reply_window_ s)) as (W1 & W2 & W3 & W4 & W5).
  { unfold s2. destruct (k >? 0); simpl; rewrite ?V3; by split_and!. }
  clearbody s2. apply obind_val in Hd as ([s3 c'] & Hr & Hd).
  apply reply_conn_same in Hr as ((X1 & X2 & X3 & X4 & X5) & Hok3 & Hc'); [|done|done].
  apply obind_val in Hd as (s4 & (E1 & E2 & E3 & E4 & E5 & E6)%send_same & Hd).
  apply decref_same in Hd as [(D1 & D2 & D3 & D4 & D5) D6].
  exists rep', c'. unfold conns_ok, sent_more, m_bytes. rewrite D6, E5, D5, <-W4, <-X5.
  split_and!; try congruence; try done. by apply Z.leb_le.
Qed.

End system.
End EndToEnd.
