(* ===== verification/AtMostOnce.v ===== *)
(** * At most once, end to end

    The invariant of the system of EndToEnd.v and the theorem: the handler of a
    call runs at most once, on the call's own arguments, and what a call returns
    is what that run replied. *)

From S2P Require Import Prelude.
From S2P Require Import Marshall.
From S2P Require Import Stubs.
From S2P Require Import RpcClient.
From S2P Require Import RpcServer.
From S2P Require Import Framing.
From S2P Require Import EndToEnd.

Local Open Scope Z_scope.

Module AtMostOnce.
Import ReplyWindow EndToEnd.

(** ** The client's side *)

Section client.
Context `{Heap} (clt nonce : Z).

(** [b] is the request for call [x]. *)
Definition is_request (asked : gmap Z (Z * list Z)) (x : Z) (b : list Z) : Prop :=
  exists proc args sn pre,
    asked !! x = Some (proc, args) /\ is_s32 proc /\ (sn = 0 \/ sn = nonce) /\ length pre = 4%nat /\
    b = pre ++ List.flat_map be32 (req_words (mk_req_header x proc clt sn (x - 1))) ++ args /\
    Z.of_nat (length b) <= INT_MAX.

Record cinv (asked : gmap Z (Z * list Z)) (c : Rpcc.world) (reqs : list (list Z)) : Prop := {
  ci_inv : Rpcc.inv c;
  ci_clt : Rpcc.clt_nonce_ (Rpcc.cl c) = clt;
  ci_srv : Rpcc.srv_nonce_ (Rpcc.cl c) = 0 \/ Rpcc.srv_nonce_ (Rpcc.cl c) = nonce;
  ci_seq : forall x f, Rpcc.frames c !! x = Some f -> x = Rpcc.xid_ (Rpcc.cl c) - 1;
  ci_acked : forall y, y < Rpcc.xid_ (Rpcc.cl c) -> Rpcc.frames c !! y = None ->
    XidWindow.acked (Rpcc.xid_rep_window_ (Rpcc.cl c)) y;
  ci_returned : forall y, 1 <= y < Rpcc.xid_ (Rpcc.cl c) -> Rpcc.frames c !! y = None ->
    exists ret u, (y, ret, u) ∈ Rpcc.results c;
  ci_asked : forall x, is_Some (asked !! x) -> x < Rpcc.xid_ (Rpcc.cl c);
  ci_frames : forall x f, Rpcc.frames c !! x = Some f -> is_request asked x (m_bytes (Rpcc.f_req f));
  ci_dup : Rpcc.isvalid (Rpcc.dup_req_ (Rpcc.cl c)) = true ->
    exists x, 1 <= x < Rpcc.xid_ (Rpcc.cl c) /\ is_request asked x (Rpcc.rqst_buf (Rpcc.dup_req_ (Rpcc.cl c)));
  ci_reqs : forall b, b ∈ reqs ->
    exists x, 1 <= x < Rpcc.xid_ (Rpcc.cl c) /\ is_request asked x b;
}.

(** Between calls everything is acknowledged. *)
Lemma front_between asked c reqs n rest :
  cinv asked c reqs -> Rpcc.frames c = ∅ -> Rpcc.xid_rep_window_ (Rpcc.cl c) = n :: rest ->
  n = Rpcc.xid_ (Rpcc.cl c) - 1.
Proof.
  intros Hi Hf Hw. pose proof (Rpcc.inv_wf _ (ci_inv _ _ _ Hi)) as Hwf.
  pose proof (Rpcc.inv_issued _ (ci_inv _ _ _ Hi) n) as Hlt. rewrite Hw in *.
  specialize (Hlt (or_introl (Z.le_refl n))).
  destruct (decide (n = Rpcc.xid_ (Rpcc.cl c) - 1)) as [|Hne]; [done|exfalso].
  assert (XidWindow.acked (n :: rest) (n + 1)) as Ha.
  { rewrite <-Hw. apply (ci_acked _ _ _ Hi); [lia|by rewrite Hf]. }
  destruct Ha as [Ha|[Ha|Ha]%elem_of_cons]; [lia|lia|]. by apply (XidWindow.wf_front _ Hwf).
Qed.

Lemma is_request_insert asked x b y e :
  asked !! y = None -> is_request asked x b -> is_request (<[y := e]> asked) x b.
Proof.
  intros Hy (proc & args & sn & pre & Ha & Hr). exists proc, args, sn, pre. split; [|done].
  rewrite lookup_insert_ne; [done|]. intros ->. congruence.
Qed.

(** The request that [call1] begins with. *)
Lemma begin_request asked c reqs proc req rep to now r f :
  cinv asked c reqs -> Rpcc.frames c = ∅ -> m_wf req -> RPC_HEADER_SZ <= m_ind req -> is_u32 clt ->
  is_u32 nonce -> Rpcc.call1_begin (Rpcc.cl c) proc req rep to now = Val (inr (r, f)) ->
  Rpcc.clt_nonce_ r = clt /\ Rpcc.srv_nonce_ r = Rpcc.srv_nonce_ (Rpcc.cl c) /\
  Rpcc.dup_req_ r = Rpcc.dup_req_ (Rpcc.cl c) /\
  is_request (<[Rpcc.f_xid f := (s32 proc, drop 24 (m_bytes req))]> asked) (Rpcc.f_xid f)
    (m_bytes (Rpcc.f_req f)).
Proof.
  intros Hi Hf Hm Hmi Hc Hn Hb. pose proof (Rpcc.inv_xid _ (ci_inv _ _ _ Hi)) as Hx.
  unfold Rpcc.call1_begin in Hb. destruct (_ || _); [done|]. destruct (Rpcc.destroy_wait_ _); [done|].
  destruct (Rpcc.xid_rep_window_ (Rpcc.cl c)) as [|front rest] eqn:Hw; [done|].
  apply (front_between _ _ _ _ _ Hi Hf) in Hw. cbn [Rpcc.clt_nonce_ Rpcc.srv_nonce_ Rpcc.set_calls Rpcc.set_next_xid] in Hb.
  apply obind_val in Hb as (m1 & Hp & Hb). apply obind_val in Hb as (final & _ & [= <- <-]).
  cbn. split_and!; [apply (ci_clt _ _ _ Hi)|done|done|].
  rewrite (ci_clt _ _ _ Hi), Hw in Hp. rewrite pack_req_header_elems in Hp.
  apply pack_words_bytes in Hp as (Hm1 & Hi1 & Hb1); [|done|done|simpl; lia].
  pose proof (length_m_bytes _ Hm) as Hl. change RPC_HEADER_SZ with 24 in Hmi.
  exists (s32 proc), (drop 24 (m_bytes req)), (Rpcc.srv_nonce_ (Rpcc.cl c)), (take 4 (m_bytes req)).
  rewrite lookup_insert_eq. split_and!; [done|apply s32_range|apply (ci_srv _ _ _ Hi)| | |].
  - rewrite length_take. lia.
  - rewrite Hb1. do 2 f_equal. unfold mk_req_header. by rewrite (s32_id (s32 proc)) by apply s32_range.
  - pose proof (length_m_bytes _ Hm1) as Hl1. pose proof (mwf_ind _ Hm1). pose proof (mwf_capa _ Hm1).
    unfold INT_MAX. lia.
Qed.

Lemma cinv_begin asked c reqs proc req rep to now r f :
  cinv asked c reqs -> Rpcc.frames c = ∅ -> m_wf req -> RPC_HEADER_SZ <= m_ind req -> is_u32 clt ->
  is_u32 nonce -> Rpcc.xid_ (Rpcc.cl c) + 1 < 2 ^ 32 ->
  Rpcc.call1_begin (Rpcc.cl c) proc req rep to now = Val (inr (r, f)) ->
  cinv (<[Rpcc.f_xid f := (s32 proc, drop 24 (m_bytes req))]> asked)
       (Rpcc.World r (<[Rpcc.f_xid f := f]> (Rpcc.frames c)) (Rpcc.refs c) (Rpcc.pdus c) (Rpcc.results c)) reqs.
Proof.
  intros Hi Hf Hm Hmi Hc Hn Hmax Hb.
  destruct (begin_request _ _ _ _ _ _ _ _ _ _ Hi Hf Hm Hmi Hc Hn Hb) as (Ec & Es & Ed & Hreq).
  pose proof (Rpcc.inv_begin _ _ _ _ _ _ _ _ (ci_inv _ _ _ Hi) Hmax Hb) as Hinv.
  apply Rpcc.call1_begin_spec in Hb as (Hx & _ & _ & (E1 & E2 & E3 & E4) & _). cbn in E1, E3.
  pose proof (Rpcc.inv_xid _ (ci_inv _ _ _ Hi)) as Hxr. rewrite u32_id in E1 by (unfold is_u32; lia).
  rewrite Hx in *. assert (asked !! Rpcc.xid_ (Rpcc.cl c) = None) as Hnew.
  { destruct (asked !! _) eqn:E; [|done]. assert (Rpcc.xid_ (Rpcc.cl c) < Rpcc.xid_ (Rpcc.cl c)); [|lia].
    apply (ci_asked _ _ _ Hi). by eexists. }
  split; simpl; rewrite ?Ec, ?Es, ?Ed, ?E1, ?E3, ?Hf; [by rewrite <-Hf|done|apply (ci_srv _ _ _ Hi)|..].
  - intros x g [[<- _]|[_ Hg]]%lookup_insert_Some; [lia|by rewrite lookup_empty in Hg].
  - intros y Hy Hn'. apply lookup_insert_None in Hn' as [_ Hne]. apply (ci_acked _ _ _ Hi); [lia|by rewrite Hf].
  - intros y Hy Hn'. apply lookup_insert_None in Hn' as [_ Hne].
    apply (ci_returned _ _ _ Hi); [lia|by rewrite Hf].
  - intros y Hy. destruct (decide (y = Rpcc.xid_ (Rpcc.cl c))) as [->|Hne]; [lia|].
    rewrite lookup_insert_ne in Hy by done. apply (ci_asked _ _ _ Hi) in Hy. lia.
  - intros x g [[<- <-]|[_ Hg]]%lookup_insert_Some; [done|by rewrite lookup_empty in Hg].
  - intros Hv. destruct (ci_dup _ _ _ Hi Hv) as (x & Hx' & Hr). exists x. split; [lia|]. by apply is_request_insert.
  - intros b Hb. destruct (ci_reqs _ _ _ Hi b Hb) as (x & Hx' & Hr). exists x. split; [lia|].
    by apply is_request_insert.
Qed.

(** Steps inside a call: the frame keeps its request, what is sent are requests,
    and the copy for the lossy test is kept or dropped. *)
Lemma cinv_frame asked c reqs x f f' r refs' more :
  cinv asked c reqs -> Rpcc.frames c !! x = Some f ->
  Rpcc.inv (Rpcc.World r (<[x := f']> (Rpcc.frames c)) refs' (Rpcc.pdus c) (Rpcc.results c)) ->
  Rpcc.same_core (Rpcc.cl c) r -> Rpcc.clt_nonce_ r = Rpcc.clt_nonce_ (Rpcc.cl c) ->
  Rpcc.srv_nonce_ r = Rpcc.srv_nonce_ (Rpcc.cl c) -> Rpcc.f_req f' = Rpcc.f_req f ->
  (Rpcc.isvalid (Rpcc.dup_req_ r) = true -> Rpcc.dup_req_ r = Rpcc.dup_req_ (Rpcc.cl c)) ->
  (forall b, b ∈ more -> b = m_bytes (Rpcc.f_req f) \/
     Rpcc.isvalid (Rpcc.dup_req_ (Rpcc.cl c)) = true /\ b = Rpcc.rqst_buf (Rpcc.dup_req_ (Rpcc.cl c))) ->
  cinv asked (Rpcc.World r (<[x := f']> (Rpcc.frames c)) refs' (Rpcc.pdus c) (Rpcc.results c)) (more ++ reqs).
Proof.
  intros Hi Hf Hinv (E1 & E2 & E3 & E4) Ec Es Ereq Hdup Hmore.
  assert (forall y, <[x := f']> (Rpcc.frames c) !! y = None -> Rpcc.frames c !! y = None) as Hnone.
  { by intros y [? _]%lookup_insert_None. }
  split; simpl; rewrite ?Ec, ?Es, ?E1, ?E3; [done|apply (ci_clt _ _ _ Hi)|apply (ci_srv _ _ _ Hi)|..].
  - intros y g [[<- _]|[_ Hg]]%lookup_insert_Some; [by eapply ci_seq|by eapply ci_seq].
  - intros y Hy Hn. apply (ci_acked _ _ _ Hi); auto.
  - intros y Hy Hn. apply (ci_returned _ _ _ Hi); auto.
  - apply (ci_asked _ _ _ Hi).
  - intros y g [[<- <-]|[_ Hg]]%lookup_insert_Some; [rewrite Ereq; by eapply ci_frames|by eapply ci_frames].
  - intros Hv. rewrite (Hdup Hv). apply (ci_dup _ _ _ Hi). by rewrite <-(Hdup Hv).
  - intros b [Hb|Hb]%elem_of_app; [|by apply (ci_reqs _ _ _ Hi)].
    destruct (Hmore b Hb) as [->|[Hv ->]]; [|by apply (ci_dup _ _ _ Hi)].
    exists x. split; [|by eapply ci_frames]. by apply (Rpcc.inv_frames _ (ci_inv _ _ _ Hi) x f).
Qed.

Lemma transmit_request_sends r f dead fresh r' f' ops :
  Rpcc.transmit_request r f dead fresh = (r', f', ops) ->
  Rpcc.clt_nonce_ r' = Rpcc.clt_nonce_ r /\ Rpcc.srv_nonce_ r' = Rpcc.srv_nonce_ r /\
  Rpcc.f_req f' = Rpcc.f_req f /\
  (Rpcc.isvalid (Rpcc.dup_req_ r') = true -> Rpcc.dup_req_ r' = Rpcc.dup_req_ r) /\
  (forall b, b ∈ sends ops -> b = m_bytes (Rpcc.f_req f) \/
     Rpcc.isvalid (Rpcc.dup_req_ r) = true /\ b = Rpcc.rqst_buf (Rpcc.dup_req_ r)).
Proof.
  unfold Rpcc.transmit_request. destruct (Rpcc.f_transmit f).
  2: { intros [= <- <- <-]. split_and!; try done. by intros b ?%not_elem_of_nil. }
  destruct (Rpcc.get_refconn r (Rpcc.f_ch f) dead fresh) as [[r1 ch] ops1] eqn:Hg.
  assert (Rpcc.clt_nonce_ r1 = Rpcc.clt_nonce_ r /\ Rpcc.srv_nonce_ r1 = Rpcc.srv_nonce_ r /\
          Rpcc.dup_req_ r1 = Rpcc.dup_req_ r /\ sends ops1 = []) as (E1 & E2 & E3 & E4).
  { revert Hg. unfold Rpcc.get_refconn. destruct (Rpcc.chan_ r) as [c0|]; [destruct dead|];
      destruct fresh as [c1|], (Rpcc.f_ch f); intros [= <- _ <-]; done. }
  unfold sends in *. rewrite <-E1, <-E2, <-E3.
  destruct ch as [c0|]; [destruct (Rpcc.reachable_ r1); [destruct (Rpcc.isvalid _ && _) eqn:Hv|]|];
    intros [= <- <- <-]; rewrite omap_app, E4; simpl; split_and!; try done;
    intros b; rewrite ?elem_of_cons, ?elem_of_nil.
  - apply andb_prop in Hv as [Hv _]. naive_solver.
  - naive_solver.
  - done.
  - done.
Qed.

Lemma cinv_top asked c reqs x f dead fresh now r f' ops :
  cinv asked c reqs -> Rpcc.frames c !! x = Some f -> Rpcc.f_phase f = Rpcc.AtTop ->
  Rpcc.call1_top (Rpcc.cl c) f dead fresh now = Val (r, f', ops) ->
  cinv asked (Rpcc.World r (<[x := f']> (Rpcc.frames c)) (Rpcc.apply_ops (Rpcc.refs c) ops)
                (Rpcc.pdus c) (Rpcc.results c)) (sends ops ++ reqs).
Proof.
  intros Hi Hf Hp Ht. pose proof (Rpcc.step_top _ _ _ _ _ _ _ _ _ Hf Hp Ht) as Hstep.
  apply (Rpcc.client_step_inv _ _ (ci_inv _ _ _ Hi)) in Hstep.
  pose proof (Rpcc.call1_top_spec _ _ _ _ _ _ _ _ Ht) as (Hcore & _).
  unfold Rpcc.call1_top in Ht. destruct (Rpcc.transmit_request _ _ _ _) as [[r1 f1] ops1] eqn:E.
  apply transmit_request_sends in E as (E1 & E2 & E3 & E4 & E5).
  apply obind_val in Ht as (d & _ & Ht).
  assert (r = r1 /\ ops = ops1 /\ Rpcc.f_req f' = Rpcc.f_req f1) as (-> & -> & E6).
  { destruct d as [[next final]|]; injection Ht as <- <- <-; done. }
  eapply cinv_frame; try done. congruence.
Qed.

Lemma cinv_woken asked c reqs x f ph final :
  cinv asked c reqs -> Rpcc.frames c !! x = Some f ->
  cinv asked (Rpcc.World (Rpcc.cl c) (<[x := Rpcc.set_phase f final ph]> (Rpcc.frames c)) (Rpcc.refs c)
                (Rpcc.pdus c) (Rpcc.results c)) reqs.
Proof.
  intros Hi Hf. apply (cinv_frame asked c reqs x f _ _ _ []); try done; [|by intros b ?%not_elem_of_nil].
  eapply Rpcc.inv_frame_update; [apply (ci_inv _ _ _ Hi)|done..|]. intros k. simpl. lia.
Qed.

Lemma cinv_timeout asked c reqs x f dead f' :
  cinv asked c reqs -> Rpcc.frames c !! x = Some f -> Rpcc.call1_timeout (Rpcc.cl c) f dead = Val f' ->
  cinv asked (Rpcc.World (Rpcc.cl c) (<[x := f']> (Rpcc.frames c)) (Rpcc.refs c)
                (Rpcc.pdus c) (Rpcc.results c)) reqs.
Proof.
  intros Hi Hf Ht. unfold Rpcc.call1_timeout in Ht. apply obind_val in Ht as (to & _ & [= <-]).
  apply (cinv_frame asked c reqs x f _ _ _ []); try done; [|by intros b ?%not_elem_of_nil].
  eapply Rpcc.inv_frame_update; [apply (ci_inv _ _ _ Hi)|done..|]. intros k. simpl. lia.
Qed.

Lemma cinv_end asked c reqs x f r ret u ops :
  cinv asked c reqs -> Rpcc.frames c !! x = Some f ->
  Rpcc.call1_end (Rpcc.cl c) f = Val (r, ret, u, ops) ->
  cinv asked (Rpcc.World r (delete x (Rpcc.frames c)) (Rpcc.apply_ops (Rpcc.refs c) ops) (Rpcc.pdus c)
                ((x, ret, u) :: Rpcc.results c)) reqs.
Proof.
  intros Hi Hf He. pose proof (Rpcc.inv_end _ _ _ _ _ _ _ (ci_inv _ _ _ Hi) Hf He) as Hinv.
  pose proof (Rpcc.call1_end_spec _ _ _ _ _ _ He) as (ca & win & _ & Hw & (E1 & _ & E3 & _) & _).
  destruct (Rpcc.inv_frames _ (ci_inv _ _ _ Hi) _ _ Hf) as [Hfx Hx].
  pose proof (Rpcc.inv_xid _ (ci_inv _ _ _ Hi)) as Hxr.
  destruct (XidWindow.update_xid_rep_ok (Rpcc.xid_rep_window_ (Rpcc.cl c)) x) as (win' & Hw' & _ & Hack);
    [apply (Rpcc.inv_wf _ (ci_inv _ _ _ Hi))|unfold is_u32; lia|].
  rewrite Hfx, Hw' in Hw. injection Hw as <-. simpl in E1, E3.
  assert (Rpcc.clt_nonce_ r = Rpcc.clt_nonce_ (Rpcc.cl c) /\
          Rpcc.srv_nonce_ r = Rpcc.srv_nonce_ (Rpcc.cl c) /\
          (Rpcc.dup_req_ r = Rpcc.dup_req_ (Rpcc.cl c) \/
           Rpcc.rqst_buf (Rpcc.dup_req_ r) = m_bytes (Rpcc.f_req f))) as (E4 & E5 & E6).
  { unfold Rpcc.call1_end in He. destruct (Rpcc.calls_ _ !! _) as [ca'|]; [|done].
    apply obind_val in He as (w2 & _ & He). apply obind_val in He as (ret' & _ & [= <- _ _ _]).
    destruct (_ && _); [|by split_and!; auto]. simpl. destruct (Rpcc.isvalid _); by split_and!; auto. }
  split; simpl; rewrite ?E1, ?E3, ?E4, ?E5; [done|apply (ci_clt _ _ _ Hi)|apply (ci_srv _ _ _ Hi)|..].
  - intros y g [_ Hg]%lookup_delete_Some. by eapply ci_seq.
  - intros y Hy Hn. apply Hack. apply lookup_delete_None in Hn as [->|Hn]; [by right|left].
    by apply (ci_acked _ _ _ Hi).
  - intros y Hy Hn. apply lookup_delete_None in Hn as [->|Hn]; [exists ret, u; by left|].
    destruct (ci_returned _ _ _ Hi y Hy Hn) as (ret' & u' & Hr). exists ret', u'. by right.
  - apply (ci_asked _ _ _ Hi).
  - intros y g [_ Hg]%lookup_delete_Some. by eapply ci_frames.
  - intros Hv. destruct E6 as [E6|E6]; rewrite E6 in *; [by apply (ci_dup _ _ _ Hi)|].
    exists x. split; [done|]. by eapply ci_frames.
  - apply (ci_reqs _ _ _ Hi).
Qed.

Lemma cinv_pdu asked c reqs b n r ok :
  cinv asked c reqs -> Rpcc.client_got_pdu (Rpcc.cl c) b n = Val (r, ok) ->
  (forall y ret u, Rpcc.pdu_reply b n = Some (y, ret, u) -> y < Rpcc.xid_ (Rpcc.cl c)) ->
  cinv asked (Rpcc.World r (Rpcc.frames c) (Rpcc.refs c) (option_list (Rpcc.pdu_reply b n) ++ Rpcc.pdus c)
                (Rpcc.results c)) reqs.
Proof.
  intros Hi Hg Hlt. pose proof (Rpcc.inv_pdu _ _ _ _ _ (ci_inv _ _ _ Hi) Hg Hlt) as Hinv.
  apply Rpcc.client_got_pdu_spec in Hg.
  assert (Rpcc.clt_nonce_ r = Rpcc.clt_nonce_ (Rpcc.cl c) /\
          Rpcc.srv_nonce_ r = Rpcc.srv_nonce_ (Rpcc.cl c) /\
          Rpcc.dup_req_ r = Rpcc.dup_req_ (Rpcc.cl c) /\ Rpcc.xid_ r = Rpcc.xid_ (Rpcc.cl c) /\
          (forall y, XidWindow.acked (Rpcc.xid_rep_window_ (Rpcc.cl c)) y ->
                     XidWindow.acked (Rpcc.xid_rep_window_ r) y)) as (E1 & E2 & E3 & E4 & E5).
  { destruct (Rpcc.pdu_reply b n) as [[[y ret] u]|]; [|by subst r].
    destruct Hg as (win & Hy & Hw & Hr).
    destruct (XidWindow.update_xid_rep_ok (Rpcc.xid_rep_window_ (Rpcc.cl c)) y) as (win' & Hw' & _ & Hack);
      [apply (Rpcc.inv_wf _ (ci_inv _ _ _ Hi))|done|]. rewrite Hw' in Hw. injection Hw as ->.
    assert (forall z, XidWindow.acked (Rpcc.xid_rep_window_ (Rpcc.cl c)) z -> XidWindow.acked win z) as Hmono
      by (intros z Hz; apply Hack; by left).
    destruct (Rpcc.calls_ (Rpcc.cl c) !! s32 y) as [ca|]; [destruct (Rpcc.ca_done ca)|]; by subst r. }
  split; simpl; rewrite ?E1, ?E2, ?E3, ?E4; [done|apply (ci_clt _ _ _ Hi)|apply (ci_srv _ _ _ Hi)|..];
    try apply Hi.
  intros y Hy Hn. by apply E5, (ci_acked _ _ _ Hi).
Qed.

(** Steps that leave the numbers, the window and the requests alone. *)
Lemma cinv_other asked c reqs r :
  cinv asked c reqs -> Rpcc.inv (client_of c r) -> Rpcc.clt_nonce_ r = Rpcc.clt_nonce_ (Rpcc.cl c) ->
  (Rpcc.srv_nonce_ r = Rpcc.srv_nonce_ (Rpcc.cl c) \/ Rpcc.srv_nonce_ r = nonce) ->
  Rpcc.xid_ r = Rpcc.xid_ (Rpcc.cl c) -> Rpcc.xid_rep_window_ r = Rpcc.xid_rep_window_ (Rpcc.cl c) ->
  Rpcc.dup_req_ r = Rpcc.dup_req_ (Rpcc.cl c) -> cinv asked (client_of c r) reqs.
Proof.
  intros Hi Hinv E1 E2 E3 E4 E5. split; simpl; rewrite ?E1, ?E3, ?E4, ?E5; try apply Hi; [done|].
  destruct E2 as [->| ->]; [apply (ci_srv _ _ _ Hi)|by right].
Qed.

End client.

(** ** Both sides *)

Section system.
Context `{Heap} `{EndNode} {S : Type} (owner : Z -> Z) (clt : Z).

Implicit Types w : world S.

(** The status and reply of a run of call [y]. *)
Definition genuine (rs : list run) (y ret : Z) (u : unmarshall) : Prop :=
  exists r, r ∈ rs /\ run_xid r = y /\ run_ret r = ret /\ u_wf u /\ u_rest u = run_reply r.

(** A reply of the server: that of a run, the refusal of a call before the
    last one that was started, or that of the first call because of what
    [front()] of an empty list yields. *)
Definition known (A : gmap Z (Z * list Z)) (m : Z) (rs : list run) (y ret : Z) (u : unmarshall) : Prop :=
  genuine rs y ret u \/
  ret = atmostonce_failure /\ (1 <= y < m \/ first_refused /\ y = 1 /\ is_Some (A !! 1)).

(** What a call may return. *)
Definition result_ok (rs : list run) (x ret : Z) (u : unmarshall) : Prop :=
  ret = timeout_failure \/ ret = cancel_failure \/
  ret = atmostonce_failure /\ x = 1 /\ first_refused \/ genuine rs x ret u.

Definition stored (rs : list run) (e : reply_t) : Prop :=
  rt_cb_present e = true ->
  exists ret u,
    let b := take (Z.to_nat (rt_sz e)) (default [] (rt_buf e)) in
    Rpcc.pdu_reply (Framing.frame b) (Z.of_nat (length b)) = Some (rt_xid e, ret, u) /\
    genuine rs (rt_xid e) ret u.

Definition run_ok w (r : run) : Prop :=
  asked w !! run_xid r = Some (run_proc r, run_args r) /\ 0 <= run_ret r /\
  exists (f : handler_fn S) a a' u rep,
    Rpcs.procs_ (srv w) !! run_proc r = Some f /\ u_wf u /\ u_rest u = run_args r /\
    f a u marshall_new = Val (a', rep, run_ret r) /\ run_reply r = drop 24 (m_bytes rep).

Definition job_ok (p : pending S) : Prop :=
  rq_clt_nonce (p_header p) = owner (p_conn p) /\ good_handler (p_fn p).

Definition my_job w (m : Z) (p : pending S) : Prop :=
  exists proc : Z, rq_proc (p_header p) = proc /\ u32 (rq_xid (p_header p)) = m /\ is_s32 (rq_xid (p_header p)) /\
    asked w !! m = Some (proc, u_rest (p_req p)) /\ u_wf (p_req p) /\
    Rpcs.procs_ (srv w) !! proc = Some (p_fn p).

Definition is_mine (p : pending S) : bool := rq_clt_nonce (p_header p) =? clt.
Definition mine w : list (pending S) := List.filter is_mine (jobs w).

(** Call [m] was the last one to be started. *)
Definition window_ok w (m : Z) : Prop :=
  m = 0 /\ default [] (Rpcs.reply_window_ (srv w) !! clt) = [] /\ mine w = [] /\ runs w = [] \/
  exists l L, 0 < m /\ Rpcs.reply_window_ (srv w) !! clt = Some l /\ shape m l L /\
    Forall (stored (runs w)) l /\
    (rt_cb_present L = true /\ mine w = [] /\ run_xid <$> runs w = upto m \/
     L = reply_new m /\ run_xid <$> runs w = upto (m - 1) /\ exists p, mine w = [p] /\ my_job w m p).

Definition next_xid w : Z := Rpcc.xid_ (Rpcc.cl (cw w)).

Record einv (m : Z) w : Prop := {
  e_client : cinv clt (Rpcs.nonce_ (srv w)) (asked w) (cw w) (requests w);
  e_clt : is_u32 clt /\ clt <> 0;
  e_nonce : is_u32 (Rpcs.nonce_ (srv w));
  e_procs : forall p f, Rpcs.procs_ (srv w) !! p = Some f -> good_handler f;
  e_conns : conns_ok owner (srv w);
  e_jobs : Forall job_ok (jobs w);
  e_window : window_ok w m;
  e_m : 0 <= m <= next_xid w - 1 /\ next_xid w - 1 <= m + 1 /\ (mine w <> [] -> next_xid w - 1 = m);
  e_runs : Forall (run_ok w) (runs w);
  e_sent : forall c b, (c, b) ∈ Rpcs.sent (srv w) -> owner c = clt ->
    exists y ret u, Rpcc.pdu_reply (Framing.frame b) (Z.of_nat (length b)) = Some (y, ret, u) /\
      known (asked w) m (runs w) y ret u;
  e_pdus : forall y ret u, (y, ret, u) ∈ Rpcc.pdus (cw w) -> known (asked w) m (runs w) y ret u;
  e_results : forall x ret u, (x, ret, u) ∈ Rpcc.results (cw w) ->
    result_ok (runs w) x ret u;
}.

(** A packed reply decodes to its number, status and body. *)
Lemma reply_decodes rep rep' xs ret :
  m_wf rep -> RPC_HEADER_SZ <= m_ind rep -> is_s32 ret -> is_s32 xs ->
  pack_reply_header rep (mk_reply_header xs ret) = Val rep' ->
  exists u, Rpcc.pdu_reply (Framing.frame (m_bytes rep')) (Z.of_nat (length (m_bytes rep')))
              = Some (u32 xs, ret, u) /\ u_wf u /\ u_rest u = drop 24 (m_bytes rep).
Proof.
  intros Hm Hi Hret Hxs Hp. rewrite pack_reply_header_elems in Hp.
  apply pack_words_bytes in Hp as (Hm' & Hi' & Hb); [|done|done|simpl; lia].
  pose proof (length_m_bytes _ Hm) as Hl. pose proof (length_m_bytes _ Hm') as Hl'.
  pose proof (mwf_ind _ Hm'). pose proof (mwf_capa _ Hm'). change RPC_HEADER_SZ with 24 in Hi.
  destruct (unpack_reply_frame (take 4 (m_bytes rep)) (mk_reply_header xs ret) (drop 12 (m_bytes rep)))
    as (u & Hu & Hw & Hind & Hr).
  { rewrite length_take. lia. }
  { split; apply s32_range. }
  { rewrite length_drop. lia. }
  { change (4 + 4 * length (reply_words (mk_reply_header xs ret)))%nat with 12%nat in Hb.
    rewrite <-Hb. unfold INT_MAX. lia. }
  change (4 + 4 * length (reply_words (mk_reply_header xs ret)))%nat with 12%nat in Hb. rewrite <-Hb in Hu.
  destruct (take_in_spec u Hw Hind) as [Hw' Hr']. exists (take_in u).1. split_and!; [|done|].
  - unfold Rpcc.pdu_reply. rewrite Hu, (uwf_ok _ Hw). simpl. by rewrite !s32_id.
  - rewrite Hr', Hr, drop_drop. done.
Qed.

Lemma genuine_more r rs y ret u : genuine rs y ret u -> genuine (r :: rs) y ret u.
Proof. intros (r' & Hin & Hr). exists r'. split; [by right|done]. Qed.

Lemma known_more A m m' r rs y ret u : m <= m' -> known A m rs y ret u -> known A m' (r :: rs) y ret u.
Proof.
  intros Hm [Hg|[-> Hy]]; [left; by apply genuine_more|right; split; [done|]].
  destruct Hy as [Hy|Hy]; [left; lia|by right].
Qed.

Lemma known_later A A' m m' rs y ret u :
  m <= m' -> (forall z e, A !! z = Some e -> A' !! z = Some e) -> known A m rs y ret u -> known A' m' rs y ret u.
Proof.
  intros Hm HA [Hg|[-> Hy]]; [by left|right; split; [done|]].
  destruct Hy as [Hy|(? & ? & e & He)]; [left; lia|right; split_and!; [done..|]]. exists e. by apply HA.
Qed.

Lemma stored_more r rs e : stored rs e -> stored (r :: rs) e.
Proof. intros Hs Hp. destruct (Hs Hp) as (ret & u & Hd & Hg). exists ret, u. split; [done|by apply genuine_more]. Qed.

(** The runs are of calls that were started. *)
Lemma run_started m w r : window_ok w m -> r ∈ runs w -> 1 <= run_xid r <= m /\ (mine w <> [] -> run_xid r < m).
Proof.
  intros [(_ & _ & _ & Hr)|(l & L & Hm & _ & _ & _ & Hcase)] Hin.
  - rewrite Hr in Hin. by apply not_elem_of_nil in Hin.
  - assert (run_xid r ∈ run_xid <$> runs w) as Hx by by apply list_elem_of_fmap_2.
    destruct Hcase as [(_ & Hmine & E)|(_ & E & _)]; rewrite E in Hx; apply elem_of_upto in Hx.
    + rewrite Hmine. done.
    + split; [lia|]. intros _. lia.
Qed.

Lemma known_issued m w y ret u : einv m w -> known (asked w) m (runs w) y ret u -> y < next_xid w.
Proof.
  intros Hi [(r & Hin & <- & _)|[_ [Hy|(_ & -> & Ha)]]]; pose proof (e_m _ _ Hi);
    [|lia|by apply (ci_asked _ _ _ _ _ (e_client _ _ Hi))].
  pose proof (run_started m w r (e_window _ _ Hi) Hin). lia.
Qed.

(** When the client may make a call, the last one has been served. *)
Lemma idle_between m w : einv m w -> may_call (cw w) -> m = next_xid w - 1 /\ mine w = [].
Proof.
  intros Hi [Hf Hres]. pose proof (e_m _ _ Hi) as (Hm & Hm1 & Hmine). pose proof (e_window _ _ Hi) as Hw.
  destruct (decide (next_xid w - 1 = 0)) as [E|Hne].
  - split; [lia|]. destruct Hw as [(_ & _ & ? & _)|(l & L & ? & _)]; [done|lia].
  - destruct (ci_returned _ _ _ _ _ (e_client _ _ Hi) (next_xid w - 1)) as (ret & u & Hr);
      [unfold next_xid in *; lia|by rewrite Hf|].
    assert (0 <= ret) as Hret by exact (proj1 (Forall_forall _ _) Hres _ Hr).
    destruct (e_results _ _ Hi _ _ _ Hr) as [->|[->|[[-> _]|(r & Hin & Hx & _)]]];
      [unfold timeout_failure in *; lia|unfold cancel_failure in *; lia|unfold atmostonce_failure in *; lia|].
    destruct (run_started m w r Hw Hin) as [Hle Hlt]. split; [lia|].
    destruct (mine w) eqn:E; [done|]. specialize (Hlt ltac:(done)). lia.
Qed.

(** Steps of the client that begin no call and deliver no reply. *)
Lemma einv_client m w c reqs :
  einv m w -> cinv clt (Rpcs.nonce_ (srv w)) (asked w) c reqs ->
  Rpcc.xid_ (Rpcc.cl c) = next_xid w -> Rpcc.pdus c = Rpcc.pdus (cw w) ->
  (forall x ret u, (x, ret, u) ∈ Rpcc.results c -> result_ok (runs w) x ret u) ->
  einv m (World c (asked w) reqs (srv w) (jobs w) (runs w)).
Proof.
  intros [] Hc Hx Hp Hr. constructor; try done; unfold next_xid in *; simpl.
  - by rewrite Hx.
  - by rewrite Hp.
Qed.

Lemma einv_begin m w proc req rep to now r f :
  einv m w -> may_call (cw w) -> m_wf req -> RPC_HEADER_SZ <= m_ind req ->
  Rpcc.xid_ (Rpcc.cl (cw w)) + 1 < 2 ^ 32 ->
  Rpcc.call1_begin (Rpcc.cl (cw w)) proc req rep to now = Val (inr (r, f)) ->
  einv m (World (Rpcc.World r (<[Rpcc.f_xid f := f]> (Rpcc.frames (cw w))) (Rpcc.refs (cw w))
                   (Rpcc.pdus (cw w)) (Rpcc.results (cw w)))
                (<[Rpcc.f_xid f := (s32 proc, drop 24 (m_bytes req))]> (asked w))
                (requests w) (srv w) (jobs w) (runs w)).
Proof.
  intros Hi Hmay Hm Hmi Hmax Hb. destruct (idle_between m w Hi Hmay) as [Em Emine].
  pose proof (cinv_begin _ _ _ _ _ _ _ _ _ _ _ _ (e_client _ _ Hi) (proj1 Hmay) Hm Hmi
                (proj1 (e_clt _ _ Hi)) (e_nonce _ _ Hi) Hmax Hb) as Hc.
  pose proof (Rpcc.call1_begin_spec _ _ _ _ _ _ _ _ Hb) as (Hx & _ & _ & (E1 & _) & _). cbn in E1.
  pose proof (Rpcc.inv_xid _ (ci_inv _ _ _ _ _ (e_client _ _ Hi))) as Hxr.
  rewrite u32_id in E1 by (unfold is_u32; lia).
  assert (asked w !! Rpcc.f_xid f = None) as Hnew.
  { rewrite Hx. destruct (asked w !! _) eqn:E; [|done].
    assert (Rpcc.xid_ (Rpcc.cl (cw w)) < Rpcc.xid_ (Rpcc.cl (cw w))); [|lia].
    apply (ci_asked _ _ _ _ _ (e_client _ _ Hi)). by eexists. }
  assert (forall y e, asked w !! y = Some e ->
            <[Rpcc.f_xid f := (s32 proc, drop 24 (m_bytes req))]> (asked w) !! y = Some e) as Hkeep.
  { intros y e Hy. rewrite lookup_insert_ne; [done|]. intros <-. congruence. }
  destruct Hi. constructor; try done.
  - destruct e_window0 as [?|(l & L & Hm0 & Hl & Hs & Hst & [Hcase|(_ & _ & p & Hp & _)])].
    + by left.
    + right. exists l, L. split_and!; try done. by left.
    + congruence.
  - unfold next_xid in *. simpl. rewrite E1. split_and!; [lia|lia|lia|]. unfold mine in *. simpl. done.
  - eapply Forall_impl; [exact e_runs0|]. intros r' (Ha & Hrest). split; [by apply Hkeep|done].
  - intros c b Hin Ho. destruct (e_sent0 c b Hin Ho) as (y & ret & u & Hd & Hk). exists y, ret, u.
    split; [done|]. by eapply known_later.
  - intros y ret u Hin. eapply known_later; [done|exact Hkeep|]. by apply e_pdus0.
Qed.

Lemma einv_end m w x f r ret u ops :
  einv m w -> Rpcc.frames (cw w) !! x = Some f -> Rpcc.call1_end (Rpcc.cl (cw w)) f = Val (r, ret, u, ops) ->
  einv m (with_client w
    (Rpcc.World r (delete x (Rpcc.frames (cw w))) (Rpcc.apply_ops (Rpcc.refs (cw w)) ops)
       (Rpcc.pdus (cw w)) ((x, ret, u) :: Rpcc.results (cw w)))).
Proof.
  intros Hi Hf He. pose proof (e_client _ _ Hi) as Hc. pose proof (ci_inv _ _ _ _ _ Hc) as Hinv.
  pose proof (cinv_end _ _ _ _ _ _ _ _ _ _ _ Hc Hf He) as Hc'.
  apply Rpcc.call1_end_spec in He as (ca & win & Hca & _ & (E1 & _) & _ & -> & Hret & _).
  apply einv_client; try done. intros y ret' u' [[= -> -> ->]|Hin]%elem_of_cons; [|by eapply e_results].
  destruct (Rpcc.inv_frames _ Hinv _ _ Hf) as [Hfx Hx]. rewrite Hfx in Hca.
  destruct (Rpcc.ca_done ca) eqn:Hd; [|by left].
  destruct (Rpcc.inv_live _ Hinv _ _ Hf) as (ca' & Hca' & Hcx). assert (ca' = ca) as -> by congruence.
  destruct (Rpcc.inv_done _ Hinv _ _ Hca Hd) as (ret'' & Hi' & [->|Hp]);
    (assert (ret'' = ret) as -> by congruence) || (right; left; congruence).
  right; right. rewrite Hcx in Hp. destruct (e_pdus _ _ Hi _ _ _ Hp) as [Hg|[-> [Hlt|(Hfr & -> & _)]]];
    [by right| |by left].
  pose proof (e_m _ _ Hi) as (Hm & _). pose proof (ci_seq _ _ _ _ _ Hc _ _ Hf). unfold next_xid in *. lia.
Qed.

Lemma einv_pdu m w c b r ok :
  einv m w -> (c, b) ∈ Rpcs.sent (srv w) -> owner c = clt ->
  Rpcc.client_got_pdu (Rpcc.cl (cw w)) (Framing.frame b) (Z.of_nat (length b)) = Val (r, ok) ->
  einv m (with_client w
    (Rpcc.World r (Rpcc.frames (cw w)) (Rpcc.refs (cw w))
       (option_list (Rpcc.pdu_reply (Framing.frame b) (Z.of_nat (length b))) ++ Rpcc.pdus (cw w))
       (Rpcc.results (cw w)))).
Proof.
  intros Hi Hin Ho Hg. destruct (e_sent _ _ Hi c b Hin Ho) as (y & ret & u & Hd & Hk).
  pose proof (known_issued m w y ret u Hi Hk) as Hy.
  pose proof (cinv_pdu _ _ _ _ _ _ _ _ _ (e_client _ _ Hi) Hg) as Hc. rewrite Hd in *.
  specialize (Hc ltac:(by intros ? ? ? [= <- <- <-])).
  apply Rpcc.client_got_pdu_spec in Hg. rewrite Hd in Hg. destruct Hg as (win & _ & _ & Hr).
  assert (Rpcc.xid_ r = next_xid w) as Hx.
  { destruct (Rpcc.calls_ _ !! _) as [ca|]; [destruct (Rpcc.ca_done ca)|]; by subst r. }
  destruct Hi. constructor; try done; unfold next_xid in *; simpl.
  - by rewrite Hx.
  - intros y' ret' u' [[= -> -> ->]|Hp]%elem_of_cons; [done|by apply e_pdus0].
Qed.

(** Steps of the server that leave the client's window and calls alone. *)
Lemma einv_foreign m w s js :
  einv m w -> conns_ok owner s -> Rpcs.nonce_ s = Rpcs.nonce_ (srv w) ->
  Rpcs.procs_ s = Rpcs.procs_ (srv w) ->
  Rpcs.reply_window_ s !! clt = Rpcs.reply_window_ (srv w) !! clt ->
  (exists l, Rpcs.sent s = Rpcs.sent (srv w) ++ l /\ Forall (fun p => owner p.1 <> clt) l) ->
  Forall job_ok js -> List.filter is_mine js = mine w ->
  einv m (with_server w s js).
Proof.
  intros [] Hc Hn Hp Hw (l & Hs & Hl) Hj Hmine.
  constructor; unfold next_xid, window_ok, mine, run_ok, my_job in *; simpl;
    rewrite ?Hn, ?Hp, ?Hw, ?Hmine; try done.
  intros c b Hin Ho. rewrite Hs in Hin. apply elem_of_app in Hin as [Hin|Hin]; [by eapply e_sent0|].
  by eapply (proj1 (Forall_forall _ _) Hl) in Hin.
Qed.

(** A request of the client is read as it was made. *)
Lemma request_reads m w x b :
  einv m w -> 1 <= x < next_xid w -> is_request clt (Rpcs.nonce_ (srv w)) (asked w) x b ->
  exists u h (proc : Z),
    unpack_req_header (unmarshall_buf (Framing.frame b) (Z.of_nat (length b))) = Val (u, h) /\ u_wf u /\
    asked w !! x = Some (proc, u_rest u) /\ rq_proc h = proc /\ rq_clt_nonce h = clt /\
    (rq_srv_nonce h = 0 \/ rq_srv_nonce h = Rpcs.nonce_ (srv w)) /\
    u32 (rq_xid h) = x /\ u32 (rq_xid_rep h) = x - 1 /\ is_s32 (rq_xid h).
Proof.
  intros Hi Hx (proc & args & sn & pre & Ha & Hp & Hsn & Hpre & -> & Hlen).
  pose proof (Rpcc.inv_xid _ (ci_inv _ _ _ _ _ (e_client _ _ Hi))) as Hxr. unfold next_xid in Hx.
  destruct (unpack_req_frame pre (mk_req_header x proc clt sn (x - 1)) args Hpre) as (u & Hu & Hw & _ & Hr).
  { unfold req_header_ok. simpl. split_and!; try apply s32_range; apply u32_range. }
  { done. }
  exists u, (mk_req_header x proc clt sn (x - 1)), proc. split; [exact Hu|]. split; [done|].
  assert (is_u32 sn) as Hsn' by (destruct Hsn as [->| ->]; [unfold is_u32; lia|apply (e_nonce _ _ Hi)]).
  simpl. rewrite Hr, !u32_s32; try done; try (unfold is_u32; lia); [|apply (e_clt _ _ Hi)].
  split_and!; try done; [by apply s32_id|apply s32_range].
Qed.

Lemma einv_sent_more m w s' c b rs :
  einv m w -> (rs = runs w \/ exists r, rs = r :: runs w) -> sent_more (srv w) s' [(c, b)] ->
  (exists y ret u, Rpcc.pdu_reply (Framing.frame b) (Z.of_nat (length b)) = Some (y, ret, u) /\
     known (asked w) m rs y ret u) ->
  forall c' b', (c', b') ∈ Rpcs.sent s' -> owner c' = clt ->
    exists y ret u, Rpcc.pdu_reply (Framing.frame b') (Z.of_nat (length b')) = Some (y, ret, u) /\
      known (asked w) m rs y ret u.
Proof.
  intros Hi Hrs Hs Hb c' b' Hin Ho.
  assert ((c', b') ∈ Rpcs.sent (srv w) \/ (c', b') = (c, b)) as [Hold|[= -> ->]]; [|..|done].
  { destruct Hs as [Hs|Hs]; rewrite Hs in Hin; [by left|].
    apply elem_of_app in Hin as [?|?%list_elem_of_singleton]; auto. }
  destruct (e_sent _ _ Hi c' b' Hold Ho) as (y & ret & u & Hd & Hk). exists y, ret, u.
  split; [done|]. destruct Hrs as [->|[r ->]]; [done|]. by apply (known_more _ m m).
Qed.

(** The verdict on a request of the client. *)
Lemma window_verdict m w x :
  einv m w -> 1 <= x < next_xid w ->
  (x <= m /\ opened (srv w) clt = Rpcs.reply_window_ (srv w) /\ exists l st b sz,
     Rpcs.reply_window_ (srv w) !! clt = Some l /\ Forall (stored (runs w)) l /\ verdict m x l st b sz /\
     checkduplicate_and_update (opened (srv w) clt) clt x (x - 1) =
       Val (Rpcs.reply_window_ (srv w), st, b, sz)) \/
  (x = m + 1 /\ mine w = [] /\ run_xid <$> runs w = upto m /\ exists l,
     shape (m + 1) l (reply_new (m + 1)) /\ Forall (stored (runs w)) l /\
     checkduplicate_and_update (opened (srv w) clt) clt x (x - 1) =
       Val (<[clt := l]> (opened (srv w) clt), NEW, None, 0)) \/
  (m = 0 /\ x = 1 /\ opened (srv w) clt !! clt = Some [] /\
     ((first_refused /\
       checkduplicate_and_update (opened (srv w) clt) clt x (x - 1) =
         Val (opened (srv w) clt, FORGOTTEN, None, 0)) \/
      exists f, checkduplicate_and_update (opened (srv w) clt) clt x (x - 1) = Fault f)).
Proof.
  intros Hi Hx. pose proof (e_m _ _ Hi) as (Hm & Hm1 & Hmine). pose proof (e_window _ _ Hi) as Hw.
  destruct (decide (x <= m)) as [Hle|Hgt].
  - left. split; [done|]. destruct Hw as [(-> & _)|(l & L & Hm0 & Hl & Hs & Hst & _)]; [lia|].
    assert (opened (srv w) clt = Rpcs.reply_window_ (srv w)) as Hop by (unfold opened; by rewrite Hl).
    rewrite Hop. split; [done|].
    destruct (check_known clt m (Rpcs.reply_window_ (srv w)) l L x Hl Hs) as (st & b & sz & Hv & Hc); [lia|].
    by exists l, st, b, sz.
  - right. assert (x = m + 1) as -> by lia. replace (m + 1 - 1) with m by lia.
    assert (mine w = []) as Hnil. { destruct (mine w) eqn:E; [done|]. specialize (Hmine ltac:(done)). lia. }
    destruct Hw as [(-> & Hl & _ & Hr)|(l & L & Hm0 & Hl & Hs & Hst & [(Hp & _ & Hr)|(_ & _ & p & Hp & _)])].
    + change (0 + 1) with 1. assert (opened (srv w) clt !! clt = Some []) as Hop.
      { unfold opened. destruct (Rpcs.reply_window_ (srv w) !! clt) as [l|] eqn:E; simpl in Hl; [by subst|].
        apply lookup_insert_eq. }
      destruct (check_first clt (opened (srv w) clt) Hop) as [Hf|[Hf|Hc]]; [right; auto..|left].
      rewrite Hr. split_and!; [done..|]. exists [reply_new 1].
      split_and!; [split; [done|by left]|by repeat constructor|done].
    + left. split_and!; [done..|]. exists [L; reply_new (m + 1)].
      assert (opened (srv w) clt = Rpcs.reply_window_ (srv w)) as -> by (unfold opened; by rewrite Hl).
      pose proof Hs as [HL Hcase]. split_and!; [| |by apply (check_next clt m _ l)].
      * split; [done|]. right. exists (rt_buf L), (rt_sz L). destruct L; simpl in *. subst. do 3 f_equal. lia.
      * assert (stored (runs w) L) as HsL.
        { apply (proj1 (Forall_forall _ _) Hst). destruct Hcase as [->|(b & sz & ->)]; set_solver. }
        repeat constructor; [done|]. by intros [=].
    + congruence.
Qed.

Lemma einv_enter m w c b s j :
  einv m w -> b ∈ requests w -> owner c = clt ->
  Rpcs.dispatch_enter (srv w) c (Framing.frame b) (Z.of_nat (length b)) = Val (s, j) ->
  exists m', einv m' (with_server w s (enqueue c j ++ jobs w)).
Proof.
  intros Hi Hb Ho Hd. destruct (ci_reqs _ _ _ _ _ (e_client _ _ Hi) b Hb) as (x & Hx & Hreq).
  destruct (request_reads m w x b Hi Hx Hreq) as
    (u & h & proc & Hu & Huw & Hask & Hproc & Hclt & Hsrv & Hxid & Hrep & Hs32).
  destruct (dispatch_enter_spec owner (srv w) c _ _ s j u h proc clt Hd Hu (uwf_ok _ Huw) Hsrv Hproc Hclt)
    as (f & wm & st & b1 & sz1 & Hf & Hc & Hwm & Hconns & En & Ep & Ea & Hj & Hsent);
    [apply (e_clt _ _ Hi)|done|apply (e_conns _ _ Hi)|].
  rewrite Hxid, Hrep in Hc. pose proof (e_m _ _ Hi) as (Hm & Hm1 & Hmine).
  destruct (window_verdict m w x Hi Hx) as
    [(Hle & Hop & l & st' & b' & sz' & Hl & Hst & Hv & Hc')|[(-> & Hnil & Hruns & l & Hsh & Hst & Hc')
      |(-> & -> & Hop & [[Hfr Hc']|[f' Hc']])]]; [..|congruence];
    rewrite Hc in Hc'; injection Hc' as -> -> -> ->.
  - (* known *) exists m. assert (j = Rpcs.Finished) as -> by (destruct st'; done). simpl.
    assert (forall c' b'', (c', b'') ∈ Rpcs.sent s -> owner c' = clt ->
              exists y ret v, Rpcc.pdu_reply (Framing.frame b'') (Z.of_nat (length b'')) = Some (y, ret, v) /\
                known (asked w) m (runs w) y ret v) as Hs.
    { destruct st'; simpl in Hv; [done|rewrite Hsent; apply (e_sent _ _ Hi)|..].
      - destruct Hv as (e & He & Hex & Hp & -> & ->).
        eapply einv_sent_more; [done|by left|exact Hsent|].
        destruct (proj1 (Forall_forall _ _) Hst e He Hp) as (ret & v & Hd' & Hg).
        exists (rt_xid e), ret, v. split; [exact Hd'|by left].
      - destruct Hsent as (rep & Hrp & Hsent). eapply einv_sent_more; [done|by left|exact Hsent|].
        destruct (reply_decodes marshall_new rep (rq_xid h) atmostonce_failure) as (v & Hd' & _);
          [apply marshall_new_wf|done|done|done|done|].
        rewrite Hxid in Hd'. exists x, atmostonce_failure, v. split; [exact Hd'|right; split; [done|left; lia]]. }
    destruct Hi. constructor; try done; unfold next_xid, window_ok, mine, run_ok, my_job in *; simpl;
      rewrite ?En, ?Ep, ?Hwm; done.
  - (* new *) exists (m + 1). subst j. simpl.
    assert (is_mine (Pending c h u f) = true) as Hme by (by apply Z.eqb_eq).
    destruct Hi. constructor; try done; unfold next_xid, mine, run_ok in *; simpl; rewrite ?En, ?Ep, ?Hme; try done.
    + constructor; [|done]. split; [simpl; congruence|]. by eapply e_procs0.
    + right. exists l, (reply_new (m + 1)). unfold mine, my_job. simpl. rewrite Hwm, Hme, Ep, lookup_insert_eq, Hnil.
      split_and!; try done; [lia|]. right. replace (m + 1 - 1) with m by lia. split_and!; [done..|].
      eexists. split; [done|]. exists proc. simpl. by split_and!.
    + split_and!; [lia|lia|lia|]. intros _. lia.
    + intros c' b'. rewrite Hsent. intros Hin Ho'. destruct (e_sent0 c' b' Hin Ho') as (y & ret & v & Hd' & Hk).
      exists y, ret, v. split; [done|]. eapply known_later; [|done|done]. lia.
    + intros y ret v Hin. eapply known_later; [|done|by apply e_pdus0]. lia.
  - (* the first one, refused *) exists 0. subst j. simpl. destruct Hsent as (rep & Hrp & Hsent).
    assert (forall c' b', (c', b') ∈ Rpcs.sent s -> owner c' = clt ->
              exists y ret v, Rpcc.pdu_reply (Framing.frame b') (Z.of_nat (length b')) = Some (y, ret, v) /\
                known (asked w) 0 (runs w) y ret v) as Hs.
    { eapply einv_sent_more; [done|by left|exact Hsent|].
      destruct (reply_decodes marshall_new rep (rq_xid h) atmostonce_failure) as (v & Hd' & _);
        [apply marshall_new_wf|done|done|done|done|].
      rewrite Hxid in Hd'. exists 1, atmostonce_failure, v. split; [exact Hd'|]. right. split; [done|right].
      split_and!; [done|done|by eexists]. }
    destruct Hi. constructor; try done; unfold next_xid, window_ok, mine, run_ok, my_job in *; simpl;
      rewrite ?En, ?Ep, ?Hwm; try done.
    destruct e_window0 as [(_ & _ & Hn & Hr)|(l & L & ? & _)]; [|lia]. left. by rewrite Hop.
Qed.

Lemma fill_stored m l L rs b sz ret v :
  shape m l L -> Forall (stored rs) l ->
  Rpcc.pdu_reply (Framing.frame (take (Z.to_nat sz) (default [] b)))
    (Z.of_nat (length (take (Z.to_nat sz) (default [] b)))) = Some (m, ret, v) -> genuine rs m ret v ->
  Forall (stored rs) (fill_reply m b sz l).
Proof.
  intros [HL Hsh] Hst Hd Hg. assert (stored rs (Reply m true b sz)) as Hnew by (intros _; by exists ret, v).
  destruct Hsh as [->|(b' & sz' & ->)]; simpl.
  - rewrite HL, Z.eqb_refl. by repeat constructor.
  - apply Forall_cons in Hst as [Hs1 _]. destruct (Z.eqb_spec (m - 1) m); [lia|].
    rewrite HL, Z.eqb_refl. by repeat constructor.
Qed.

Lemma filter_mine_middle before (p : pending S) after :
  List.filter is_mine (before ++ p :: after) =
  List.filter is_mine before ++ (if is_mine p then [p] else []) ++ List.filter is_mine after.
Proof. rewrite List.filter_app. simpl. by destruct (is_mine p). Qed.

Lemma einv_exec m w before p after a rep ret s :
  einv m w -> jobs w = before ++ p :: after ->
  p_fn p (Rpcs.app (srv w)) (p_req p) marshall_new = Val (a, rep, ret) ->
  Rpcs.dispatch_new (srv w) (p_conn p) (p_header p) (p_req p) (p_fn p) = Val s ->
  einv m (World (cw w) (asked w) (requests w) s (before ++ after)
            (if rq_clt_nonce (p_header p) =? clt
             then Run (u32 (rq_xid (p_header p))) (rq_proc (p_header p)) (u_rest (p_req p)) ret
                      (drop 24 (m_bytes rep)) :: runs w
             else runs w)).
Proof.
  intros Hi Hjobs Hrun Hd. pose proof (e_jobs _ _ Hi) as Hj. rewrite Hjobs in Hj.
  apply Forall_app in Hj as [Hjb [[Hown Hgood] Hja]%Forall_cons].
  assert (Forall job_ok (before ++ after)) as Hj' by (by apply Forall_app).
  destruct (dispatch_new_spec owner (srv w) (p_conn p) (p_header p) (p_req p) (p_fn p) s a rep ret (owner (p_conn p)))
    as (rep' & c' & Hret & Hrep & En & Ep & Hconns & Hwin & Hc' & Hsent);
    [done|done|done|done|apply (e_conns _ _ Hi)|].
  pose proof (filter_mine_middle before p after) as Hfilter. rewrite <-Hjobs in Hfilter. fold (mine w) in Hfilter.
  fold (is_mine p). destruct (is_mine p) eqn:Hme.
  - (* a call of the client *)
    assert (owner (p_conn p) = clt) as Hoc by (apply Z.eqb_eq in Hme; congruence).
    destruct (e_window _ _ Hi) as [(_ & _ & Hn & _)|(l & L & Hm & Hl & Hsh & Hst & [(_ & Hn & _)|(HL & Hruns & q & Hq & Hjob)])].
    { rewrite Hn in Hfilter. by destruct (List.filter is_mine before). }
    { rewrite Hn in Hfilter. by destruct (List.filter is_mine before). }
    assert (q = p /\ List.filter is_mine (before ++ after) = []) as [-> Hnil].
    { rewrite Hq in Hfilter. rewrite List.filter_app. destruct (List.filter is_mine before) as [|q' l1]; simpl in *.
      - injection Hfilter as -> E. by rewrite <-E.
      - injection Hfilter as _ E. symmetry in E. by apply app_eq_nil in E as [_ [=]]. }
    destruct Hjob as (proc & Hproc & Hxid & Hx32 & Hask & Huw & Hf). destruct (Hgood _ _ _ _ _ Hrun) as (Hmw & Hmi & Hrs).
    set (r := Run _ _ _ _ _).
    assert (exists v, Rpcc.pdu_reply (Framing.frame (m_bytes rep')) (Z.of_nat (length (m_bytes rep')))
              = Some (m, ret, v) /\ genuine (r :: runs w) m ret v) as (v & Hdec & Hgen).
    { destruct (reply_decodes rep rep' (rq_xid (p_header p)) ret) as (v & Hv & Hvw & Hvr); [done..|].
      rewrite Hxid in Hv. exists v. split; [exact Hv|]. exists r. split_and!; [by left|exact Hxid|done..]. }
    assert (Forall (stored (r :: runs w)) l) as Hst'.
    { eapply Forall_impl; [exact Hst|]. intros e He. by apply stored_more. }
    assert ((clt >? 0) = true) as Hpos.
    { apply Z.gtb_lt. pose proof (e_clt _ _ Hi). unfold is_u32 in *. lia. }
    rewrite Hoc, Hpos, Hxid in Hwin. unfold add_reply in Hwin. rewrite Hl in Hwin. simpl in Hwin.
    pose proof (einv_sent_more m w s c' (m_bytes rep') (r :: runs w) Hi) as Hsent'.
    destruct Hi. constructor; try done; unfold next_xid, mine, run_ok in *; simpl; rewrite ?En, ?Ep, ?Hnil; try done.
    + right. exists (fill_reply m (m_buf rep') (m_ind rep') l), (Reply m true (m_buf rep') (m_ind rep')).
      unfold mine. simpl. rewrite Hwin, lookup_insert_eq, Hnil.
      split_and!; [done|done|by eapply fill_last| |].
      * by eapply fill_stored.
      * left. split_and!; [done..|]. change (u32 (rq_xid (p_header p)) :: (run_xid <$> runs w) = upto m).
        rewrite Hxid, Hruns. rewrite <-(Z.sub_add 1 m) at 3. rewrite upto_succ by lia. f_equal. lia.
    + split_and!; [lia|lia|lia|done].
    + constructor; [|done]. simpl. rewrite Hxid, Hproc. split_and!; [done|done|].
      by exists (p_fn p), (Rpcs.app (srv w)), a, (p_req p), rep.
    + apply Hsent'; [right; by eexists|done|]. exists m, ret, v. split; [done|by left].
    + intros y ret' u Hin. apply (known_more _ m m); [lia|]. by apply e_pdus0.
    + intros y ret' u Hin. destruct (e_results0 y ret' u Hin) as [?|[?|[?|?]]]; unfold result_ok; auto.
      right; right; right. by apply genuine_more.
  - (* another client's *)
    assert (owner (p_conn p) <> clt) as Hoc by (apply Z.eqb_neq in Hme; congruence).
    apply einv_foreign; try done.
    + rewrite Hwin. destruct (_ >? 0); [|done]. unfold add_reply. by rewrite lookup_insert_ne.
    + eapply sent_more_owner; [exact Hsent|congruence].
    + rewrite List.filter_app. rewrite Hfilter. done.
Qed.

Lemma einv_step m w w' : einv m w -> step owner clt w w' -> exists m', einv m' w'.
Proof.
  intros Hi Hs. pose proof (e_client _ _ Hi) as Hc. pose proof (ci_inv _ _ _ _ _ Hc) as Hinv.
  destruct Hs as [w proc req rep to now r f Hmay Hm Hmi Hmax Hb|w x f dead fresh now r f' ops Hf Hp Ht
    |w x f next ca Hf _ _ _|w x f next ca dead f' Hf _ _ _ Ht|w x f r ret u ops Hf _ He|w|w b|w n Hn
    |w c b r ok Hin Ho Hg|w c b s j Hb Ho Hd|w c b n s j Ho Hh Hd|w before p after a rep ret s Hj Hrun Hd|w o];
    try (by eapply einv_enter); exists m.
  - by eapply einv_begin.
  - apply (einv_client m w); [done|by eapply cinv_top| |done|apply (e_results _ _ Hi)].
    apply Rpcc.call1_top_spec in Ht as ((E & _) & _). done.
  - apply (einv_client m w); [done|by eapply cinv_woken|done|done|apply (e_results _ _ Hi)].
  - apply (einv_client m w); [done|by eapply cinv_timeout|done|done|apply (e_results _ _ Hi)].
  - by eapply einv_end.
  - apply (einv_client m w); [done| | |done|apply (e_results _ _ Hi)].
    + apply cinv_other; [done|by apply Rpcc.inv_cancel|..]; unfold Rpcc.cancel; case_bool_decide; auto.
    + unfold Rpcc.cancel, client_of. simpl. by case_bool_decide.
  - apply (einv_client m w); [done| |done|done|apply (e_results _ _ Hi)].
    apply cinv_other; auto. by apply Rpcc.inv_core.
  - apply (einv_client m w); [done| |done|done|apply (e_results _ _ Hi)].
    apply cinv_other; auto. by apply Rpcc.inv_core.
  - by eapply einv_pdu.
  - destruct (dispatch_enter_foreign owner clt (srv w) c b n s j Hd Ho Hh (e_conns _ _ Hi) (e_procs _ _ Hi))
      as (H1 & H2 & H3 & H4 & H5 & H6).
    apply einv_foreign; try done.
    + apply Forall_app. split; [exact H6|apply (e_jobs _ _ Hi)].
    + rewrite List.filter_app. unfold mine. destruct j as [|h req f]; [done|]. simpl.
      apply Forall_cons in H6 as [[H6 _] _]. simpl in H6. unfold is_mine. simpl.
      rewrite H6. by destruct (Z.eqb_spec (owner c) clt).
  - by eapply einv_exec.
  - apply einv_foreign; try done; [apply (e_conns _ _ Hi)| |apply (e_jobs _ _ Hi)].
    exists []. by rewrite app_nil_r.
Qed.

Lemma system_starts_inv w : is_u32 clt -> clt <> 0 -> starts clt w -> einv 0 w.
Proof.
  intros Hc Hnz ((rnd & loss & retrans & Hcw & Hclt) & Ha & Hr & Hj & Hru & Hn & Hse & Hco & Hwi & Hpr).
  assert (Rpcc.inv (cw w)) as Hinv.
  { rewrite Hcw. apply (Rpcc.client_reachable_inv rnd loss retrans). apply rtc_refl. }
  constructor; try done; unfold next_xid, window_ok, mine; rewrite ?Hcw, ?Ha, ?Hr, ?Hj, ?Hru, ?Hse; simpl; try done.
  - constructor; rewrite ?Hcw in *; try done; simpl.
    + by left.
    + intros y Hy _. left. lia.
    + intros y Hy. lia.
    + intros x [e He]. by rewrite lookup_empty in He.
    + by intros b ?%not_elem_of_nil.
  - intros k c. by rewrite Hco, lookup_empty.
  - left. by rewrite Hwi.
  - by intros c b ?%not_elem_of_nil.
  - by intros y ret u ?%not_elem_of_nil.
  - by intros y ret u ?%not_elem_of_nil.
Qed.

Lemma reachable_einv w0 w :
  is_u32 clt -> clt <> 0 -> starts clt w0 -> rtc (step owner clt) w0 w -> exists m, einv m w.
Proof.
  intros Hc Hnz Hst Hr. apply (system_starts_inv _ Hc Hnz) in Hst. revert Hst. generalize 0.
  induction Hr as [w|w1 w2 w3 Hs Hr IH]; intros m Hi; [by exists m|].
  destruct (einv_step m w1 w2 Hi Hs) as [m' Hi']. by eapply IH.
Qed.

(** C4: remote procedure calls run at most once, end to end. For a client with
    one call at a time that goes on after successful calls, over a network that
    loses, delays, repeats and reorders framed requests and replies, with
    retransmissions, connections that die, and other clients at the server: the
    handlers of its calls run in the order of the calls and never twice; each
    run is of the procedure called and gets exactly the bytes of the call's
    arguments; and a call returns [timeout_failure], [cancel_failure], or the
    status and reply of the one run of its own handler. The first request of a
    client makes the server take [front()] of an empty list; nothing is assumed of
    what that yields, and where it yields a number beyond that of the request the
    first call, and only that one, may also return [atmostonce_failure]. *)
Theorem rpc_at_most_once (w0 w : world S) :
  is_u32 clt -> clt <> 0 -> starts clt w0 -> rtc (step owner clt) w0 w ->
  (exists k, k < next_xid w /\ run_xid <$> runs w = upto k) /\
  NoDup (run_xid <$> runs w) /\ Forall (run_ok w) (runs w) /\
  forall x ret u, (x, ret, u) ∈ Rpcc.results (cw w) ->
    ret = timeout_failure \/ ret = cancel_failure \/
    ret = atmostonce_failure /\ x = 1 /\ first_refused \/ genuine (runs w) x ret u.
Proof.
  intros Hc Hnz Hst Hr. destruct (reachable_einv w0 w Hc Hnz Hst Hr) as [m Hi].
  assert (exists k, k < next_xid w /\ run_xid <$> runs w = upto k) as (k & Hk & Hu).
  { pose proof (e_m _ _ Hi) as (Hm & _).
    destruct (e_window _ _ Hi) as [(-> & _ & _ & ->)|(l & L & Hm0 & _ & _ & _ & [(_ & _ & E)|(_ & E & _)])].
    - exists 0. split; [lia|done].
    - exists m. split; [lia|done].
    - exists (m - 1). split; [lia|done]. }
  split_and!; [by exists k|rewrite Hu; apply upto_NoDup|apply (e_runs _ _ Hi)|apply (e_results _ _ Hi)].
Qed.

End system.

(** ** Calls of methods *)

Lemma once_filter x (rs : list run) :
  NoDup (run_xid <$> rs) -> x ∈ run_xid <$> rs -> length (List.filter (fun n => run_xid n =? x) rs) = 1%nat.
Proof.
  induction rs as [|n rs IH]; simpl; [by intros _ ?%not_elem_of_nil|].
  intros [Hn Hnd]%NoDup_cons [->|Hx]%elem_of_cons.
  - rewrite Z.eqb_refl. simpl. f_equal. clear IH Hnd. induction rs as [|n' rs IH]; [done|]. simpl in *.
    destruct (Z.eqb_spec (run_xid n') (run_xid n)) as [E|_]; [rewrite <-E in Hn; destruct Hn; by left|].
    apply IH. intros Hin. apply Hn. by right.
  - destruct (Z.eqb_spec (run_xid n) x) as [E|_]; [by rewrite E in Hn|]. by apply IH.
Qed.

Section typed.
Context `{Heap} `{EndNode} {S : Type} (owner : Z -> Z) (clt : Z).
Context {T R : Type} `{!Args T, !ArgsLaws T, !Wire R, !WireLaws R} (meth : method S T R).

(** The replies of the method fit into a message. *)
Hypothesis replies_fit : forall s a s' r b, meth s a dflt = Val (s', r, b) ->
  wire_ok r /\ Z.of_nat (length (encode r)) <= MAX_MARSHALL - RPC_HEADER_SZ /\ is_s32 b.

Lemma put_reply r : wire_ok r -> Z.of_nat (length (encode r)) <= MAX_MARSHALL - RPC_HEADER_SZ ->
  exists rep, put marshall_new r = Val rep /\ appended marshall_new (encode r) rep.
Proof.
  intros Hr Hl. apply put_encode; [apply marshall_new_wf|done|].
  change (m_ind marshall_new) with RPC_HEADER_SZ. lia.
Qed.

Lemma rpcs_fn_good : good_handler (rpcs_fn meth).
Proof.
  intros s u s' rep ret Hf. unfold rpcs_fn in Hf. apply obind_val in Hf as ([u' a] & _ & Hf).
  destruct (okdone u'); cbn [negb] in Hf.
  - apply obind_val in Hf as ([[s1 r] b] & Hm & Hf). apply obind_val in Hf as (rep1 & Hp & [= <- <- <-]).
    destruct (replies_fit _ _ _ _ _ Hm) as (Hr & Hl & Hb). destruct (put_reply r Hr Hl) as (rep' & Hp' & Happ).
    rewrite Hp in Hp'. injection Hp' as <-. destruct (appended_new_drop _ _ Happ) as [Hi _].
    split_and!; [apply Happ|done|done].
  - injection Hf as <- <- <-. split_and!; [apply marshall_new_wf|done|done].
Qed.

(** C6: a call of [rpcc::call] that succeeds is one execution of the method. In
    the system above, if the procedure is registered with [rpcs::reg] for
    [meth] and the call was made with the arguments [a], and [call1] returned
    the non-negative status [ret] with the reply [u], then the method was run on
    [a], once for this call, and returned [ret] and the very value that [call_m]
    reads from [u], with nothing left over. *)
Theorem rpc_call_runs_method_once (w0 w : world S) (x proc ret : Z) (a : T) (u : unmarshall) (r0 : R) :
  is_u32 clt -> clt <> 0 -> starts clt w0 -> rtc (step owner clt) w0 w ->
  Rpcs.procs_ (srv w) !! proc = Some (rpcs_fn meth) ->
  asked w !! x = Some (proc, encode_args a) -> args_ok a ->
  (x, ret, u) ∈ Rpcc.results (cw w) -> 0 <= ret ->
  exists s s' r,
    meth s a dflt = Val (s', r, ret) /\
    length (List.filter (fun n => run_xid n =? x) (runs w)) = 1%nat /\
    exists u', get u r0 = Val (u', r) /\ okdone u' = true.
Proof.
  intros Hc Hnz Hst Hr Hproc Hask Ha Hres Hret.
  destruct (reachable_einv owner clt w0 w Hc Hnz Hst Hr) as [m Hi].
  destruct (e_results _ _ _ _ Hi x ret u Hres) as [->|[->|[[-> _]|(n & Hn & Hx & Hnr & Huw & Hur)]]];
    [unfold timeout_failure in *; lia|unfold cancel_failure in *; lia|unfold atmostonce_failure in *; lia|].
  destruct (proj1 (Forall_forall _ _) (e_runs _ _ _ _ Hi) n Hn) as
    (Hask' & _ & f & s & s' & u0 & rep & Hf & Hu0 & Hr0 & Hrun & Hrep).
  rewrite Hx, Hask in Hask'. injection Hask' as Hp Hargs.
  assert (f = rpcs_fn meth) as -> by congruence.
  rewrite Hnr in Hrun. unfold rpcs_fn in Hrun.
  destruct (get_args_encode u0 a []) as (u1 & Hget & Hc1); [done|done|by rewrite app_nil_r, Hr0, Hargs|].
  rewrite Hget in Hrun. cbn [obind] in Hrun.
  rewrite (okdone_consumed u0 u1 _ Hc1) in Hrun by congruence. cbn [negb] in Hrun.
  apply obind_val in Hrun as ([[s1 r] b] & Hm & Hrun). apply obind_val in Hrun as (rep1 & Hput & [= <- <- <-]).
  destruct (replies_fit _ _ _ _ _ Hm) as (Hrok & Hl & Hb).
  destruct (put_reply r Hrok Hl) as (rep' & Hp' & Happ). rewrite Hput in Hp'. injection Hp' as <-.
  destruct (appended_new_drop _ _ Happ) as [_ Hd]. change (Z.to_nat RPC_HEADER_SZ) with 24%nat in Hd.
  exists s, s1, r. split; [done|]. split.
  - apply once_filter; [|by rewrite <-Hx; apply list_elem_of_fmap_2].
    destruct (e_window _ _ _ _ Hi) as [(_ & _ & _ & ->)|(l & L & _ & _ & _ & _ & [(_ & _ & ->)|(_ & -> & _)])];
      [constructor|apply upto_NoDup..].
  - destruct (get_encode u r r0 []) as (u' & Hg & Hc'); [done|done|by rewrite app_nil_r, Hur, Hrep, Hd|].
    exists u'. split; [done|]. eapply okdone_consumed; [exact Hc'|]. by rewrite Hur, Hrep, Hd.
Qed.

End typed.

(** ** A run

    A client of a server that keeps a running total binds and makes a call; the
    request arrives three times: before the handler runs, while its thread is
    busy, and after the reply has been sent. *)

#[local] Instance no_junk : Heap := fun _ => 0.
#[local] Instance gnu_end : EndNode := libstdcxx_end.

Definition demo_total : method Z (sint * unit) sint :=
  fun total '(k, _) _ => Val (total + k, u8 (total + k), 0).
Definition demo_args : sint * unit := (5, tt).
Definition demo_req : marshall := val_or marshall_new (put_args marshall_new demo_args).
Definition demo_owner (c : Z) : Z := 9.

Definition demo_start : world Z :=
  World (Rpcc.start 9 None true) ∅ []
        (Rpcs.MkRpcs 77 0 0 ∅ true {[ 7 := rpcs_fn demo_total ]} ∅ ∅ 40
           {[ 4 := Rpcs.Connection 5 false (0, 0) ]} [])
        [] [].

Inductive action := Bind | Begin | Top | Enter | Exec | Reply | Wake | End.

Definition act (w : world Z) (a : action) : option (world Z) :=
  let c := cw w in
  match a with
  | Bind => Some (with_client w (client_of c (Rpcc.bind_result (Rpcc.cl c) 0 77)))
  | Begin =>
      if bool_decide (size (Rpcc.frames c) = 0%nat) && forallb (fun p => 0 <=? p.1.2) (Rpcc.results c) &&
         (Rpcc.xid_ (Rpcc.cl c) <? 1000) then
        match Rpcc.call1_begin (Rpcc.cl c) 7 demo_req unmarshall_new 1000 (Timespec.Timespec 100 0) with
        | Val (inr (r, f)) =>
            Some (World (Rpcc.World r (<[Rpcc.f_xid f := f]> (Rpcc.frames c)) (Rpcc.refs c) (Rpcc.pdus c)
                           (Rpcc.results c))
                    (<[Rpcc.f_xid f := (s32 7, drop 24 (m_bytes demo_req))]> (asked w))
                    (requests w) (srv w) (jobs w) (runs w))
        | _ => None
        end
      else None
  | Top =>
      match Rpcc.frames c !! 1 with
      | Some f =>
          match Rpcc.f_phase f, Rpcc.call1_top (Rpcc.cl c) f false (Some 4) (Timespec.Timespec 100 5) with
          | Rpcc.AtTop, Val (r, f', ops) =>
              Some (World (Rpcc.World r (<[1 := f']> (Rpcc.frames c)) (Rpcc.apply_ops (Rpcc.refs c) ops)
                             (Rpcc.pdus c) (Rpcc.results c))
                      (asked w) (sends ops ++ requests w) (srv w) (jobs w) (runs w))
          | _, _ => None
          end
      | None => None
      end
  | Enter =>
      match requests w with
      | b :: _ =>
          match Rpcs.dispatch_enter (srv w) 4 (Framing.frame b) (Z.of_nat (length b)) with
          | Val (s, j) => Some (with_server w s (enqueue 4 j ++ jobs w))
          | Fault _ => None
          end
      | [] => None
      end
  | Exec =>
      match jobs w with
      | p :: js =>
          match p_fn p (Rpcs.app (srv w)) (p_req p) marshall_new,
                Rpcs.dispatch_new (srv w) (p_conn p) (p_header p) (p_req p) (p_fn p) with
          | Val (a, rep, ret), Val s =>
              Some (World (cw w) (asked w) (requests w) s js
                      (if rq_clt_nonce (p_header p) =? 9
                       then Run (u32 (rq_xid (p_header p))) (rq_proc (p_header p)) (u_rest (p_req p)) ret
                                (drop 24 (m_bytes rep)) :: runs w
                       else runs w))
          | _, _ => None
          end
      | [] => None
      end
  | Reply =>
      match Rpcs.sent (srv w) with
      | (k, b) :: _ =>
          match Rpcc.client_got_pdu (Rpcc.cl c) (Framing.frame b) (Z.of_nat (length b)) with
          | Val (r, _) =>
              Some (with_client w
                (Rpcc.World r (Rpcc.frames c) (Rpcc.refs c)
                   (option_list (Rpcc.pdu_reply (Framing.frame b) (Z.of_nat (length b))) ++ Rpcc.pdus c)
                   (Rpcc.results c)))
          | Fault _ => None
          end
      | [] => None
      end
  | Wake =>
      match Rpcc.frames c !! 1, Rpcc.calls_ (Rpcc.cl c) !! s32 1 with
      | Some f, Some ca =>
          match Rpcc.f_phase f, Rpcc.ca_done ca with
          | Rpcc.Waiting _, true =>
              Some (with_client w
                (Rpcc.World (Rpcc.cl c) (<[1 := Rpcc.set_phase f (Rpcc.f_final f) Rpcc.Leaving]> (Rpcc.frames c))
                   (Rpcc.refs c) (Rpcc.pdus c) (Rpcc.results c)))
          | _, _ => None
          end
      | _, _ => None
      end
  | End =>
      match Rpcc.frames c !! 1 with
      | Some f =>
          match Rpcc.f_phase f, Rpcc.call1_end (Rpcc.cl c) f with
          | Rpcc.Leaving, Val (r, ret, u, ops) =>
              Some (with_client w
                (Rpcc.World r (delete 1 (Rpcc.frames c)) (Rpcc.apply_ops (Rpcc.refs c) ops) (Rpcc.pdus c)
                   ((1, ret, u) :: Rpcc.results c)))
          | _, _ => None
          end
      | None => None
      end
  end.

Lemma demo_req_ok : m_wf demo_req /\ RPC_HEADER_SZ <= m_ind demo_req /\ drop 24 (m_bytes demo_req) = encode_args demo_args.
Proof.
  destruct (put_args_encode marshall_new demo_args) as (m & Hp & Happ).
  - apply marshall_new_wf.
  - split; [|done]. unfold wire_ok. simpl. unfold is_s32. lia.
  - vm_compute. discriminate.
  - unfold demo_req. rewrite Hp. simpl. destruct (appended_new_drop _ _ Happ) as [Hi Hd].
    split_and!; [apply Happ|done|exact Hd].
Qed.

Lemma rpc_act_step w a w' : act w a = Some w' -> Rpcs.nonce_ (srv w) = 77 -> step demo_owner 9 w w'.
Proof.
  destruct demo_req_ok as (Hm & Hi & _). intros Ha Hn. destruct a; unfold act in Ha.
  - injection Ha as <-. by apply st_bound.
  - destruct (_ && _) eqn:E; [|done]. apply andb_prop in E as [[E1%bool_decide_eq_true E2]%andb_prop E3%Z.ltb_lt].
    repeat case_match; simplify_eq. eapply st_begin; try done; [|lia]. split; [by apply map_size_empty_iff|].
    apply Forall_forall. intros p Hp. rewrite forallb_forall in E2. apply Z.leb_le, E2. by apply list_elem_of_In.
  - repeat case_match; simplify_eq. by eapply st_top.
  - repeat case_match; simplify_eq. eapply st_enter; [|done|done]. rewrite H. by left.
  - destruct (jobs w) as [|p js] eqn:Hj; [done|].
    destruct (p_fn p _ _ _) as [[[a rep] ret]|] eqn:Hf; [|done].
    destruct (Rpcs.dispatch_new _ _ _ _ _) as [s|] eqn:Hd; [|done]. injection Ha as <-.
    by apply (st_exec demo_owner 9 w [] p js a rep ret).
  - repeat case_match; simplify_eq. eapply (st_pdu demo_owner 9 w z); [rewrite H; by left|done|done].
  - repeat case_match; simplify_eq. by eapply st_woken.
  - repeat case_match; simplify_eq. by eapply st_end.
Qed.

Fixpoint schedule (w : world Z) (l : list action) : option (world Z) :=
  match l with
  | [] => Some w
  | a :: l => match act w a with
              | Some w' => if Rpcs.nonce_ (srv w) =? 77 then schedule w' l else None
              | None => None
              end
  end.

Lemma schedule_steps l : forall w w', schedule w l = Some w' -> rtc (step demo_owner 9) w w'.
Proof.
  induction l as [|a l IH]; intros w w'; simpl; [by intros [= <-]|].
  destruct (act w a) as [w1|] eqn:E; [|done]. destruct (Z.eqb_spec (Rpcs.nonce_ (srv w)) 77); [|done].
  intros Hs. eapply rtc_l; [by eapply rpc_act_step|by apply IH].
Qed.

Definition demo_end : world Z :=
  default demo_start (schedule demo_start [Bind; Begin; Top; Enter; Enter; Exec; Enter; Reply; Wake; End]).

Lemma demo_runs_end : rtc (step demo_owner 9) demo_start demo_end.
Proof.
  unfold demo_end. destruct (schedule _ _) as [w|] eqn:E; [by eapply schedule_steps|apply rtc_refl].
Qed.

Lemma demo_total_fits s a s' r b : demo_total s a dflt = Val (s', r, b) ->
  wire_ok r /\ Z.of_nat (length (encode r)) <= MAX_MARSHALL - RPC_HEADER_SZ /\ is_s32 b.
Proof.
  destruct a as [k []]. intros [= <- <- <-]. split_and!.
  - unfold wire_ok. simpl. pose proof (u8_range (s + k)). unfold is_u8, is_s32 in *. lia.
  - vm_compute. discriminate.
  - done.
Qed.

Lemma rpc_demo_starts : starts 9 demo_start.
Proof.
  split; [by exists 9, None, true|]. split_and!; try done.
  intros p f Hf. change (({[ 7 := rpcs_fn demo_total ]} : gmap Z (handler_fn Z)) !! p = Some f) in Hf.
  apply lookup_singleton_Some in Hf as [_ <-]. apply rpcs_fn_good, demo_total_fits.
Qed.

Lemma rpc_at_most_once_witness :
  (run_xid <$> runs demo_end = [1] /\ (fun p => p.1) <$> Rpcc.results (cw demo_end) = [(1, 0)]) /\
  (exists k, k < next_xid demo_end /\ run_xid <$> runs demo_end = upto k) /\
  NoDup (run_xid <$> runs demo_end) /\ Forall (run_ok demo_end) (runs demo_end) /\
  forall x ret u, (x, ret, u) ∈ Rpcc.results (cw demo_end) ->
    ret = timeout_failure \/ ret = cancel_failure \/
    ret = atmostonce_failure /\ x = 1 /\ first_refused \/ genuine (runs demo_end) x ret u.
Proof.
  split; [vm_compute; split; reflexivity|].
  apply (rpc_at_most_once demo_owner 9 demo_start);
    [unfold is_u32; lia|lia|exact rpc_demo_starts|exact demo_runs_end].
Defined.

Lemma rpc_call_runs_method_once_witness :
  exists u, (1, 0, u) ∈ Rpcc.results (cw demo_end) /\
  exists s s' r,
    demo_total s demo_args dflt = Val (s', r, 0) /\
    length (List.filter (fun n => run_xid n =? 1) (runs demo_end)) = 1%nat /\
    exists u', get u (0 : sint) = Val (u', r) /\ okdone u' = true.
Proof.
  assert (exists u, (1, 0, u) ∈ Rpcc.results (cw demo_end)) as [u Hu].
  { assert ((1, 0) ∈ (fun p => p.1) <$> Rpcc.results (cw demo_end)) as Hin by (vm_compute; left).
    apply list_elem_of_fmap in Hin as ([[x ret] u] & [= <- <-] & Hin). by exists u. }
  exists u. split; [exact Hu|].
  apply (rpc_call_runs_method_once demo_owner 9 demo_total demo_total_fits demo_start demo_end
           1 7 0 demo_args u (0 : sint));
    [unfold is_u32; lia|lia|exact rpc_demo_starts|exact demo_runs_end|reflexivity|vm_compute; reflexivity| |exact Hu|lia].
  split; [|done]. unfold wire_ok. simpl. unfold is_s32. lia.
Defined.

End AtMostOnce.
