(* ===== verification/Malformed.v ===== *)
(** * Reading bytes that nobody vouches for

    What [unmarshall] does with an arbitrary buffer: every [operator>>] stays
    inside the buffer, yields a value of its type and raises the error flag when
    the buffer is too short. The one exception is a string whose announced length
    makes the bounds check of [unmarshall::rawbytes] wrap around. *)

From S2P Require Import Prelude.
From S2P Require Import Marshall.
From S2P Require Import MarshallMap.
From S2P Require Import Protocol.
From S2P Require Import Stubs.

Local Open Scope Z_scope.

(** [_sz] bytes are there, and the head is an [int] that is not negative. It may
    be past the last byte: that is what the bounds checks are for. *)
Record u_safe (u : unmarshall) : Prop := {
  us_sz : 0 <= u_sz u <= INT_MAX;
  us_buf : match u_buf u with
           | Some b => u_sz u <= Z.of_nat (length b) <= INT_MAX
           | None => u_sz u = 0
           end;
  us_ind : 0 <= u_ind u <= INT_MAX;
}.

(** [u'] is [u] after some reads. *)
Record reads (u u' : unmarshall) : Prop := {
  rd_safe : u_safe u';
  rd_buf : u_buf u' = u_buf u;
  rd_sz : u_sz u' = u_sz u;
  rd_ind : u_ind u <= u_ind u';
  rd_ok : u_ok u' = true -> u_ok u = true;
}.

(** Somewhere in the buffer there is a length that runs past [2^32] from the
    byte behind it. *)
Definition wraps (u : unmarshall) : Prop :=
  exists v v' n, u_buf v = u_buf u /\ u_sz v = u_sz u /\ u_safe v /\
    get_uint v 0 = Val (v', n) /\ u_ok v' = true /\ 2 ^ 32 <= u_ind v' + n.

(** [S] says whether there are strings among what is read. *)
Definition safely {A} (S : Prop) (P : A -> Prop) (u : unmarshall) (o : outcome (unmarshall * A)) : Prop :=
  match o with
  | Val (u', a) => reads u u' /\ P a
  | Fault f => f = Undefined /\ S /\ wraps u
  end.

Lemma reads_refl u : u_safe u -> reads u u.
Proof. by split. Qed.

Lemma reads_trans u1 u2 u3 : reads u1 u2 -> reads u2 u3 -> reads u1 u3.
Proof. intros [? ? ? ? ?] [? ? ? ? ?]. split; [done|congruence|congruence|lia|auto]. Qed.

Lemma safely_val {A} S (P : A -> Prop) u u' a : reads u u' -> P a -> safely S P u (Val (u', a)).
Proof. by split. Qed.

Lemma safely_after {A} S (P : A -> Prop) u u' o : reads u u' -> safely S P u' o -> safely S P u o.
Proof.
  intros Hr. destruct o as [[u'' a]|f]; simpl.
  - intros [? ?]. split; [by eapply reads_trans|done].
  - intros (-> & HS & v & v' & n & E1 & E2 & Hv). split_and!; [done..|]. exists v, v', n.
    destruct Hr as [_ R1 R2 _ _]. split_and!; [congruence|congruence|apply Hv..].
Qed.

Lemma safely_bind {A B} (S S' : Prop) (P : A -> Prop) (Q : B -> Prop) u m
    (k : unmarshall -> A -> outcome (unmarshall * B)) :
  safely S P u m -> (S -> S') -> (forall u' a, reads u u' -> P a -> safely S' Q u' (k u' a)) ->
  safely S' Q u (let! '(u, a) := m in k u a).
Proof.
  destruct m as [[u' a]|f]; simpl; [|tauto]. intros [Hr Ha] _ Hk. eapply safely_after; [done|by apply Hk].
Qed.

Lemma safely_or {A} (S S' : Prop) (P : A -> Prop) u o : (S -> S') -> safely S P u o -> safely S' P u o.
Proof. destruct o as [[u' a]|f]; simpl; tauto. Qed.

(** A read that fails leaves the head and clears the flag. *)
Lemma reads_fail u : u_safe u -> reads u (Unmarshall (u_buf u) (u_sz u) (u_ind u) false).
Proof. intros [? ? ?]. by split; simpl. Qed.

(** ** The scalar types *)

Lemma rawbyte_val u : u_safe u -> exists u' b, u_rawbyte u = Val (u', b) /\ reads u u' /\ is_u32 b.
Proof.
  intros Hu. pose proof Hu as [Hs Hb Hi]. unfold u_rawbyte. destruct (Z.geb_spec (u_ind u) (u_sz u)) as [Hge|Hlt].
  - do 2 eexists. split_and!; [done|by apply reads_fail|unfold is_u32; lia].
  - rewrite bool_decide_eq_false_2 by lia. destruct (u_buf u) as [b|] eqn:E; [|lia]. simpl.
    destruct (lookup_lt_is_Some_2 b (Z.to_nat (u_ind u))) as [c Hc]; [lia|]. rewrite Hc.
    do 2 eexists. split_and!; [done| |apply u32_range]. split; simpl; try done; [|lia].
    split; simpl; [done|done|unfold INT_MAX in *; lia].
Qed.

Lemma rawbyte_safe u : u_safe u -> safely False is_u32 u (u_rawbyte u).
Proof. intros (u' & b & -> & Hr & Hb)%rawbyte_val. by split. Qed.

Lemma byte_shift_range b k n : 0 <= k -> k + 8 <= n -> 0 <= Z.shiftl (Z.land b 255) k < 2 ^ n.
Proof.
  intros Hk Hn. pose proof (land_255_u8 b) as Hb. unfold is_u8 in Hb. rewrite Z.shiftl_mul_pow2 by lia.
  assert (2 ^ 8 * 2 ^ k <= 2 ^ n) by (rewrite <-Z.pow_add_r by lia; apply Z.pow_le_mono_r; lia).
  assert (0 < 2 ^ k) by (apply Z.pow_pos_nonneg; lia). nia.
Qed.

Lemma byte_range b n : 8 <= n -> 0 <= Z.land b 255 < 2 ^ n.
Proof. intros Hn. rewrite <-(Z.shiftl_0_r (Z.land b 255)). apply byte_shift_range; lia. Qed.

Lemma join4_range b3 b2 b1 b0 : is_u32 (join4 b3 b2 b1 b0).
Proof.
  unfold is_u32, join4.
  repeat (apply lor_range; [lia| |]); (apply byte_shift_range; lia) || (apply byte_range; lia).
Qed.
#[local] Hint Resolve join4_range s32_range u8_range : yfs.

(** Reads the next byte, and returns what has been read. *)
Ltac next_byte :=
  eapply safely_bind; [apply rawbyte_safe; solve [done | by eapply rd_safe]|done|intros ? ? ? ?].
Ltac return_value := apply safely_val; [by eapply reads_refl, rd_safe|].

Lemma get_uint_safe u old : u_safe u -> safely False is_u32 u (get_uint u old).
Proof. intros Hu. unfold get_uint. do 4 next_byte. return_value. auto with yfs. Qed.

Lemma get_int_safe u old : u_safe u -> safely False is_s32 u (get_int u old).
Proof. intros Hu. unfold get_int. do 4 next_byte. return_value. auto with yfs. Qed.

(** ** The contract *)

Class WireSafe `{Heap} (A : Type) `{!Wire A} := {
  typed : A -> Prop;
  strings : Prop;
  dflt_typed : typed dflt;
  get_safe u old : u_safe u -> typed old -> safely strings typed u (get u old);
}.

Section scalars.
Context `{Heap}.

#[global] Program Instance bool_safe : WireSafe bool := {| typed _ := True; strings := False |}.
Next Obligation. done. Qed.
Next Obligation. intros u old Hu _. simpl. unfold get_bool. next_byte. by return_value. Qed.

#[global] Program Instance uchar_safe : WireSafe uchar := {| typed := is_u8; strings := False |}.
Next Obligation. unfold is_u8. simpl. lia. Qed.
Next Obligation. intros u old Hu _. simpl. unfold get_uchar. next_byte. return_value. apply u8_range. Qed.

#[global] Program Instance char_safe : WireSafe schar := {| typed c := - 2 ^ 7 <= c < 2 ^ 7; strings := False |}.
Next Obligation. simpl. lia. Qed.
Next Obligation.
  intros u old Hu _. simpl. unfold get_char. next_byte. return_value.
  unfold s8. pose proof (Z.mod_pos_bound (a + 2 ^ 7) (2 ^ 8)). lia.
Qed.

#[global] Program Instance ushort_safe : WireSafe ushort := {| typed x := 0 <= x < 2 ^ 16; strings := False |}.
Next Obligation. simpl. lia. Qed.
Next Obligation.
  intros u old Hu _. simpl. unfold get_ushort. do 2 next_byte. return_value. apply Z.mod_pos_bound. lia.
Qed.

#[global] Program Instance short_safe : WireSafe sshort := {| typed x := - 2 ^ 15 <= x < 2 ^ 15; strings := False |}.
Next Obligation. simpl. lia. Qed.
Next Obligation.
  intros u old Hu _. simpl. unfold get_short. do 2 next_byte. return_value. unfold s16.
  match goal with |- context [?x mod _] => pose proof (Z.mod_pos_bound x (2 ^ 16)) end. lia.
Qed.

#[global] Program Instance uint_safe : WireSafe uint := {| typed := is_u32; strings := False |}.
Next Obligation. unfold is_u32. simpl. lia. Qed.
Next Obligation. intros u old Hu _. by apply get_uint_safe. Qed.

#[global] Program Instance int_safe : WireSafe sint := {| typed := is_s32; strings := False |}.
Next Obligation. unfold is_s32. simpl. lia. Qed.
Next Obligation. intros u old Hu _. by apply get_int_safe. Qed.

#[global] Program Instance ulonglong_safe : WireSafe ulonglong := {| typed x := 0 <= x < 2 ^ 64; strings := False |}.
Next Obligation. simpl. lia. Qed.
Next Obligation.
  intros u old Hu _. simpl. unfold get_ulonglong.
  eapply safely_bind; [by apply get_uint_safe|done|]. intros u1 h Hr1 Hh.
  eapply safely_bind; [apply get_uint_safe, Hr1|done|]. intros u2 l Hr2 Hl. return_value.
  unfold is_u32 in *. rewrite Z.shiftl_mul_pow2 by lia. apply lor_range; lia.
Qed.

(** Strings are where a length can wrap around. *)
Lemma rawbytes_safe u v old n :
  u_safe u -> get_uint v 0 = Val (u, n) -> reads v u -> u_safe v -> is_u32 n -> u_ok u = true ->
  safely True (fun _ => True) u (u_rawbytes u old n).
Proof.
  intros Hu Hg Hr Hv Hn Hok. pose proof Hu as [Hs Hb Hi]. unfold u_rawbytes, is_u32, INT_MAX in *.
  rewrite (u32_id (u_sz u)) by (unfold is_u32; lia).
  destruct (Z.gtb_spec (u32 (u_ind u + n)) (u_sz u)) as [Hgt|Hle].
  { apply safely_val; [|done]. by apply reads_fail. }
  destruct (decide (u_ind u + n < 2 ^ 32)) as [Hsmall|Hbig].
  - rewrite u32_id in Hle by (unfold is_u32; lia). destruct (u_buf u) as [b|] eqn:E.
    + rewrite bool_decide_eq_true_2 by lia. apply safely_val; [|done].
      split; simpl; try done; [|lia]. split; simpl; [done|done|unfold INT_MAX in *; lia].
    + assert (n = 0) as -> by lia. split; [by apply reads_refl|done].
  - assert (wraps u) as Hw.
    { exists v, u, n. destruct Hr. split_and!; [done..|lia]. }
    destruct (u_buf u) as [b|] eqn:E.
    + by rewrite bool_decide_eq_false_2 by lia.
    + destruct (Z.eqb_spec n 0); [lia|]. done.
Qed.

#[global] Program Instance string_safe : WireSafe string := {| typed _ := True; strings := True |}.
Next Obligation. done. Qed.
Next Obligation.
  intros u old Hu _. simpl. unfold get_string. pose proof (get_uint_safe u 0 Hu) as Hg.
  destruct (get_uint u 0) as [[u1 n]|f] eqn:E; [|by destruct Hg as (? & [] & ?)]. destruct Hg as [Hr Hn]. simpl.
  destruct (u_ok u1) eqn:Ok; [|by apply safely_val]. eapply safely_after; [exact Hr|].
  by apply (rawbytes_safe u1 u); [apply Hr|..].
Qed.
End scalars.

(** ** Containers and structures *)

Section compound.
Context `{Heap}.

Lemma get_elems_safe {A} `{!Wire A, !WireSafe A} n : forall u v,
  u_safe u -> Forall typed v -> safely (strings (A := A)) (Forall typed) u (get_elems get dflt n u v).
Proof.
  induction n as [|n IH]; intros u v Hu Hv; simpl; [split; [by apply reads_refl|done]|].
  eapply safely_bind; [apply get_safe; [done|apply dflt_typed]|by auto|]. intros u' a Hr Ha.
  apply IH; [apply Hr|]. apply Forall_app. auto.
Qed.

#[global] Program Instance vector_safe `{!Wire A, !WireSafe A} : WireSafe (list A) := {| typed := Forall typed; strings := strings (A := A) |}.
Next Obligation. constructor. Qed.
Next Obligation.
  intros A ?? u old Hu _. simpl. unfold get_vector. eapply safely_bind; [by apply get_uint_safe|done|].
  intros u' n Hr Hn. apply get_elems_safe; [apply Hr|constructor].
Qed.

Section map.
Context `{Countable A, !KeyOrder A, !Wire A, !Wire B, !WireSafe A, !WireSafe B}.

Lemma get_entries_safe n : forall u (d : gmap A B),
  u_safe u -> map_Forall (fun a b => typed a /\ typed b) d ->
  safely (strings (A := A) \/ strings (A := B)) (map_Forall (fun a b => typed a /\ typed b)) u (get_entries n u d).
Proof.
  induction n as [|n IH]; intros u d Hu Hd; simpl; [split; [by apply reads_refl|done]|].
  eapply (safely_bind (strings (A := A) \/ strings (A := B)) _ (fun e => typed e.1 /\ typed e.2)); [|done|].
  - unfold get_entry. eapply safely_bind; [apply get_safe; [done|apply dflt_typed]|by auto|]. intros u1 a Hr1 Ha.
    eapply safely_bind; [apply get_safe; [apply Hr1|apply dflt_typed]|by auto|]. intros u2 b Hr2 Hb.
    by return_value.
  - intros u' [a b] Hr [Ha Hb]. apply IH; [apply Hr|]. by apply map_Forall_insert_2.
Qed.

#[global] Program Instance map_safe : WireSafe (gmap A B) :=
  {| typed := map_Forall (fun a b => typed a /\ typed b); strings := strings (A := A) \/ strings (A := B) |}.
Next Obligation. apply map_Forall_empty. Qed.
Next Obligation.
  intros u old Hu _. simpl. unfold get_map. eapply safely_bind; [by apply get_uint_safe|done|].
  intros u' n Hr Hn. apply get_entries_safe; [apply Hr|apply map_Forall_empty].
Qed.
End map.

(** Reads the next field of a structure. *)
Ltac next_field :=
  eapply safely_bind; [apply get_safe; [solve [done | by eapply rd_safe]|done]|by auto|intros ? ? ? ?].
Ltac zero_fields := repeat split; simpl; lia.
Ltac read_struct := intros u [] Hu Ht; cbn beta in Ht; try match type of Ht with _ /\ _ => destruct Ht end.

#[global] Program Instance prop_t_safe : WireSafe prop_t := {| typed p := is_u32 (pn p); strings := True |}.
Next Obligation. zero_fields. Qed.
Next Obligation. read_struct. unfold get_prop_t. do 2 next_field. by return_value. Qed.

#[global] Program Instance preparearg_safe : WireSafe preparearg :=
  {| typed a := is_u32 (pa_instance a) /\ typed (pa_n a); strings := True |}.
Next Obligation. zero_fields. Qed.
Next Obligation. read_struct. unfold get_preparearg. do 2 next_field. by return_value. Qed.

#[global] Program Instance prepareres_safe : WireSafe prepareres := {| typed r := typed (pr_n_a r); strings := True |}.
Next Obligation. zero_fields. Qed.
Next Obligation. read_struct. unfold get_prepareres. do 4 next_field. by return_value. Qed.

#[global] Program Instance acceptarg_safe : WireSafe acceptarg :=
  {| typed a := is_u32 (aa_instance a) /\ typed (aa_n a); strings := True |}.
Next Obligation. zero_fields. Qed.
Next Obligation. read_struct. unfold get_acceptarg. do 3 next_field. by return_value. Qed.

#[global] Program Instance decidearg_safe : WireSafe decidearg := {| typed a := is_u32 (da_instance a); strings := True |}.
Next Obligation. zero_fields. Qed.
Next Obligation. read_struct. unfold get_decidearg. do 2 next_field. by return_value. Qed.

#[global] Program Instance viewstamp_safe : WireSafe viewstamp :=
  {| typed v := is_u32 (vs_vid v) /\ is_u32 (vs_seqno v); strings := False |}.
Next Obligation. zero_fields. Qed.
Next Obligation. read_struct. unfold get_viewstamp. do 2 next_field. by return_value. Qed.

#[global] Program Instance transferres_safe : WireSafe transferres := {| typed r := typed (tr_last r); strings := True |}.
Next Obligation. zero_fields. Qed.
Next Obligation. read_struct. unfold get_transferres. do 2 next_field. by return_value. Qed.

#[global] Program Instance joinres_safe : WireSafe joinres := {| typed _ := True; strings := True |}.
Next Obligation. done. Qed.
Next Obligation. read_struct. unfold get_joinres. do 1 next_field. by return_value. Qed.
End compound.

(** ** Requests *)

Class ArgsSafe `{Heap} (T : Type) `{!Args T} := {
  args_typed : T -> Prop;
  args_strings : Prop;
  get_args_safe u : u_safe u -> safely args_strings args_typed u (get_args u);
}.

Section requests.
Context `{Heap}.

#[global] Program Instance args_nil_safe : ArgsSafe unit := {| args_typed _ := True; args_strings := False |}.
Next Obligation. intros u Hu. apply safely_val; [by apply reads_refl|done]. Qed.

#[global] Program Instance args_cons_safe {A T} `{!Wire A, !WireSafe A, !Args T, !ArgsSafe T} : ArgsSafe (A * T) :=
  {| args_typed t := typed t.1 /\ args_typed t.2; args_strings := strings (A := A) \/ args_strings (T := T) |}.
Next Obligation.
  intros A T ???? u Hu. simpl. eapply safely_bind; [apply get_safe; [done|apply dflt_typed]|by auto|]. intros u1 a Hr1 Ha.
  eapply safely_bind; [apply get_args_safe, Hr1|by auto|]. intros u2 t Hr2 Ht. by return_value.
Qed.

Definition header_typed (h : req_header) : Prop :=
  is_s32 (rq_xid h) /\ is_s32 (rq_proc h) /\ is_u32 (rq_clt_nonce h) /\ is_u32 (rq_srv_nonce h) /\
  is_s32 (rq_xid_rep h).

Lemma set_u_ind_safe u i : u_safe u -> 0 <= i <= INT_MAX -> u_safe (set_u_ind u i).
Proof. intros [? ? ?] ?. by split. Qed.

Lemma get_int_val u old : u_safe u -> exists u' x, get_int u old = Val (u', x) /\ reads u u' /\ is_s32 x.
Proof.
  intros Hu. pose proof (get_int_safe u old Hu) as Hg.
  destruct (get_int u old) as [[u' x]|f]; [|by destruct Hg as (_ & [] & _)]. by exists u', x.
Qed.

(** Reads the next word of a header. *)
Ltac next_word :=
  match goal with
  | Hu : u_safe ?u |- context [get_int ?u ?old] =>
      let E := fresh "E" in let Hr := fresh "Hr" in let Hx := fresh "Hx" in
      destruct (get_int_val u old Hu) as (? & ? & E & Hr & Hx); rewrite E; clear E; cbn [obind];
      apply rd_safe in Hr; clear Hu
  end.

Lemma unpack_req_header_val u :
  u_safe u -> exists u' h, unpack_req_header u = Val (u', h) /\ u_safe u' /\ header_typed h.
Proof.
  intros Hu. apply (set_u_ind_safe _ sizeof_rpc_sz_t) in Hu; [|done]. unfold unpack_req_header, unpack.
  do 5 next_word. do 2 eexists. split; [done|]. split; [by apply set_u_ind_safe|].
  unfold header_typed. simpl. auto using u32_range.
Qed.

Lemma rpcs_fn_any {S T R} `{!Args T, !ArgsSafe T, !Wire R} (meth : method S T R) sob u ret :
  u_safe u ->
  rpcs_fn meth sob u ret = Val (sob, ret, unmarshal_args_failure) \/
  (exists a, args_typed a /\
     rpcs_fn meth sob u ret = let! '(sob, r, v) := meth sob a dflt in let! ret := put ret r in Val (sob, ret, v)) \/
  (rpcs_fn meth sob u ret = Fault Undefined /\ args_strings (T := T) /\ wraps u).
Proof.
  intros Hu. pose proof (get_args_safe u Hu) as Hg. unfold rpcs_fn.
  destruct (get_args u) as [[u' a]|f]; simpl in *.
  - destruct (okdone u'); simpl; [|by left]. right. left. exists a. by split; [apply Hg|].
  - right. right. by destruct Hg as [-> ?].
Qed.

(** C7: no frame makes the server read outside of it. Whatever the bytes of a request are, the header
    is read without fault, with every field in the range of its type (the missing ones as zero); then
    the handler class either reports that the arguments do not unmarshal, without running the method
    and without touching the server object, or runs the method on arguments that are values of their
    types. The one exception needs a [std::string] among the arguments and a length in the frame that
    makes the bounds check wrap around. *)
Theorem request_of_any_bytes {S T R} `{!Args T, !ArgsSafe T, !Wire R} (meth : method S T R) sob b ret :
  Z.of_nat (length b) <= INT_MAX ->
  exists u h, unpack_req_header (unmarshall_buf b (Z.of_nat (length b))) = Val (u, h) /\ header_typed h /\
    (rpcs_fn meth sob u ret = Val (sob, ret, unmarshal_args_failure) \/
     (exists a, args_typed a /\
        rpcs_fn meth sob u ret =
          let! '(sob, r, v) := meth sob a dflt in let! ret := put ret r in Val (sob, ret, v)) \/
     (rpcs_fn meth sob u ret = Fault Undefined /\ args_strings (T := T) /\ wraps u)).
Proof.
  intros Hb. destruct (unpack_req_header_val (unmarshall_buf b (Z.of_nat (length b)))) as (u & h & E & Hu & Hh).
  { split; simpl; [lia|lia|done]. }
  exists u, h. split; [done|]. split; [done|]. by apply rpcs_fn_any.
Qed.

(** The client's side of the same: [call_m] takes a reply of any bytes. *)
Lemma reply_of_any_bytes {W R} `{!Wire R, !WireSafe R} (call1 : W -> Z -> marshall -> outcome (W * Z * unmarshall))
    w w' proc req r ret u :
  u_safe u -> typed r -> call1 w proc req = Val (w', ret, u) ->
  (exists r', typed r' /\ call_m call1 w proc req r = Val (w', ret, r')) \/
  call_m call1 w proc req r = Fault VerifyFailed \/
  (call_m call1 w proc req r = Fault Undefined /\ strings (A := R) /\ wraps u).
Proof.
  intros Hu Ht Hc. unfold call_m. rewrite Hc. simpl. destruct (ret <? 0); [by left; exists r|].
  pose proof (get_safe u r Hu Ht) as Hg. destruct (get u r) as [[u' r']|f]; simpl in *.
  - destruct (okdone u'); simpl; [left; exists r'; by split; [apply Hg|]|by right; left].
  - right. right. by destruct Hg as [-> ?].
Qed.

End requests.

(** Five bytes of garbage are no request of a method with an [int] and a vector of strings: the method,
    which would set the server object to 1, is not run. *)
Lemma request_of_any_bytes_witness :
  let _ : Heap := fun _ => 0 in
  let meth : method Z (sint * (list string * unit)) sint := fun _ _ _ => Val (1, 7, 0) in
  exists u h, unpack_req_header (unmarshall_buf [9; 9; 9; 9; 255] 5) = Val (u, h) /\
    rq_xid h = s32 (255 * 2 ^ 24) /\ rq_proc h = 0 /\
    rpcs_fn meth 0 u marshall_new = Val (0, marshall_new, unmarshal_args_failure).
Proof.
  intros Hh meth.
  destruct (request_of_any_bytes meth 0 [9; 9; 9; 9; 255] marshall_new) as (u & h & E & _); [unfold INT_MAX; simpl; lia|].
  exists u, h. split; [exact E|]. vm_compute in E. injection E as <- <-. split_and!; vm_compute; reflexivity.
Defined.
