(* ===== verification/Lifetime.v ===== *)
(** * The life of a connection object

    Connections, their reference counts and the poll manager composed: threads
    that hold references send, close and give references up; the poll thread
    calls back the objects that are registered, through the pointers in
    [callbacks_], without holding a reference. Deleting an object closes its
    descriptor, which the kernel may then hand out again.

    The system uses the operations of Connection.v, Tcpsconn.v ([decref] with
    the heap) and PollMgr.v; what Framing.v is about, the bytes, is left open
    here: [read] and [write] return anything. *)

From S2P Require Import Prelude.
From S2P Require Import Aio.
From S2P Require Import SelectAIO.
From S2P Require Import PollMgr.
From S2P Require Import Connection.
From S2P Require Import Tcpsconn.

Local Open Scope Z_scope.

Module Lifetime.
Import Connection Tcpsconn.

(** A thread with a reference on an object: at large, or inside
    [block_remove_fd], called by [closeconn] or by [send]. *)
Inductive user := Holding (p : nat) | Removing (p : nat).
Definition ptr (u : user) : nat := match u with Holding p | Removing p => p end.

(** [incall]: the object whose callback the poll thread is about to run or
    running. A thread in [block_remove_fd] has the same key in [users] and among
    the removers of the poll manager. *)
Record world := World {
  poll : PollMgr.world;
  mem : tcpsconn;
  users : gmap nat user;
  incall : option nat;
}.

Definition set_poll (w : world) (s : PollMgr.world) : world := World s (mem w) (users w) (incall w).
Definition set_pm (s : PollMgr.world) (p : PollMgr.pollmgr) : PollMgr.world :=
  PollMgr.World p (PollMgr.at_ s) (PollMgr.removers s) (PollMgr.removed s).

(** Requests to the poll manager, up to the wait of a removal. *)
Definition run_req (pm : PollMgr.pollmgr) (fd : Z) (me : nat) (r : poll_req) : outcome PollMgr.pollmgr :=
  match r with
  | AddCallback f => PollMgr.add_callback pm fd f (Z.of_nat me)
  | DelCallback f => PollMgr.del_callback pm fd f
  | BlockRemove => PollMgr.block_remove_begin pm fd
  end.

(** The bookkeeping of the poll manager's world that goes with a request of
    thread [i]. *)
Definition run_user (s : PollMgr.world) (i : nat) (fd : Z) (me : nat) (rs : list poll_req)
  : outcome (PollMgr.world * bool) :=
  match rs with
  | [] => Val (s, false)
  | r :: _ =>
      let! pm := run_req (PollMgr.pm s) fd me r in
      Val (match r with
           | AddCallback _ =>
               (PollMgr.World pm (PollMgr.at_ s) (PollMgr.removers s) (PollMgr.removed s ∖ {[ fd ]}), false)
           | DelCallback _ => (set_pm s pm, false)
           | BlockRemove =>
               (PollMgr.World pm (PollMgr.at_ s) (<[i := (fd, false)]> (PollMgr.removers s)) (PollMgr.removed s),
                true)
           end)
  end.

(** The descriptor the poll thread is at, and what follows it. *)
Definition current (pl : PollMgr.place) : option (Z * PollMgr.place) :=
  match pl with
  | PollMgr.Calling (fd :: rs) ws => Some (fd, PollMgr.Calling rs ws)
  | PollMgr.Calling [] (fd :: ws) => Some (fd, PollMgr.Calling [] ws)
  | _ => None
  end.
Definition reading (pl : PollMgr.place) : bool :=
  match pl with PollMgr.Calling (_ :: _) _ => true | _ => false end.

Definition move (s : PollMgr.world) (pl : PollMgr.place) : PollMgr.world :=
  PollMgr.World (PollMgr.pm s) pl (PollMgr.removers s) (PollMgr.removed s).

(** What the poll thread does by itself, in the order of its loop. *)
Inductive own_step : PollMgr.world -> PollMgr.world -> Prop :=
| own_top p p' b m d :
    PollMgr.wait_top p = (p', b) ->
    own_step (PollMgr.World p PollMgr.AtTop m d)
             (PollMgr.World p' PollMgr.BeforeCopy (PollMgr.signal_all b m) d)
| own_copy s : PollMgr.at_ s = PollMgr.BeforeCopy ->
    own_step s (move s (PollMgr.InSelect (SelectAIO.wait_snapshot (PollMgr.aio_ (PollMgr.pm s)))))
| own_select p sn ans p' rs ws m d :
    PollMgr.wait_end p sn ans = Val (p', rs, ws) ->
    own_step (PollMgr.World p (PollMgr.InSelect sn) m d)
             (PollMgr.World p' (if bool_decide (rs = [] /\ ws = []) then PollMgr.AtTop
                                else PollMgr.Calling rs ws) m d)
| own_skip s fd pl : current (PollMgr.at_ s) = Some (fd, pl) -> PollMgr.callee (PollMgr.pm s) fd = None ->
    own_step s (move s pl)
| own_round s : PollMgr.at_ s = PollMgr.Calling [] [] -> own_step s (move s PollMgr.AtTop).

Definition incref (c : connection) : connection := set_refno c (refno_ c + 1).

(** The effect of a callback that left the object as [c'] with the requests
    [rs]; [taken]: the thread that [got_pdu] made a reference for. *)
Definition callback_end (w : world) (p : nat) (fd : Z) (pl : PollMgr.place) (c' : connection) (rs : list poll_req)
    (taken : option nat) : outcome world :=
  let! '(s, _) := run_user (poll w) 0 fd p rs in
  Val (match taken with
       | Some j => World (move s pl) (store (mem w) p (incref c')) (<[j := Holding p]> (users w)) None
       | None => World (move s pl) (store (mem w) p c') (users w) None
       end).

(** The effect of an operation of thread [i]. *)
Definition user_end (w : world) (i p : nat) (c c' : connection) (rs : list poll_req) : outcome world :=
  let! '(s, removing) := run_user (poll w) i (fd_ c) p rs in
  Val (World s (store (mem w) p c') (<[i := if removing : bool then Removing p else Holding p]> (users w)) (incall w)).

(** The steps, by what thread does what. *)
Inductive act :=
| Poll
| New (j : nat)
| Incref (i : nat)
| Decref (i : nat)
| Enter (i : nat)
| Turn (i : nat) (nx : send_next)
| End (i : nat)
| Close (i : nat)
| Removed (i : nat).

Inductive step : act -> world -> world -> Prop :=
(* the poll thread *)
| t_own w s : incall w = None -> own_step (poll w) s -> step Poll w (set_poll w s)
| t_enter w fd pl q :
    incall w = None -> current (PollMgr.at_ (poll w)) = Some (fd, pl) ->
    PollMgr.callee (PollMgr.pm (poll w)) fd = Some q ->
    step Poll w (World (poll w) (mem w) (users w) (Some (Z.to_nat q)))
| t_read w p fd pl c r1 r2 consumes c' got offered sig rs taken w' :
    incall w = Some p -> current (PollMgr.at_ (poll w)) = Some (fd, pl) -> reading (PollMgr.at_ (poll w)) = true ->
    heap (mem w) !! p = Some c -> read_cb c fd r1 r2 consumes = Val (c', got, offered, sig, rs) ->
    (forall j, taken = Some j -> is_Some offered /\ users w !! j = None) ->
    callback_end w p fd pl c' rs taken = Val w' -> step Poll w w'
| t_write w p fd pl c r c' out sig rs w' :
    incall w = Some p -> current (PollMgr.at_ (poll w)) = Some (fd, pl) -> reading (PollMgr.at_ (poll w)) = false ->
    heap (mem w) !! p = Some c -> write_cb c fd r = Val (c', out, sig, rs) ->
    callback_end w p fd pl c' rs None = Val w' -> step Poll w w'
(* a new connection, on a descriptor that is not open *)
| u_new w j fd s b :
    users w !! j = None -> (forall p c, heap (mem w) !! p = Some c -> fd_ c <> fd) ->
    fd <> SelectAIO.pipefd_ (PollMgr.aio_ (PollMgr.pm (poll w))) ->
    run_user (poll w) j fd (fresh (mem w)) (connection_new fd).2 = Val (s, b) ->
    step (New j) w (World s (MkTcps (conns_ (mem w)) (<[fresh (mem w) := (connection_new fd).1]> (heap (mem w)))
                            (S (fresh (mem w))))
                  (<[j := Holding (fresh (mem w))]> (users w)) (incall w))
(* the holders of references *)
| u_incref w i j p c :
    users w !! i = Some (Holding p) -> users w !! j = None -> heap (mem w) !! p = Some c ->
    step (Incref i) w (World (poll w) (store (mem w) p (incref c)) (<[j := Holding p]> (users w)) (incall w))
| u_decref w i p t :
    users w !! i = Some (Holding p) -> decref (mem w) p = Val t ->
    step (Decref i) w (World (poll w) t (delete i (users w)) (incall w))
| u_enter w i p c :
    users w !! i = Some (Holding p) -> heap (mem w) !! p = Some c ->
    step (Enter i) w (World (poll w) (store (mem w) p (send_enter c)) (users w) (incall w))
| u_send w i p c b size r c' out all rs nx w' :
    users w !! i = Some (Holding p) -> heap (mem w) !! p = Some c ->
    send_turn c b size r = Val (c', out, all, rs, nx) -> user_end w i p c c' rs = Val w' -> step (Turn i nx) w w'
| u_send_end w i p c c' ret all :
    users w !! i = Some (Holding p) -> heap (mem w) !! p = Some c -> send_waits c = false ->
    send_end c = (c', ret, all) ->
    step (End i) w (World (poll w) (store (mem w) p c') (users w) (incall w))
| u_close w i p c c' rs w' :
    users w !! i = Some (Holding p) -> heap (mem w) !! p = Some c -> closeconn c = (c', rs) ->
    user_end w i p c c' rs = Val w' -> step (Close i) w w'
| u_removed w i p fd :
    users w !! i = Some (Removing p) -> PollMgr.removers (poll w) !! i = Some (fd, true) ->
    step (Removed i) w (World (PollMgr.World (PollMgr.block_remove_end (PollMgr.pm (poll w)) fd) (PollMgr.at_ (poll w))
                     (delete i (PollMgr.removers (poll w))) (PollMgr.removed (poll w) ∪ {[ fd ]}))
                  (mem w) (<[i := Holding p]> (users w)) (incall w)).

(** Which threads are in [send], and whether their buffer is the one in
    [wpdu_]. *)
Record system := Sys { sw : world; calls : gmap nat bool }.

(** A thread in [send] does nothing else. *)
Definition allowed (a : act) (m : gmap nat bool) : Prop :=
  match a with
  | Poll | New _ | Removed _ => True
  | Incref i | Decref i | Enter i | Close i => m !! i = None
  | Turn i _ => m !! i = Some false
  | End i => m !! i = Some true
  end.
Definition after (a : act) (m : gmap nat bool) : gmap nat bool :=
  match a with
  | Enter i => <[i := false]> m
  | Turn i WaitTurn => m
  | Turn i (Returns _) | End i => delete i m
  | Turn i Connection.Removing | Turn i WaitComplete => <[i := true]> m
  | _ => m
  end.

Inductive sys_step : system -> system -> Prop :=
| sys_act a w w' m : allowed a m -> step a w w' -> sys_step (Sys w m) (Sys w' (after a m)).

Definition start_with (pfd : Z) : world := World (PollMgr.start pfd) (MkTcps ∅ ∅ 0) ∅ None.
Definition start (pfd : Z) : system := Sys (start_with pfd) ∅.

(** The number of references that are held on an object. *)
Definition count (m : gmap nat user) (p : nat) : Z := Z.of_nat (size (filter (fun x => ptr x.2 = p) m)).

Definition one (u : user) (p : nat) : Z := if decide (ptr u = p) then 1 else 0.

Lemma count_insert m j u p : m !! j = None -> count (<[j := u]> m) p = count m p + one u p.
Proof.
  intros Hj. unfold count, one. case_decide as Hp.
  - rewrite map_filter_insert_True by done. rewrite map_size_insert_None; [lia|].
    by apply map_lookup_filter_None_2; left.
  - rewrite map_filter_insert_False by done. by rewrite delete_id, Z.add_0_r.
Qed.

Lemma count_delete m i u p : m !! i = Some u -> count (delete i m) p = count m p - one u p.
Proof.
  intros Hi. rewrite <-(insert_delete_id m i u Hi) at 2. rewrite count_insert by apply lookup_delete_eq. lia.
Qed.

Lemma count_replace m i u u' p : m !! i = Some u -> ptr u' = ptr u -> count (<[i := u']> m) p = count m p.
Proof.
  intros Hi Hp. rewrite <-insert_delete_eq, count_insert, (count_delete _ _ u) by (done || apply lookup_delete_eq).
  unfold one. rewrite Hp. lia.
Qed.

Lemma count_zero m p : count m p = 0 -> forall i u, m !! i = Some u -> ptr u <> p.
Proof.
  intros Hc i u Hi Hp. pose proof (count_delete m i u p Hi) as Hd. unfold one in Hd. rewrite decide_True in Hd by done.
  unfold count in *. lia.
Qed.

Lemma count_none m p : (forall i u, m !! i = Some u -> ptr u <> p) -> count m p = 0.
Proof.
  intros Hno. unfold count. assert (filter (fun x => ptr x.2 = p) m = ∅) as ->; [|done].
  apply map_empty. intros i. apply map_lookup_filter_None_2. right. intros u Hu. by eapply Hno.
Qed.

(** ** The invariant *)

Section inv.
Implicit Types (w : world) (s : PollMgr.world) (c : connection).

Definition callbacks s : gmap Z Z := PollMgr.callbacks_ (PollMgr.pm s).
Definition readset s : gset Z := SelectAIO.rfds_ (PollMgr.aio_ (PollMgr.pm s)).
Definition pipefd s : Z := SelectAIO.pipefd_ (PollMgr.aio_ (PollMgr.pm s)).

(** A registered object is on the heap, and if it is dead somebody who holds a
    reference is removing it; an object that is not dead is registered for
    reading. *)
Record linv (w : world) : Prop := {
  l_poll : PollMgr.pinv (poll w);
  l_next : forall p c, heap (mem w) !! p = Some c -> (p < fresh (mem w))%nat;
  l_fd : forall p c, heap (mem w) !! p = Some c -> fd_ c <> pipefd (poll w);
  l_inj : forall p1 c1 p2 c2, heap (mem w) !! p1 = Some c1 -> heap (mem w) !! p2 = Some c2 ->
    fd_ c1 = fd_ c2 -> p1 = p2;
  l_users : forall i u, users w !! i = Some u -> is_Some (heap (mem w) !! ptr u);
  l_refs : forall p c, heap (mem w) !! p = Some c -> refno_ c = count (users w) p;
  l_alive : forall p c, heap (mem w) !! p = Some c -> dead_ c = false ->
    callbacks (poll w) !! fd_ c = Some (Z.of_nat p) /\ fd_ c ∈ readset (poll w);
  l_cb : forall fd q, callbacks (poll w) !! fd = Some q ->
    exists p c, q = Z.of_nat p /\ heap (mem w) !! p = Some c /\ fd_ c = fd /\
      (dead_ c = true -> exists i, users w !! i = Some (Removing p));
  l_removing : forall i p, users w !! i = Some (Removing p) ->
    exists c b, heap (mem w) !! p = Some c /\ dead_ c = true /\ PollMgr.removers (poll w) !! i = Some (fd_ c, b);
  l_removers : forall i fd b, PollMgr.removers (poll w) !! i = Some (fd, b) ->
    exists p, users w !! i = Some (Removing p);
  l_call : forall p, incall w = Some p -> exists fd pl,
    current (PollMgr.at_ (poll w)) = Some (fd, pl) /\ callbacks (poll w) !! fd = Some (Z.of_nat p);
}.

Lemma start_linv pfd : linv (start_with pfd).
Proof. split; simpl; try done. apply PollMgr.start_pinv. Qed.

(** Nobody removes the descriptor of an object that is not dead. *)
Lemma no_remover w p c : linv w -> heap (mem w) !! p = Some c -> dead_ c = false ->
  forall i b, PollMgr.removers (poll w) !! i <> Some (fd_ c, b).
Proof.
  intros Hi Hc Hd i b Hr. destruct (l_removers _ Hi _ _ _ Hr) as [p' Hu].
  destruct (l_removing _ Hi _ _ Hu) as (c' & b' & Hc' & Hd' & Hr'). rewrite Hr in Hr'. injection Hr' as E _.
  assert (p = p') as -> by (by eapply (l_inj _ Hi)). congruence.
Qed.

(** *** What an operation on an object does, for the rest of the system *)

Inductive user_effect (c c' : connection) : list poll_req -> Prop :=
| ue_none : dead_ c' = dead_ c -> user_effect c c' []
| ue_add f : dead_ c = false -> dead_ c' = false -> user_effect c c' [AddCallback f]
| ue_remove : dead_ c = false -> dead_ c' = true -> user_effect c c' [BlockRemove].

Inductive callback_effect (c c' : connection) : list poll_req -> Prop :=
| ce_none : dead_ c' = dead_ c -> callback_effect c c' []
| ce_del : dead_ c = false -> dead_ c' = false -> callback_effect c c' [DelCallback CB_WRONLY]
| ce_dead : dead_ c = false -> dead_ c' = true -> callback_effect c c' [DelCallback CB_RDWR].

Definition same_ids (c c' : connection) : Prop := fd_ c' = fd_ c /\ refno_ c' = refno_ c.

Lemma writepdu_ids c r c' out ok : writepdu c r = Val (c', out, ok) -> same_ids c c' /\ dead_ c' = dead_ c.
Proof. unfold writepdu. intros Hw. repeat (case_match || outcome_inv); simplify_eq/=; done. Qed.

Lemma send_turn_effect c b size r c' out all rs nx :
  send_turn c b size r = Val (c', out, all, rs, nx) -> same_ids c c' /\ user_effect c c' rs.
Proof.
  unfold send_turn, same_ids. destruct (negb (dead_ c) && _); [intros [= <- _ _ <- _]; split; [done|by constructor]|].
  cbn [dead_ set_waiters]. destruct (dead_ c) eqn:Hd; [intros [= <- _ _ <- _]; split; [done|by constructor]|].
  intros Hs. apply obind_val in Hs as ([[c1 out1] ok] & Hw & Hs).
  apply writepdu_ids in Hw as ([Hf Hr] & Hd1). simpl in Hf, Hr, Hd1. destruct ok; simpl in Hs.
  - destruct (_ =? _); injection Hs as <- _ _ <- _; simpl; (split; [done|]); constructor; simpl; congruence.
  - injection Hs as <- _ _ <- _. simpl. split; [done|]. by constructor.
Qed.

Lemma closeconn_effect c c' rs : closeconn c = (c', rs) -> same_ids c c' /\ user_effect c c' rs.
Proof.
  unfold closeconn. destruct (dead_ c) eqn:Hd; intros [= <- <-]; (split; [done|]); by constructor.
Qed.

Lemma write_cb_effect c x r c' out sig rs :
  write_cb c x r = Val (c', out, sig, rs) -> same_ids c c' /\ callback_effect c c' rs.
Proof.
  unfold write_cb. destruct (dead_ c) eqn:Hd; [done|]. destruct (fd_ c =? x); [|done]. simpl.
  destruct (sz (wpdu_ c) =? 0); [intros [= <- _ _ <-]; split; [done|by constructor]|].
  intros Hs. apply obind_val in Hs as ([[c1 out1] ok] & Hw & Hs). apply writepdu_ids in Hw as ([Hf Hr] & Hd1).
  destruct ok; simpl in Hs.
  - destruct (0 <=? solong (wpdu_ c1)); [|done]. simpl in Hs.
    destruct (_ <? _); injection Hs as <- _ _ <-; (split; [done|]); by constructor.
  - injection Hs as <- _ _ <-. split; [done|]. by constructor.
Qed.

Lemma readpdu_body_ids c l r c' out ok : readpdu_body c l r = Val (c', out, ok) -> same_ids c c' /\ dead_ c' = dead_ c.
Proof. unfold readpdu_body. intros Hw. repeat (case_match || outcome_inv); simplify_eq/=; done. Qed.

Lemma readpdu_ids c r1 r2 c' out ok : readpdu c r1 r2 = Val (c', out, ok) -> same_ids c c' /\ dead_ c' = dead_ c.
Proof.
  unfold readpdu. intros Hw. destruct (_ =? 0).
  - destruct r1 as [l| |again]; [|by injection Hw as <- _ _|].
    + destruct (negb _); [by injection Hw as <- _ _|]. destruct (_ >? _); [by injection Hw as <- _ _|].
      apply obind_val in Hw as (_ & _ & Hw). apply obind_val in Hw as (_ & _ & Hw). destruct (_ <? 0); [done|].
      apply obind_val in Hw as ([[c1 got] ok1] & Hw & [= <- _ _]). by apply readpdu_body_ids in Hw.
    + apply obind_val in Hw as (_ & _ & [= <- _ _]). done.
  - apply obind_val in Hw as (l & _ & Hw). by apply readpdu_body_ids in Hw.
Qed.

Lemma read_cb_effect c x r1 r2 k c' got off sig rs :
  read_cb c x r1 r2 k = Val (c', got, off, sig, rs) -> same_ids c c' /\ callback_effect c c' rs.
Proof.
  unfold read_cb. destruct (fd_ c =? x); [|done]. simpl.
  destruct (dead_ c) eqn:Hd; [intros [= <- _ _ _ <-]; split; [done|by constructor]|].
  intros Hs. apply obind_val in Hs as ([[c1 got1] ok] & Hw & Hs).
  assert (same_ids c c1 /\ dead_ c1 = dead_ c) as [[Hf Hr] Hd1].
  { destruct (_ || _); [by apply readpdu_ids in Hw|by injection Hw as <- _ _]. }
  destruct ok; simpl in Hs.
  - destruct (buf (rpdu_ c1)); [destruct (_ =? _)|]; injection Hs as <- _ _ _ <-; destruct k; simpl;
      (split; [done|]); by constructor.
  - destruct (buf (rpdu_ c1)); [destruct (_ =? _)|]; injection Hs as <- _ _ _ <-; destruct k; simpl;
      (split; [done|]); by constructor.
Qed.

(** *** The poll manager's part *)

Definition polls s s' : Prop := rtc PollMgr.some_step s s'.

Lemma polls_pinv s s' : PollMgr.pinv s -> polls s s' -> PollMgr.pinv s'.
Proof. intros Hi Hr. induction Hr as [|s1 s2 s3 [l Hs] Hr IH]; [done|]. by eapply IH, PollMgr.pinv_step. Qed.

Lemma add_spec s i fd me f rs s' b :
  run_user s i fd me (AddCallback f :: rs) = Val (s', b) ->
  (forall j e, PollMgr.removers s !! j <> Some (fd, e)) ->
  polls s s' /\ b = false /\ PollMgr.at_ s' = PollMgr.at_ s /\ PollMgr.removers s' = PollMgr.removers s /\
  pipefd s' = pipefd s /\ callbacks s' = <[fd := Z.of_nat me]> (callbacks s) /\
  (forall x, x ∈ readset s -> x ∈ readset s') /\ (f = CB_RDONLY -> fd ∈ readset s').
Proof.
  unfold run_user. intros Hr Hno. apply obind_val in Hr as (pm' & Ha & [= <- <-]).
  assert (Ha0 := Ha). unfold run_req, PollMgr.add_callback in Ha. apply obind_val in Ha as (_ & _ & Ha).
  apply obind_val in Ha as (a & Hw & Ha). apply obind_val in Ha as (_ & _ & [= <-]).
  pose proof Hw as (W1 & _ & W3 & _)%PollMgr.watch_fd_spec. split_and!; try done.
  - apply rtc_once. exists None. destruct s as [p pl m d]. by eapply PollMgr.st_add.
  - intros ->. unfold SelectAIO.watch_fd in Hw. apply obind_val in Hw as (_ & _ & [= <-]).
    unfold readset. simpl. set_solver.
Qed.

Lemma del_spec s i fd me f rs s' b :
  run_user s i fd me (DelCallback f :: rs) = Val (s', b) -> fd <> pipefd s ->
  polls s s' /\ PollMgr.at_ s' = PollMgr.at_ s /\ PollMgr.removers s' = PollMgr.removers s /\ pipefd s' = pipefd s /\
  (f = CB_RDWR -> callbacks s' = base.delete fd (callbacks s)) /\
  (f = CB_WRONLY -> fd ∈ readset s -> callbacks s' = callbacks s /\ fd ∈ readset s') /\
  (forall x, x <> fd -> x ∈ readset s -> x ∈ readset s').
Proof.
  unfold run_user. intros Hr Hp. apply obind_val in Hr as (pm' & Ha & [= <- <-]).
  assert (Ha0 := Ha). unfold run_req, PollMgr.del_callback in Ha. apply obind_val in Ha as ([a gone] & Hw & [= <-]).
  pose proof Hw as (W1 & _ & _ & _ & _ & W5 & _)%PollMgr.unwatch_fd_spec. split_and!; try done.
  - apply rtc_once. exists None. destruct s as [p pl m d]. by eapply PollMgr.st_del.
  - intros ->. unfold SelectAIO.unwatch_fd in Hw. apply obind_val in Hw as (_ & _ & Hw).
    apply obind_val in Hw as (_ & _ & [= <- <-]). unfold callbacks. simpl.
    rewrite !bool_decide_eq_false_2 by set_solver. done.
  - intros -> Hin. unfold SelectAIO.unwatch_fd in Hw. apply obind_val in Hw as (_ & _ & Hw).
    apply obind_val in Hw as (_ & _ & [= <- <-]). unfold callbacks, readset in *. simpl.
    by rewrite bool_decide_eq_true_2.
Qed.

Lemma remove_spec s i fd me rs s' b :
  run_user s i fd me (BlockRemove :: rs) = Val (s', b) -> fd <> pipefd s -> PollMgr.removers s !! i = None ->
  polls s s' /\ b = true /\ PollMgr.at_ s' = PollMgr.at_ s /\
  PollMgr.removers s' = <[i := (fd, false)]> (PollMgr.removers s) /\ pipefd s' = pipefd s /\
  callbacks s' = callbacks s /\ (forall x, x <> fd -> x ∈ readset s -> x ∈ readset s').
Proof.
  unfold run_user. intros Hr Hp Hn. apply obind_val in Hr as (pm' & Ha & [= <- <-]).
  assert (Ha0 := Ha). unfold run_req, PollMgr.block_remove_begin in Ha. apply obind_val in Ha as ([a gone] & Hw & [= <-]).
  pose proof Hw as (W1 & _ & _ & _ & _ & W5 & _)%PollMgr.unwatch_fd_spec. split_and!; try done.
  apply rtc_once. exists None. destruct s as [p pl m d]. by eapply PollMgr.st_remove.
Qed.

(** *** Preservation *)

Lemma lookup_store t p c q : heap (store t p c) !! q = if decide (q = p) then Some c else heap t !! q.
Proof. unfold store. simpl. case_decide as E; [subst; apply lookup_insert_eq|by rewrite lookup_insert_ne]. Qed.

(** What an operation on the object at [p] leaves of the others. *)
Definition other_or (p : nat) (c c' : connection) (q : nat) (d0 d : connection) : Prop :=
  (q <> p /\ d0 = d) \/ (q = p /\ d = c' /\ d0 = c).

Lemma store_ids t p c c' q d :
  heap t !! p = Some c -> same_ids c c' -> heap (store t p c') !! q = Some d ->
  exists d0, heap t !! q = Some d0 /\ same_ids d0 d /\ other_or p c c' q d0 d.
Proof.
  intros Hc Hid. rewrite lookup_store. case_decide as E; [|intros Hd; exists d; by split_and!; [| |left]].
  intros [= <-]. subst q. exists c. split_and!; [done|done|]. by right.
Qed.

Lemma store_some t p c c' q : heap t !! p = Some c -> is_Some (heap t !! q) -> is_Some (heap (store t p c') !! q).
Proof. intros Hc Hq. rewrite lookup_store. by case_decide. Qed.

(** What [user_end] does to the poll manager. *)
Lemma user_end_poll w i p c c' rs s rem :
  linv w -> users w !! i = Some (Holding p) -> heap (mem w) !! p = Some c -> user_effect c c' rs ->
  run_user (poll w) i (fd_ c) p rs = Val (s, rem) ->
  polls (poll w) s /\ PollMgr.at_ s = PollMgr.at_ (poll w) /\ pipefd s = pipefd (poll w) /\
  callbacks s = callbacks (poll w) /\
  (forall x, x <> fd_ c \/ dead_ c' = false -> x ∈ readset (poll w) -> x ∈ readset s) /\
  (rem = true /\ dead_ c = false /\ dead_ c' = true /\
     PollMgr.removers s = <[i := (fd_ c, false)]> (PollMgr.removers (poll w)) \/
   rem = false /\ dead_ c' = dead_ c /\ PollMgr.removers s = PollMgr.removers (poll w)).
Proof.
  intros Hi Hu Hc He Hr.
  assert (PollMgr.removers (poll w) !! i = None) as Hnr.
  { destruct (PollMgr.removers (poll w) !! i) as [[fd b]|] eqn:E; [|done].
    destruct (l_removers _ Hi _ _ _ E) as [? ?]. congruence. }
  destruct He as [Hd|f Hd Hd'|Hd Hd'].
  - injection Hr as <- <-. split_and!; try done; [apply rtc_refl|by right].
  - apply add_spec in Hr as (? & -> & ? & ? & ? & E & ? & _); [|by eapply no_remover].
    destruct (l_alive _ Hi _ _ Hc Hd) as [Ha _]. split_and!; try done; [by rewrite E, insert_id|by auto|].
    right. split_and!; [done|congruence|done].
  - apply remove_spec in Hr as (? & -> & ? & ? & ? & ? & ?); [|by apply (l_fd _ Hi _ _ Hc)|done].
    split_and!; try done; [|by left]. intros x [Hx|Hx]; [auto|congruence].
Qed.

Lemma user_end_linv w i p c c' rs w' :
  linv w -> users w !! i = Some (Holding p) -> heap (mem w) !! p = Some c ->
  same_ids c c' -> user_effect c c' rs -> user_end w i p c c' rs = Val w' ->
  linv w' /\ polls (poll w) (poll w').
Proof.
  intros Hi Hu Hc Hid He Hw. unfold user_end in Hw. apply obind_val in Hw as ([s rem] & Hr & [= <-]).
  destruct (user_end_poll _ _ _ _ _ _ _ _ Hi Hu Hc He Hr) as (Hp & Hat & Hpipe & Hcb & Hrd & Hcase).
  assert (forall q d, heap (store (mem w) p c') !! q = Some d ->
    exists d0, heap (mem w) !! q = Some d0 /\ same_ids d0 d /\ other_or p c c' q d0 d) as Hback.
  { intros q d. by apply store_ids. }
  split; [|done]. split; cbn [poll mem users incall].
  - by eapply polls_pinv; [apply Hi|].
  - intros q d (d0 & Hd0 & _)%Hback. by eapply l_next.
  - intros q d (d0 & Hd0 & [-> _] & _)%Hback. rewrite Hpipe. by eapply l_fd.
  - intros q1 d1 q2 d2 (e1 & H1 & [-> _] & _)%Hback (e2 & H2 & [-> _] & _)%Hback. by eapply (l_inj _ Hi).
  - intros j u Hj. apply (store_some _ _ c); [done|].
    apply lookup_insert_Some in Hj as [[<- <-]|[_ Hj]]; [|by eapply l_users]. destruct rem; by exists c.
  - intros q d (d0 & Hd0 & [_ ->] & _)%Hback. rewrite (count_replace _ _ (Holding p)) by (done || by destruct rem).
    by apply (l_refs _ Hi).
  - intros q d (d0 & Hd0 & [-> _] & Hor)%Hback Hdd. rewrite Hcb.
    destruct Hor as [[Hne ->]|(-> & -> & ->)].
    + destruct (l_alive _ Hi q d) as [Ha Hb]; [done|done|]. split; [done|]. apply Hrd; [|done].
      left. intros E. by apply Hne, (l_inj _ Hi q d p c).
    + destruct (l_alive _ Hi p c) as [Ha Hb]; [done| |auto]. destruct Hcase as [(_ & ? & _)|(_ & E & _)]; congruence.
  - intros fd q. rewrite Hcb. intros (q0 & d & -> & Hd & <- & Hdd)%(l_cb _ Hi). destruct (decide (q0 = p)) as [->|Hne].
    + assert (d = c) as -> by congruence. exists p, c'. rewrite lookup_store, decide_True by done.
      split_and!; [done|done|apply Hid|]. intros Hx. destruct Hcase as [(-> & _)|(-> & E & _)].
      * exists i. apply lookup_insert_eq.
      * destruct Hdd as [j Hj]; [congruence|]. exists j. rewrite lookup_insert_ne; [done|]. congruence.
    + exists q0, d. rewrite lookup_store, decide_False by done. split_and!; [done..|]. intros Hx.
      destruct (Hdd Hx) as [j Hj]. exists j. rewrite lookup_insert_ne; [done|]. congruence.
  - intros j q Hj. apply lookup_insert_Some in Hj as [[<- E]|[Hne Hj]].
    + destruct Hcase as [(-> & _ & Hd & Hrm)|(-> & _)]; [|done]. injection E as <-.
      exists c', false. rewrite lookup_store, decide_True, Hrm, lookup_insert_eq by done. destruct Hid as [-> _]. done.
    + destruct (l_removing _ Hi _ _ Hj) as (d & b & Hd & Hdd & Hrm).
      assert (exists d', heap (store (mem w) p c') !! q = Some d' /\ dead_ d' = true /\ fd_ d' = fd_ d) as (d' & ? & ? & Hf).
      { rewrite lookup_store. case_decide as E; [|by exists d]. subst q. assert (d = c) as -> by congruence.
        exists c'. split_and!; [done| |apply Hid]. destruct Hcase as [(_ & ? & _)|(_ & ? & _)]; congruence. }
      exists d', b. split_and!; [done|done|]. rewrite Hf. destruct Hcase as [(_ & _ & _ & ->)|(_ & _ & ->)]; [|done].
      by rewrite lookup_insert_ne.
  - intros j fd b Hj. destruct (decide (j = i)) as [->|Hne].
    + destruct Hcase as [(-> & _)|(-> & _ & E)]; [exists p; apply lookup_insert_eq|].
      rewrite E in Hj. destruct (l_removers _ Hi _ _ _ Hj) as [q Hq]. congruence.
    + rewrite lookup_insert_ne by done. apply (l_removers _ Hi j fd b).
      destruct Hcase as [(_ & _ & _ & E)|(_ & _ & E)]; rewrite E in Hj; [by rewrite lookup_insert_ne in Hj|done].
  - intros q Hq. destruct (l_call _ Hi q Hq) as (fd & pl & ? & ?). exists fd, pl. by rewrite Hat, Hcb.
Qed.

(** References come and go. *)
Lemma recount_linv w p c n m' :
  linv w -> heap (mem w) !! p = Some c ->
  (forall k u, m' !! k = Some u -> is_Some (heap (mem w) !! ptr u)) ->
  (forall k q, m' !! k = Some (Removing q) <-> users w !! k = Some (Removing q)) ->
  (forall q, count m' q = count (users w) q + (if decide (q = p) then n - refno_ c else 0)) ->
  linv (World (poll w) (store (mem w) p (set_refno c n)) m' (incall w)).
Proof.
  intros Hi Hc Hlive Hrmv Hcnt.
  assert (forall q d, heap (store (mem w) p (set_refno c n)) !! q = Some d ->
    exists d0, heap (mem w) !! q = Some d0 /\ fd_ d = fd_ d0 /\ dead_ d = dead_ d0 /\
      refno_ d = refno_ d0 + (if decide (q = p) then n - refno_ c else 0)) as Hback.
  { intros q d. rewrite lookup_store. case_decide as E.
    - intros [= <-]. subst q. exists c. split_and!; [done..|]. simpl. lia.
    - intros Hd. exists d. split_and!; [done..|lia]. }
  assert (forall q d, heap (mem w) !! q = Some d ->
    exists d', heap (store (mem w) p (set_refno c n)) !! q = Some d' /\ fd_ d' = fd_ d /\ dead_ d' = dead_ d) as Hforth.
  { intros q d Hd. rewrite lookup_store. case_decide as E; [|by exists d]. subst q.
    assert (d = c) as -> by congruence. by exists (set_refno c n). }
  split; cbn [poll mem users incall]; try apply Hi.
  - intros q d (d0 & Hd0 & _)%Hback. by eapply l_next.
  - intros q d (d0 & Hd0 & -> & _)%Hback. by eapply l_fd.
  - intros q1 d1 q2 d2 (e1 & H1 & -> & _)%Hback (e2 & H2 & -> & _)%Hback. by eapply (l_inj _ Hi).
  - intros k u Hu. apply (store_some _ _ c); [done|]. by eapply Hlive.
  - intros q d (d0 & Hd0 & _ & _ & ->)%Hback. rewrite Hcnt. by rewrite (l_refs _ Hi q d0).
  - intros q d (d0 & Hd0 & -> & -> & _)%Hback. by apply (l_alive _ Hi).
  - intros fd q (q0 & d & -> & Hd & <- & Hdd)%(l_cb _ Hi). destruct (Hforth q0 d Hd) as (d' & Hd' & Hf & Hx).
    exists q0, d'. split_and!; [done..|]. rewrite Hx. intros [k Hk%Hrmv]%Hdd. by exists k.
  - intros k q Hk%Hrmv. destruct (l_removing _ Hi _ _ Hk) as (d & b & Hd & Hdd & Hrm).
    destruct (Hforth q d Hd) as (d' & Hd' & Hf & Hx). exists d', b. by rewrite Hf, Hx.
  - intros k fd b (q & Hq%Hrmv)%(l_removers _ Hi). eauto.
Qed.

Lemma incref_linv w j p c :
  linv w -> users w !! j = None -> heap (mem w) !! p = Some c ->
  linv (World (poll w) (store (mem w) p (incref c)) (<[j := Holding p]> (users w)) (incall w)).
Proof.
  intros Hi Hj Hc. apply (recount_linv w p c); [done|done| | |].
  - intros k u [[_ <-]|[_ Hu]]%lookup_insert_Some; [by exists c|by eapply (l_users _ Hi)].
  - intros k q. rewrite lookup_insert_Some. split; [by intros [[_ [=]]|[_ ?]]|]. intros Hk. right. split; [congruence|done].
  - intros q. rewrite count_insert by done. unfold one. simpl. repeat case_decide; try congruence; lia.
Qed.

(** The poll thread goes on to the next descriptor. *)
Lemma move_polls s fd pl : current (PollMgr.at_ s) = Some (fd, pl) -> polls s (move s pl).
Proof.
  destruct s as [p [| | |rs ws] m d]; simpl; try done. destruct rs as [|x rs].
  - destruct ws as [|x ws]; [done|]. intros [= <- <-]. apply rtc_once. eexists. apply PollMgr.st_write.
  - intros [= <- <-]. apply rtc_once. eexists. apply PollMgr.st_read.
Qed.

(** The object the poll thread is in. *)
Lemma incall_object w p fd pl :
  linv w -> incall w = Some p -> current (PollMgr.at_ (poll w)) = Some (fd, pl) ->
  exists c, heap (mem w) !! p = Some c /\ fd_ c = fd /\ callbacks (poll w) !! fd = Some (Z.of_nat p).
Proof.
  intros Hi Hp Hcur. destruct (l_call _ Hi p Hp) as (fd' & pl' & E & Hcb). rewrite Hcur in E. injection E as <- <-.
  destruct (l_cb _ Hi _ _ Hcb) as (p' & c & Hpp & Hc & Hf & _). assert (p' = p) as -> by lia. by exists c.
Qed.

(** What a callback does to the poll manager. *)
Lemma callback_poll w p fd c c' rs s rem :
  linv w -> heap (mem w) !! p = Some c -> fd_ c = fd -> callback_effect c c' rs ->
  run_user (poll w) 0 fd p rs = Val (s, rem) ->
  polls (poll w) s /\ PollMgr.at_ s = PollMgr.at_ (poll w) /\ pipefd s = pipefd (poll w) /\
  PollMgr.removers s = PollMgr.removers (poll w) /\
  (forall x, x <> fd -> x ∈ readset (poll w) -> x ∈ readset s) /\
  (dead_ c' = dead_ c /\ callbacks s = callbacks (poll w) /\ (fd ∈ readset (poll w) -> fd ∈ readset s) \/
   dead_ c = false /\ dead_ c' = true /\ callbacks s = base.delete fd (callbacks (poll w))).
Proof.
  intros Hi Hc Hf He Hr. pose proof (l_fd _ Hi _ _ Hc) as Hpf. rewrite Hf in Hpf. destruct He as [Hd|Hd Hd'|Hd Hd'].
  - injection Hr as <- <-. split_and!; try done; [apply rtc_refl|by left].
  - apply del_spec in Hr as (? & ? & ? & ? & _ & Hw & ?); [|done].
    destruct (l_alive _ Hi _ _ Hc Hd) as [_ Hrd]. rewrite Hf in Hrd. destruct (Hw eq_refl Hrd) as [? ?].
    split_and!; try done. left. split_and!; [congruence|done|done].
  - apply del_spec in Hr as (? & ? & ? & ? & Hw & _ & ?); [|done]. split_and!; try done. right. auto.
Qed.

Lemma callback_linv w p fd pl c c' rs s rem :
  linv w -> incall w = Some p -> current (PollMgr.at_ (poll w)) = Some (fd, pl) ->
  heap (mem w) !! p = Some c -> same_ids c c' -> callback_effect c c' rs ->
  run_user (poll w) 0 fd p rs = Val (s, rem) ->
  linv (World (move s pl) (store (mem w) p c') (users w) None) /\ polls (poll w) (move s pl).
Proof.
  intros Hi Hp Hcur Hc Hid He Hr. destruct (incall_object _ _ _ _ Hi Hp Hcur) as (c0 & Hc0 & Hf & Hcb0).
  assert (c0 = c) as -> by congruence.
  destruct (callback_poll _ _ _ _ _ _ _ _ Hi Hc Hf He Hr) as (Hpo & Hat & Hpipe & Hrm & Hrd & Hcase).
  assert (polls (poll w) (move s pl)) as Hpolls.
  { unfold polls. etrans; [exact Hpo|]. eapply move_polls. by rewrite Hat. }
  assert (forall q d, heap (store (mem w) p c') !! q = Some d ->
    exists d0, heap (mem w) !! q = Some d0 /\ same_ids d0 d /\ other_or p c c' q d0 d) as Hback.
  { intros q d. by apply store_ids. }
  assert (forall q d, q <> p -> heap (mem w) !! q = Some d -> fd_ d <> fd) as Hother.
  { intros q d Hne Hd E. apply Hne, (l_inj _ Hi q d p c); congruence. }
  split; [|done]. split; cbn [poll mem users incall].
  - by eapply polls_pinv; [apply Hi|].
  - intros q d (d0 & Hd0 & _)%Hback. by eapply l_next.
  - intros q d (d0 & Hd0 & [-> _] & _)%Hback. change (pipefd (move s pl)) with (pipefd s). rewrite Hpipe. by eapply l_fd.
  - intros q1 d1 q2 d2 (e1 & H1 & [-> _] & _)%Hback (e2 & H2 & [-> _] & _)%Hback. by eapply (l_inj _ Hi).
  - intros i u Hu. apply (store_some _ _ c); [done|]. by eapply l_users.
  - intros q d (d0 & Hd0 & [_ ->] & _)%Hback. by apply (l_refs _ Hi).
  - change (callbacks (move s pl)) with (callbacks s). change (readset (move s pl)) with (readset s).
    intros q d (d0 & Hd0 & [-> _] & [[Hne ->]|(-> & -> & ->)])%Hback Hdd.
    + destruct (l_alive _ Hi q d Hd0 Hdd) as [Ha Hb]. split; [|by apply Hrd; eauto].
      destruct Hcase as [(_ & -> & _)|(_ & _ & ->)]; [done|]. rewrite lookup_delete_ne; [done|]. intros E. by eapply Hother.
    + destruct Hcase as [(E & -> & Hin)|(_ & ? & _)]; [|congruence].
      destruct (l_alive _ Hi p c Hc) as [Ha Hb]; [congruence|]. rewrite Hf in *. auto.
  - change (callbacks (move s pl)) with (callbacks s). intros x q Hq.
    assert (callbacks (poll w) !! x = Some q /\ (x = fd -> dead_ c' = dead_ c)) as [Hq' Hx].
    { destruct Hcase as [(? & E & _)|(_ & _ & E)]; rewrite E in Hq; [done|].
      apply lookup_delete_Some in Hq as [? ?]. by split; [|congruence]. }
    destruct (l_cb _ Hi _ _ Hq') as (q0 & d & -> & Hd & <- & Hdd). destruct (decide (q0 = p)) as [->|Hne].
    + assert (d = c) as -> by congruence. exists p, c'. rewrite lookup_store, decide_True by done.
      split_and!; [done|done|apply Hid|]. rewrite Hx by congruence. done.
    + exists q0, d. by rewrite lookup_store, decide_False.
  - change (PollMgr.removers (move s pl)) with (PollMgr.removers s). rewrite Hrm.
    intros i q (d & b & Hd & Hdd & Hr')%(l_removing _ Hi). destruct (decide (q = p)) as [->|Hne].
    + assert (d = c) as -> by congruence. exists c', b. rewrite lookup_store, decide_True by done.
      destruct Hid as [-> _]. split_and!; [done| |done]. destruct Hcase as [(E & _)|(? & _)]; congruence.
    + exists d, b. by rewrite lookup_store, decide_False.
  - change (PollMgr.removers (move s pl)) with (PollMgr.removers s). rewrite Hrm. apply (l_removers _ Hi).
  - done.
Qed.

Lemma callback_end_linv w p fd pl c c' rs taken w' :
  linv w -> incall w = Some p -> current (PollMgr.at_ (poll w)) = Some (fd, pl) ->
  heap (mem w) !! p = Some c -> same_ids c c' -> callback_effect c c' rs ->
  (forall j, taken = Some j -> users w !! j = None) ->
  callback_end w p fd pl c' rs taken = Val w' -> linv w' /\ polls (poll w) (poll w').
Proof.
  intros Hi Hp Hcur Hc Hid He Ht Hw. unfold callback_end in Hw. apply obind_val in Hw as ([s rem] & Hr & [= <-]).
  destruct (callback_linv _ _ _ _ _ _ _ _ _ Hi Hp Hcur Hc Hid He Hr) as [Hi' Hpo].
  destruct taken as [j|]; [|by split]. split; [|done].
  assert (store (mem w) p (incref c') = store (store (mem w) p c') p (incref c')) as ->.
  { unfold store. simpl. by rewrite insert_insert_eq. }
  apply (incref_linv (World (move s pl) (store (mem w) p c') (users w) None)); [done|by apply Ht|].
  cbn [mem]. by rewrite lookup_store, decide_True.
Qed.

(** A step of the poll thread by itself. *)
Lemma poll_linv w s :
  linv w -> polls (poll w) s -> incall w = None -> callbacks s = callbacks (poll w) ->
  readset s = readset (poll w) -> pipefd s = pipefd (poll w) ->
  (forall i fd, (exists b, PollMgr.removers s !! i = Some (fd, b)) <->
     exists b, PollMgr.removers (poll w) !! i = Some (fd, b)) ->
  linv (set_poll w s).
Proof.
  intros Hi Hpo Hin Hcb Hrd Hpipe Hrm.
  split; cbn [poll mem users incall set_poll]; rewrite ?Hcb, ?Hrd, ?Hpipe; try apply Hi.
  - by eapply polls_pinv; [apply Hi|].
  - intros i p (c & b & Hc & Hd & Hr)%(l_removing _ Hi). destruct (proj2 (Hrm i (fd_ c))) as [b' Hb']; [eauto|].
    by exists c, b'.
  - intros i fd b Hr. destruct (proj1 (Hrm i fd)) as [b' Hb']; [eauto|]. by eapply (l_removers _ Hi).
  - by rewrite Hin.
Qed.

Lemma own_linv w s : linv w -> incall w = None -> own_step (poll w) s -> linv (set_poll w s) /\ polls (poll w) s.
Proof.
  intros Hi Hin Ho. remember (poll w) as s0 eqn:Es. assert (polls s0 s) as Hpo.
  { destruct Ho as [? ? ? ? ? Ht|s1 Hat|? ? ? ? ? ? ? ? Ht|s1 ? ? Hc _|s1 Hat].
    - apply rtc_once. eexists. by apply PollMgr.st_top.
    - apply rtc_once. eexists. destruct s1. simpl in Hat. subst. apply PollMgr.st_copy.
    - apply rtc_once. eexists. by eapply PollMgr.st_select.
    - by eapply move_polls.
    - apply rtc_once. eexists. destruct s1. simpl in Hat. subst. apply PollMgr.st_round. }
  split; [|done]. apply poll_linv; rewrite <-?Es; try done;
    destruct Ho as [? ? b ? ? Ht|s1 Hat|? ? ? ? ? ? ? ? Ht|s1 ? ? Hc _|s1 Hat]; try done;
    try (by unfold PollMgr.wait_top in Ht; case_match; injection Ht as <- <-);
    try (by apply PollMgr.wait_end_spec in Ht as (_ & _ & ? & ? & ? & ? & ?)).
  intros i fd. simpl. unfold PollMgr.signal_all. destruct b; [|done]. rewrite lookup_fmap. split.
  - intros (b & ([x e] & Hx & [= -> ->])%fmap_Some). eauto.
  - intros (b & ->). simpl. eauto.
Qed.

(** A registered object is called: it is there. *)
Lemma enter_linv w fd pl q :
  linv w -> current (PollMgr.at_ (poll w)) = Some (fd, pl) -> PollMgr.callee (PollMgr.pm (poll w)) fd = Some q ->
  linv (World (poll w) (mem w) (users w) (Some (Z.to_nat q))).
Proof.
  intros Hi Hcur Hq. split; cbn [poll mem users incall]; try apply Hi.
  intros p [= <-]. exists fd, pl. split; [done|].
  destruct (l_cb _ Hi _ _ Hq) as (p & _ & -> & _). rewrite Nat2Z.id. exact Hq.
Qed.

(** A new object. *)
Lemma life_new w j fd s b :
  linv w -> users w !! j = None -> (forall p c, heap (mem w) !! p = Some c -> fd_ c <> fd) ->
  fd <> pipefd (poll w) -> run_user (poll w) j fd (fresh (mem w)) (connection_new fd).2 = Val (s, b) ->
  linv (World s (MkTcps (conns_ (mem w)) (<[fresh (mem w) := (connection_new fd).1]> (heap (mem w)))
                        (S (fresh (mem w))))
              (<[j := Holding (fresh (mem w))]> (users w)) (incall w)) /\ polls (poll w) s.
Proof.
  intros Hi Hj Hfd Hpf Hr. set (p := fresh (mem w)) in *. change (connection_new fd).2 with [AddCallback CB_RDONLY] in Hr.
  apply add_spec in Hr as (Hpo & _ & Hat & Hrm & Hpipe & Hcb & Hrd & Hin).
  2: { intros i e Hr'. destruct (l_removers _ Hi _ _ _ Hr') as [q Hq].
       destruct (l_removing _ Hi _ _ Hq) as (c & e' & Hc & _ & E). apply (Hfd q c Hc). congruence. }
  assert (forall q d, heap (mem w) !! q = Some d -> q <> p) as Hold.
  { intros q d Hq. pose proof (l_next _ Hi q d Hq). lia. }
  assert (forall i u, users w !! i = Some u -> ptr u <> p) as Hup.
  { intros i u Hu. destruct (l_users _ Hi i u Hu) as [d Hd]. by eapply Hold. }
  split; [|done]. split; cbn [poll mem users incall conns_ heap fresh].
  - by eapply polls_pinv; [apply Hi|].
  - intros q d [[<- _]|[_ Hd]]%lookup_insert_Some; [lia|]. pose proof (l_next _ Hi q d Hd). lia.
  - rewrite Hpipe. intros q d [[<- <-]|[_ Hd]]%lookup_insert_Some; [done|by eapply l_fd].
  - intros q1 d1 q2 d2 [[<- <-]|[_ H1]]%lookup_insert_Some [[<- <-]|[_ H2]]%lookup_insert_Some E; [done| | |].
    + simpl in E. by destruct (Hfd q2 d2).
    + simpl in E. by destruct (Hfd q1 d1).
    + by eapply (l_inj _ Hi).
  - intros i u [[_ <-]|[_ Hu]]%lookup_insert_Some; [simpl; rewrite lookup_insert_eq; by eexists|].
    rewrite lookup_insert_ne by (intros E; by eapply Hup). by eapply l_users.
  - intros q d Hd. rewrite count_insert by done. unfold one. simpl.
    apply lookup_insert_Some in Hd as [[<- <-]|[Hne Hd]].
    + rewrite decide_True by done. by rewrite count_none.
    + rewrite decide_False by done. rewrite (l_refs _ Hi q d Hd). lia.
  - intros q d [[<- <-]|[Hne Hd]]%lookup_insert_Some Hdd; rewrite Hcb.
    + simpl. rewrite lookup_insert_eq. auto.
    + destruct (l_alive _ Hi q d Hd Hdd) as [Ha Hb]. rewrite lookup_insert_ne; [auto|].
      intros E. by apply (Hfd q d Hd).
  - intros x q. rewrite Hcb. intros [[<- <-]|[Hne Hq]]%lookup_insert_Some.
    + exists p, (connection_new fd).1. by rewrite lookup_insert_eq.
    + destruct (l_cb _ Hi _ _ Hq) as (q0 & d & -> & Hd & <- & Hdd). exists q0, d.
      rewrite lookup_insert_ne by (intros E; by eapply Hold). split_and!; [done..|]. intros Hx.
      destruct (Hdd Hx) as [k Hk]. exists k. rewrite lookup_insert_ne; [done|congruence].
  - rewrite Hrm. intros i q [[_ [=]]|[_ Hu]]%lookup_insert_Some.
    destruct (l_removing _ Hi _ _ Hu) as (d & e & Hd & ? & ?). exists d, e.
    rewrite lookup_insert_ne by (intros E; by eapply Hold). done.
  - rewrite Hrm. intros i x e (q & Hq)%(l_removers _ Hi). exists q. rewrite lookup_insert_ne; [done|congruence].
  - intros q (x & pl & Hcur & Hq)%(l_call _ Hi). exists x, pl. rewrite Hat, Hcb. split; [done|].
    destruct (l_cb _ Hi _ _ Hq) as (q0 & d & E & Hd & <- & _). rewrite lookup_insert_ne; [done|].
    intros E'. by apply (Hfd q0 d Hd).
Qed.

(** A reference is given up; the last one deletes an object that is dead. *)
Lemma decref_cases t p c t' :
  heap t !! p = Some c -> decref t p = Val t' ->
  (refno_ c = 1 /\ dead_ c = true /\ t' = MkTcps (conns_ t) (base.delete p (heap t)) (fresh t)) \/
  t' = store t p (set_refno c (refno_ c - 1)).
Proof.
  unfold decref, deref. intros -> Hd. simpl in Hd. apply obind_val in Hd as (_ & _ & Hd).
  destruct (Z.eqb_spec (refno_ c - 1) 0) as [E|E]; destruct (dead_ c) eqn:Hdd; simpl in Hd;
    try (injection Hd as <-; by right).
  apply obind_val in Hd as (_ & _ & [= <-]). left. split_and!; [lia|done|done].
Qed.

Lemma decref_linv w i p t :
  linv w -> users w !! i = Some (Holding p) -> decref (mem w) p = Val t ->
  linv (World (poll w) t (base.delete i (users w)) (incall w)).
Proof.
  intros Hi Hu Hdec. destruct (l_users _ Hi _ _ Hu) as [c Hc]. simpl in Hc.
  assert (forall k u, base.delete i (users w) !! k = Some u -> users w !! k = Some u) as Hsub.
  { intros k u [_ Hk]%lookup_delete_Some. done. }
  assert (forall k q, users w !! k = Some (Removing q) -> base.delete i (users w) !! k = Some (Removing q)) as Hrmk.
  { intros k q Hk. rewrite lookup_delete_ne; [done|congruence]. }
  destruct (decref_cases _ _ _ _ Hc Hdec) as [(Hr & Hd & E)| ->]; [subst t|].
  - assert (forall k u, base.delete i (users w) !! k = Some u -> ptr u <> p) as Hno.
    { apply count_zero. rewrite (count_delete _ _ _ _ Hu). unfold one. simpl. rewrite decide_True by done.
      rewrite <-(l_refs _ Hi _ _ Hc). lia. }
    assert (forall q d, base.delete p (heap (mem w)) !! q = Some d -> heap (mem w) !! q = Some d /\ q <> p) as Hback.
    { by intros q d [? ?]%lookup_delete_Some. }
    split; cbn [poll mem users incall conns_ heap fresh]; try apply Hi.
    + intros q d [Hd0 _]%Hback. by eapply l_next.
    + intros q d [Hd0 _]%Hback. by eapply l_fd.
    + intros q1 d1 q2 d2 [H1 _]%Hback [H2 _]%Hback. by eapply (l_inj _ Hi).
    + intros k u Hk. rewrite lookup_delete_ne by (intros E; by apply (Hno k u Hk)). by eapply (l_users _ Hi), Hsub.
    + intros q d [Hq Hne]%Hback. rewrite (count_delete _ _ _ _ Hu). unfold one. simpl. rewrite decide_False by done.
      rewrite (l_refs _ Hi q d Hq). lia.
    + intros q d [Hq Hne]%Hback. by apply (l_alive _ Hi).
    + intros x q (q0 & d & -> & Hq & <- & Hdd)%(l_cb _ Hi). exists q0, d. rewrite lookup_delete_ne.
      * split_and!; [done..|]. intros Hx. destruct (Hdd Hx) as [k Hk]. exists k. auto.
      * intros <-. assert (d = c) as -> by congruence. destruct (Hdd Hd) as [k Hk%Hrmk]. by apply (Hno k _ Hk).
    + intros k q Hk. destruct (l_removing _ Hi k q) as (d & b & ? & ? & ?); [by apply Hsub|]. exists d, b.
      rewrite lookup_delete_ne by (intros E; by apply (Hno k _ Hk)). done.
    + intros k x b (q & Hq)%(l_removers _ Hi). exists q. auto.
  - apply (recount_linv w p c); [done|done| | |].
    + intros k u Hk%Hsub. by eapply (l_users _ Hi).
    + intros k q. split; [apply Hsub|apply Hrmk].
    + intros q. rewrite (count_delete _ _ _ _ Hu). unfold one. simpl. repeat case_decide; try congruence; lia.
Qed.

(** [block_remove_fd] returns: the poll thread is not at the descriptor. *)
Lemma out_of_round_current pl fd x pl' :
  PollMgr.out_of_round pl fd -> current pl = Some (x, pl') -> x <> fd.
Proof.
  destruct pl as [| | |[|y rs] [|z ws]]; simpl; try done; intros [H1 H2] [= <- _] ->; set_solver.
Qed.

Lemma removed_linv w i p fd :
  linv w -> users w !! i = Some (Removing p) -> PollMgr.removers (poll w) !! i = Some (fd, true) ->
  let s := PollMgr.World (PollMgr.block_remove_end (PollMgr.pm (poll w)) fd) (PollMgr.at_ (poll w))
             (base.delete i (PollMgr.removers (poll w))) (PollMgr.removed (poll w) ∪ {[ fd ]}) in
  linv (World s (mem w) (<[i := Holding p]> (users w)) (incall w)) /\ polls (poll w) s.
Proof.
  intros Hi Hu Hr s. destruct (l_removing _ Hi _ _ Hu) as (c & b & Hc & Hd & E).
  assert (fd = fd_ c) as -> by congruence.
  assert (polls (poll w) s) as Hpo.
  { apply rtc_once. exists None. unfold s. destruct (poll w) as [pm pl m d]. by apply PollMgr.st_removed. }
  assert (callbacks s = base.delete (fd_ c) (callbacks (poll w))) as Hcb by done.
  assert (readset s = readset (poll w)) as Hrd by done.
  assert (forall k q, <[i := Holding p]> (users w) !! k = Some (Removing q) <->
    k <> i /\ users w !! k = Some (Removing q)) as Hrm.
  { intros k q. rewrite lookup_insert_Some. split; [intros [[_ [=]]|[? ?]]; by split|]. intros [? ?]. by right. }
  split; [|done]. split; cbn [poll mem users incall]; try apply Hi; rewrite ?Hcb, ?Hrd.
  - by eapply polls_pinv; [apply Hi|].
  - intros k u [[_ <-]|[_ Hk]]%lookup_insert_Some; [by exists c|by eapply (l_users _ Hi)].
  - intros q d Hq. rewrite (count_replace _ _ (Removing p)) by done. by apply (l_refs _ Hi).
  - intros q d Hq Hqd. destruct (l_alive _ Hi q d Hq Hqd) as [Ha Hb]. split; [|done].
    rewrite lookup_delete_ne; [done|]. intros E'. assert (q = p) as -> by (by eapply (l_inj _ Hi)). congruence.
  - intros x q [Hne Hq]%lookup_delete_Some. destruct (l_cb _ Hi _ _ Hq) as (q0 & d & -> & Hq0 & <- & Hdd).
    exists q0, d. split_and!; [done..|]. intros [k Hk]%Hdd. exists k. apply Hrm. split; [|done]. congruence.
  - intros k q [Hne Hk]%Hrm. destruct (l_removing _ Hi k q Hk) as (d & e & ? & ? & ?). exists d, e.
    split_and!; [done..|]. unfold s. simpl. by rewrite lookup_delete_ne.
  - intros k x e. unfold s. simpl. intros [Hne Hk]%lookup_delete_Some. destruct (l_removers _ Hi _ _ _ Hk) as [q Hq].
    exists q. apply Hrm. by split.
  - intros q (x & pl & Hcur & Hq)%(l_call _ Hi). exists x, pl. split; [done|]. rewrite lookup_delete_ne; [done|].
    intros E'. destruct (PollMgr.pi_signal _ (l_poll _ Hi) _ _ Hr) as [_ Hout].
    by apply (out_of_round_current _ _ _ _ Hout Hcur).
Qed.

Lemma life_step a w w' : linv w -> step a w w' -> linv w' /\ polls (poll w) (poll w').
Proof.
  intros Hi Hs. destruct Hs.
  - by apply own_linv.
  - split; [by eapply enter_linv|apply rtc_refl].
  - edestruct read_cb_effect as [? ?]; [done|]. eapply callback_end_linv; [eassumption..| |eassumption]. naive_solver.
  - edestruct write_cb_effect as [? ?]; [done|]. eapply (callback_end_linv _ _ _ _ _ _ _ None); [eassumption..|done|eassumption].
  - by eapply life_new.
  - split; [by apply incref_linv|apply rtc_refl].
  - split; [by eapply decref_linv|apply rtc_refl].
  - apply (user_end_linv w i p c (send_enter c) []); try done; [by constructor|].
    unfold user_end. simpl. by rewrite insert_id.
  - edestruct send_turn_effect as [? ?]; [done|]. by eapply user_end_linv.
  - apply (user_end_linv w i p c c' []); try done; unfold send_end in *; simplify_eq/=; [done|by constructor|].
    unfold user_end. simpl. by rewrite insert_id.
  - edestruct closeconn_effect as [? ?]; [done|]. by eapply user_end_linv.
  - by apply removed_linv.
Qed.



(** *** Whose buffer a connection writes from *)

Definition busy c : Prop := buf (wpdu_ c) <> None.

Lemma writepdu_busy c r c' out ok : writepdu c r = Val (c', out, ok) -> busy c' -> busy c.
Proof.
  unfold writepdu, busy. intros Hw. apply obind_val in Hw as (_ & _ & Hw).
  destruct (_ =? _); [by injection Hw as <- _ _|]. destruct (buf (wpdu_ c)); done.
Qed.

Lemma send_turn_busy c b size r c' out all rs nx :
  send_turn c b size r = Val (c', out, all, rs, nx) -> busy c' ->
  busy c \/ nx = Connection.Removing \/ nx = WaitComplete.
Proof.
  unfold send_turn, busy. destruct (negb (dead_ c) && _); [intros [= <- _ _ _ _]; by left|].
  cbn [dead_ set_waiters]. destruct (dead_ c); [intros [= <- _ _ _ _]; by left|].
  intros Hs. apply obind_val in Hs as ([[c1 out1] ok] & _ & Hs). destruct ok; simpl in Hs.
  - destruct (_ =? _); injection Hs as <- _ _ _ <-; simpl; auto.
  - injection Hs as _ _ _ _ <-. auto.
Qed.

Lemma write_cb_busy c x r c' out sig rs : write_cb c x r = Val (c', out, sig, rs) -> busy c' -> busy c.
Proof.
  unfold write_cb. intros Hs. apply obind_val in Hs as (_ & _ & Hs). apply obind_val in Hs as (_ & _ & Hs).
  destruct (_ =? _); [by injection Hs as <- _ _ _|].
  apply obind_val in Hs as ([[c1 out1] ok] & Hw & Hs). pose proof (writepdu_busy _ _ _ _ _ Hw) as Hb.
  destruct ok; simpl in Hs.
  - apply obind_val in Hs as (_ & _ & Hs). destruct (_ <? _); by injection Hs as <- _ _ _.
  - by injection Hs as <- _ _ _.
Qed.

Lemma readpdu_body_wpdu c l r c' out ok : readpdu_body c l r = Val (c', out, ok) -> wpdu_ c' = wpdu_ c.
Proof. unfold readpdu_body. intros Hw. repeat (case_match || outcome_inv); simplify_eq/=; done. Qed.

Lemma readpdu_wpdu c r1 r2 c' out ok : readpdu c r1 r2 = Val (c', out, ok) -> wpdu_ c' = wpdu_ c.
Proof.
  unfold readpdu. intros Hw. destruct (_ =? 0).
  - destruct r1 as [l| |again]; [|by injection Hw as <- _ _|by apply obind_val in Hw as (_ & _ & [= <- _ _])].
    destruct (negb _); [by injection Hw as <- _ _|]. destruct (_ >? _); [by injection Hw as <- _ _|].
    apply obind_val in Hw as (_ & _ & Hw). apply obind_val in Hw as (_ & _ & Hw). destruct (_ <? 0); [done|].
    apply obind_val in Hw as ([[c1 got] ok1] & Hw & [= <- _ _]). by apply readpdu_body_wpdu in Hw.
  - apply obind_val in Hw as (l & _ & Hw). by apply readpdu_body_wpdu in Hw.
Qed.

Lemma read_cb_wpdu c x r1 r2 k c' got off sig rs :
  read_cb c x r1 r2 k = Val (c', got, off, sig, rs) -> wpdu_ c' = wpdu_ c.
Proof.
  unfold read_cb. intros Hs. apply obind_val in Hs as (_ & _ & Hs).
  destruct (dead_ c); [by injection Hs as <- _ _ _ _|].
  apply obind_val in Hs as ([[c1 got1] ok] & Hw & Hs).
  assert (wpdu_ c1 = wpdu_ c) as <- by (destruct (_ || _); [by apply readpdu_wpdu in Hw|by injection Hw as <- _ _]).
  destruct ok; simpl in Hs; destruct (buf (rpdu_ c1)); [destruct (_ =? _)| |destruct (_ =? _)|];
    injection Hs as <- _ _ _ _; by destruct k.
Qed.

(** What a step does to the holders, and to the objects with a buffer. *)
Record keeps (a : act) w w' : Prop := {
  kp_users : forall i u, users w !! i = Some u -> a <> Decref i -> exists u', users w' !! i = Some u' /\ ptr u' = ptr u;
  kp_busy : forall p c', heap (mem w') !! p = Some c' -> busy c' ->
    (exists c, heap (mem w) !! p = Some c /\ busy c) /\
      (forall i u, a = End i -> users w !! i = Some u -> ptr u <> p) \/
    exists i nx u, a = Turn i nx /\ (nx = Connection.Removing \/ nx = WaitComplete) /\
      users w' !! i = Some u /\ ptr u = p;
}.

Lemma store_busy t p c c' q d :
  heap t !! p = Some c -> (busy c' -> busy c) -> heap (store t p c') !! q = Some d -> busy d ->
  exists d0, heap t !! q = Some d0 /\ busy d0.
Proof.
  intros Hc Hb. rewrite lookup_store. case_decide as E; [|eauto]. intros [= <-] Hd. subst. eauto.
Qed.

Lemma users_replace (m : gmap nat user) i u' : (forall u, m !! i = Some u -> ptr u = ptr u') ->
  forall k u, m !! k = Some u -> exists v, <[i := u']> m !! k = Some v /\ ptr v = ptr u.
Proof.
  intros Hi k u Hk. destruct (decide (k = i)) as [->|Hne].
  - exists u'. rewrite lookup_insert_eq. split; [done|]. by rewrite (Hi u).
  - exists u. by rewrite lookup_insert_ne.
Qed.

(** A step that leaves the buffers alone, with at most a new holder. *)
Lemma keeps_calm a w w' :
  (forall i, a <> End i) -> (forall i u, users w !! i = Some u -> exists u', users w' !! i = Some u' /\ ptr u' = ptr u) ->
  (forall q d, heap (mem w') !! q = Some d -> busy d -> exists d0, heap (mem w) !! q = Some d0 /\ busy d0) ->
  keeps a w w'.
Proof. intros Ha Hu Hb. split; [eauto|]. intros p c Hc Hbc. left. split; [eauto|]. intros i u ->. by destruct (Ha i). Qed.

Lemma user_end_keeps a w i p c c' rs w' :
  (forall j, a <> End j) -> users w !! i = Some (Holding p) -> heap (mem w) !! p = Some c ->
  user_end w i p c c' rs = Val w' ->
  (busy c' -> busy c \/ exists nx, a = Turn i nx /\ (nx = Connection.Removing \/ nx = WaitComplete)) -> keeps a w w'.
Proof.
  intros Ha Hu Hc Hw Hb. unfold user_end in Hw. apply obind_val in Hw as ([s rem] & _ & [= <-]).
  assert (forall k u, users w !! k = Some u -> exists u', <[i := if rem then Removing p else Holding p]> (users w) !! k = Some u' /\
    ptr u' = ptr u) as Hus.
  { apply users_replace. intros u. rewrite Hu. intros [= <-]. by destruct rem. }
  split; cbn [users mem]; [eauto|]. intros q d. rewrite lookup_store. case_decide as E.
  - intros [= <-] [Hbc|(nx & -> & Hnx)]%Hb; subst q.
    + left. split; [eauto|]. intros j u ->. by destruct (Ha j).
    + right. exists i, nx. eexists. split_and!; [done|done|apply lookup_insert_eq|]. by destruct rem.
  - intros Hd Hbd. left. split; [eauto|]. intros j u ->. by destruct (Ha j).
Qed.

Lemma callback_end_keeps w p fd pl c c' rs taken w' :
  heap (mem w) !! p = Some c -> (busy c' -> busy c) -> (forall j, taken = Some j -> users w !! j = None) ->
  callback_end w p fd pl c' rs taken = Val w' -> keeps Poll w w'.
Proof.
  intros Hc Hb Ht Hw. unfold callback_end in Hw. apply obind_val in Hw as ([s rem] & _ & [= <-]).
  destruct taken as [j|]; apply keeps_calm; cbn [users mem]; try done; eauto.
  - apply users_replace. intros u. by rewrite (Ht j eq_refl).
  - intros q d. by eapply store_busy.
  - intros q d. by eapply store_busy.
Qed.

Lemma step_keeps a w w' : linv w -> step a w w' -> keeps a w w'.
Proof.
  intros Hi Hs. destruct Hs.
  - apply keeps_calm; cbn [users mem set_poll]; eauto.
  - apply keeps_calm; cbn [users mem]; eauto.
  - eapply callback_end_keeps; [eassumption| | |eassumption].
    + unfold busy. by erewrite read_cb_wpdu.
    + naive_solver.
  - eapply (callback_end_keeps _ _ _ _ _ _ _ None); [eassumption|by eapply write_cb_busy|done|eassumption].
  - apply keeps_calm; cbn [users mem heap]; [done| |].
    + apply users_replace. intros u. congruence.
    + intros q d [[_ <-]|[_ Hd]]%lookup_insert_Some; [done|eauto].
  - apply keeps_calm; cbn [users mem]; [done| |].
    + apply users_replace. intros u. congruence.
    + intros q d. by eapply store_busy.
  - destruct (l_users _ Hi _ _ H) as [c Hc]. split; cbn [users mem].
    + intros k u Hk Hne. exists u. rewrite lookup_delete_ne; [done|]. congruence.
    + intros q d Hd Hb. left. split; [|done].
      destruct (decref_cases _ _ _ _ Hc H0) as [(_ & _ & E)| ->].
      * subst t. simpl in Hd. apply lookup_delete_Some in Hd as [_ Hd]. eauto.
      * by eapply (store_busy (mem w) p c (set_refno c (refno_ c - 1))).
  - apply keeps_calm; cbn [users mem]; [done|eauto|]. intros q d. by eapply store_busy.
  - eapply user_end_keeps; [done|eassumption..|]. intros [?|?]%(send_turn_busy _ _ _ _ _ _ _ _ _ H1); [by left|right; eauto].
  - split; cbn [users mem]; [eauto|]. intros q d. rewrite lookup_store.
    unfold send_end in *. simplify_eq. case_decide as E; [by intros [= <-]|]. intros Hd Hb. left. split; [eauto|].
    intros k u [= ->] Hu. rewrite H in Hu. injection Hu as <-. by intros <-.
  - eapply user_end_keeps; [done|eassumption..|]. unfold closeconn in *. destruct (negb _); simplify_eq; auto.
  - apply keeps_calm; cbn [users mem]; [done| |eauto]. apply users_replace. intros u Hu. rewrite H in Hu. by injection Hu as <-.
Qed.


(** The buffer in [wpdu_] belongs to a thread in [send]. *)
Definition owned (z : system) : Prop :=
  forall p c, heap (mem (sw z)) !! p = Some c -> busy c ->
  exists i u, users (sw z) !! i = Some u /\ ptr u = p /\ calls z !! i = Some true.

Lemma after_other a m i : allowed a m -> m !! i = Some true -> (forall j, a = End j -> j <> i) -> after a m !! i = Some true.
Proof.
  intros Ha Hm He. destruct a as [| | | |j|j nx|j| |]; simpl in *; try done.
  - rewrite lookup_insert_ne; [done|]. congruence.
  - destruct nx; try done; rewrite ?lookup_insert_ne, ?lookup_delete_ne; try done; congruence.
  - rewrite lookup_delete_ne; [done|]. by apply He.
Qed.

Lemma owned_step z z' : linv (sw z) -> owned z -> sys_step z z' -> owned z'.
Proof.
  intros Hi Ho Hs. destruct Hs as [a w w' m Ha Hs]. simpl in *. pose proof (step_keeps _ _ _ Hi Hs) as [Hu Hb].
  intros p c Hc Hbc. destruct (Hb p c Hc Hbc) as [[(d & Hd & Hbd) He]|(i & nx & u & -> & Hnx & Hui & Hp)].
  - destruct (Ho p d Hd Hbd) as (i & u & Hui & Hp & Hm). simpl in *. destruct (Hu i u Hui) as (u' & Hu' & Hp').
    { intros ->. simpl in Ha. congruence. }
    exists i, u'. split_and!; [done|congruence|]. apply after_other; [done|done|]. intros j -> ->. by apply (He i u).
  - exists i, u. split_and!; [done|done|]. simpl. destruct Hnx as [-> | ->]; apply lookup_insert_eq.
Qed.

Lemma life_steps pfd z :
  rtc sys_step (start pfd) z -> linv (sw z) /\ polls (PollMgr.start pfd) (poll (sw z)) /\ owned z.
Proof.
  intros Hr. change (PollMgr.start pfd) with (poll (sw (start pfd))).
  assert (linv (sw (start pfd)) /\ owned (start pfd)) as Hi by (split; [apply start_linv|by intros ? ?]).
  revert Hi. induction Hr as [z|z1 z2 z3 Hs Hr IH]; intros [Hi Ho]; [split_and!; [done|apply rtc_refl|done]|].
  pose proof (owned_step _ _ Hi Ho Hs) as Ho2. destruct Hs as [a w w' m Ha Hs]. simpl in *.
  destruct (life_step _ _ _ Hi Hs) as [Hi2 Hp]. destruct (IH (conj Hi2 Ho2)) as (Hi3 & Hp' & Ho3).
  split_and!; [done| |done]. unfold polls in *. by etrans.
Qed.

(** Giving up a reference passes the tests of [decref] and of the destructor. *)
Lemma decref_safe z i p :
  linv (sw z) -> owned z -> users (sw z) !! i = Some (Holding p) -> calls z !! i = None ->
  exists t, decref (mem (sw z)) p = Val t.
Proof.
  intros Hi Ho Hu Hm. destruct (l_users _ Hi _ _ Hu) as [c Hc]. simpl in Hc.
  pose proof (l_refs _ Hi _ _ Hc) as Hr. pose proof (count_delete _ _ _ p Hu) as Hd.
  unfold one in Hd. simpl in Hd. rewrite decide_True in Hd by done.
  assert (0 <= count (delete i (users (sw z))) p) as H0 by (unfold count; lia).
  unfold decref, deref. rewrite Hc. simpl. rewrite (proj2 (Z.leb_le _ _)) by lia. simpl.
  destruct (Z.eqb_spec (refno_ c - 1) 0) as [E|]; [|eauto]. destruct (dead_ c) eqn:Hdd; [|eauto]. simpl.
  unfold connection_delete. cbn [dead_ wpdu_ set_refno]. rewrite Hdd. simpl.
  destruct (decide (buf (wpdu_ c) = None)) as [Eb|Eb]; [rewrite bool_decide_eq_true_2 by done; eauto|].
  destruct (Ho p c Hc Eb) as (k & u & Hk & Hp & Hmk).
  assert (count (delete i (users (sw z))) p = 0) as Hz by lia.
  destruct (count_zero _ _ Hz k u); [|done]. rewrite lookup_delete_ne; [done|]. congruence.
Qed.

(** C26: no connection is used after its deletion. Connections are created, sent on, closed by either
    side, fail, are referred to and given up by any number of threads, while the poll thread calls back the
    registered ones without a reference of its own, and descriptors are reused. In every reachable state, a
    pointer in [callbacks_] leads to an object that is there and has that descriptor, the object whose
    callback the poll thread runs is there until the callback ends, every holder of a reference has its
    object, whose count is the number of holders; an object that is not dead is registered; a thread that
    gives up a reference passes the tests of [decref] and of the destructor. The connections use the poll
    manager as [block_remove_fd] needs it: what it does is a run of the system in which its promise is
    proved. *)
Theorem connections_never_dangle (pfd : Z) (z : system) :
  rtc sys_step (start pfd) z ->
  let w := sw z in
  rtc PollMgr.some_step (PollMgr.start pfd) (poll w) /\
  (forall fd q, PollMgr.callee (PollMgr.pm (poll w)) fd = Some q ->
     exists c, heap (mem w) !! Z.to_nat q = Some c /\ fd_ c = fd) /\
  (forall p, incall w = Some p -> exists c fd pl,
     heap (mem w) !! p = Some c /\ current (PollMgr.at_ (poll w)) = Some (fd, pl) /\ fd_ c = fd) /\
  (forall i u, users w !! i = Some u ->
     exists c, heap (mem w) !! ptr u = Some c /\ refno_ c = count (users w) (ptr u)) /\
  (forall p c, heap (mem w) !! p = Some c -> dead_ c = false ->
     PollMgr.callee (PollMgr.pm (poll w)) (fd_ c) = Some (Z.of_nat p)) /\
  (forall i p, users w !! i = Some (Holding p) -> calls z !! i = None -> exists t, decref (mem w) p = Val t).
Proof.
  intros (Hi & Hp & Ho)%life_steps w. split_and!; [exact Hp| | | | |].
  - intros fd q (p & c & -> & Hc & Hf & _)%(l_cb _ Hi). rewrite Nat2Z.id. by exists c.
  - intros p Hin. destruct (l_call _ Hi p Hin) as (fd & pl & Hcur & _).
    destruct (incall_object _ _ _ _ Hi Hin Hcur) as (c & ? & ? & _). by exists c, fd, pl.
  - intros i u Hu. destruct (l_users _ Hi i u Hu) as [c Hc]. exists c. split; [done|]. by apply (l_refs _ Hi).
  - intros p c Hc Hd. by destruct (l_alive _ Hi p c Hc Hd).
  - intros i p. by apply decref_safe.
Qed.

End inv.

(** *** A connection is closed under a sender, while the poll thread is on its way to it *)

(** Threads 0 and 1 share a new connection, and 0 sends five bytes of which two are taken. *)
Definition demo_new : PollMgr.world :=
  (val_or (PollMgr.start 3, false) (run_user (PollMgr.start 3) 0 7 0 [AddCallback CB_RDONLY])).1.
Definition demo_opened : world :=
  World demo_new (MkTcps ∅ (<[0%nat := (connection_new 7).1]> ∅) 1) (<[0%nat := Holding 0]> ∅) None.
Definition demo_shared : world :=
  World demo_new (store (mem demo_opened) 0 (incref (connection_new 7).1)) (<[1%nat := Holding 0]> (users demo_opened)) None.
Definition demo_entered : world :=
  World demo_new (store (mem demo_shared) 0 (send_enter (incref (connection_new 7).1))) (users demo_shared) None.
Definition demo_conn : connection := default (connection_new 7).1 (heap (mem demo_entered) !! 0%nat).
Definition demo_sent : connection * list Z * bool * list poll_req * send_next :=
  val_or (demo_conn, [], false, [], WaitTurn) (send_turn demo_conn [0; 0; 0; 0; 9] 5 (Wrote 2)).
Definition demo_sending : world :=
  val_or demo_entered (user_end demo_entered 0 0 demo_conn demo_sent.1.1.1.1 [AddCallback CB_WRONLY]).
(** The descriptor is ready for writing; then 1 closes the connection, and the poll thread enters it. *)
Definition demo_top : PollMgr.world :=
  let s := poll demo_sending in
  let t := PollMgr.wait_top (PollMgr.pm s) in
  PollMgr.World t.1 PollMgr.BeforeCopy (PollMgr.signal_all t.2 (PollMgr.removers s)) (PollMgr.removed s).
Definition demo_answer : SelectAIO.select_answer := SelectAIO.Ready (fun _ => false) (fun fd => fd =? 7).
Definition demo_ready : PollMgr.pollmgr * list Z * list Z :=
  val_or (PollMgr.pm demo_top, [], [])
    (PollMgr.wait_end (PollMgr.pm demo_top) (SelectAIO.wait_snapshot (PollMgr.aio_ (PollMgr.pm demo_top))) demo_answer).
Definition demo_waiting : PollMgr.world :=
  move demo_top (PollMgr.InSelect (SelectAIO.wait_snapshot (PollMgr.aio_ (PollMgr.pm demo_top)))).
Definition demo_calling : PollMgr.world :=
  PollMgr.World demo_ready.1.1 (PollMgr.Calling [] [7]) (PollMgr.removers demo_waiting) (PollMgr.removed demo_waiting).
Definition demo_selected : world := set_poll demo_sending demo_calling.
Definition demo_closed : world :=
  val_or demo_selected (user_end demo_selected 1 0 demo_sent.1.1.1.1 (set_dead demo_sent.1.1.1.1) [BlockRemove]).
Definition demo_called : world := World (poll demo_closed) (mem demo_closed) (users demo_closed) (Some 0%nat).
Definition demo_calls : gmap nat bool := <[0%nat := true]> (<[0%nat := false]> ∅).

Lemma own_top_at s : PollMgr.at_ s = PollMgr.AtTop ->
  let t := PollMgr.wait_top (PollMgr.pm s) in
  own_step s (PollMgr.World t.1 PollMgr.BeforeCopy (PollMgr.signal_all t.2 (PollMgr.removers s)) (PollMgr.removed s)).
Proof. destruct s as [p pl m d]. simpl. intros ->. apply own_top, surjective_pairing. Qed.

Lemma own_select_at s sn ans p' rs ws : PollMgr.at_ s = PollMgr.InSelect sn ->
  PollMgr.wait_end (PollMgr.pm s) sn ans = Val (p', rs, ws) -> bool_decide (rs = [] /\ ws = []) = false ->
  own_step s (PollMgr.World p' (PollMgr.Calling rs ws) (PollMgr.removers s) (PollMgr.removed s)).
Proof. destruct s as [p pl m d]. simpl. intros -> Hw Hn. pose proof (own_select p sn ans p' rs ws m d Hw) as Ho. by rewrite Hn in Ho. Qed.

Ltac act a w' m' := eapply (rtc_l _ _ (Sys w' m')); [apply (sys_act a); [vm_compute; try reflexivity; exact I|]|].

Lemma demo_called_run : rtc sys_step (start 3) (Sys demo_called demo_calls).
Proof.
  act (New 0) demo_opened (∅ : gmap nat bool).
  { apply (u_new (start_with 3) 0 7 demo_new false); [done|by intros ? ?|done|vm_compute; reflexivity]. }
  act (Incref 0) demo_shared (∅ : gmap nat bool). { by apply (u_incref demo_opened 0 1 0 (connection_new 7).1). }
  act (Enter 0) demo_entered (<[0%nat := false]> (∅ : gmap nat bool)).
  { by apply (u_enter demo_shared 0 0 (incref (connection_new 7).1)). }
  act (Turn 0 WaitComplete) demo_sending demo_calls.
  { apply (u_send demo_entered 0 0 demo_conn [0; 0; 0; 0; 9] 5 (Wrote 2) demo_sent.1.1.1.1 demo_sent.1.1.1.2 demo_sent.1.1.2
             [AddCallback CB_WRONLY]); vm_compute; reflexivity. }
  act Poll (set_poll demo_sending demo_top) demo_calls.
  { apply t_own; [vm_compute; reflexivity|]. apply own_top_at. vm_compute. reflexivity. }
  act Poll (set_poll demo_sending demo_waiting) demo_calls.
  { apply (t_own (set_poll demo_sending demo_top) demo_waiting); [vm_compute; reflexivity|]. by apply (own_copy demo_top). }
  act Poll demo_selected demo_calls.
  { apply (t_own (set_poll demo_sending demo_waiting) demo_calling); [vm_compute; reflexivity|].
    apply (own_select_at demo_waiting (SelectAIO.wait_snapshot (PollMgr.aio_ (PollMgr.pm demo_top))) demo_answer);
      [reflexivity|vm_compute; reflexivity|reflexivity]. }
  act (Close 1) demo_closed demo_calls.
  { apply (u_close demo_selected 1 0 demo_sent.1.1.1.1 (set_dead demo_sent.1.1.1.1) [BlockRemove]); vm_compute; reflexivity. }
  apply rtc_once, (sys_act Poll); [exact I|].
  apply (t_enter demo_closed 7 (PollMgr.Calling [] []) 0); vm_compute; reflexivity.
Qed.

Lemma connections_never_dangle_witness :
  incall demo_called = Some 0%nat /\ users demo_called !! 1%nat = Some (Removing 0) /\
  (exists c fd pl, heap (mem demo_called) !! 0%nat = Some c /\
     current (PollMgr.at_ (poll demo_called)) = Some (fd, pl) /\ fd_ c = fd) /\
  (exists c, heap (mem demo_called) !! 0%nat = Some c /\ refno_ c = 2).
Proof.
  destruct (connections_never_dangle 3 (Sys demo_called demo_calls) demo_called_run) as (_ & _ & Hc & Hu & _).
  split; [vm_compute; reflexivity|]. split; [vm_compute; reflexivity|]. split; [by apply Hc|].
  apply (Hu 1%nat (Removing 0)). vm_compute. reflexivity.
Defined.

(** [closeconn] sets [dead_] before it waits for the poll thread: a connection that is closed while the
    poll thread is on its way to [write_cb] fails the [VERIFY] there, and the process stops. *)
Theorem close_under_write_aborts :
  rtc sys_step (start 3) (Sys demo_called demo_calls) /\ incall demo_called = Some 0%nat /\
  current (PollMgr.at_ (poll demo_called)) = Some (7, PollMgr.Calling [] []) /\
  reading (PollMgr.at_ (poll demo_called)) = false /\
  exists c, heap (mem demo_called) !! 0%nat = Some c /\ forall r, write_cb c 7 r = Fault VerifyFailed.
Proof.
  split; [apply demo_called_run|]. split_and!; [vm_compute; reflexivity..|].
  eexists. split; [vm_compute; reflexivity|]. by intros r.
Qed.

End Lifetime.
